(* ===== verification/_CoqProject ===== *)
-Q . S2P
Prelude.v
Errors.v
Config.v
Sharding.v
Cache.v
Rating.v
PeersHolder.v
Messages.v
DirectSender.v
Topics.v
TopicPeers.v
MessagesHandler.v
Broadcasts.v
ConnectionMonitor.v
ConnectionsHandler.v
Protobuf.v
WireMessages.v
WireValues.v
Transceiver.v
Link.v
WebSocketHost.v
HostLink.v
Discovery.v
Reconnection.v
Display.v
Ports.v
Metrics.v
Crypto.v
NetMessenger.v
Network.v
Delivery.v
