(* ===== verification/Prelude.v ===== *)
(** * drt-go-chain-communication: verification library

    A shallow embedding of the peer-to-peer and websocket communication layer of
    the repository (the Go packages below src/p2p and src/websocket), with the
    theorems that make its components correct.

    ** The program

    A node has one network messenger (p2p/libp2p/netMessenger.go). It owns a
    libp2p host and wires the components that do the work: a sharder decides
    which peers are evicted when there are too many; the connection monitor
    follows the connections, closes the evicted and the denied peers and
    reconnects; the discoverers keep the seeders connected and ask a DHT for
    peers; the messages handler broadcasts on topics through pubsub, validates
    what arrives and hands it to the registered processors; the direct sender
    sends to one peer, signed; the connections handler answers what the node
    knows of its peers. The rating handler and the holder of preferred peers are
    given from outside and used by all of these. Apart from that, a pair of
    websocket hosts (a server and a client) exchange acknowledged payloads.

    ** The files

    - Prelude: machine integers ([wraps], [wrapu], [int_add]), bytes and
      strings, slices, the tactics and the hint database [drt].
    - Errors: the sentinel errors, [result] and its monad. Config: the
      configuration records, the constants, peer ids.
    - Sharding: networksharding (listsSharder, oneListSharder, nilListSharder,
      sorting/peerDistances, factory). A [Sharder] is the sum of the three.
    - Cache: the interface of the storage cache ([Cacher], [CacherLaws]) and an
      LRU cache that honours it. Rating: p2p/rating, proved against the
      interface.
    - PeersHolder: p2p/peersHolder. Messages: p2p/message, libp2p/message.go,
      messageCheck, and the interfaces of signers, marshallers and denial.
    - DirectSender: directSender.go and mutexHolder.go. Topics:
      topicProcessors.go, outgoingChannelLoadBalancer.go, peersOnChannel.go.
      TopicPeers: the cache of peersOnChannel.go over time.
      MessagesHandler: messagesHandler.go, over the interfaces of pubsub and of
      the balancer. ConnectionMonitor, ConnectionsHandler: the files of these
      names.
    - Protobuf: the generated routines that the three .pb.go files repeat;
      WireMessages: their instances. WireValues: the comparison, the getters and
      the other methods of the messages, over an interface that the three
      implement. Transceiver: websocket/transceiver and the payload converter.
      WebSocketHost: websocket/connection, server, client and factory, over the
      transceivers.
    - Discovery: connectableHost.go and libp2p/discovery. Ports: ports.go.
      Metrics: libp2p/metrics. Crypto: libp2p/crypto. Display: small helpers.
    - NetMessenger: netMessenger.go, resourceLimiter and the constructors for
      tests, the composition of all the components from their constructors.
    - The components at work together. Broadcasts: the goroutines of the
      broadcasts, the channels and the publishing loop of a node. Network: the
      connections of one node, with the monitor, its sharder and the holder, as
      a state machine. Reconnection: the loop of the monitor with the discoverers
      that it calls. Link: two transceivers and the bytes between them.
      HostLink: a websocket client and a server over all the connections that
      the client opens ([host_next]), with the sends in two halves that others
      may come between. Delivery: a direct message from a messenger to the
      processors of another.

    A struct of the code is a Record of the same name with the fields that hold
    state, an operation a Definition of the same name, prefixed by an
    abbreviation of the receiver where several types share a name ([ls_], [mh_],
    [okdd_], [wt_]...). State is passed explicitly; a function that returns an
    error returns a [result] or an [option error], a run time panic is [None] of
    an outer [option], and what an operation does to the outside (streams,
    pubsub, connections, logs) is a list of effects in their order. Shared
    objects are modelled with their sharing where it matters: the topic
    processors live in a heap, mutexes and channels are named by numbers, the
    seeded sharder of NetMessenger is the one of all its users. Goroutines are
    steps: Topics ([oplb_step]), TopicPeers ([poc_next]), ConnectionMonitor
    ([processLoop_step], [running_step]), Transceiver ([wt_next]), WebSocketHost
    ([server_step]), Discovery ([okdd_step]), Metrics ([watcher_step]), Broadcasts
    ([og_step]), Network ([net_step]), Reconnection ([node_step]), Link
    ([ep_step]), HostLink ([host_step]); the theorems about them quantify over all
    runs, or over all the states that are reachable.

    ** What is outside, and what is assumed of it

    libp2p, pubsub, the DHT, gorilla's sockets, Go's sort and the packages of
    drt-go-chain-core, -crypto and -storage are parameters. Their laws are
    classes with an instance on a concrete example: [SortSort], [CacherLaws],
    [TimeCacheLaws], [TimeCacherLaws], [PubSubLaws], [PeerDenialLaws],
    [KeyLaws], [Shuffle]. [TopicMarshallerLaws], what the messages handler
    relies on of its marshaller, is proved of the generated methods
    ([WireMessages.generated_marshaller_laws]). Go's own strconv, strings,
    encoding/hex and the part of fmt that the addresses use are modelled (Ports,
    Prelude, Display, NetMessenger). SHA-256 is a function of which nothing is
    assumed.

    ** What the theorems show

    - Sharding: the evictions bound the connected peers, keep the nearest,
      respect the quotas and the preferred peers; the table driven distance is
      the length of an exclusive or, the counting one a metric; the factory is
      total.
    - Rating: the two caches refine one map of clamped ratings, for any cache.
      PeersHolder: the invariant of its maps in every run, and the panic after
      [Remove]. Messages: serialization round trip; a verified signature binds
      the contents.
    - DirectSender: exactly which direct messages are handled, no replay, the
      locking and the streams of [Send], distinct sequence numbers.
      MessagesHandler: registration refines a map of processors and agrees with
      the validators of pubsub; what is accepted, rejected and blacklisted.
      Topics: channels are first in first out; lists of peers are fresh.
      TopicPeers: in every interleaving an answer is at most as old as the time
      to live, the interval of the loop and the latencies.
      Broadcasts: in every interleaving, the loop collects what was broadcast
      on each channel, in order, none is held up; of what is collected exactly
      that is published whose topic the node has and whose message marshals, and
      what is published is delivered by any node that receives it.
    - ConnectionMonitor, ConnectionsHandler: what a notification evicts, spaced
      reconnections, the requests that the loop loses, a loop that ends once
      closed, complete reports of peers, a wait that ends.
    - Network: in every interleaving of notifications, handlers, dials and
      closings, the connections of a messenger stay within the configured
      maximums, denied peers leave, the handlers come to rest, and a node with
      too few peers has asked for a reconnection. Reconnection: a reconnection that
      is accepted ends and every discoverer has served it, if each continuous one
      has a seeder that answers; otherwise it holds the loop of the monitor.
    - WireMessages: marshalling round trips with exact sizes, unknown fields
      skipped, and no input makes [Unmarshal] panic. WireValues: messages are
      equal when their bytes are. Transceiver and WebSocketHost: a send without
      error was acknowledged; the holder maps exactly the listening connections;
      a payload of the client reaches the handler of the server and is
      acknowledged. Link and HostLink, where what a handler was given is read off
      the calls among the effects of the receiving transceiver: over any
      connection the payloads are handled in order
      and at most once, and an acknowledged one was handled; over one that loses
      nothing every send is answered. HostLink: across all the connections of a
      client the handlers of the server are given no message twice and none that
      was not sent, an acknowledged one was handled, and from every reachable
      state the client can connect again and get its next payload through.
    - Discovery: the DHT is created once; the sharder is asked before a peer is
      dialed, and a monitor with the same sharder and the same peers, which does
      not deny the peer, agrees with it; the seeders are tried in rounds.
      Ports, Metrics, Crypto: free ports of the range, and the ranges for which no
      choice returns; no event is lost and no
      peer told twice; a signature is accepted from the peer of its key.
    - NetMessenger: the components that are returned fit together, field by field,
      with each other and with the arguments; hosts are not
      left open but in one case; at most ten attempts; the closing is complete.
      Delivery: what [SendToConnectedPeer] of a messenger sends without error
      reaches every processor of the topic at another messenger, from the laws
      of the keys and of the marshaller.

    The defects that the theorems exhibit are stated as theorems about the code
    as it is (for instance [PeersHolder.Remove_stale_index_panics],
    [Topics.removed_channel_spins], [Broadcasts.closed_broadcast_hangs],
    [Discovery.Bootstrap_after_close_blocks],
    [Reconnection.unreachable_seeders_hold_the_loop],
    [NetMessenger.newNetworkMessenger_hosts]).

    ** Fuel and bounds

    Recursion is structural but for the loops over wire bytes
    ([Protobuf.unmarshal_loop], [skip_loop]: fuel the length of the buffer, and
    each turn consumes a byte, so that [WireMessages.Unmarshal_never_panics] has
    no exhausted case; a slice is a panic when its end is before its start or
    beyond the buffer), [Ports.range_loop] (the size of the range, which is enough
    unless the range ends at the highest [int], where no fuel is), [encodeVarint_loop] and [varint_loop] (ten turns, since
    ten groups of seven bits hold 64), [waitForConnections] (the number of polls
    that fit the wait, shown enough by [WaitForConnections_terminates]),
    [tryConnectToSeeder] (the loop of the code is unbounded: the theorem is for
    every number of attempts and gives one round as enough) and [retry_loop],
    whose fuel is the bound of the code, ten. Integers have the width of the
    code: sums and products wrap where the code's can.

    ** Not modelled

    Logging, and the levels of other packages' loggers (setupExternalP2PLoggers,
    printLogs, checkExternalLoggers); wrapping texts of errors; the mocks, the
    stubs, the examples, the integration tests and the reproductions of issues;
    the Go interface types as such; of the generated files the descriptors, the
    registration and the printing; the network between two nodes, which is the
    environment of Network and Delivery (it answers dials and carries what is
    written); the moment between the end of a server's [Listen] and the removal
    of its connection, which are one step; real time between two steps of different goroutines other than as
    the times of events; data races, since an operation under a mutex is one
    step. *)

From Stdlib Require Export ZArith Lia List Ascii String.
From Stdlib Require Import Strings.Byte.
From stdpp Require Export base tactics gmap strings list fin_maps sorting numbers.

Declare Scope drt_scope.
Delimit Scope drt_scope with drt.
Open Scope drt_scope.
Open Scope Z_scope.

(** ** Machine integers

    A w-bit Go integer is a [Z]; the wrap-around of the language is written
    out where an operation may leave the range of its type. *)

Definition wrapu (w z : Z) : Z := z mod 2 ^ w.
Definition wraps (w z : Z) : Z := (z + 2 ^ (w - 1)) mod 2 ^ w - 2 ^ (w - 1).

Definition in_u (w z : Z) : Prop := 0 <= z < 2 ^ w.
Definition in_s (w z : Z) : Prop := - 2 ^ (w - 1) <= z < 2 ^ (w - 1).

Lemma wrapu_small w z : in_u w z -> wrapu w z = z.
Proof. intros H. apply Z.mod_small, H. Qed.

Lemma wrapu_range w z : 0 <= w -> in_u w (wrapu w z).
Proof. intros Hw. apply Z.mod_pos_bound, Z.pow_pos_nonneg; lia. Qed.

Lemma pow2_split w : 0 < w -> 2 ^ w = 2 * 2 ^ (w - 1).
Proof. intros Hw. rewrite <- Z.pow_succ_r by lia. f_equal; lia. Qed.

Lemma wraps_small w z : 0 < w -> in_s w z -> wraps w z = z.
Proof.
  intros Hw H. unfold wraps, in_s in *. pose proof (pow2_split w Hw).
  rewrite Z.mod_small; lia.
Qed.

Lemma wraps_range w z : 0 < w -> in_s w (wraps w z).
Proof.
  intros Hw. unfold wraps, in_s. pose proof (pow2_split w Hw).
  pose proof (Z.mod_pos_bound (z + 2 ^ (w - 1)) (2 ^ w) ltac:(apply Z.pow_pos_nonneg; lia)).
  lia.
Qed.

(** The two's complement reading of an unsigned value undoes the unsigned
    reading of a signed one. *)
Lemma wraps_wrapu w z : 0 < w -> in_s w z -> wraps w (wrapu w z) = z.
Proof.
  intros Hw H. unfold wraps, wrapu. pose proof (pow2_split w Hw).
  rewrite Z.add_mod_idemp_l by (apply Z.pow_nonzero; lia).
  change ((z + 2 ^ (w - 1)) mod 2 ^ w - 2 ^ (w - 1)) with (wraps w z).
  by apply wraps_small.
Qed.

(** A counter that wraps at each step wraps once at the end. *)
Lemma wrapu_add_l w a b : 0 <= w -> wrapu w (wrapu w a + b) = wrapu w (a + b).
Proof. intros Hw. unfold wrapu. apply Z.add_mod_idemp_l, Z.pow_nonzero; lia. Qed.

(** Counters that are less than a full turn apart differ. *)
Lemma wrapu_add_inj c i j :
  0 <= i < 2 ^ 64 -> 0 <= j < 2 ^ 64 -> wrapu 64 (c + i) = wrapu 64 (c + j) -> i = j.
Proof.
  unfold wrapu. change (2 ^ 64) with 18446744073709551616. intros Hi Hj H1.
  Z.div_mod_to_equations. lia.
Qed.

(** Sums and differences of the type [int], 64 bits wide on the platforms the
    node runs on *)
Definition int_add (a b : Z) : Z := wraps 64 (a + b).
Definition int_sub (a b : Z) : Z := wraps 64 (a - b).

Lemma int_add_small a b : in_s 64 (a + b) -> int_add a b = a + b.
Proof. by apply wraps_small. Qed.

Lemma int_sub_small a b : in_s 64 (a - b) -> int_sub a b = a - b.
Proof. by apply wraps_small. Qed.

(** Replaces, innermost first, the [int] operations of the goal by those of
    [Z], proving that they do not overflow. *)
Ltac int_simpl :=
  repeat match goal with
  | |- context [int_add ?a ?b] =>
      lazymatch constr:((a, b)) with
      | context [int_add _ _] => fail
      | context [int_sub _ _] => fail
      | _ => rewrite (int_add_small a b) by (unfold in_s; lia)
      end
  | |- context [int_sub ?a ?b] =>
      lazymatch constr:((a, b)) with
      | context [int_add _ _] => fail
      | context [int_sub _ _] => fail
      | _ => rewrite (int_sub_small a b) by (unfold in_s; lia)
      end
  end.

(** ** Bytes *)

Abbreviation byte := Byte.byte.
Abbreviation bytes := (list Byte.byte).

#[export] Instance byte_eq_decision : EqDecision byte := Byte.byte_eq_dec.

Definition byte_val (b : byte) : Z := Z.of_N (Byte.to_N b).
Definition byte_of (z : Z) : byte :=
  match Byte.of_N (Z.to_N (z mod 256)) with Some b => b | None => Byte.x00 end.

Lemma byte_val_range b : 0 <= byte_val b < 256.
Proof. unfold byte_val. pose proof (Byte.to_N_bounded b). lia. Qed.

Lemma byte_of_val b : byte_of (byte_val b) = b.
Proof.
  unfold byte_of. rewrite Z.mod_small by apply byte_val_range.
  unfold byte_val. by rewrite N2Z.id, Byte.of_to_N.
Qed.

Lemma byte_val_of z : byte_val (byte_of z) = z mod 256.
Proof.
  unfold byte_of. pose proof (Z.mod_pos_bound z 256 ltac:(lia)) as Hr.
  destruct (Byte.of_N (Z.to_N (z mod 256))) as [b|] eqn:E.
  - apply Byte.to_of_N in E. unfold byte_val. rewrite E. lia.
  - apply Byte.of_N_None_iff in E. lia.
Qed.

Lemma byte_val_of_small z : 0 <= z < 256 -> byte_val (byte_of z) = z.
Proof. intros H. rewrite byte_val_of. by apply Z.mod_small. Qed.

Lemma byte_val_inj b1 b2 : byte_val b1 = byte_val b2 -> b1 = b2.
Proof. intros H. rewrite <- (byte_of_val b1), <- (byte_of_val b2). by f_equal. Qed.

#[export] Instance byte_countable : Countable byte.
Proof. refine (inj_countable Byte.to_N Byte.of_N _). intros b. apply Byte.of_to_N. Defined.

(** Go converts freely between [string] and [[]byte]. *)
Definition to_bytes (s : string) : bytes := String.list_byte_of_string s.
Definition of_bytes (b : bytes) : string := String.string_of_list_byte b.

Lemma of_to_bytes s : of_bytes (to_bytes s) = s.
Proof. apply String.string_of_list_byte_of_string. Qed.

Lemma to_of_bytes b : to_bytes (of_bytes b) = b.
Proof. apply String.list_byte_of_string_of_list_byte. Qed.

Lemma to_bytes_inj s1 s2 : to_bytes s1 = to_bytes s2 -> s1 = s2.
Proof. intros H. rewrite <- (of_to_bytes s1), <- (of_to_bytes s2). by f_equal. Qed.

(** [len] of a slice is an [int]. *)
Definition len {A} (l : list A) : Z := Z.of_nat (length l).

Lemma len_nonneg {A} (l : list A) : 0 <= len l.
Proof. unfold len. lia. Qed.

Lemma len_app {A} (l k : list A) : len (l ++ k) = len l + len k.
Proof. unfold len. rewrite length_app. lia. Qed.

Lemma len_cons {A} (x : A) l : len (x :: l) = 1 + len l.
Proof. unfold len. simpl. lia. Qed.

Lemma len_nil {A} : len (@nil A) = 0.
Proof. done. Qed.

Lemma len_0 {A} (l : list A) : len l = 0 -> l = [].
Proof. destruct l; [done|]. rewrite len_cons. pose proof (len_nonneg l). lia. Qed.

Lemma len_perm {A} (l k : list A) : l ≡ₚ k -> len l = len k.
Proof. intros H. unfold len. by rewrite H. Qed.

#[export] Instance len_Permutation {A} : Proper ((≡ₚ) ==> (=)) (@len A).
Proof. intros l k. apply len_perm. Qed.

Lemma len_filter {A} (P : A -> Prop) `{!forall x, Decision (P x)} (l : list A) :
  len (filter P l) <= len l.
Proof. unfold len. pose proof (length_filter P l). lia. Qed.

Lemma filter_none {A} (P : A -> Prop) `{!forall x, Decision (P x)} (l : list A) :
  (forall x, x ∈ l -> ~ P x) -> filter P l = [].
Proof.
  induction l as [|x l IH]; intros Hl; [done|].
  rewrite filter_cons, decide_False by (apply Hl; set_solver). apply IH. set_solver.
Qed.

(** ** Strings: what the code uses of Go's package [strings] *)

(** [strings.Contains(s, sub)] *)
Fixpoint str_contains (s sub : string) : bool :=
  String.prefix sub s
  || match s with EmptyString => false | String _ s' => str_contains s' sub end.

Lemma prefix_app sub s : String.prefix sub s = true <-> exists t, s = sub +:+ t.
Proof.
  split.
  - revert s. induction sub as [|c sub IH]; intros s; simpl.
    + intros _. by exists s.
    + destruct s as [|d s]; [done|]. simpl. destruct (ascii_dec c d) as [->|]; [|done].
      intros H. destruct (IH s H) as [t ->]. by exists t.
  - intros [t ->]. induction sub as [|c sub IH]; simpl; [by destruct t|].
    by destruct (ascii_dec c c).
Qed.

Lemma str_contains_spec s sub :
  str_contains s sub = true <-> exists a b, s = a +:+ sub +:+ b.
Proof.
  split.
  - induction s as [|c s IH]; intros H; cbn [str_contains] in H;
      apply orb_true_iff in H as [H|H].
    + apply prefix_app in H as [t Ht]. by exists "", t.
    + done.
    + apply prefix_app in H as [t Ht]. by exists "", t.
    + destruct (IH H) as (a & b & ->). by exists (String c a), b.
  - intros (a & b & ->). induction a as [|c a IH].
    + change ("" +:+ sub +:+ b) with (sub +:+ b).
      assert (Hp : String.prefix sub (sub +:+ b) = true) by (apply prefix_app; by exists b).
      destruct (sub +:+ b); cbn [str_contains]; by rewrite Hp.
    + change (String c a +:+ sub +:+ b) with (String c (a +:+ sub +:+ b)).
      cbn [str_contains]. rewrite IH. apply orb_true_r.
Qed.

Lemma str_app_nil_r s : s +:+ "" = s.
Proof. induction s as [|c s IH]; [done|]. change (String c (s +:+ "") = String c s). by rewrite IH. Qed.

Lemma str_contains_refl s : str_contains s s = true.
Proof. apply str_contains_spec. exists "", "". by rewrite str_app_nil_r. Qed.

(** [strings.TrimLeft(s, " ")], [strings.Trim(s, " ")] *)
Fixpoint trim_left (s : string) : string :=
  match s with
  | String " " s' => trim_left s'
  | _ => s
  end.

(** [strings.Split(s, sep)] for a one byte separator *)
Fixpoint split_on (sep : ascii) (s : string) : list string :=
  match s with
  | EmptyString => [""]
  | String c s' =>
      if Ascii.eqb c sep then "" :: split_on sep s'
      else match split_on sep s' with
           | w :: ws => String c w :: ws
           | [] => [String c ""]
           end
  end.

(** ** Slices *)

(** [append(s[:i], s[i+1:]...)]: the run time panics ([None]) when [i+1] is
    beyond the length of the slice. *)
Definition remove_at {A} (i : Z) (l : list A) : option (list A) :=
  if (0 <=? i) && (i <? len l)
  then Some (take (Z.to_nat i) l ++ drop (S (Z.to_nat i)) l)
  else None.

Lemma remove_at_Some {A} i (l l' : list A) :
  remove_at i l = Some l' -> exists x, l !! Z.to_nat i = Some x /\ l ≡ₚ x :: l'.
Proof.
  unfold remove_at, len. destruct (_ && _) eqn:E; [|done]. intros [= <-].
  apply andb_true_iff in E as [?%Z.leb_le ?%Z.ltb_lt].
  destruct (lookup_lt_is_Some_2 l (Z.to_nat i)) as [x Hx]; [lia|].
  exists x. split; [done|].
  rewrite <- (take_drop_middle l (Z.to_nat i) x Hx) at 1.
  by rewrite Permutation_middle.
Qed.

Lemma remove_at_panics {A} i (l : list A) : len l <= i -> remove_at i l = None.
Proof.
  intros H. unfold remove_at. destruct (_ && _) eqn:E; [|done].
  apply andb_true_iff in E as [_ ?%Z.ltb_lt]. lia.
Qed.

(** Lookup in a Go map of slices: a missing key reads as the nil slice. *)
Definition map_get {K A} `{Countable K} (m : gmap K (list A)) (k : K) : list A :=
  default [] (m !! k).

(** ** Tactics *)

(** Splits the boolean guards of hypotheses into propositions. *)
Ltac bdestruct_all :=
  repeat match goal with
  | H : _ && _ = true |- _ => apply andb_true_iff in H; destruct H
  | H : _ || _ = false |- _ => apply orb_false_iff in H; destruct H
  | H : negb _ = true |- _ => apply negb_true_iff in H
  | H : negb _ = false |- _ => apply negb_false_iff in H
  | H : (_ >? _) = _ |- _ => rewrite Z.gtb_ltb in H
  | H : (_ >=? _) = _ |- _ => rewrite Z.geb_leb in H
  | H : (_ <? _) = true |- _ => apply Z.ltb_lt in H
  | H : (_ <? _) = false |- _ => apply Z.ltb_ge in H
  | H : (_ <=? _) = true |- _ => apply Z.leb_le in H
  | H : (_ <=? _) = false |- _ => apply Z.leb_gt in H
  | H : (_ =? _) = true |- _ => apply Z.eqb_eq in H
  | H : (_ =? _) = false |- _ => apply Z.eqb_neq in H
  end.

(** Case analysis on the scrutinee of the first [if] or [match] of the goal
    (of a hypothesis), keeping the equation. *)
Ltac case_goal :=
  match goal with
  | |- context [if ?b then _ else _] => destruct b eqn:?
  | |- context [match ?x with _ => _ end] => destruct x eqn:?
  end.

Ltac case_in H :=
  match type of H with
  | context [if ?b then _ else _] => destruct b eqn:?
  | context [match ?x with _ => _ end] => destruct x eqn:?
  end.

(** Proves a disjunction by the first of its members that is an assumption or
    an arithmetic consequence of the hypotheses. *)
Ltac pick_disjunct :=
  first [ done | lia | left; solve [done | lia] | right; pick_disjunct ].

Create HintDb drt discriminated.
#[export] Hint Resolve len_nonneg byte_val_range of_to_bytes to_of_bytes : drt.
#[export] Hint Rewrite @len_app @len_cons @len_nil of_to_bytes to_of_bytes : drt.
