(* ===== verification/Errors.v ===== *)
(** * Errors

    The sentinel errors of the packages p2p, p2p/libp2p/crypto,
    p2p/libp2p/metrics (and its factory) and websocket/data, with their
    texts, and the [result] type of the operations that return an [error].

    An [error] is modelled up to [errors.Is]: [fmt.Errorf("%w ...", E)] is
    the value that models [E]: the added text only reaches the logs, and the
    search for the text of a bind error in constructNodeWithPortRetry.
    An error made outside the repository is [EExternal] with its text. *)

From S2P Require Import Prelude.
Open Scope Z_scope.

(** p2p/errors.go *)
Inductive p2p_error :=
| ErrNilContext
| ErrNilMockNet
| ErrNilTopic
| ErrChannelDoesNotExist
| ErrChannelCanNotBeDeleted
| ErrChannelCanNotBeReAdded
| ErrNilMessage
| ErrAlreadySeenMessage
| ErrMessageTooNew
| ErrMessageTooOld
| ErrNilDirectSendMessageHandler
| ErrPeerNotDirectlyConnected
| ErrNilHost
| ErrNilValidator
| ErrPeerDiscoveryProcessAlreadyStarted
| ErrMessageTooLarge
| ErrEmptyBufferToSend
| ErrNilFetchPeersOnTopicHandler
| ErrInvalidDurationProvided
| ErrTooManyGoroutines
| ErrInvalidValue
| ErrInvalidPortValue
| ErrInvalidPortsRangeString
| ErrInvalidStartingPortValue
| ErrInvalidEndingPortValue
| ErrEndPortIsSmallerThanStartPort
| ErrNoFreePortInRange
| ErrNilSharder
| ErrNilPeerShardResolver
| ErrNilMarshaller
| ErrWrongTypeAssertion
| ErrNilReconnecter
| ErrUnwantedPeer
| ErrNilPeerDenialEvaluator
| ErrMessageUnmarshalError
| ErrUnsupportedFields
| ErrUnsupportedMessageVersion
| ErrNilSyncTimer
| ErrNilPreferredPeersHolder
| ErrInvalidSeedersReconnectionInterval
| ErrMessageProcessorAlreadyDefined
| ErrMessageProcessorDoesNotExists
| ErrWrongTypeAssertions
| ErrNilConnectionsWatcher
| ErrNilPeersRatingHandler
| ErrNilP2pPrivateKey
| ErrNilP2pSingleSigner
| ErrNilP2pKeyGenerator
| ErrNilCacher
| ErrNilP2PSigner
| ErrNilPubSub
| ErrNilDirectSender
| ErrNilThrottler
| ErrNilChannelLoadBalancer
| ErrNilDebugger
| ErrInvalidConfig
| ErrNilPeersOnChannel
| ErrNilConnectionMonitor
| ErrNilNetwork
| ErrNilPeerDiscoverer
| ErrNilConnectionsMetric
| ErrNilConnectionsHandler
| ErrNilLogger
| ErrInvalidTCPAddress
| ErrInvalidQUICAddress
| ErrInvalidWSAddress
| ErrInvalidWebTransportAddress
| ErrNoTransportsDefined
| ErrUnknownResourceLimiterType.

#[export] Instance p2p_error_eq_decision : EqDecision p2p_error.
Proof. solve_decision. Defined.

(** websocket/data/errors.go; the names p2p/errors.go has too get a prefix *)
Inductive ws_error :=
| ErrServerIsClosed
| WsErrNilMarshaller
| ErrNilPayloadProcessor
| ErrNilPayloadConverter
| ErrEmptyUrl
| ErrZeroValueRetryDuration
| ErrZeroValueAckTimeout
| ErrConnectionAlreadyOpen
| ErrConnectionNotOpen
| ErrExpectedAckWasNotReceivedOnClose
| ErrInvalidWebSocketHostMode
| ErrNoClientsConnected
| ErrAckTimeout.

#[export] Instance ws_error_eq_decision : EqDecision ws_error.
Proof. solve_decision. Defined.

(** p2p/libp2p/crypto/errors.go *)
Inductive crypto_error :=
| ErrNilPrivateKey
| ErrNilPublicKey
| ErrNilSingleSigner
| ErrNilKeyGenerator
| ErrNilP2PKeyConverter.

#[export] Instance crypto_error_eq_decision : EqDecision crypto_error.
Proof. solve_decision. Defined.

(** p2p/libp2p/metrics/errors.go and p2p/libp2p/metrics/factory/errors.go *)
Inductive metrics_error :=
| ErrInvalidValueForTimeToLiveParam
| ErrUnknownConnectionWatcherType.

#[export] Instance metrics_error_eq_decision : EqDecision metrics_error.
Proof. solve_decision. Defined.

(** The error values the operations return. *)
Inductive error :=
| EP2P (e : p2p_error)
| EWs (e : ws_error)
| ECrypto (e : crypto_error)
| EMetrics (e : metrics_error)
| EExternal (text : string).

#[export] Instance error_eq_decision : EqDecision error.
Proof. solve_decision. Defined.

Coercion EP2P : p2p_error >-> error.
Coercion EWs : ws_error >-> error.
Coercion ECrypto : crypto_error >-> error.
Coercion EMetrics : metrics_error >-> error.

(** [err.Error()], up to the text a wrapping adds *)
Definition p2p_error_text (e : p2p_error) : string :=
  match e with
  | ErrNilContext => "nil context"
  | ErrNilMockNet => "nil mocknet provided"
  | ErrNilTopic => "nil topic"
  | ErrChannelDoesNotExist => "channel does not exist"
  | ErrChannelCanNotBeDeleted => "channel can not be deleted"
  | ErrChannelCanNotBeReAdded => "channel can not be re added"
  | ErrNilMessage => "nil message"
  | ErrAlreadySeenMessage => "already seen this message"
  | ErrMessageTooNew => "message is too new"
  | ErrMessageTooOld => "message is too old"
  | ErrNilDirectSendMessageHandler => "nil direct sender message handler"
  | ErrPeerNotDirectlyConnected => "peer is not directly connected"
  | ErrNilHost => "nil host"
  | ErrNilValidator => "no validator has been set for this topic"
  | ErrPeerDiscoveryProcessAlreadyStarted => "peer discovery is already turned on"
  | ErrMessageTooLarge => "buffer too large"
  | ErrEmptyBufferToSend => "empty buffer to send"
  | ErrNilFetchPeersOnTopicHandler => "nil fetch peers on topic handler"
  | ErrInvalidDurationProvided => "invalid time.Duration provided"
  | ErrTooManyGoroutines => " number of goroutines exceeded"
  | ErrInvalidValue => "invalid value"
  | ErrInvalidPortValue => "invalid port value"
  | ErrInvalidPortsRangeString => "invalid ports range string"
  | ErrInvalidStartingPortValue => "invalid starting port value"
  | ErrInvalidEndingPortValue => "invalid ending port value"
  | ErrEndPortIsSmallerThanStartPort => "ending port value is smaller than the starting port value"
  | ErrNoFreePortInRange => "no free port in range"
  | ErrNilSharder => "nil sharder"
  | ErrNilPeerShardResolver => "nil PeerShardResolver"
  | ErrNilMarshaller => "nil marshaller"
  | ErrWrongTypeAssertion => "wrong type assertion"
  | ErrNilReconnecter => "nil reconnecter"
  | ErrUnwantedPeer => "unwanted peer: will not initiate connection as it will get disconnected"
  | ErrNilPeerDenialEvaluator => "nil peer denial evaluator"
  | ErrMessageUnmarshalError => "message unmarshal error"
  | ErrUnsupportedFields => "unsupported fields"
  | ErrUnsupportedMessageVersion => "unsupported message version"
  | ErrNilSyncTimer => "nil sync timer"
  | ErrNilPreferredPeersHolder => "nil peers holder"
  | ErrInvalidSeedersReconnectionInterval => "invalid seeders reconnection interval"
  | ErrMessageProcessorAlreadyDefined => "message processor already defined"
  | ErrMessageProcessorDoesNotExists => "message processor does not exists"
  | ErrWrongTypeAssertions => "wrong type assertion"
  | ErrNilConnectionsWatcher => "nil connections watcher"
  | ErrNilPeersRatingHandler => "nil peers rating handler"
  | ErrNilP2pPrivateKey => "nil p2p private key"
  | ErrNilP2pSingleSigner => "nil p2p single signer"
  | ErrNilP2pKeyGenerator => "nil p2p key generator"
  | ErrNilCacher => "nil cacher"
  | ErrNilP2PSigner => "nil p2p signer"
  | ErrNilPubSub => "nil pubSub"
  | ErrNilDirectSender => "nil direct sender"
  | ErrNilThrottler => "nil throttler"
  | ErrNilChannelLoadBalancer => "nil channel load balancer"
  | ErrNilDebugger => "nil debugger"
  | ErrInvalidConfig => "invalid config"
  | ErrNilPeersOnChannel => "nil peers on channel"
  | ErrNilConnectionMonitor => "nil connections monitor"
  | ErrNilNetwork => "nil network"
  | ErrNilPeerDiscoverer => "nil peer discoverer"
  | ErrNilConnectionsMetric => "nil connections metric"
  | ErrNilConnectionsHandler => "nil connections handler"
  | ErrNilLogger => "nil logger"
  | ErrInvalidTCPAddress => "invalid TCP address"
  | ErrInvalidQUICAddress => "invalid QUIC address"
  | ErrInvalidWSAddress => "invalid WebSocket address"
  | ErrInvalidWebTransportAddress => "invalid WebTransport address"
  | ErrNoTransportsDefined => "no transports defined"
  | ErrUnknownResourceLimiterType => "unknown resource limiter type"
  end.

Definition ws_error_text (e : ws_error) : string :=
  match e with
  | ErrServerIsClosed => "http: Server closed"
  | WsErrNilMarshaller => "nil marshaller"
  | ErrNilPayloadProcessor => "nil payload processor provided"
  | ErrNilPayloadConverter => "nil payload converter provided"
  | ErrEmptyUrl => "empty websocket url provided"
  | ErrZeroValueRetryDuration => "zero value provided for retry duration"
  | ErrZeroValueAckTimeout => "zero value provided for acknowledge timeout"
  | ErrConnectionAlreadyOpen => "connection already open"
  | ErrConnectionNotOpen => "connection not open"
  | ErrExpectedAckWasNotReceivedOnClose => "expected ack message was not received on close"
  | ErrInvalidWebSocketHostMode => "invalid web socket host mode"
  | ErrNoClientsConnected => "no client connected"
  | ErrAckTimeout => "acknowledge waiting timeout occurred"
  end.

Definition crypto_error_text (e : crypto_error) : string :=
  match e with
  | ErrNilPrivateKey => "nil private key"
  | ErrNilPublicKey => "nil public key"
  | ErrNilSingleSigner => "nil single signer"
  | ErrNilKeyGenerator => "nil key generator"
  | ErrNilP2PKeyConverter => "nil key converter"
  end.

Definition metrics_error_text (e : metrics_error) : string :=
  match e with
  | ErrInvalidValueForTimeToLiveParam => "invalid value for the time-to-live parameter"
  | ErrUnknownConnectionWatcherType => "unknown connection type"
  end.

Definition error_text (e : error) : string :=
  match e with
  | EP2P e => p2p_error_text e
  | EWs e => ws_error_text e
  | ECrypto e => crypto_error_text e
  | EMetrics e => metrics_error_text e
  | EExternal t => t
  end.

(** ** Results

    A Go function returning [(T, error)] is a [result T]; one returning only
    [error] is an [option error], [None] being [nil]. *)
Inductive result (A : Type) :=
| Ok (a : A)
| Err (e : error).

Arguments Ok {A} a.
Arguments Err {A} e.

#[export] Instance result_ret : MRet result := @Ok.
#[export] Instance result_bind : MBind result := fun A B f m =>
  match m with Ok a => f a | Err e => Err e end.
#[export] Instance result_fmap : FMap result := fun A B f m =>
  match m with Ok a => Ok (f a) | Err e => Err e end.

#[export] Instance result_eq_decision A `{EqDecision A} : EqDecision (result A).
Proof. solve_decision. Defined.

#[export] Instance Ok_inj A : Inj (=) (=) (@Ok A).
Proof. by intros ?? [= ->]. Qed.

(** A guard [if cond { return err }] before the rest of a function *)
Definition guard_err {A} (cond : bool) (e : error) (k : result A) : result A :=
  if cond then Err e else k.

(** The same for a function that returns only an [error] *)
Definition guard_opt (cond : bool) (e : error) (k : option error) : option error :=
  if cond then Some e else k.

Definition is_ok {A} (r : result A) : bool :=
  match r with Ok _ => true | Err _ => false end.

(** [if err != nil { return ..., err }] when the callee returns only an error *)
Definition then_ok {A} (err : option error) (k : result A) : result A :=
  match err with Some e => Err e | None => k end.

Lemma guard_err_Ok {A} c e (k : result A) a :
  guard_err c e k = Ok a <-> c = false /\ k = Ok a.
Proof. destruct c; simpl; naive_solver. Qed.

Lemma guard_opt_None c e k : guard_opt c e k = None <-> c = false /\ k = None.
Proof. destruct c; simpl; naive_solver. Qed.

Lemma bind_Ok {A B} (m : result A) (f : A -> result B) b :
  m ≫= f = Ok b <-> exists a, m = Ok a /\ f a = Ok b.
Proof. destruct m; unfold mbind; simpl; naive_solver. Qed.

Lemma then_ok_Ok {A} err (k : result A) a :
  then_ok err k = Ok a <-> err = None /\ k = Ok a.
Proof. destruct err; simpl; naive_solver. Qed.

#[export] Hint Rewrite @guard_err_Ok guard_opt_None @bind_Ok @then_ok_Ok : drt.
