(* ===== verification/Config.v ===== *)
(** * Configuration and shared vocabulary

    p2p/config/config.go, p2p/constants.go, and the few types of drt-go-chain-core the
    components exchange: peer identifiers (Go strings of raw bytes), peer
    kinds and shard identifiers. *)

From S2P Require Import Prelude.
Open Scope Z_scope.

(** ** p2p/config/config.go *)

Record TCPProtocolConfig := {
  ListenAddress : string;
  PreventPortReuse : bool;
}.

Record TransportConfig := {
  TCP : TCPProtocolConfig;
  QUICAddress : string;
  WebSocketAddress : string;
  WebTransportAddress : string;
}.

Record ResourceLimiterConfig := {
  rl_Type : string;
  ManualSystemMemoryInMB : Z;  (* int64 *)
  ManualMaximumFD : Z;         (* int *)
}.

Record NodeConfig := {
  Port : string;
  MaximumExpectedPeerCount : Z;         (* uint64 *)
  ThresholdMinConnectedPeers : Z;       (* uint32 *)
  MinNumPeersToWaitForOnBootstrap : Z;  (* uint32 *)
  Transports : TransportConfig;
  ResourceLimiter : ResourceLimiterConfig;
}.

Record KadDhtPeerDiscoveryConfig := {
  Enabled : bool;
  kad_Type : string;
  RefreshIntervalInSec : Z;             (* uint32 *)
  ProtocolIDs : list string;
  InitialPeerList : list string;
  BucketSize : Z;                       (* uint32 *)
  RoutingTableRefreshIntervalInSec : Z; (* uint32 *)
}.

Record ShardingConfig := {
  TargetPeerCount : Z;         (* uint32 *)
  MaxIntraShardValidators : Z; (* uint32 *)
  MaxCrossShardValidators : Z; (* uint32 *)
  MaxIntraShardObservers : Z;  (* uint32 *)
  MaxCrossShardObservers : Z;  (* uint32 *)
  MaxSeeders : Z;              (* uint32 *)
  sh_Type : string;
}.

Record P2PConfig := {
  Node : NodeConfig;
  KadDhtPeerDiscovery : KadDhtPeerDiscoveryConfig;
  Sharding : ShardingConfig;
}.

(** The fields of the sharding section are uint32 values. *)
Definition sharding_config_wf (c : ShardingConfig) : Prop :=
  in_u 32 (TargetPeerCount c)
  /\ in_u 32 (MaxIntraShardValidators c) /\ in_u 32 (MaxCrossShardValidators c)
  /\ in_u 32 (MaxIntraShardObservers c) /\ in_u 32 (MaxCrossShardObservers c)
  /\ in_u 32 (MaxSeeders c).

(** ** p2p/constants.go *)

Definition ListsSharder : string := "ListsSharder".
Definition OneListSharder : string := "OneListSharder".
Definition NilListSharder : string := "NilListSharder".
Definition ConnectionWatcherTypePrint : string := "print".
Definition ConnectionWatcherTypeDisabled : string := "disabled".
Definition ConnectionWatcherTypeEmpty : string := "".
Definition DefaultAutoscaleResourceLimiter : string := "default autoscale".
Definition InfiniteResourceLimiter : string := "infinite".
Definition DefaultWithScaleResourceLimiter : string := "default with manual scale".

(** Durations are in nanoseconds, as [time.Duration]. *)
Definition time_Microsecond : Z := 1000.
Definition time_Second : Z := 1000000000.
Definition time_Minute : Z := 60 * time_Second.
Definition time_Hour : Z := 60 * time_Minute.

Definition WrongP2PMessageBlacklistDuration : Z := time_Second * 7200.

Inductive BroadcastMethod := Direct | Broadcast.

#[export] Instance BroadcastMethod_eq_decision : EqDecision BroadcastMethod.
Proof. solve_decision. Defined.

(** ** drt-go-chain-core, package core

    [core.PeerID] and libp2p's [peer.ID] are both Go strings of raw bytes and
    convert freely into each other. *)
Abbreviation PeerID := string.

(** The kinds of peers the code distinguishes; the switches of the code have
    no default branch, so a value that is none of the three named constants
    is a value of its own. *)
Inductive P2PPeerType := UnknownPeer | ValidatorPeer | ObserverPeer | OtherPeer (n : Z).

#[export] Instance P2PPeerType_eq_decision : EqDecision P2PPeerType.
Proof. solve_decision. Defined.

Record P2PPeerInfo := {
  PeerType : P2PPeerType;
  ShardID : Z;  (* uint32 *)
}.

(** [p2p.PeerShardResolver] *)
Abbreviation PeerShardResolver := (PeerID -> P2PPeerInfo).

(** libp2p/unknownPeerShardResolver.go *)
Definition unknownPeerShardResolver : PeerShardResolver := fun _ =>
  {| PeerType := UnknownPeer; ShardID := 0 |}.
