(* ===== verification/Sharding.v ===== *)
(** * Network sharding: the eviction lists

    p2p/libp2p/networksharding: the three implementations of [p2p.Sharder]
    (lists, one list, nil), the sorting of peers by distance, and the
    factory that picks one. *)

From Stdlib Require Import Sorting.Sorted Permutation.
From S2P Require Import Prelude Errors Config.
From stdpp Require Import list.
Open Scope Z_scope.

(** ** sorting/peerDistances.go *)

Record PeerDistance := {
  ID : PeerID;
  Distance : Z;  (* big.Int *)
}.

(** [Less(i, j)] on the elements it compares *)
Definition Less (a b : PeerDistance) : bool := Distance a <? Distance b.

Definition dist_le (a b : PeerDistance) : Prop := Distance a <= Distance b.

#[export] Instance dist_le_dec : RelDecision dist_le := fun a b => decide (Distance a <= Distance b).
#[export] Instance dist_le_total : Total dist_le.
Proof. intros a b. unfold dist_le. lia. Qed.
#[export] Instance dist_le_trans : Transitive dist_le.
Proof. intros a b c. unfold dist_le. lia. Qed.

(** What the package [sort] promises of [sort.Sort(x)], a sort that is not
    stable: the same elements, and no element [Less] than one before it. *)
Class SortSort (sort_Sort : list PeerDistance -> list PeerDistance) : Prop := {
  sort_Sort_perm l : sort_Sort l ≡ₚ l;
  sort_Sort_sorted l : StronglySorted (fun a b => Less b a = false) (sort_Sort l);
}.

#[export] Instance merge_sort_SortSort : SortSort (merge_sort dist_le).
Proof.
  split; intros l; [apply merge_sort_Permutation|].
  pose proof (StronglySorted_merge_sort dist_le l) as H.
  induction H as [|a k Hk IH Ha]; constructor; [done|].
  eapply List.Forall_impl; [|exact Ha]. intros b Hb. unfold Less, dist_le in *. simpl in *. lia.
Qed.

(** ** Distances (listsSharder.go) *)

(** [bits.OnesCount8] *)
Definition OnesCount8 (b : byte) : Z :=
  let '(b0, (b1, (b2, (b3, (b4, (b5, (b6, b7))))))) := Byte.to_bits b in
  Z.b2z b0 + Z.b2z b1 + Z.b2z b2 + Z.b2z b3 + Z.b2z b4 + Z.b2z b5 + Z.b2z b6 + Z.b2z b7.

Definition byte_xor (a b : byte) : byte := byte_of (Z.lxor (byte_val a) (byte_val b)).

Definition leadingZerosCount : list Z := [
  8; 7; 6; 6; 5; 5; 5; 5;
  4; 4; 4; 4; 4; 4; 4; 4;
  3; 3; 3; 3; 3; 3; 3; 3;
  3; 3; 3; 3; 3; 3; 3; 3;
  2; 2; 2; 2; 2; 2; 2; 2;
  2; 2; 2; 2; 2; 2; 2; 2;
  2; 2; 2; 2; 2; 2; 2; 2;
  2; 2; 2; 2; 2; 2; 2; 2;
  1; 1; 1; 1; 1; 1; 1; 1;
  1; 1; 1; 1; 1; 1; 1; 1;
  1; 1; 1; 1; 1; 1; 1; 1;
  1; 1; 1; 1; 1; 1; 1; 1;
  1; 1; 1; 1; 1; 1; 1; 1;
  1; 1; 1; 1; 1; 1; 1; 1;
  1; 1; 1; 1; 1; 1; 1; 1;
  1; 1; 1; 1; 1; 1; 1; 1;
  0; 0; 0; 0; 0; 0; 0; 0;
  0; 0; 0; 0; 0; 0; 0; 0;
  0; 0; 0; 0; 0; 0; 0; 0;
  0; 0; 0; 0; 0; 0; 0; 0;
  0; 0; 0; 0; 0; 0; 0; 0;
  0; 0; 0; 0; 0; 0; 0; 0;
  0; 0; 0; 0; 0; 0; 0; 0;
  0; 0; 0; 0; 0; 0; 0; 0;
  0; 0; 0; 0; 0; 0; 0; 0;
  0; 0; 0; 0; 0; 0; 0; 0;
  0; 0; 0; 0; 0; 0; 0; 0;
  0; 0; 0; 0; 0; 0; 0; 0;
  0; 0; 0; 0; 0; 0; 0; 0;
  0; 0; 0; 0; 0; 0; 0; 0;
  0; 0; 0; 0; 0; 0; 0; 0;
  0; 0; 0; 0; 0; 0; 0; 0].

(** The loops of the two distance functions. Both buffers have the 32 bytes of
    a hash, so that the loop over the indices of [srcBuff] reads the pairs of
    bytes at equal positions. *)
Fixpoint count_bits_loop (buff : list (byte * byte)) (cumulatedBits : Z) : Z :=
  match buff with
  | [] => cumulatedBits
  | (s, d) :: buff => count_bits_loop buff (cumulatedBits + OnesCount8 (byte_xor s d))
  end.

Fixpoint log2_loop (buff : list (byte * byte)) (val : Z) : Z :=
  match buff with
  | [] => val
  | (s, d) :: buff =>
      let result := byte_xor s d in
      let val := val + leadingZerosCount !!! Z.to_nat (byte_val result) in
      if byte_val result =? 0 then log2_loop buff val else val
  end.

Section distances.
(** [kbucket.ConvertPeerID]: the sha256 of a peer ID, its key in the DHT *)
Context (ConvertPeerID : PeerID -> vec byte 32).

Definition computeDistanceByCountingBits (src dest : PeerID) : Z :=
  count_bits_loop (zip (ConvertPeerID src) (ConvertPeerID dest)) 0.

Definition computeDistanceLog2Based (src dest : PeerID) : Z :=
  let val := log2_loop (zip (ConvertPeerID src) (ConvertPeerID dest)) 0 in
  len (vec_to_list (ConvertPeerID src)) * 8 - val.
End distances.

(** ** listsSharder.go *)

Definition minAllowedConnectedPeersListSharder : Z := 5.
Definition minAllowedValidators : Z := 1.
Definition minAllowedObservers : Z := 1.
Definition minUnknownPeers : Z := 1.

(** The keys of the map of lists *)
Definition intraShardValidators : Z := 0.
Definition intraShardObservers : Z := 10.
Definition crossShardValidators : Z := 20.
Definition crossShardObservers : Z := 30.
Definition seedersKey : Z := 40.
Definition unknown : Z := 50.

(** Interface values may be nil: a component handed to a constructor is an
    [option]. Loggers carry no state and are only tested for nil. *)
Record ArgListsSharder := {
  als_PeerResolver : option PeerShardResolver;
  als_SelfPeerId : PeerID;
  als_P2pConfig : P2PConfig;
  als_PreferredPeersHolder : option (PeerID -> bool);  (* Contains *)
  als_Logger : bool;  (* not nil *)
}.

Record listsSharder := {
  peerShardResolver : PeerShardResolver;
  selfPeerId : PeerID;
  maxPeerCount : Z;
  maxIntraShardValidators : Z;
  maxCrossShardValidators : Z;
  maxIntraShardObservers : Z;
  maxCrossShardObservers : Z;
  maxSeeders : Z;
  maxUnknown : Z;
  seeders : list string;
  computeDistance : PeerID -> PeerID -> Z;
  preferredPeersHolder : PeerID -> bool;
}.

Record peersConnections := {
  pc_maxPeerCount : Z;
  pc_intraShardValidators : Z;
  pc_crossShardValidators : Z;
  pc_intraShardObservers : Z;
  pc_crossShardObservers : Z;
  pc_seeders : Z;
  pc_unknown : Z;
}.

(** [int(x)] of a uint32 is [x] itself on the 64 bit platforms the node runs on. *)
Definition processNumConnections (arg : ArgListsSharder) : result peersConnections :=
  let sharding := Sharding (als_P2pConfig arg) in
  let maxPeerCount := TargetPeerCount sharding in
  let intraShardValidators := MaxIntraShardValidators sharding in
  let crossShardValidators := MaxCrossShardValidators sharding in
  let intraShardObservers := MaxIntraShardObservers sharding in
  let crossShardObservers := MaxCrossShardObservers sharding in
  let seeders := MaxSeeders sharding in
  let providedPeers :=
    int_add (int_add (int_add (int_add intraShardValidators crossShardValidators)
      intraShardObservers) crossShardObservers) seeders in
  if int_add providedPeers minUnknownPeers >? maxPeerCount then Err ErrInvalidValue
  else Ok {|
    pc_maxPeerCount := maxPeerCount;
    pc_intraShardValidators := intraShardValidators;
    pc_crossShardValidators := crossShardValidators;
    pc_intraShardObservers := intraShardObservers;
    pc_crossShardObservers := crossShardObservers;
    pc_seeders := seeders;
    pc_unknown := int_sub maxPeerCount providedPeers;
  |}.

Definition NewListsSharder (ConvertPeerID : PeerID -> vec byte 32) (arg : ArgListsSharder)
    : result listsSharder :=
  let sharding := Sharding (als_P2pConfig arg) in
  match als_PeerResolver arg with
  | None => Err ErrNilPeerShardResolver
  | Some PeerResolver =>
      guard_err (TargetPeerCount sharding <? minAllowedConnectedPeersListSharder) ErrInvalidValue $
      guard_err (MaxIntraShardValidators sharding <? minAllowedValidators) ErrInvalidValue $
      guard_err (MaxCrossShardValidators sharding <? minAllowedValidators) ErrInvalidValue $
      guard_err (MaxIntraShardObservers sharding <? minAllowedObservers) ErrInvalidValue $
      guard_err (MaxCrossShardObservers sharding <? minAllowedObservers) ErrInvalidValue $
      match als_PreferredPeersHolder arg with
      | None => Err ErrNilPreferredPeersHolder
      | Some PreferredPeersHolder =>
          guard_err (negb (als_Logger arg)) ErrNilLogger $
          peersConn ← processNumConnections arg;
          Ok {|
            peerShardResolver := PeerResolver;
            selfPeerId := als_SelfPeerId arg;
            maxPeerCount := pc_maxPeerCount peersConn;
            maxIntraShardValidators := pc_intraShardValidators peersConn;
            maxCrossShardValidators := pc_crossShardValidators peersConn;
            maxIntraShardObservers := pc_intraShardObservers peersConn;
            maxCrossShardObservers := pc_crossShardObservers peersConn;
            maxSeeders := pc_seeders peersConn;
            maxUnknown := pc_unknown peersConn;
            seeders := [];
            computeDistance := computeDistanceByCountingBits ConvertPeerID;
            preferredPeersHolder := PreferredPeersHolder;
          |}
      end
  end.

(** [computeUsedAndSpare(existing, maximum)] *)
Definition computeUsedAndSpare (existing maximum : Z) : Z * Z :=
  if existing <? maximum then (existing, int_sub maximum existing) else (maximum, 0).

Definition has (pid : PeerID) (list : list PeerID) : bool :=
  existsb (fun p => bool_decide (p = pid)) list.
Definition ls_Has := has.

Section lists.
(** [core.PeerID.Pretty]: the base58 text of a peer ID; [sort.Sort] *)
Context (Pretty : PeerID -> string).
Context (sort_Sort : list PeerDistance -> list PeerDistance).

Definition ls_IsSeeder (ls : listsSharder) (pid : PeerID) : bool :=
  let strPretty := Pretty pid in
  existsb (fun seeder => str_contains seeder strPretty) (seeders ls).

(** [peerDistances[key] = append(peerDistances[key], pd)] *)
Definition append_to (key : Z) (pd : PeerDistance) (m : gmap Z (list PeerDistance))
    : gmap Z (list PeerDistance) :=
  <[key := map_get m key ++ [pd]]> m.

(** The body of the loop of [splitPeerIds]: each [continue] is a branch. *)
Definition splitPeerIds_step (ls : listsSharder) (selfPeerInfo : P2PPeerInfo)
    (peerDistances : gmap Z (list PeerDistance)) (p : PeerID) : gmap Z (list PeerDistance) :=
  let pd := {| ID := p; Distance := computeDistance ls p (selfPeerId ls) |} in
  if ls_IsSeeder ls p then append_to seedersKey pd peerDistances
  else
    let peerInfo := peerShardResolver ls p in
    if preferredPeersHolder ls p then peerDistances
    else if decide (PeerType peerInfo = UnknownPeer) then append_to unknown pd peerDistances
    else if negb (ShardID peerInfo =? ShardID selfPeerInfo) then
      match PeerType peerInfo with
      | ValidatorPeer => append_to crossShardValidators pd peerDistances
      | ObserverPeer => append_to crossShardObservers pd peerDistances
      | _ => peerDistances
      end
    else
      match PeerType peerInfo with
      | ValidatorPeer => append_to intraShardValidators pd peerDistances
      | ObserverPeer => append_to intraShardObservers pd peerDistances
      | _ => peerDistances
      end.

Definition splitPeerIds (ls : listsSharder) (peers : list PeerID) : gmap Z (list PeerDistance) :=
  let peerDistances : gmap Z (list PeerDistance) :=
    list_to_map [(intraShardValidators, []); (intraShardObservers, []);
      (crossShardValidators, []); (crossShardObservers, []);
      (seedersKey, []); (unknown, [])] in
  let selfPeerInfo := peerShardResolver ls (selfPeerId ls) in
  fold_left (splitPeerIds_step ls selfPeerInfo) peers peerDistances.

Definition evict (distances : list PeerDistance) (numKeep : Z) : list PeerID :=
  let numKeep := if numKeep <? 0 then 0 else numKeep in
  if numKeep >=? len distances then []
  else ID <$> drop (Z.to_nat numKeep) (sort_Sort distances).

Definition ComputeEvictionList (ls : listsSharder) (pidList : list PeerID) : list PeerID :=
  let peerDistances := splitPeerIds ls pidList in
  let existingNumIntraShardValidators := len (map_get peerDistances intraShardValidators) in
  let existingNumIntraShardObservers := len (map_get peerDistances intraShardObservers) in
  let existingNumCrossShardValidators := len (map_get peerDistances crossShardValidators) in
  let existingNumCrossShardObservers := len (map_get peerDistances crossShardObservers) in
  let existingNumSeeders := len (map_get peerDistances seedersKey) in
  let existingNumUnknown := len (map_get peerDistances unknown) in
  let '(numIntraShardValidators, remaining) :=
    computeUsedAndSpare existingNumIntraShardValidators (maxIntraShardValidators ls) in
  let '(numCrossShardValidators, remaining) :=
    computeUsedAndSpare existingNumCrossShardValidators
      (int_add (maxCrossShardValidators ls) remaining) in
  let '(numIntraShardObservers, remaining) :=
    computeUsedAndSpare existingNumIntraShardObservers
      (int_add (maxIntraShardObservers ls) remaining) in
  let '(numCrossShardObservers, remaining) :=
    computeUsedAndSpare existingNumCrossShardObservers
      (int_add (maxCrossShardObservers ls) remaining) in
  let '(numSeeders, _) := computeUsedAndSpare existingNumSeeders (maxSeeders ls) in
  let '(numUnknown, _) :=
    computeUsedAndSpare existingNumUnknown (int_add (maxUnknown ls) remaining) in
  let evictionProposed :=
    evict (map_get peerDistances intraShardValidators) numIntraShardValidators in
  let e := evict (map_get peerDistances crossShardValidators) numCrossShardValidators in
  let evictionProposed := evictionProposed ++ e in
  let e := evict (map_get peerDistances intraShardObservers) numIntraShardObservers in
  let evictionProposed := evictionProposed ++ e in
  let e := evict (map_get peerDistances crossShardObservers) numCrossShardObservers in
  let evictionProposed := evictionProposed ++ e in
  let e := evict (map_get peerDistances seedersKey) numSeeders in
  let evictionProposed := evictionProposed ++ e in
  let e := evict (map_get peerDistances unknown) numUnknown in
  evictionProposed ++ e.
End lists.

Definition ls_SetSeeders (ls : listsSharder) (addresses : list string) : listsSharder :=
  {| peerShardResolver := peerShardResolver ls; selfPeerId := selfPeerId ls;
     maxPeerCount := maxPeerCount ls;
     maxIntraShardValidators := maxIntraShardValidators ls;
     maxCrossShardValidators := maxCrossShardValidators ls;
     maxIntraShardObservers := maxIntraShardObservers ls;
     maxCrossShardObservers := maxCrossShardObservers ls;
     maxSeeders := maxSeeders ls; maxUnknown := maxUnknown ls;
     seeders := addresses; computeDistance := computeDistance ls;
     preferredPeersHolder := preferredPeersHolder ls |}.

(** Returns the sharder after the call and the error of the call. *)
Definition ls_SetPeerShardResolver (ls : listsSharder) (psp : option PeerShardResolver)
    : listsSharder * option error :=
  match psp with
  | None => (ls, Some (ErrNilPeerShardResolver : error))
  | Some psp =>
      ({| peerShardResolver := psp; selfPeerId := selfPeerId ls;
          maxPeerCount := maxPeerCount ls;
          maxIntraShardValidators := maxIntraShardValidators ls;
          maxCrossShardValidators := maxCrossShardValidators ls;
          maxIntraShardObservers := maxIntraShardObservers ls;
          maxCrossShardObservers := maxCrossShardObservers ls;
          maxSeeders := maxSeeders ls; maxUnknown := maxUnknown ls;
          seeders := seeders ls; computeDistance := computeDistance ls;
          preferredPeersHolder := preferredPeersHolder ls |}, None)
  end.

(** ** oneListSharder.go *)

Definition minAllowedConnectedPeersOneSharder : Z := 3.

Record oneListSharder := {
  ols_selfPeerId : PeerID;
  ols_maxPeerCount : Z;
  ols_computeDistance : PeerID -> PeerID -> Z;
}.

Definition NewOneListSharder (ConvertPeerID : PeerID -> vec byte 32)
    (selfPeerId : PeerID) (maxPeerCount : Z) : result oneListSharder :=
  guard_err (maxPeerCount <? minAllowedConnectedPeersOneSharder) ErrInvalidValue $
  Ok {| ols_selfPeerId := selfPeerId; ols_maxPeerCount := maxPeerCount;
        ols_computeDistance := computeDistanceByCountingBits ConvertPeerID |}.

Definition convertList (ols : oneListSharder) (peers : list PeerID) : list PeerDistance :=
  (fun p => {| ID := p; Distance := ols_computeDistance ols p (ols_selfPeerId ols) |}) <$> peers.

Definition ols_ComputeEvictionList (sort_Sort : list PeerDistance -> list PeerDistance)
    (ols : oneListSharder) (pidList : list PeerID) : list PeerID :=
  let list := convertList ols pidList in
  evict sort_Sort list (ols_maxPeerCount ols).

Definition ols_Has := has.
Definition ols_IsSeeder (ols : oneListSharder) (pid : PeerID) : bool := false.

(** ** nilListSharder.go *)

Definition nls_ComputeEvictionList (pidList : list PeerID) : list PeerID := [].
Definition nls_Has (pid : PeerID) (list : list PeerID) : bool := false.
Definition nls_IsSeeder (pid : PeerID) : bool := false.

(** ** Facts about the definitions *)

(** *** Splitting: every peer goes to at most one list *)

Definition category (Pretty : PeerID -> string) (ls : listsSharder) (p : PeerID) : option Z :=
  let info := peerShardResolver ls p in
  if ls_IsSeeder Pretty ls p then Some seedersKey
  else if preferredPeersHolder ls p then None
  else match PeerType info, ShardID info =? ShardID (peerShardResolver ls (selfPeerId ls)) with
       | UnknownPeer, _ => Some unknown
       | ValidatorPeer, true => Some intraShardValidators
       | ValidatorPeer, false => Some crossShardValidators
       | ObserverPeer, true => Some intraShardObservers
       | ObserverPeer, false => Some crossShardObservers
       | OtherPeer _, _ => None
       end.

Definition withDistance (ls : listsSharder) (p : PeerID) : PeerDistance :=
  {| ID := p; Distance := computeDistance ls p (selfPeerId ls) |}.

(** The lists in the order [ComputeEvictionList] appends the evictions *)
Definition categories : list Z :=
  [intraShardValidators; crossShardValidators; intraShardObservers; crossShardObservers;
   seedersKey; unknown].

Section split_facts.
Context (Pretty : PeerID -> string).
Implicit Types (ls : listsSharder) (p : PeerID) (peers : list PeerID).

Lemma category_in ls p k : category Pretty ls p = Some k -> k ∈ categories.
Proof.
  unfold category. repeat case_match; intros [= <-]; unfold categories; set_solver.
Qed.

Lemma splitPeerIds_step_category ls m p :
  splitPeerIds_step Pretty ls (peerShardResolver ls (selfPeerId ls)) m p =
  match category Pretty ls p with
  | Some k => append_to k (withDistance ls p) m
  | None => m
  end.
Proof.
  unfold splitPeerIds_step, category, withDistance.
  destruct (ls_IsSeeder Pretty ls p), (preferredPeersHolder ls p); try done.
  destruct (PeerType _), (ShardID _ =? _); simpl; by repeat case_decide.
Qed.

Lemma map_get_append_to k k' pd (m : gmap Z (list PeerDistance)) :
  map_get (append_to k pd m) k' =
  if decide (k = k') then map_get m k' ++ [pd] else map_get m k'.
Proof. unfold map_get, append_to. case_decide; by simplify_map_eq. Qed.

Lemma fold_split_get ls peers k (m : gmap Z (list PeerDistance)) :
  map_get (fold_left (splitPeerIds_step Pretty ls (peerShardResolver ls (selfPeerId ls))) peers m) k =
  map_get m k ++ (withDistance ls <$> filter (fun p => category Pretty ls p = Some k) peers).
Proof.
  revert m. induction peers as [|p peers IH]; intros m; simpl; [by rewrite app_nil_r|].
  rewrite IH, splitPeerIds_step_category, filter_cons.
  destruct (category Pretty ls p) as [k'|] eqn:E; [|by rewrite decide_False by done].
  rewrite map_get_append_to. destruct (decide (k' = k)) as [->|Hk].
  - rewrite decide_True by done. simpl. by rewrite <- app_assoc.
  - by rewrite decide_False by congruence.
Qed.

Lemma splitPeerIds_get ls peers k :
  map_get (splitPeerIds Pretty ls peers) k =
  withDistance ls <$> filter (fun p => category Pretty ls p = Some k) peers.
Proof.
  unfold splitPeerIds. rewrite fold_split_get.
  assert (map_get (list_to_map [(intraShardValidators, []); (intraShardObservers, []);
    (crossShardValidators, []); (crossShardObservers, []); (seedersKey, []); (unknown, [])]
    : gmap Z (list PeerDistance)) k = []) as ->; [|done].
  unfold map_get. simpl. by repeat (rewrite lookup_insert; case_decide; [done|]).
Qed.
End split_facts.

(** The elements that have a category are, up to order, those of its lists. *)
Lemma filter_categories {A} (f : A -> option Z) (ks : list Z) (l : list A) :
  NoDup ks -> (forall x k, f x = Some k -> k ∈ ks) ->
  filter (fun x => is_Some (f x)) l ≡ₚ
  concat ((fun k => filter (fun x => f x = Some k) l) <$> ks).
Proof.
  intros Hnd Hin. induction l as [|x l IH].
  - simpl. clear. by induction ks.
  - rewrite filter_cons. destruct (f x) as [k|] eqn:E.
    + rewrite decide_True by done. rewrite IH. specialize (Hin x k E). clear IH.
      induction Hnd as [|k' ks Hk Hnd IH]; [set_solver|]. simpl.
      rewrite filter_cons. destruct (decide (f x = Some k')) as [E'|E'].
      * simpl. rewrite E in E'. injection E' as <-. constructor. apply Permutation_app_head.
        assert (Hr : forall k', k' ∈ ks -> filter (fun y => f y = Some k') (x :: l)
                                          = filter (fun y => f y = Some k') l).
        { intros k' Hk'. rewrite filter_cons, decide_False; [done|]. intros ?. congruence. }
        clear -Hr. induction ks as [|k1 ks IH]; [done|]. simpl.
        rewrite (Hr k1) by set_solver. apply Permutation_app_head, IH. set_solver.
      * rewrite Permutation_middle. apply Permutation_app_head, IH. set_solver.
    + rewrite decide_False by (intros [? ?]; done). rewrite IH. clear -E.
      induction ks as [|k ks IH]; [done|]. simpl. rewrite filter_cons, decide_False by congruence.
      by apply Permutation_app_head.
Qed.

(** *** What [evict] keeps *)

Section evict_facts.
Context (sort_Sort : list PeerDistance -> list PeerDistance) `{!SortSort sort_Sort}.

Lemma sorted_take_drop n (l : list PeerDistance) a b :
  a ∈ take n (sort_Sort l) -> b ∈ drop n (sort_Sort l) -> Distance a <= Distance b.
Proof.
  generalize (sort_Sort_sorted l). generalize (sort_Sort l) as s. clear l.
  intros s Hs Ha Hb. revert n Ha Hb. induction Hs as [|x s Hs IH Hx]; intros n Ha Hb.
  - rewrite take_nil in Ha. set_solver.
  - destruct n as [|n]; simpl in *; [set_solver|].
    apply elem_of_cons in Ha as [->|Ha]; [|by eapply IH].
    assert (Hb' : b ∈ s) by (rewrite <- (take_drop n s); set_solver).
    apply list_elem_of_In in Hb'. rewrite List.Forall_forall in Hx.
    specialize (Hx b Hb'). unfold Less in Hx.
    bdestruct_all. lia.
Qed.

(** The peers [evict] does not return *)
Definition keep (l : list PeerDistance) (n : Z) : list PeerDistance :=
  let n := if n <? 0 then 0 else n in
  if n >=? len l then l else take (Z.to_nat n) (sort_Sort l).

(** [evict] splits its list in the kept peers, the [numKeep] closest ones,
    and the evicted ones. *)
Lemma evict_split (l : list PeerDistance) n :
  exists evicted, l ≡ₚ keep l n ++ evicted /\ evict sort_Sort l n = ID <$> evicted
    /\ len (keep l n) = Z.min (Z.max 0 n) (len l)
    /\ (forall a b, a ∈ keep l n -> b ∈ evicted -> Distance a <= Distance b).
Proof.
  unfold evict, keep. set (k := if n <? 0 then 0 else n).
  assert (Hk : k = Z.max 0 n) by (unfold k; destruct (n <? 0) eqn:E; bdestruct_all; lia).
  rewrite Z.geb_leb. destruct (len l <=? k) eqn:E; bdestruct_all.
  - exists []. rewrite app_nil_r. split_and!; [done|done|lia|set_solver].
  - exists (drop (Z.to_nat k) (sort_Sort l)).
    rewrite take_drop. split_and!; [by rewrite sort_Sort_perm|done| |].
    + unfold len in *. rewrite length_take, (sort_Sort_perm l). lia.
    + apply sorted_take_drop.
Qed.
End evict_facts.

Lemma computeUsedAndSpare_spec existing maximum used remaining :
  0 <= existing -> 0 <= maximum < 2 ^ 62 ->
  computeUsedAndSpare existing maximum = (used, remaining) ->
  used = Z.min existing maximum /\ remaining = maximum - used.
Proof.
  intros He Hm. unfold computeUsedAndSpare.
  destruct (existing <? maximum) eqn:E; bdestruct_all; intros [= <- <-]; [|lia].
  int_simpl. lia.
Qed.

Lemma concat_fmap_app {A} (f g : Z -> list A) (ks : list Z) :
  concat ((fun k => f k ++ g k) <$> ks) ≡ₚ concat (f <$> ks) ++ concat (g <$> ks).
Proof.
  induction ks as [|k ks IH]; [done|]. simpl. rewrite IH. solve_Permutation.
Qed.

Lemma elem_of_concat_fmap {A B} (f : B -> list A) (ks : list B) x :
  x ∈ concat (f <$> ks) <-> exists k, k ∈ ks /\ x ∈ f k.
Proof.
  induction ks as [|k ks IH]; simpl; [set_solver|].
  rewrite elem_of_app, IH. set_solver.
Qed.

(** *** The limits of a lists sharder *)

(** The limits are the ones [NewListsSharder] accepts: the unknown peers get
    what the other lists leave of the target peer count. *)
Definition ls_wf (ls : listsSharder) : Prop :=
  1 <= maxIntraShardValidators ls /\ 1 <= maxCrossShardValidators ls
  /\ 1 <= maxIntraShardObservers ls /\ 1 <= maxCrossShardObservers ls
  /\ 0 <= maxSeeders ls /\ 1 <= maxUnknown ls
  /\ maxIntraShardValidators ls + maxCrossShardValidators ls + maxIntraShardObservers ls
     + maxCrossShardObservers ls + maxSeeders ls + maxUnknown ls = maxPeerCount ls
  /\ maxPeerCount ls < 2 ^ 32.

(** The configured maximum of each list *)
Definition quota (ls : listsSharder) (k : Z) : Z :=
  if k =? intraShardValidators then maxIntraShardValidators ls
  else if k =? crossShardValidators then maxCrossShardValidators ls
  else if k =? intraShardObservers then maxIntraShardObservers ls
  else if k =? crossShardObservers then maxCrossShardObservers ls
  else if k =? seedersKey then maxSeeders ls
  else maxUnknown ls.

Lemma ls_SetSeeders_wf ls addresses : ls_wf ls -> ls_wf (ls_SetSeeders ls addresses).
Proof. done. Qed.

Lemma ls_SetPeerShardResolver_wf ls psp : ls_wf ls -> ls_wf (ls_SetPeerShardResolver ls psp).1.
Proof. by destruct psp. Qed.

Section eviction_facts.
Context (Pretty : PeerID -> string).
Context (sort_Sort : list PeerDistance -> list PeerDistance) `{!SortSort sort_Sort}.
Implicit Types (ls : listsSharder) (p q : PeerID) (peers : list PeerID).

(** The peers of a category, in the order of the peer list *)
Definition members ls peers (k : Z) : list PeerID :=
  filter (fun p => category Pretty ls p = Some k) peers.

Lemma members_perm ls peers :
  filter (fun p => is_Some (category Pretty ls p)) peers ≡ₚ
  concat (members ls peers <$> categories).
Proof.
  apply filter_categories; [|by intros; eapply category_in].
  apply (bool_decide_unpack _). by vm_compute.
Qed.

(** The peers of a category that stay connected *)
Definition kept_of ls peers (k n : Z) : list PeerID :=
  ID <$> keep sort_Sort (map_get (splitPeerIds Pretty ls peers) k) n.

Definition evicted_of ls peers (k n : Z) : list PeerID :=
  evict sort_Sort (map_get (splitPeerIds Pretty ls peers) k) n.

(** The outcome of the eviction of one list *)
Record cut ls peers (k n : Z) : Prop := {
  cut_perm : members ls peers k ≡ₚ kept_of ls peers k n ++ evicted_of ls peers k n;
  cut_len : len (kept_of ls peers k n) = Z.min n (len (members ls peers k));
  cut_dist p q : p ∈ kept_of ls peers k n -> q ∈ evicted_of ls peers k n ->
    computeDistance ls p (selfPeerId ls) <= computeDistance ls q (selfPeerId ls);
}.

Lemma evict_cut ls peers k n : 0 <= n -> cut ls peers k n.
Proof.
  intros Hn.
  assert (Hin : map_get (splitPeerIds Pretty ls peers) k = withDistance ls <$> members ls peers k)
    by apply splitPeerIds_get.
  destruct (evict_split sort_Sort (map_get (splitPeerIds Pretty ls peers) k) n)
    as (evicted & Hp & He & Hl & Hd).
  assert (Hall : forall a, a ∈ keep sort_Sort (map_get (splitPeerIds Pretty ls peers) k) n
    ++ evicted -> a = withDistance ls (ID a)).
  { intros a Ha. rewrite <- Hp, Hin in Ha.
    apply list_elem_of_fmap in Ha as (p & -> & _). done. }
  split; unfold kept_of, evicted_of; rewrite ?He.
  - rewrite <- fmap_app, <- Hp, Hin, <- list_fmap_compose. by rewrite list_fmap_id.
  - rewrite Hin in *. unfold len in *. rewrite !length_fmap in *. lia.
  - intros p q Hp' Hq'. apply list_elem_of_fmap in Hp' as (a & -> & Ha), Hq' as (b & -> & Hb).
    specialize (Hd a b Ha Hb). rewrite (Hall a), (Hall b) in Hd by set_solver. done.
Qed.

(** The number of peers kept of each list: what a list leaves of its share
    goes to the next one, except that seeders have only their own share. *)
Record shares ls peers (n : Z -> Z) : Prop := {
  shares_nonneg k : k ∈ categories -> 0 <= n k;
  shares_quota k : k ∈ categories -> Z.min (quota ls k) (len (members ls peers k)) <= n k;
  shares_seeders : n seedersKey <= maxSeeders ls;
  shares_total : n intraShardValidators + n crossShardValidators + n intraShardObservers
    + n crossShardObservers + n seedersKey + n unknown <= maxPeerCount ls;
}.

Lemma ComputeEvictionList_shares ls peers :
  ls_wf ls -> exists n, shares ls peers n /\
    ComputeEvictionList Pretty sort_Sort ls peers =
    concat ((fun k => evicted_of ls peers k (n k)) <$> categories).
Proof.
  intros (H1 & H2 & H3 & H4 & H5 & H6 & Hsum & Hmax). unfold ComputeEvictionList.
  assert (Hlen : forall k, len (map_get (splitPeerIds Pretty ls peers) k)
                           = len (members ls peers k)).
  { intros k. rewrite splitPeerIds_get. unfold len. by rewrite length_fmap. }
  rewrite !Hlen.
  assert (Hnn : forall k, 0 <= len (members ls peers k)) by (intros; apply len_nonneg).
  destruct (computeUsedAndSpare _ (maxIntraShardValidators ls)) as [n1 r1] eqn:E1.
  apply computeUsedAndSpare_spec in E1 as [Hn1 Hr1]; [|done|lia].
  pose proof (Hnn intraShardValidators).
  int_simpl.
  destruct (computeUsedAndSpare _ (maxCrossShardValidators ls + r1)) as [n2 r2] eqn:E2.
  apply computeUsedAndSpare_spec in E2 as [Hn2 Hr2]; [|done|lia].
  pose proof (Hnn crossShardValidators).
  int_simpl.
  destruct (computeUsedAndSpare _ (maxIntraShardObservers ls + r2)) as [n3 r3] eqn:E3.
  apply computeUsedAndSpare_spec in E3 as [Hn3 Hr3]; [|done|lia].
  pose proof (Hnn intraShardObservers).
  int_simpl.
  destruct (computeUsedAndSpare _ (maxCrossShardObservers ls + r3)) as [n4 r4] eqn:E4.
  apply computeUsedAndSpare_spec in E4 as [Hn4 Hr4]; [|done|lia].
  pose proof (Hnn crossShardObservers).
  destruct (computeUsedAndSpare _ (maxSeeders ls)) as [n5 r5] eqn:E5.
  apply computeUsedAndSpare_spec in E5 as [Hn5 Hr5]; [|done|lia].
  pose proof (Hnn seedersKey).
  int_simpl.
  destruct (computeUsedAndSpare _ (maxUnknown ls + r4)) as [n6 r6] eqn:E6.
  apply computeUsedAndSpare_spec in E6 as [Hn6 Hr6]; [|done|lia].
  pose proof (Hnn unknown).
  exists (fun k => if k =? intraShardValidators then n1 else if k =? crossShardValidators then n2
    else if k =? intraShardObservers then n3 else if k =? crossShardObservers then n4
    else if k =? seedersKey then n5 else n6).
  split.
  - unfold categories. split; simpl; [| |lia|lia]; intros k Hk;
      repeat (apply elem_of_cons in Hk as [->|Hk]); try (by apply elem_of_nil in Hk);
      unfold quota; simpl; lia.
  - simpl. by rewrite app_nil_r, !app_assoc.
Qed.

Lemma members_elem ls peers k p :
  p ∈ members ls peers k <-> category Pretty ls p = Some k /\ p ∈ peers.
Proof. unfold members. by rewrite list_elem_of_filter. Qed.

(** An evicted peer comes from the list of its category. *)
Lemma evicted_of_category ls peers k n p :
  0 <= n -> p ∈ evicted_of ls peers k n -> category Pretty ls p = Some k /\ p ∈ peers.
Proof.
  intros Hn Hp. apply members_elem. rewrite (cut_perm _ _ _ _ (evict_cut ls peers k n Hn)).
  set_solver.
Qed.

Lemma kept_of_category ls peers k n p :
  0 <= n -> p ∈ kept_of ls peers k n -> category Pretty ls p = Some k /\ p ∈ peers.
Proof.
  intros Hn Hp. apply members_elem. rewrite (cut_perm _ _ _ _ (evict_cut ls peers k n Hn)).
  set_solver.
Qed.

Lemma seeder_category ls p :
  ls_IsSeeder Pretty ls p = true <-> category Pretty ls p = Some seedersKey.
Proof. unfold category. by repeat case_match. Qed.

Lemma kept_of_not_seeder ls peers k n :
  0 <= n -> k <> seedersKey ->
  filter (fun p => ls_IsSeeder Pretty ls p = true) (kept_of ls peers k n) = [].
Proof.
  intros Hn Hk. apply filter_none. intros p Hp.
  destruct (kept_of_category ls peers k n p Hn Hp) as [Hc _].
  rewrite seeder_category. congruence.
Qed.
End eviction_facts.

(** The peers the sharder counts: the seeders, and the peers that are not
    preferred and whose kind it knows. *)
Definition counted (Pretty : PeerID -> string) (ls : listsSharder) (p : PeerID) : bool :=
  ls_IsSeeder Pretty ls p
  || negb (preferredPeersHolder ls p)
     && match PeerType (peerShardResolver ls p) with OtherPeer _ => false | _ => true end.

Lemma counted_category Pretty ls p :
  counted Pretty ls p = true <-> is_Some (category Pretty ls p).
Proof.
  unfold counted, category.
  destruct (ls_IsSeeder _ _ _), (preferredPeersHolder _ _),
    (PeerType (peerShardResolver ls p)),
    (ShardID (peerShardResolver ls p) =? ShardID (peerShardResolver ls (selfPeerId ls)));
    simpl; naive_solver.
Qed.

Lemma filter_counted Pretty ls (peers : list PeerID) :
  filter (fun p => counted Pretty ls p = true) peers
  = filter (fun p => is_Some (category Pretty ls p)) peers.
Proof. apply list_filter_iff. intros p. apply counted_category. Qed.

Section eviction_theorems.
Context (Pretty : PeerID -> string).
Context (sort_Sort : list PeerDistance -> list PeerDistance) `{!SortSort sort_Sort}.
Implicit Types (ls : listsSharder) (p q : PeerID) (peers : list PeerID).

Lemma ComputeEvictionList_elem ls peers p :
  ls_wf ls -> p ∈ ComputeEvictionList Pretty sort_Sort ls peers -> p ∈ peers.
Proof.
  intros Hwf Hp.
  destruct (ComputeEvictionList_shares Pretty sort_Sort ls peers Hwf) as (n & Hn & He).
  rewrite He in Hp. apply elem_of_concat_fmap in Hp as (k & Hk & Hp).
  by apply (evicted_of_category _ _ _ _ _ _ _ (shares_nonneg _ _ _ _ Hn k Hk)) in Hp as [_ ?].
Qed.

(** The split behind the bound on the connections *)
Lemma ComputeEvictionList_bounded ls peers (Hwf : ls_wf ls) :
  exists kept,
    filter (fun p => counted Pretty ls p = true) peers
      ≡ₚ kept ++ ComputeEvictionList Pretty sort_Sort ls peers
    /\ len kept <= maxPeerCount ls
    /\ len (filter (fun p => ls_IsSeeder Pretty ls p = true) kept) <= maxSeeders ls.
Proof.
  destruct (ComputeEvictionList_shares Pretty sort_Sort ls peers Hwf) as (n & Hn & ->).
  pose proof (fun k Hk => evict_cut Pretty sort_Sort ls peers k (n k)
                            (shares_nonneg _ _ _ _ Hn k Hk)) as Hcut.
  exists (concat ((fun k => kept_of Pretty sort_Sort ls peers k (n k)) <$> categories)).
  split_and!.
  - rewrite filter_counted, members_perm, <- concat_fmap_app.
    unfold categories in *. simpl. repeat apply Permutation_app; try done;
      apply cut_perm, Hcut; set_solver.
  - pose proof (shares_total _ _ _ _ Hn).
    assert (Hk : forall k, k ∈ categories ->
      len (kept_of Pretty sort_Sort ls peers k (n k)) <= n k).
    { intros k Hk. rewrite (cut_len _ _ _ _ _ _ (Hcut k Hk)). lia. }
    unfold categories in *. simpl. rewrite app_nil_r, !len_app.
    pose proof (Hk intraShardValidators ltac:(set_solver)).
    pose proof (Hk crossShardValidators ltac:(set_solver)).
    pose proof (Hk intraShardObservers ltac:(set_solver)).
    pose proof (Hk crossShardObservers ltac:(set_solver)).
    pose proof (Hk seedersKey ltac:(set_solver)). pose proof (Hk unknown ltac:(set_solver)).
    lia.
  - pose proof (shares_seeders _ _ _ _ Hn).
    pose proof (shares_nonneg _ _ _ _ Hn) as Hnn.
    pose proof (cut_len _ _ _ _ _ _ (Hcut seedersKey ltac:(set_solver))).
    unfold categories in *. simpl. rewrite !filter_app, app_nil_r.
    do 4 rewrite (kept_of_not_seeder Pretty sort_Sort) by (done || (apply Hnn; set_solver)).
    rewrite (kept_of_not_seeder Pretty sort_Sort _ _ unknown)
      by (done || (apply Hnn; set_solver)).
    simpl. rewrite app_nil_r.
    pose proof (len_filter (fun p => ls_IsSeeder Pretty ls p = true)
      (kept_of Pretty sort_Sort ls peers seedersKey (n seedersKey))). lia.
Qed.

(** C6: the lists sharder keeps its promise on the number of connections.
    Whatever the connected peers are, the counted peers (all but the preferred
    ones and those of no known kind) are split in those [ComputeEvictionList]
    evicts and a rest of at most [maxPeerCount] peers, with at most
    [maxSeeders] seeders; nothing is lost or evicted twice. *)
Theorem ComputeEvictionList_bound ls peers (Hwf : ls_wf ls) :
  exists kept,
    filter (fun p => counted Pretty ls p = true) peers
      ≡ₚ kept ++ ComputeEvictionList Pretty sort_Sort ls peers
    /\ len kept <= maxPeerCount ls
    /\ len (filter (fun p => ls_IsSeeder Pretty ls p = true) kept) <= maxSeeders ls.
Proof. by apply ComputeEvictionList_bounded. Qed.

(** C29: eviction prefers the far peers. Within a list (the seeders, the
    unknown peers, and the four lists by kind and shard), a peer that stays is
    at most as far from the node as any peer that is evicted. *)
Theorem ComputeEvictionList_farthest ls peers p q (Hwf : ls_wf ls)
    (Hp : p ∈ ComputeEvictionList Pretty sort_Sort ls peers)
    (Hq : q ∈ peers) (Hq' : q ∉ ComputeEvictionList Pretty sort_Sort ls peers)
    (Hcat : category Pretty ls q = category Pretty ls p) :
  computeDistance ls q (selfPeerId ls) <= computeDistance ls p (selfPeerId ls).
Proof.
  destruct (ComputeEvictionList_shares Pretty sort_Sort ls peers Hwf) as (n & Hn & He).
  rewrite He in Hp, Hq'. apply elem_of_concat_fmap in Hp as (k & Hk & Hp).
  pose proof (shares_nonneg _ _ _ _ Hn k Hk) as Hnk.
  pose proof (evict_cut Pretty sort_Sort ls peers k (n k) Hnk) as Hcut.
  apply (cut_dist _ _ _ _ _ _ Hcut); [|done].
  apply evicted_of_category in Hp as [Hkp _]; try done.
  assert (Hm : q ∈ members Pretty ls peers k) by (apply members_elem; split; congruence).
  rewrite (cut_perm _ _ _ _ _ _ Hcut) in Hm. apply elem_of_app in Hm as [|Hm]; [done|].
  destruct Hq'. apply elem_of_concat_fmap. by exists k.
Qed.

(** C28: eviction is not arbitrary. Only connected peers are evicted, never a
    preferred peer that is not a seeder, and none of a list that is within
    its configured maximum: a list that exceeds its own maximum cannot push
    out the peers of another one. *)
Theorem ComputeEvictionList_quota ls peers p (Hwf : ls_wf ls)
    (Hp : p ∈ ComputeEvictionList Pretty sort_Sort ls peers) :
  p ∈ peers
  /\ (preferredPeersHolder ls p = true -> ls_IsSeeder Pretty ls p = true)
  /\ exists k, category Pretty ls p = Some k
       /\ quota ls k < len (filter (fun q => category Pretty ls q = Some k) peers).
Proof.
  destruct (ComputeEvictionList_shares Pretty sort_Sort ls peers Hwf) as (n & Hn & He).
  rewrite He in Hp. apply elem_of_concat_fmap in Hp as (k & Hk & Hp).
  pose proof (shares_nonneg _ _ _ _ Hn k Hk) as Hnk.
  pose proof (shares_quota _ _ _ _ Hn k Hk) as Hquota.
  pose proof (evict_cut Pretty sort_Sort ls peers k (n k) Hnk) as [Hperm Hl _].
  destruct (evicted_of_category _ _ _ _ _ _ _ Hnk Hp) as [Hc Hin].
  split_and!; [done| |exists k; split; [done|]].
  - intros Hpref. unfold category in Hc. rewrite Hpref in Hc. by case_match.
  - apply len_perm in Hperm. rewrite len_app in Hperm.
    fold (members Pretty ls peers k).
    destruct (evicted_of Pretty sort_Sort ls peers k (n k)); [set_solver|].
    rewrite len_cons in Hperm. pose proof (len_nonneg l).
    pose proof (len_nonneg (kept_of Pretty sort_Sort ls peers k (n k))). lia.
Qed.
End eviction_theorems.

(** The outcomes of the constructor *)
Lemma NewListsSharder_ok ConvertPeerID arg :
  sharding_config_wf (Sharding (als_P2pConfig arg)) ->
  match NewListsSharder ConvertPeerID arg with
  | Ok ls => ls_wf ls
  | Err e => e = ErrNilPeerShardResolver \/ e = ErrInvalidValue \/ e = ErrNilPreferredPeersHolder
      \/ e = ErrNilLogger
  end.
Proof.
  unfold NewListsSharder, processNumConnections, sharding_config_wf, in_u.
  set (c := Sharding (als_P2pConfig arg)) in *. cbv zeta. intros Hcfg.
  destruct (als_PeerResolver arg) as [r|]; [|by left].
  unfold guard_err, minAllowedConnectedPeersListSharder, minAllowedValidators,
    minAllowedObservers, minUnknownPeers, mbind, result_bind.
  int_simpl.
  destruct (als_PreferredPeersHolder arg) as [h|]; destruct (als_Logger arg);
    repeat case_goal; bdestruct_all; simplify_eq; try (unfold ls_wf; simpl); naive_solver lia.
Qed.

(** The constructor accepts exactly the configurations that leave room for
    an unknown peer, and the sharder it builds has the limits of the
    configuration, the unknown peers taking what the other lists leave. *)
Theorem NewListsSharder_spec ConvertPeerID arg
    (Hcfg : sharding_config_wf (Sharding (als_P2pConfig arg))) :
  let c := Sharding (als_P2pConfig arg) in
  match NewListsSharder ConvertPeerID arg with
  | Ok ls => ls_wf ls /\ maxPeerCount ls = TargetPeerCount c /\ maxSeeders ls = MaxSeeders c
      /\ seeders ls = [] /\ computeDistance ls = computeDistanceByCountingBits ConvertPeerID
  | Err _ => als_PeerResolver arg = None \/ als_PreferredPeersHolder arg = None
      \/ als_Logger arg = false \/ TargetPeerCount c < 5
      \/ MaxIntraShardValidators c < 1 \/ MaxCrossShardValidators c < 1
      \/ MaxIntraShardObservers c < 1 \/ MaxCrossShardObservers c < 1
      \/ TargetPeerCount c <= MaxIntraShardValidators c + MaxCrossShardValidators c
           + MaxIntraShardObservers c + MaxCrossShardObservers c + MaxSeeders c
  end.
Proof.
  unfold NewListsSharder, processNumConnections, sharding_config_wf, in_u in *.
  set (c := Sharding (als_P2pConfig arg)) in *. cbv zeta.
  destruct (als_PeerResolver arg) as [r|]; [|by left].
  unfold guard_err, minAllowedConnectedPeersListSharder, minAllowedValidators,
    minAllowedObservers, minUnknownPeers, mbind, result_bind.
  int_simpl.
  destruct (als_PreferredPeersHolder arg) as [h|]; destruct (als_Logger arg);
    repeat case_goal; bdestruct_all; simplify_eq; try pick_disjunct.
  all: unfold ls_wf; simpl; split_and!; (done || lia).
Qed.

(** What the sharder keeps of its arguments, whatever the configuration *)
Lemma processNumConnections_fields arg :
  match processNumConnections arg with
  | Ok pc => pc_maxPeerCount pc = TargetPeerCount (Sharding (als_P2pConfig arg))
             /\ pc_seeders pc = MaxSeeders (Sharding (als_P2pConfig arg))
  | Err _ => True
  end.
Proof. unfold processNumConnections. cbv zeta. destruct (_ >? _); [done|]. by split. Qed.

Lemma NewListsSharder_fields ConvertPeerID arg ls :
  NewListsSharder ConvertPeerID arg = Ok ls ->
  Some (peerShardResolver ls) = als_PeerResolver arg /\ selfPeerId ls = als_SelfPeerId arg
  /\ Some (preferredPeersHolder ls) = als_PreferredPeersHolder arg
  /\ maxPeerCount ls = TargetPeerCount (Sharding (als_P2pConfig arg))
  /\ maxSeeders ls = MaxSeeders (Sharding (als_P2pConfig arg))
  /\ seeders ls = [] /\ computeDistance ls = computeDistanceByCountingBits ConvertPeerID.
Proof.
  pose proof (processNumConnections_fields arg) as Hpc. unfold NewListsSharder. revert Hpc.
  generalize (processNumConnections arg). intros pcs Hpc. cbv zeta.
  destruct (als_PeerResolver arg) as [resolver|]; [|done]. intros Hl. rewrite !guard_err_Ok in Hl.
  destruct Hl as (_ & _ & _ & _ & _ & Hl).
  destruct (als_PreferredPeersHolder arg) as [holder|]; [|done]. apply guard_err_Ok in Hl as [_ Hl].
  apply bind_Ok in Hl as (pc & -> & [= <-]). destruct Hpc. by split_and!.
Qed.

(** *** The distances *)

Definition bits8 (b : byte) : list bool :=
  let '(b0, (b1, (b2, (b3, (b4, (b5, (b6, b7))))))) := Byte.to_bits b in
  [b0; b1; b2; b3; b4; b5; b6; b7].

Definition all_bytes : list byte := byte_of ∘ Z.of_nat <$> seq 0 256.

Lemma all_bytes_in b : b ∈ all_bytes.
Proof.
  apply list_elem_of_fmap. exists (Z.to_nat (byte_val b)). pose proof (byte_val_range b). split.
  - simpl. by rewrite Z2Nat.id, byte_of_val by lia.
  - apply elem_of_seq. lia.
Qed.

(** Checks a property of one byte, or of two, by evaluation. *)
Lemma all_bytes_ind (P : byte -> bool) : forallb P all_bytes = true -> forall b, P b = true.
Proof. rewrite forallb_forall. intros H b. apply H, list_elem_of_In, all_bytes_in. Qed.

Lemma byte_xor_val a b : byte_val (byte_xor a b) = Z.lxor (byte_val a) (byte_val b).
Proof.
  unfold byte_xor. apply byte_val_of_small.
  pose proof (byte_val_range a). pose proof (byte_val_range b).
  assert (0 <= Z.lxor (byte_val a) (byte_val b)) by (apply Z.lxor_nonneg; lia).
  split; [done|]. destruct (Z.eq_dec (Z.lxor (byte_val a) (byte_val b)) 0) as [->|]; [lia|].
  apply (Z.log2_lt_cancel _ (2 ^ 8)). rewrite Z.log2_pow2 by lia.
  assert (Hlog : forall z, 0 <= z < 256 -> Z.log2 z < 8).
  { intros z Hz. destruct (Z.eq_dec z 0) as [->|]; [done|]. apply Z.log2_lt_pow2; lia. }
  pose proof (Z.log2_lxor (byte_val a) (byte_val b) ltac:(lia) ltac:(lia)).
  pose proof (Hlog (byte_val a)). pose proof (Hlog (byte_val b)). lia.
Qed.

Lemma bits8_testbit b : bits8 b = Z.testbit (byte_val b) <$> [0; 1; 2; 3; 4; 5; 6; 7].
Proof.
  eapply bool_decide_eq_true_1. revert b.
  apply (all_bytes_ind (fun b =>
    bool_decide (bits8 b = Z.testbit (byte_val b) <$> [0; 1; 2; 3; 4; 5; 6; 7]))).
  by vm_compute.
Qed.

Lemma bits8_xor a b : bits8 (byte_xor a b) = zip_with xorb (bits8 a) (bits8 b).
Proof.
  rewrite !bits8_testbit, byte_xor_val. generalize [0; 1; 2; 3; 4; 5; 6; 7].
  intros l. induction l as [|i l IH]; [done|]. rewrite !fmap_cons, IH.
  cbn [zip_with]. by rewrite Z.lxor_spec.
Qed.

Lemma OnesCount8_bits b : OnesCount8 b = foldr Z.add 0 (Z.b2z <$> bits8 b).
Proof.
  unfold OnesCount8, bits8. destruct (Byte.to_bits b) as (?&?&?&?&?&?&?&?). simpl. lia.
Qed.

Lemma byte_xor_eq_0 a b : byte_val (byte_xor a b) = 0 <-> a = b.
Proof.
  rewrite byte_xor_val, Z.lxor_eq_0_iff. split; [apply byte_val_inj|by intros ->].
Qed.

Lemma OnesCount8_xor_comm a b : OnesCount8 (byte_xor a b) = OnesCount8 (byte_xor b a).
Proof. unfold byte_xor. by rewrite Z.lxor_comm. Qed.

Lemma OnesCount8_range b : 0 <= OnesCount8 b <= 8.
Proof.
  unfold OnesCount8. destruct (Byte.to_bits b) as (b0&b1&b2&b3&b4&b5&b6&b7).
  destruct b0, b1, b2, b3, b4, b5, b6, b7; simpl; lia.
Qed.

Lemma OnesCount8_0 b : OnesCount8 b = 0 <-> byte_val b = 0.
Proof.
  rewrite <- !Z.eqb_eq.
  enough (H : Bool.eqb (OnesCount8 b =? 0) (byte_val b =? 0) = true)
    by (apply Bool.eqb_prop in H; by rewrite H).
  revert b. apply (all_bytes_ind (fun b => Bool.eqb (OnesCount8 b =? 0) (byte_val b =? 0))).
  by vm_compute.
Qed.

Lemma OnesCount8_xor_triangle a b c :
  OnesCount8 (byte_xor a c) <= OnesCount8 (byte_xor a b) + OnesCount8 (byte_xor b c).
Proof.
  rewrite !OnesCount8_bits, !bits8_xor.
  assert (Hx : forall x y z, Z.b2z (xorb x z) <= Z.b2z (xorb x y) + Z.b2z (xorb y z))
    by (intros [] [] []; simpl; lia).
  assert (Hl : forall x y z : list bool, length x = length y -> length y = length z ->
    foldr Z.add 0 (Z.b2z <$> zip_with xorb x z) <=
    foldr Z.add 0 (Z.b2z <$> zip_with xorb x y) + foldr Z.add 0 (Z.b2z <$> zip_with xorb y z)).
  { clear -Hx. induction x as [|x xs IH]; intros [|y ys] [|z zs] Hy Hz; try done.
    cbn [length zip_with] in *. rewrite !fmap_cons. cbn [foldr].
    specialize (IH ys zs ltac:(lia) ltac:(lia)). specialize (Hx x y z). lia. }
  apply Hl; unfold bits8; destruct (Byte.to_bits a) as (?&?&?&?&?&?&?&?),
    (Byte.to_bits b) as (?&?&?&?&?&?&?&?), (Byte.to_bits c) as (?&?&?&?&?&?&?&?); done.
Qed.

(** The counting loop adds the distances of the pairs of bytes. *)
Definition hamming (x y : list byte) : Z :=
  foldr Z.add 0 (zip_with (fun a b => OnesCount8 (byte_xor a b)) x y).

Lemma count_bits_loop_hamming x y n : count_bits_loop (zip x y) n = n + hamming x y.
Proof.
  revert y n. induction x as [|a x IH]; intros [|b y] n; unfold hamming; simpl; try lia.
  rewrite IH. unfold hamming. lia.
Qed.

Lemma hamming_sym x y : hamming x y = hamming y x.
Proof.
  revert y. induction x as [|a x IH]; intros [|b y]; unfold hamming; simpl; try done.
  rewrite OnesCount8_xor_comm. f_equal. apply IH.
Qed.

Lemma hamming_range x y : 0 <= hamming x y <= 8 * len x.
Proof.
  revert y. induction x as [|a x IH]; intros y; [by unfold hamming, len|].
  pose proof (len_nonneg x). rewrite len_cons. unfold hamming.
  destruct y as [|b y]; simpl; [lia|]. specialize (IH y). unfold hamming in IH. pose proof (OnesCount8_range (byte_xor a b)). lia.
Qed.

Lemma hamming_0 x y : length x = length y -> hamming x y = 0 <-> x = y.
Proof.
  revert y. induction x as [|a x IH]; intros [|b y]; try done. intros [= Hl].
  specialize (IH y Hl). unfold hamming in *. simpl.
  pose proof (OnesCount8_range (byte_xor a b)). pose proof (hamming_range x y) as Hr.
  unfold hamming in Hr. pose proof (OnesCount8_0 (byte_xor a b)) as H0.
  rewrite byte_xor_eq_0 in H0. split.
  - intros Hs. f_equal; [apply H0; lia|apply IH; lia].
  - intros [= -> ->]. destruct H0 as [_ ->]; [|done]. destruct IH as [_ ->]; done.
Qed.

Lemma hamming_triangle x y z :
  length x = length y -> length y = length z -> hamming x z <= hamming x y + hamming y z.
Proof.
  revert y z. induction x as [|a x IH]; intros [|b y] [|c z] Hy Hz; try done.
  simpl in *. unfold hamming in *. simpl. specialize (IH y z ltac:(lia) ltac:(lia)).
  pose proof (OnesCount8_xor_triangle a b c). lia.
Qed.

(** The distance the sharders sort by is a metric on the hashed peer IDs:
    it is a number of bits between 0 and 256, symmetric, zero exactly on peers
    with the same hash, and it satisfies the triangle inequality. *)
Theorem computeDistanceByCountingBits_metric (h : PeerID -> vec byte 32) p q r :
  let d := computeDistanceByCountingBits h in
  0 <= d p q <= 256 /\ d p q = d q p /\ (d p q = 0 <-> h p = h q) /\ d p r <= d p q + d q r.
Proof.
  unfold computeDistanceByCountingBits. simpl. rewrite !count_bits_loop_hamming, !Z.add_0_l.
  assert (Hl : forall p, length (vec_to_list (h p)) = 32%nat) by (intros; apply length_vec_to_list).
  split_and!.
  - apply hamming_range.
  - pose proof (hamming_range (h p) (h q)). unfold len in *. rewrite Hl in *. lia.
  - apply hamming_sym.
  - rewrite hamming_0 by (by rewrite !Hl). split; [apply vec_to_list_inj2|by intros ->].
  - apply hamming_triangle; by rewrite !Hl.
Qed.

(** The big endian value of a buffer, and the number of bits of a number *)
Definition be_value (l : bytes) : Z := fold_left (fun acc b => acc * 256 + byte_val b) l 0.
Definition bit_length (z : Z) : Z := if z =? 0 then 0 else Z.log2 z + 1.

Lemma be_value_acc l acc :
  fold_left (fun acc b => acc * 256 + byte_val b) l acc = acc * 256 ^ len l + be_value l.
Proof.
  unfold be_value. revert acc. induction l as [|b l IH]; intros acc; simpl.
  - rewrite len_nil. lia.
  - rewrite IH, (IH (0 * 256 + byte_val b)), len_cons, Z.pow_add_r by (pose proof (len_nonneg l); lia).
    lia.
Qed.

Lemma be_value_cons b l : be_value (b :: l) = byte_val b * 256 ^ len l + be_value l.
Proof. unfold be_value at 1. simpl. by rewrite be_value_acc. Qed.

Lemma be_value_range l : 0 <= be_value l < 256 ^ len l.
Proof.
  induction l as [|b l IH]; [by unfold be_value, len|].
  rewrite be_value_cons, len_cons, Z.pow_add_r by (pose proof (len_nonneg l); lia).
  pose proof (byte_val_range b). nia.
Qed.

Lemma leadingZerosCount_bit_length b :
  leadingZerosCount !!! Z.to_nat (byte_val b) = 8 - bit_length (byte_val b).
Proof.
  apply Z.eqb_eq. revert b. apply (all_bytes_ind (fun b =>
    leadingZerosCount !!! Z.to_nat (byte_val b) =? 8 - bit_length (byte_val b))).
  by vm_compute.
Qed.

Lemma bit_length_shift b n r :
  0 < b -> 0 <= n -> 0 <= r < 256 ^ n -> bit_length (b * 256 ^ n + r) = 8 * n + bit_length b.
Proof.
  intros Hb Hn Hr. unfold bit_length.
  assert (He : 256 ^ n = 2 ^ (8 * n)) by (rewrite Z.pow_mul_r by lia; done).
  rewrite He in *.
  destruct (_ =? 0) eqn:E1; [apply Z.eqb_eq in E1; nia|].
  destruct (b =? 0) eqn:E2; bdestruct_all; [lia|].
  enough (Z.log2 (b * 2 ^ (8 * n) + r) = 8 * n + Z.log2 b) by lia.
  apply Z.log2_unique; [pose proof (Z.log2_nonneg b); lia|].
  pose proof (Z.log2_spec b Hb) as [Hlo Hhi].
  replace (Z.succ (8 * n + Z.log2 b)) with (Z.succ (Z.log2 b) + 8 * n) by lia.
  rewrite (Z.add_comm (8 * n)), !Z.pow_add_r by (pose proof (Z.log2_nonneg b); lia).
  nia.
Qed.

Lemma log2_loop_spec x y n :
  length x = length y ->
  log2_loop (zip x y) n = n + 8 * len x - bit_length (be_value (zip_with byte_xor x y)).
Proof.
  revert y n. induction x as [|a x IH]; intros [|b y] n Hl; try done; simpl.
  - unfold bit_length, be_value, len. simpl. lia.
  - simpl in Hl. rewrite leadingZerosCount_bit_length, be_value_cons, len_cons.
    pose proof (be_value_range (zip_with byte_xor x y)) as Hr.
    assert (Hz : len (zip_with byte_xor x y) = len x)
      by (unfold len; rewrite length_zip_with; lia).
    rewrite Hz in *. pose proof (byte_val_range (byte_xor a b)).
    destruct (_ =? 0) eqn:E; bdestruct_all.
    + rewrite IH, E, Z.mul_0_l, Z.add_0_l by lia. change (bit_length 0) with 0. lia.
    + rewrite bit_length_shift by (pose proof (len_nonneg x); lia). lia.
Qed.

(** The table driven [computeDistanceLog2Based] computes what its name
    says: the number of significant bits of the xor of the two hashes read as
    big endian numbers, that is 0 for equal hashes and
    [1 + floor (log2 (xor))] for the others. *)
Theorem computeDistanceLog2Based_spec (h : PeerID -> vec byte 32) p q :
  computeDistanceLog2Based h p q = bit_length (be_value (zip_with byte_xor (h p) (h q))).
Proof.
  unfold computeDistanceLog2Based. rewrite log2_loop_spec by (by rewrite !length_vec_to_list). lia.
Qed.

(** ** The factory and the interface *)

(** networksharding/factory/sharderFactory.go *)
Record ArgsSharderFactory := {
  asf_PeerShardResolver : option PeerShardResolver;
  asf_Pid : PeerID;
  asf_P2pConfig : P2PConfig;
  asf_PreferredPeersHolder : option (PeerID -> bool);
  asf_Logger : bool;
}.

(** The dynamic types behind a [p2p.Sharder] *)
Inductive Sharder :=
| SLists (ls : listsSharder)
| SOneList (ols : oneListSharder)
| SNil.

Definition listSharder (ConvertPeerID : PeerID -> vec byte 32) (arg : ArgsSharderFactory)
    : result Sharder :=
  let argListsSharder := {|
    als_PeerResolver := asf_PeerShardResolver arg;
    als_SelfPeerId := asf_Pid arg;
    als_P2pConfig := asf_P2pConfig arg;
    als_PreferredPeersHolder := asf_PreferredPeersHolder arg;
    als_Logger := asf_Logger arg;
  |} in
  SLists <$> NewListsSharder ConvertPeerID argListsSharder.

Definition oneListSharder_factory (ConvertPeerID : PeerID -> vec byte 32)
    (arg : ArgsSharderFactory) : result Sharder :=
  SOneList <$> NewOneListSharder ConvertPeerID (asf_Pid arg)
    (TargetPeerCount (Sharding (asf_P2pConfig arg))).

Definition NewSharder (ConvertPeerID : PeerID -> vec byte 32) (arg : ArgsSharderFactory)
    : result Sharder :=
  guard_err (negb (asf_Logger arg)) ErrNilLogger $
  let shardingType := sh_Type (Sharding (asf_P2pConfig arg)) in
  if decide (shardingType = ListsSharder) then listSharder ConvertPeerID arg
  else if decide (shardingType = OneListSharder) then oneListSharder_factory ConvertPeerID arg
  else if decide (shardingType = NilListSharder) then Ok SNil
  else Err ErrInvalidValue.

(** The methods of [p2p.Sharder], dispatched on the dynamic type *)
Section dispatch.
Context (Pretty : PeerID -> string).
Context (sort_Sort : list PeerDistance -> list PeerDistance).

Definition sh_ComputeEvictionList (sh : Sharder) (pidList : list PeerID) : list PeerID :=
  match sh with
  | SLists ls => ComputeEvictionList Pretty sort_Sort ls pidList
  | SOneList ols => ols_ComputeEvictionList sort_Sort ols pidList
  | SNil => nls_ComputeEvictionList pidList
  end.

Definition sh_Has (sh : Sharder) (pid : PeerID) (list : list PeerID) : bool :=
  match sh with
  | SLists _ => ls_Has pid list
  | SOneList _ => ols_Has pid list
  | SNil => nls_Has pid list
  end.

Definition sh_IsSeeder (sh : Sharder) (pid : PeerID) : bool :=
  match sh with
  | SLists ls => ls_IsSeeder Pretty ls pid
  | SOneList ols => ols_IsSeeder ols pid
  | SNil => nls_IsSeeder pid
  end.
End dispatch.

Definition sh_SetSeeders (sh : Sharder) (addresses : list string) : Sharder :=
  match sh with
  | SLists ls => SLists (ls_SetSeeders ls addresses)
  | SOneList ols => SOneList ols
  | SNil => SNil
  end.

Definition sh_SetPeerShardResolver (sh : Sharder) (psp : option PeerShardResolver)
    : Sharder * option error :=
  match sh with
  | SLists ls => let '(ls, err) := ls_SetPeerShardResolver ls psp in (SLists ls, err)
  | SOneList ols => (SOneList ols, None)
  | SNil => (SNil, None)
  end.

(** What the clients of a sharder (the connection monitor and the discovery
    host) rely on *)
Class SharderLaws (ComputeEvictionList : list PeerID -> list PeerID)
    (Has : PeerID -> list PeerID -> bool) : Prop := {
  evict_subset l p : p ∈ ComputeEvictionList l -> p ∈ l;
  has_sound p l : Has p l = true -> p ∈ l;
  has_evicted p l : p ∈ ComputeEvictionList l -> Has p (ComputeEvictionList l) = true;
}.

Lemma has_spec p l : has p l = true <-> p ∈ l.
Proof.
  unfold has. rewrite existsb_exists. split.
  - intros (x & Hx & He). apply bool_decide_eq_true in He as ->. by apply list_elem_of_In.
  - intros Hp. exists p. split; [by apply list_elem_of_In|by apply bool_decide_eq_true].
Qed.

Definition sharder_wf (sh : Sharder) : Prop :=
  match sh with SLists ls => ls_wf ls | _ => True end.

Section laws.
Context (Pretty : PeerID -> string).
Context (sort_Sort : list PeerDistance -> list PeerDistance) `{!SortSort sort_Sort}.

Lemma evict_elem l n p : p ∈ evict sort_Sort l n -> p ∈ ID <$> l.
Proof.
  destruct (evict_split sort_Sort l n) as (evicted & Hp & -> & _ & _).
  rewrite Hp, fmap_app. set_solver.
Qed.

Lemma sharder_laws sh :
  sharder_wf sh -> SharderLaws (sh_ComputeEvictionList Pretty sort_Sort sh) (sh_Has sh).
Proof.
  destruct sh as [ls|ols|]; intros Hwf; split; simpl.
  - intros l p Hp. by apply (ComputeEvictionList_elem Pretty sort_Sort ls l p Hwf).
  - intros p l. apply has_spec.
  - intros p l. apply has_spec.
  - intros l p Hp%evict_elem. unfold convertList in Hp. rewrite <- list_fmap_compose in Hp.
    apply list_elem_of_fmap in Hp as (q & -> & Hq). done.
  - intros p l. apply has_spec.
  - intros p l. apply has_spec.
  - intros l p Hp. by apply elem_of_nil in Hp.
  - done.
  - intros p l Hp. by apply elem_of_nil in Hp.
Qed.
End laws.


(** ** Concrete instances *)

(** A node that knows the kind of its peers by their first letter, prefers the
    peer "pref", and measures distances by the length of a name *)
Definition demo_resolver : PeerShardResolver := fun p =>
  match p with
  | String "v" _ => {| PeerType := ValidatorPeer; ShardID := 1 |}
  | String "o" _ => {| PeerType := ObserverPeer; ShardID := 0 |}
  | String "x" _ => {| PeerType := OtherPeer 7; ShardID := 0 |}
  | _ => {| PeerType := UnknownPeer; ShardID := 0 |}
  end.

Definition demo_ls : listsSharder := {|
  peerShardResolver := demo_resolver; selfPeerId := "self"; maxPeerCount := 6;
  maxIntraShardValidators := 1; maxCrossShardValidators := 1; maxIntraShardObservers := 1;
  maxCrossShardObservers := 1; maxSeeders := 1; maxUnknown := 1; seeders := ["/p2p/seeder"];
  computeDistance := fun p _ => Z.of_nat (String.length p);
  preferredPeersHolder := fun p => bool_decide (p = "pref") |}.

Lemma demo_ls_wf : ls_wf demo_ls.
Proof. unfold ls_wf. simpl. lia. Qed.

Definition demo_peers : list PeerID :=
  ["v1"; "v22"; "v333"; "v4444"; "pref"; "seeder"; "u"; "uu"; "uuu"; "x"].

Example demo_eviction :
  ComputeEvictionList id (merge_sort dist_le) demo_ls demo_peers = ["v333"; "v4444"].
Proof. by vm_compute. Qed.

Lemma ComputeEvictionList_bound_witness :
  exists kept,
    filter (fun p => counted id demo_ls p = true) demo_peers
      ≡ₚ kept ++ ComputeEvictionList id (merge_sort dist_le) demo_ls demo_peers
    /\ len kept <= 6 /\ len (filter (fun p => ls_IsSeeder id demo_ls p = true) kept) <= 1.
Proof.
  apply (ComputeEvictionList_bound id (merge_sort dist_le) demo_ls demo_peers demo_ls_wf).
Defined.

Lemma ComputeEvictionList_farthest_witness :
  computeDistance demo_ls "v1" "self" <= computeDistance demo_ls "v4444" "self".
Proof.
  apply (ComputeEvictionList_farthest id (merge_sort dist_le) demo_ls demo_peers "v4444" "v1"
    demo_ls_wf).
  - rewrite demo_eviction. set_solver.
  - unfold demo_peers. set_solver.
  - rewrite demo_eviction. set_solver.
  - by vm_compute.
Defined.

Lemma ComputeEvictionList_quota_witness :
  "v4444" ∈ demo_peers
  /\ (preferredPeersHolder demo_ls "v4444" = true -> ls_IsSeeder id demo_ls "v4444" = true)
  /\ exists k, category id demo_ls "v4444" = Some k
       /\ quota demo_ls k < len (filter (fun q => category id demo_ls q = Some k) demo_peers).
Proof.
  apply (ComputeEvictionList_quota id (merge_sort dist_le) demo_ls demo_peers "v4444" demo_ls_wf).
  rewrite demo_eviction. set_solver.
Defined.

(** The comment of [listsSharder] says that the lists of the validators and
    observers are bounded by the provided maximums; only their sum is: two
    cross shard validators stay where the maximum is one. *)
Lemma cross_shard_maximum_exceeded :
  ls_wf demo_ls /\ maxCrossShardValidators demo_ls = 1
  /\ ComputeEvictionList id (merge_sort dist_le) demo_ls ["v1"; "v22"] = []
  /\ len (filter (fun p => category id demo_ls p = Some crossShardValidators) ["v1"; "v22"]) = 2.
Proof. split; [apply demo_ls_wf|]. by vm_compute. Qed.

Definition demo_config : P2PConfig := {|
  Node := {| Port := "0"; MaximumExpectedPeerCount := 1; ThresholdMinConnectedPeers := 0;
    MinNumPeersToWaitForOnBootstrap := 0;
    Transports := {| TCP := {| ListenAddress := "/ip4/0.0.0.0/tcp/%d"; PreventPortReuse := false |};
      QUICAddress := ""; WebSocketAddress := ""; WebTransportAddress := "" |};
    ResourceLimiter := {| rl_Type := InfiniteResourceLimiter; ManualSystemMemoryInMB := 0;
      ManualMaximumFD := 0 |} |};
  KadDhtPeerDiscovery := {| Enabled := true; kad_Type := "optimized"; RefreshIntervalInSec := 30;
    ProtocolIDs := ["/drt/kad"]; InitialPeerList := []; BucketSize := 100;
    RoutingTableRefreshIntervalInSec := 300 |};
  Sharding := {| TargetPeerCount := 36; MaxIntraShardValidators := 7;
    MaxCrossShardValidators := 15; MaxIntraShardObservers := 2; MaxCrossShardObservers := 3;
    MaxSeeders := 2; sh_Type := ListsSharder |} |}.

Lemma demo_config_wf : sharding_config_wf (Sharding demo_config).
Proof. unfold sharding_config_wf, in_u. simpl. lia. Qed.

Definition demo_hash : PeerID -> vec byte 32 := fun _ => vreplicate 32 Byte.x00.

Lemma NewListsSharder_spec_witness :
  exists ls, NewListsSharder demo_hash
    {| als_PeerResolver := Some demo_resolver; als_SelfPeerId := "self";
       als_P2pConfig := demo_config; als_PreferredPeersHolder := Some (fun _ => false);
       als_Logger := true |} = Ok ls /\ ls_wf ls /\ maxPeerCount ls = 36.
Proof.
  set (arg := Build_ArgListsSharder _ _ _ _ _).
  pose proof (NewListsSharder_spec demo_hash arg demo_config_wf) as H.
  eexists. split; [by vm_compute|]. destruct H as (Hwf & Hmax & _). by split.
Defined.

