(* ===== verification/Cache.v ===== *)
(** * The cache interface

    The [types.Cacher] of drt-go-chain-storage, which the rating handler (int32
    ratings) and the mutex holder (mutexes) use: the operations and what a
    cache promises, as an interface the clients are proved against, and the
    bounded least-recently-used cache that honours it. *)

From S2P Require Import Prelude.
From stdpp Require Import list.
Open Scope Z_scope.

Class Cacher (V C : Type) := {
  cache_Get : C -> bytes -> option V * C;
  cache_Has : C -> bytes -> bool;
  cache_Put : C -> bytes -> V -> Z -> C;
  cache_Remove : C -> bytes -> C;
}.

(** What a cache promises, on its contents [view c]: a read (which may change
    the order of eviction) leaves the contents, a put stores its entry and may
    evict others, a removal removes its entry only. *)
Class CacherLaws (V C : Type) `{Cacher V C} (view : C -> gmap bytes V) : Prop := {
  cache_Get_value c k : (cache_Get c k).1 = view c !! k;
  cache_Get_view c k : view (cache_Get c k).2 = view c;
  cache_Has_view c k : cache_Has c k = bool_decide (is_Some (view c !! k));
  cache_Put_same c k v n : view (cache_Put c k v n) !! k = Some v;
  cache_Put_other c k v n k' : k <> k' ->
    view (cache_Put c k v n) !! k' = view c !! k' \/ view (cache_Put c k v n) !! k' = None;
  cache_Remove_view c k : view (cache_Remove c k) = delete k (view c);
}.

(** ** A concrete cache: least recently used entries, bounded capacity *)

Section lru.
Context {V : Type} (capacity : nat).

Abbreviation lru := (list (bytes * V)).

Definition lru_view (c : lru) : gmap bytes V := list_to_map c.
Definition lru_drop (c : lru) (k : bytes) : lru := filter (fun e => e.1 <> k) c.

#[export] Instance lru_Cacher : Cacher V lru := {
  cache_Get c k := match lru_view c !! k with
                   | Some v => (Some v, (k, v) :: lru_drop c k)
                   | None => (None, c)
                   end;
  cache_Has c k := bool_decide (is_Some (lru_view c !! k));
  cache_Put c k v _ := take (S capacity) ((k, v) :: lru_drop c k);
  cache_Remove c k := lru_drop c k;
}.

Lemma lru_view_drop c k : lru_view (lru_drop c k) = delete k (lru_view c).
Proof.
  unfold lru_view, lru_drop. induction c as [|[k' v] c IH]; [symmetry; apply delete_empty|].
  rewrite filter_cons. simpl. case_decide as Hk; simpl.
  - rewrite IH. by rewrite delete_insert_ne by done.
  - by rewrite Hk, IH, delete_insert_eq.
Qed.

Lemma lru_view_take n c k : lru_view (take n c) !! k = lru_view c !! k \/ lru_view (take n c) !! k = None.
Proof.
  unfold lru_view. revert n. induction c as [|[k' v] c IH]; intros [|n]; simpl.
  1, 2: by left.
  - right. apply lookup_empty.
  - rewrite !lookup_insert. case_decide; [by left|apply IH].
Qed.

#[export] Instance lru_laws : CacherLaws V lru lru_view.
Proof.
  split.
  - intros c k. simpl. by destruct (lru_view c !! k).
  - intros c k. simpl. destruct (lru_view c !! k) as [v|] eqn:E; [|done]. simpl.
    change (<[k:=v]> (lru_view (lru_drop c k)) = lru_view c).
    by rewrite lru_view_drop, insert_delete_eq, insert_id.
  - done.
  - intros c k v n. simpl. unfold lru_view. simpl. by rewrite lookup_insert_eq.
  - intros c k v n k' Hk. simpl. unfold lru_view at 1 3. simpl.
    rewrite lookup_insert_ne by done.
    fold (lru_view (take capacity (lru_drop c k))).
    destruct (lru_view_take capacity (lru_drop c k) k') as [->| ->]; [|by right].
    rewrite lru_view_drop, lookup_delete_ne by done. by left.
  - intros c k. apply lru_view_drop.
Qed.
End lru.

