(* ===== verification/Rating.v ===== *)
(** * Peer ratings

    p2p/rating: the rating handler, which keeps the ratings of the peers in two
    caches (top rated and bad rated), and the monitor that reads them. The
    caches are the [types.Cacher] of drt-go-chain-storage, an interface here: the
    node uses LRU caches, which may evict any entry when another is put. *)

From S2P Require Import Prelude Errors Config Cache.
From stdpp Require Import list pretty.
Open Scope Z_scope.

(** The dynamic values of a cache entry: the handler stores int32 values; any
    other value carries the text [fmt.Sprintf("%d", v)] gives it. *)
Inductive Value := VInt32 (z : Z) | VOther (text : string).

(** ** peersRatingHandler.go *)

Definition topRatedTier : string := "top rated tier".
Definition badRatedTier : string := "bad rated tier".
Definition defaultRating : Z := 0.
Definition minRating : Z := -100.
Definition maxRating : Z := 100.
Definition increaseFactor : Z := 2.
Definition decreaseFactor : Z := -1.
Definition minNumOfPeers : Z := 1.
Definition int32Size : Z := 4.

Record ArgPeersRatingHandler (C : Type) := {
  aprh_TopRatedCache : option C;
  aprh_BadRatedCache : option C;
  aprh_Logger : bool;  (* not nil *)
}.
Arguments aprh_TopRatedCache {C}.
Arguments aprh_BadRatedCache {C}.
Arguments aprh_Logger {C}.

Record peersRatingHandler (C : Type) := {
  topRatedCache : C;
  badRatedCache : C;
}.
Arguments Build_peersRatingHandler {C}.
Arguments topRatedCache {C}.
Arguments badRatedCache {C}.

Definition NewPeersRatingHandler {C} (args : ArgPeersRatingHandler C)
    : result (peersRatingHandler C) :=
  match aprh_TopRatedCache args, aprh_BadRatedCache args with
  | None, _ => Err ErrNilCacher
  | _, None => Err ErrNilCacher
  | Some top, Some bad =>
      guard_err (negb (aprh_Logger args)) ErrNilLogger $
      Ok {| topRatedCache := top; badRatedCache := bad |}
  end.

Section handler.
Context {C : Type} `{Cacher Value C}.
Implicit Types (prh : peersRatingHandler C) (pid : PeerID).

Definition set_top prh (c : C) := {| topRatedCache := c; badRatedCache := badRatedCache prh |}.
Definition set_bad prh (c : C) := {| topRatedCache := topRatedCache prh; badRatedCache := c |}.

Definition top_Get prh (k : bytes) : option Value * peersRatingHandler C :=
  let '(v, c) := cache_Get (topRatedCache prh) k in (v, set_top prh c).
Definition bad_Get prh (k : bytes) : option Value * peersRatingHandler C :=
  let '(v, c) := cache_Get (badRatedCache prh) k in (v, set_bad prh c).
Definition top_Put prh (k : bytes) (z : Z) : peersRatingHandler C :=
  set_top prh (cache_Put (topRatedCache prh) k (VInt32 z) int32Size).
Definition bad_Put prh (k : bytes) (z : Z) : peersRatingHandler C :=
  set_bad prh (cache_Put (badRatedCache prh) k (VInt32 z) int32Size).

(** [v, _ := x.(int32)]: zero when the assertion fails *)
Definition as_int32 (v : Value) : Z := match v with VInt32 z => z | VOther _ => 0 end.

Definition getOldRating prh (pid : bytes) : (Z * bool) * peersRatingHandler C :=
  let '(oldRating, prh) := top_Get prh pid in
  match oldRating with
  | Some v => ((as_int32 v, true), prh)
  | None =>
      let '(oldRating, prh) := bad_Get prh pid in
      match oldRating with
      | Some v => ((as_int32 v, true), prh)
      | None => ((defaultRating, false), prh)
      end
  end.

Definition computeRatingTier (peerRating : Z) : string :=
  if peerRating >=? defaultRating then topRatedTier else badRatedTier.

Definition movePeerToNewTier prh (newRating : Z) (newTier : string) pid : peersRatingHandler C :=
  if decide (newTier = topRatedTier) then
    let prh := set_bad prh (cache_Remove (badRatedCache prh) (to_bytes pid)) in
    top_Put prh (to_bytes pid) newRating
  else
    let prh := set_top prh (cache_Remove (topRatedCache prh) (to_bytes pid)) in
    bad_Put prh (to_bytes pid) newRating.

Definition updateRatingCacher prh pid (oldRating newRating : Z) : peersRatingHandler C :=
  let oldTier := computeRatingTier oldRating in
  let newTier := computeRatingTier newRating in
  if decide (newTier = oldTier) then
    if decide (newTier = topRatedTier) then top_Put prh (to_bytes pid) newRating
    else bad_Put prh (to_bytes pid) newRating
  else movePeerToNewTier prh newRating newTier pid.

Definition updateRating prh pid (updateFactor : Z) : peersRatingHandler C :=
  let '((oldRating, found), prh) := getOldRating prh (to_bytes pid) in
  if negb found then top_Put prh (to_bytes pid) defaultRating
  else
    let newRating := wraps 32 (oldRating + updateFactor) in
    let newRating := if newRating >? maxRating then maxRating else newRating in
    let newRating := if newRating <? minRating then minRating else newRating in
    updateRatingCacher prh pid oldRating newRating.

Definition IncreaseRating prh pid := updateRating prh pid increaseFactor.
Definition DecreaseRating prh pid := updateRating prh pid decreaseFactor.

(** The body of the loop of [splitPeersByTiers], on the handler and the two
    lists it fills *)
Definition splitPeersByTiers_step
    (st : peersRatingHandler C * (list PeerID * list PeerID)) (peer : PeerID)
    : peersRatingHandler C * (list PeerID * list PeerID) :=
  let '(prh, (topRated, badRated)) := st in
  let isNewPeer := true in
  let '(topRated, isNewPeer) :=
    if cache_Has (topRatedCache prh) (to_bytes peer) then (topRated ++ [peer], false)
    else (topRated, isNewPeer) in
  let '(badRated, isNewPeer) :=
    if cache_Has (badRatedCache prh) (to_bytes peer) then (badRated ++ [peer], false)
    else (badRated, isNewPeer) in
  if isNewPeer then (top_Put prh (to_bytes peer) defaultRating, (topRated ++ [peer], badRated))
  else (prh, (topRated, badRated)).

Definition splitPeersByTiers prh (peers : list PeerID)
    : peersRatingHandler C * (list PeerID * list PeerID) :=
  fold_left splitPeersByTiers_step peers (prh, ([], [])).

(** [displayPeersRating] reads the ratings of the peers it prints, when the log
    level is trace; the text only goes to the log. *)
Fixpoint displayPeersRating (trace : bool) prh (peers : list PeerID) : peersRatingHandler C :=
  if negb trace then prh
  else match peers with
       | [] => prh
       | peer :: peers =>
           let '(rating, prh) := top_Get prh (to_bytes peer) in
           let prh := match rating with
                      | Some _ => prh
                      | None => (bad_Get prh (to_bytes peer)).2
                      end in
           displayPeersRating trace prh peers
       end.

Definition GetTopRatedPeersFromList (trace : bool) prh (peers : list PeerID)
    (minNumOfPeersExpected : Z) : list PeerID * peersRatingHandler C :=
  let isListEmpty := len peers =? 0 in
  if (minNumOfPeersExpected <? minNumOfPeers) || isListEmpty then
    ([], displayPeersRating trace prh [])
  else
    let '(prh, (peersTopRated, peersBadRated)) := splitPeersByTiers prh peers in
    let peersTopRated :=
      if len peersTopRated <? minNumOfPeersExpected then peersTopRated ++ peersBadRated
      else peersTopRated in
    (peersTopRated, displayPeersRating trace prh peersTopRated).
End handler.

(** ** peersRatingMonitor.go *)

Definition unknownRating : string := "unknown".

(** The monitor shares the two caches of the handler. *)
Abbreviation peersRatingMonitor := peersRatingHandler.

Definition NewPeersRatingMonitor {C} (TopRatedCache BadRatedCache : option C)
    : result (peersRatingMonitor C) :=
  match TopRatedCache, BadRatedCache with
  | None, _ => Err ErrNilCacher
  | _, None => Err ErrNilCacher
  | Some top, Some bad => Ok {| topRatedCache := top; badRatedCache := bad |}
  end.

Section monitor.
Context {C : Type} `{Cacher Value C}.
Implicit Types (monitor : peersRatingMonitor C) (pid : PeerID).

(** [fmt.Sprintf("%d", rating)] *)
Definition sprintf_d (v : Value) : string :=
  match v with VInt32 z => pretty z | VOther text => text end.

Definition fetchRating monitor pid : string * peersRatingMonitor C :=
  let '(rating, monitor) := top_Get monitor (to_bytes pid) in
  match rating with
  | Some v => (sprintf_d v, monitor)
  | None =>
      let '(rating, monitor) := bad_Get monitor (to_bytes pid) in
      match rating with
      | Some v => (sprintf_d v, monitor)
      | None => (unknownRating, monitor)
      end
  end.

Definition extractConnectedPeersRatings (Pretty : PeerID -> string) monitor
    (connectedPeers : list PeerID) : gmap string string * peersRatingMonitor C :=
  fold_left (fun '(connectedPeersRatings, monitor) connectedPeer =>
      let '(rating, monitor) := fetchRating monitor connectedPeer in
      (<[Pretty connectedPeer := rating]> connectedPeersRatings, monitor))
    connectedPeers (∅, monitor).

(** [json.Marshal] of the map is the argument [json_Marshal]; the connections
    handler, which may be nil, is its list of connected peers. *)
Definition GetConnectedPeersRatings (Pretty : PeerID -> string)
    (json_Marshal : gmap string string -> result string) monitor
    (connectionsHandler : option (list PeerID)) : result string * peersRatingMonitor C :=
  match connectionsHandler with
  | None => (Err ErrNilConnectionsHandler, monitor)
  | Some connectedPeers =>
      let '(connectedPeersRatings, monitor) :=
        extractConnectedPeersRatings Pretty monitor connectedPeers in
      (json_Marshal connectedPeersRatings, monitor)
  end.
End monitor.

(** ** Facts about the definitions *)

Section facts.
Context {C : Type} `{Cacher Value C} (view : C -> gmap bytes Value) `{!CacherLaws Value C view}.
Implicit Types (prh : peersRatingHandler C) (pid q : PeerID) (k : bytes).

(** The contents of the two caches *)
Definition tv prh := view (topRatedCache prh).
Definition bv prh := view (badRatedCache prh).

(** The invariant of the handler: ratings lie in [minRating, maxRating], the
    non negative ones in the top cache and the negative ones in the bad cache,
    and no peer is in both. *)
Record prh_wf prh : Prop := {
  wf_top k v : tv prh !! k = Some v -> exists z, v = VInt32 z /\ 0 <= z <= maxRating;
  wf_bad k v : bv prh !! k = Some v -> exists z, v = VInt32 z /\ minRating <= z < 0;
  wf_disjoint k : tv prh !! k = None \/ bv prh !! k = None;
}.

(** The abstract state: the rating of each known peer *)
Definition rating_of prh pid : option Z :=
  match tv prh !! to_bytes pid with
  | Some v => Some (as_int32 v)
  | None => as_int32 <$> bv prh !! to_bytes pid
  end.

(** Two handlers with the same contents *)
Definition same_contents prh prh' : Prop := tv prh' = tv prh /\ bv prh' = bv prh.

Lemma same_contents_refl prh : same_contents prh prh.
Proof. done. Qed.

Lemma same_contents_trans prh1 prh2 prh3 :
  same_contents prh1 prh2 -> same_contents prh2 prh3 -> same_contents prh1 prh3.
Proof. intros [Ht Hb] [Ht' Hb']. split; congruence. Qed.

Lemma same_contents_wf prh prh' : same_contents prh prh' -> prh_wf prh -> prh_wf prh'.
Proof. intros [Ht Hb] [H1 H2 H3]. split; rewrite ?Ht, ?Hb; auto. Qed.

Lemma same_contents_rating prh prh' pid :
  same_contents prh prh' -> rating_of prh' pid = rating_of prh pid.
Proof. intros [Ht Hb]. unfold rating_of. by rewrite Ht, Hb. Qed.

Lemma top_Get_spec prh k :
  (top_Get prh k).1 = tv prh !! k /\ same_contents prh (top_Get prh k).2.
Proof.
  unfold top_Get, same_contents, tv, bv.
  pose proof (cache_Get_value (view := view) (topRatedCache prh) k).
  pose proof (cache_Get_view (view := view) (topRatedCache prh) k).
  by destruct (cache_Get (topRatedCache prh) k).
Qed.

Lemma bad_Get_spec prh k :
  (bad_Get prh k).1 = bv prh !! k /\ same_contents prh (bad_Get prh k).2.
Proof.
  unfold bad_Get, same_contents, tv, bv.
  pose proof (cache_Get_value (view := view) (badRatedCache prh) k).
  pose proof (cache_Get_view (view := view) (badRatedCache prh) k).
  by destruct (cache_Get (badRatedCache prh) k).
Qed.

Lemma getOldRating_spec prh pid :
  same_contents prh (getOldRating prh (to_bytes pid)).2
  /\ (getOldRating prh (to_bytes pid)).1 =
     match rating_of prh pid with Some z => (z, true) | None => (defaultRating, false) end.
Proof.
  unfold getOldRating, rating_of.
  destruct (top_Get_spec prh (to_bytes pid)) as [Hv Hs].
  destruct (top_Get prh (to_bytes pid)) as [v1 prh1]. simpl in *. subst v1.
  destruct (tv prh !! to_bytes pid); [done|].
  destruct (bad_Get_spec prh1 (to_bytes pid)) as [Hv' Hs'].
  destruct (bad_Get prh1 (to_bytes pid)) as [v2 prh2]. simpl in *. subst v2.
  pose proof (same_contents_trans _ _ _ Hs Hs') as Hc. destruct Hs as [_ ->].
  by destruct (bv prh !! to_bytes pid).
Qed.

(** The two ways a rating is stored: in the cache of its tier, the other one
    no longer holding the peer *)
Definition stored prh prh' pid (z : Z) : Prop :=
  rating_of prh' pid = Some z
  /\ forall q, q <> pid -> rating_of prh' q = rating_of prh q \/ rating_of prh' q = None.

Lemma bytes_ne pid q : q <> pid -> to_bytes pid <> to_bytes q.
Proof. intros Hne Heq. by apply to_bytes_inj in Heq. Qed.

(** Storing in the top cache *)
Lemma top_Put_spec prh pid z :
  prh_wf prh -> bv prh !! to_bytes pid = None -> 0 <= z <= maxRating ->
  prh_wf (top_Put prh (to_bytes pid) z) /\ stored prh (top_Put prh (to_bytes pid) z) pid z.
Proof.
  intros [H1 H2 H3] Hb Hz.
  pose proof (cache_Put_same (view := view) (topRatedCache prh) (to_bytes pid) (VInt32 z) int32Size)
    as Hsame.
  pose proof (cache_Put_other (view := view) (topRatedCache prh) (to_bytes pid) (VInt32 z) int32Size)
    as Hother.
  split; [split|]; unfold top_Put, set_top, stored, rating_of, tv, bv in *; simpl in *.
  - intros k v Hk. destruct (decide (to_bytes pid = k)) as [<-|Hne].
    + rewrite Hsame in Hk. injection Hk as <-. eauto.
    + destruct (Hother k Hne) as [He|He]; rewrite He in Hk; [eauto|done].
  - eauto.
  - intros k. destruct (decide (to_bytes pid = k)) as [<-|Hne]; [by right|].
    destruct (Hother k Hne) as [He|He]; rewrite He; eauto.
  - rewrite Hsame. split; [done|]. intros q Hq.
    destruct (Hother (to_bytes q)) as [He|He]; [by apply bytes_ne| |]; rewrite He; [by left|].
    destruct (H3 (to_bytes q)) as [He'|He']; rewrite ?He'; eauto.
Qed.

(** Storing in the bad cache *)
Lemma bad_Put_spec prh pid z :
  prh_wf prh -> tv prh !! to_bytes pid = None -> minRating <= z < 0 ->
  prh_wf (bad_Put prh (to_bytes pid) z) /\ stored prh (bad_Put prh (to_bytes pid) z) pid z.
Proof.
  intros [H1 H2 H3] Hb Hz.
  pose proof (cache_Put_same (view := view) (badRatedCache prh) (to_bytes pid) (VInt32 z) int32Size)
    as Hsame.
  pose proof (cache_Put_other (view := view) (badRatedCache prh) (to_bytes pid) (VInt32 z) int32Size)
    as Hother.
  split; [split|]; unfold bad_Put, set_bad, stored, rating_of, tv, bv in *; simpl in *.
  - eauto.
  - intros k v Hk. destruct (decide (to_bytes pid = k)) as [<-|Hne].
    + rewrite Hsame in Hk. injection Hk as <-. eauto.
    + destruct (Hother k Hne) as [He|He]; rewrite He in Hk; [eauto|done].
  - intros k. destruct (decide (to_bytes pid = k)) as [<-|Hne]; [by left|].
    destruct (Hother k Hne) as [He|He]; rewrite He; eauto.
  - rewrite Hb, Hsame. split; [done|]. intros q Hq.
    destruct (Hother (to_bytes q)) as [He|He]; [by apply bytes_ne| |]; rewrite He; [by left|].
    destruct (view (topRatedCache prh) !! to_bytes q); eauto.
Qed.

(** Removing a peer from one of the caches *)
Lemma bad_Remove_spec prh pid :
  prh_wf prh ->
  let prh' := set_bad prh (cache_Remove (badRatedCache prh) (to_bytes pid)) in
  prh_wf prh' /\ bv prh' !! to_bytes pid = None
  /\ forall q, q <> pid -> rating_of prh' q = rating_of prh q.
Proof.
  intros [H1 H2 H3] prh'. split_and!; [split| |];
    subst prh'; unfold set_bad, rating_of, tv, bv in *; simpl in *;
    rewrite ?(cache_Remove_view (view := view)).
  - done.
  - intros k v Hk. apply lookup_delete_Some in Hk as [_ Hk]. eauto.
  - intros k. rewrite lookup_delete.
    case_decide; eauto.
  - by rewrite lookup_delete_eq.
  - intros q Hq.
    by rewrite lookup_delete_ne by (by apply bytes_ne).
Qed.

Lemma top_Remove_spec prh pid :
  prh_wf prh ->
  let prh' := set_top prh (cache_Remove (topRatedCache prh) (to_bytes pid)) in
  prh_wf prh' /\ tv prh' !! to_bytes pid = None
  /\ forall q, q <> pid -> rating_of prh' q = rating_of prh q.
Proof.
  intros [H1 H2 H3] prh'. split_and!; [split| |];
    subst prh'; unfold set_top, rating_of, tv, bv in *; simpl in *;
    rewrite ?(cache_Remove_view (view := view)).
  - intros k v Hk. apply lookup_delete_Some in Hk as [_ Hk]. eauto.
  - done.
  - intros k. rewrite lookup_delete.
    case_decide; eauto.
  - by rewrite lookup_delete_eq.
  - intros q Hq.
    by rewrite lookup_delete_ne by (by apply bytes_ne).
Qed.

Lemma stored_same prh prh1 prh2 pid z :
  same_contents prh prh1 -> stored prh1 prh2 pid z -> stored prh prh2 pid z.
Proof.
  intros Hs [Hp Ho]. split; [done|]. intros q Hq. rewrite <- (same_contents_rating prh prh1) by done.
  auto.
Qed.

(** A rating tells which cache holds the peer. *)
Lemma rating_tier prh pid r :
  prh_wf prh -> rating_of prh pid = Some r ->
  minRating <= r <= maxRating
  /\ (0 <= r -> bv prh !! to_bytes pid = None) /\ (r < 0 -> tv prh !! to_bytes pid = None).
Proof.
  intros [H1 H2 H3] Hr. unfold rating_of, minRating, maxRating in *.
  destruct (tv prh !! to_bytes pid) as [v|] eqn:Et.
  - destruct (H1 _ _ Et) as (z & -> & Hz). simpl in Hr. injection Hr as <-.
    destruct (H3 (to_bytes pid)); [congruence|]. split_and!; [lia|lia|done|lia].
  - destruct (bv prh !! to_bytes pid) as [v|] eqn:Eb; [|done].
    destruct (H2 _ _ Eb) as (z & -> & Hz). simpl in Hr. injection Hr as <-.
    split_and!; [lia|lia|lia|done].
Qed.

Lemma rating_none prh pid : rating_of prh pid = None -> bv prh !! to_bytes pid = None.
Proof. unfold rating_of. destruct (tv prh !! _); [done|]. by destruct (bv prh !! _). Qed.

Lemma computeRatingTier_top z : computeRatingTier z = topRatedTier <-> 0 <= z.
Proof.
  unfold computeRatingTier, defaultRating. destruct (z >=? 0) eqn:E; bdestruct_all;
    split; try done; intros; lia.
Qed.

Lemma computeRatingTier_eq z z' :
  computeRatingTier z = computeRatingTier z' <-> (0 <= z <-> 0 <= z').
Proof.
  unfold computeRatingTier, defaultRating.
  destruct (z >=? 0) eqn:E, (z' >=? 0) eqn:E'; bdestruct_all; split; try done; try lia.
Qed.

Lemma updateRatingCacher_spec prh pid old new :
  prh_wf prh -> rating_of prh pid = Some old -> minRating <= new <= maxRating ->
  prh_wf (updateRatingCacher prh pid old new)
  /\ stored prh (updateRatingCacher prh pid old new) pid new.
Proof.
  intros Hwf Hr Hnew. destruct (rating_tier prh pid old Hwf Hr) as (Hold & Htop & Hbad).
  unfold updateRatingCacher, movePeerToNewTier.
  destruct (decide _) as [He|He]; rewrite computeRatingTier_eq in He;
    destruct (decide _) as [Ht|Ht]; rewrite computeRatingTier_top in Ht.
  - apply top_Put_spec; [done|apply Htop; lia|lia].
  - apply bad_Put_spec; [done|apply Hbad; lia|lia].
  - destruct (bad_Remove_spec prh pid Hwf) as (Hwf' & Hn & Ho).
    destruct (top_Put_spec _ pid new Hwf' Hn ltac:(lia)) as [Hw [Hp Hq]].
    split; [done|]. split; [done|]. intros q Hne. rewrite <- Ho by done. auto.
  - destruct (top_Remove_spec prh pid Hwf) as (Hwf' & Hn & Ho).
    destruct (bad_Put_spec _ pid new Hwf' Hn ltac:(lia)) as [Hw [Hp Hq]].
    split; [done|]. split; [done|]. intros q Hne. rewrite <- Ho by done. auto.
Qed.

(** The rating an update gives: the default one to a new peer, else the sum
    clamped to the interval of the ratings *)
Definition updated (r : option Z) (updateFactor : Z) : Z :=
  match r with
  | None => defaultRating
  | Some r => Z.max minRating (Z.min maxRating (r + updateFactor))
  end.

Lemma updateRating_spec prh pid f :
  prh_wf prh -> -100 <= f <= 100 ->
  prh_wf (updateRating prh pid f) /\
  stored prh (updateRating prh pid f) pid (updated (rating_of prh pid) f).
Proof.
  intros Hwf Hf. unfold updateRating.
  destruct (getOldRating_spec prh pid) as [Hs Hg].
  destruct (getOldRating prh (to_bytes pid)) as [[r found] prh1]. simpl in Hs, Hg.
  pose proof (same_contents_wf _ _ Hs Hwf) as Hwf1.
  pose proof (same_contents_rating _ _ pid Hs) as Hr1.
  destruct (rating_of prh pid) as [z|] eqn:Hr; injection Hg as -> ->; simpl.
  - destruct (rating_tier prh1 pid z Hwf1 Hr1) as (Hz & _ & _).
    unfold minRating, maxRating in *. rewrite wraps_small by (unfold in_s; lia).
    set (new := if _ <? _ then _ else _).
    assert (new = Z.max (-100) (Z.min 100 (z + f))) as <-.
    { subst new. destruct (z + f >? 100) eqn:E1, (_ <? -100) eqn:E2; bdestruct_all; lia. }
    destruct (updateRatingCacher_spec prh1 pid z new Hwf1 Hr1) as [Hw Hst].
    { subst new. unfold minRating, maxRating.
      destruct (z + f >? 100) eqn:E1, (_ <? -100) eqn:E2; bdestruct_all; lia. }
    split; [done|]. by apply (stored_same _ _ _ _ _ Hs).
  - destruct (top_Put_spec prh1 pid defaultRating Hwf1) as [Hw Hst];
      [by apply rating_none|unfold defaultRating, maxRating; lia|].
    split; [done|]. by apply (stored_same _ _ _ _ _ Hs).
Qed.

(** Whether a peer is badly rated *)
Definition badly_rated prh pid : bool :=
  match rating_of prh pid with Some r => r <? 0 | None => false end.

Lemma badly_rated_bv prh pid :
  prh_wf prh -> badly_rated prh pid = bool_decide (is_Some (bv prh !! to_bytes pid)).
Proof.
  intros Hwf. unfold badly_rated. destruct (rating_of prh pid) as [r|] eqn:Hr.
  - destruct (rating_tier prh pid r Hwf Hr) as (_ & Ht & Hb).
    destruct (r <? 0) eqn:E; bdestruct_all; symmetry.
    + apply bool_decide_eq_true. unfold rating_of in Hr. rewrite (Hb E) in Hr.
      by destruct (bv prh !! _).
    + apply bool_decide_eq_false. rewrite (Ht E). by intros [? ?].
  - rewrite (rating_none _ _ Hr). symmetry. apply bool_decide_eq_false. by intros [? ?].
Qed.

Lemma splitPeersByTiers_step_spec prh t b p :
  prh_wf prh -> exists prh',
    splitPeersByTiers_step (prh, (t, b)) p
    = (prh', if badly_rated prh p then (t, b ++ [p]) else (t ++ [p], b))
    /\ prh_wf prh' /\ bv prh' = bv prh
    /\ (forall q, q <> p -> rating_of prh' q = rating_of prh q \/ rating_of prh' q = None)
    /\ is_Some (rating_of prh' p).
Proof.
  intros Hwf. rewrite badly_rated_bv by done. unfold splitPeersByTiers_step.
  rewrite !(cache_Has_view (view := view)).
  fold (tv prh) (bv prh).
  destruct (bool_decide_reflect (is_Some (tv prh !! to_bytes p))) as [[v Ht]|Ht],
    (bool_decide_reflect (is_Some (bv prh !! to_bytes p))) as [[v' Hb]|Hb].
  - destruct (wf_disjoint _ Hwf (to_bytes p)); congruence.
  - exists prh. split_and!; eauto. unfold rating_of. by rewrite Ht.
  - exists prh. split_and!; eauto. unfold rating_of. rewrite Hb. by destruct (tv prh !! _).
  - apply eq_None_not_Some in Hb.
    destruct (top_Put_spec prh p defaultRating Hwf Hb) as [Hw [Hp Hq]];
      [unfold defaultRating, maxRating; lia|].
    eexists. split_and!; eauto.
Qed.

Lemma splitPeersByTiers_fold prh t b peers :
  prh_wf prh -> exists prh',
    fold_left splitPeersByTiers_step peers (prh, (t, b))
    = (prh', (t ++ filter (fun p => badly_rated prh p = false) peers,
              b ++ filter (fun p => badly_rated prh p = true) peers))
    /\ prh_wf prh' /\ bv prh' = bv prh.
Proof.
  revert prh t b. induction peers as [|p peers IH]; intros prh t b Hwf.
  - exists prh. by rewrite !app_nil_r.
  - cbn [fold_left]. destruct (splitPeersByTiers_step_spec prh t b p Hwf)
      as (prh1 & -> & Hwf1 & Hbv & _ & _).
    assert (Hsame : forall q, badly_rated prh1 q = badly_rated prh q)
      by (intros q; rewrite !badly_rated_bv by done; by rewrite Hbv).
    rewrite !filter_cons.
    destruct (badly_rated prh p) eqn:E; simpl.
    + destruct (IH prh1 t (b ++ [p]) Hwf1) as (prh2 & -> & Hwf2 & Hbv2).
      exists prh2. split_and!; [|done|congruence]. rewrite <- app_assoc. simpl.
      do 3 f_equal; [|f_equal]; apply list_filter_iff; intros q; by rewrite Hsame.
    + destruct (IH prh1 (t ++ [p]) b Hwf1) as (prh2 & -> & Hwf2 & Hbv2).
      exists prh2. split_and!; [|done|congruence]. rewrite <- app_assoc. simpl.
      do 3 f_equal; [f_equal|]; apply list_filter_iff; intros q; by rewrite Hsame.
Qed.

Lemma displayPeersRating_same trace prh peers :
  same_contents prh (displayPeersRating trace prh peers).
Proof.
  destruct trace; [|by destruct peers]. revert prh.
  induction peers as [|p peers IH]; intros prh; [done|]. simpl.
  destruct (top_Get_spec prh (to_bytes p)) as [_ Hs].
  destruct (top_Get prh (to_bytes p)) as [[v|] prh1]; simpl in *.
  - eapply same_contents_trans; [exact Hs|apply IH].
  - destruct (bad_Get_spec prh1 (to_bytes p)) as [_ Hs'].
    eapply same_contents_trans; [exact Hs|]. eapply same_contents_trans; [exact Hs'|apply IH].
Qed.

(** *** The theorems *)

(** C15: increasing or decreasing the rating of a peer is the clamped addition
    of the factor on the abstract map of ratings: a new peer gets the default
    rating, a known one stays in [-100, 100], the invariant of the two tiers is
    kept, and no other rating changes (a cache may at most evict it). *)
Theorem updateRating_refines prh pid (Hwf : prh_wf prh) :
  (prh_wf (IncreaseRating prh pid)
   /\ stored prh (IncreaseRating prh pid) pid (updated (rating_of prh pid) 2))
  /\ (prh_wf (DecreaseRating prh pid)
   /\ stored prh (DecreaseRating prh pid) pid (updated (rating_of prh pid) (-1))).
Proof. split; apply updateRating_spec; done || lia. Qed.

(** [GetTopRatedPeersFromList] returns, in the order of the list, the peers
    that are not badly rated, followed by the badly rated ones only when the
    former are fewer than requested; it returns nothing for an empty request.
    The invariant is kept, whatever entries the caches evict meanwhile. *)
Theorem GetTopRatedPeersFromList_spec trace prh peers n (Hwf : prh_wf prh) :
  let top := filter (fun p => badly_rated prh p = false) peers in
  let bad := filter (fun p => badly_rated prh p = true) peers in
  (GetTopRatedPeersFromList trace prh peers n).1
    = (if n <? 1 then [] else if len top <? n then top ++ bad else top)
  /\ prh_wf (GetTopRatedPeersFromList trace prh peers n).2.
Proof.
  intros top bad. unfold GetTopRatedPeersFromList, minNumOfPeers.
  destruct (n <? 1) eqn:En; cbn [orb fst snd].
  { split; [done|]. eapply same_contents_wf; [apply displayPeersRating_same|done]. }
  destruct (len peers =? 0) eqn:E; bdestruct_all.
  { apply len_0 in E as ->. subst top bad. cbn [fst snd]. split; [by destruct (_ <? _)|].
    eapply same_contents_wf; [apply displayPeersRating_same|done]. }
  unfold splitPeersByTiers.
  destruct (splitPeersByTiers_fold prh [] [] peers Hwf) as (prh' & -> & Hwf' & _).
  cbn [fst snd]. split; [done|]. eapply same_contents_wf; [apply displayPeersRating_same|done].
Qed.

Fixpoint iterate (n : nat) (f : peersRatingHandler C -> peersRatingHandler C) prh :=
  match n with O => prh | S n => iterate n f (f prh) end.

Lemma iterate_update f pid n prh r :
  -100 <= f <= 100 -> prh_wf prh -> rating_of prh pid = Some r ->
  rating_of (iterate n (fun p => updateRating p pid f) prh) pid
  = Some (Nat.iter n (fun r => updated (Some r) f) r).
Proof.
  intros Hf. revert prh r. induction n as [|n IH]; intros prh r Hwf Hr; [done|].
  destruct (updateRating_spec prh pid f Hwf Hf) as [Hwf' [Hp _]].
  cbn [iterate]. rewrite Hr in Hp. rewrite (IH _ _ Hwf' Hp). by rewrite Nat.iter_succ_r.
Qed.

Lemma iter_updated_up n r :
  minRating <= r <= maxRating ->
  Nat.iter n (fun r => updated (Some r) 2) r = Z.min 100 (r + 2 * Z.of_nat n).
Proof.
  intros Hr. unfold minRating, maxRating in *. induction n as [|n IH]; [simpl; lia|].
  rewrite Nat.iter_succ, IH. unfold updated, minRating, maxRating. lia.
Qed.

Lemma iter_updated_down n r :
  minRating <= r <= maxRating ->
  Nat.iter n (fun r => updated (Some r) (-1)) r = Z.max (-100) (r - Z.of_nat n).
Proof.
  intros Hr. unfold minRating, maxRating in *. induction n as [|n IH]; [simpl; lia|].
  rewrite Nat.iter_succ, IH. unfold updated, minRating, maxRating. lia.
Qed.

(** No rating is a trap. From whatever rating, 50 increases in a row bring a
    known peer back to the top tier and 100 to the maximum, and 200 decreases
    in a row bring it to the minimum. *)
Theorem rating_recovers prh pid r (Hwf : prh_wf prh) (Hr : rating_of prh pid = Some r) :
  badly_rated (iterate 50 (fun p => IncreaseRating p pid) prh) pid = false
  /\ rating_of (iterate 100 (fun p => IncreaseRating p pid) prh) pid = Some 100
  /\ rating_of (iterate 200 (fun p => DecreaseRating p pid) prh) pid = Some (-100).
Proof.
  destruct (rating_tier prh pid r Hwf Hr) as (Hz & _ & _). unfold minRating, maxRating in Hz.
  unfold badly_rated, IncreaseRating, DecreaseRating, increaseFactor, decreaseFactor.
  rewrite !(iterate_update _ _ _ _ r) by (done || lia).
  rewrite !iter_updated_up, iter_updated_down by (unfold minRating, maxRating; lia).
  split_and!; [apply Z.ltb_ge; lia|f_equal; lia|f_equal; lia].
Qed.

(** The monitor reports the rating the handler holds, "unknown" for a peer
    in neither cache, and a query changes no rating. *)
Theorem fetchRating_spec prh pid (Hwf : prh_wf prh) :
  (fetchRating prh pid).1
    = match rating_of prh pid with Some r => pretty r | None => "unknown" end
  /\ same_contents prh (fetchRating prh pid).2.
Proof.
  unfold fetchRating, rating_of.
  destruct (top_Get_spec prh (to_bytes pid)) as [Hv Hs].
  destruct (top_Get prh (to_bytes pid)) as [v1 prh1]. simpl in *. subst v1.
  destruct (tv prh !! to_bytes pid) as [v|] eqn:Et.
  { destruct (wf_top _ Hwf _ _ Et) as (z & -> & _). done. }
  destruct (bad_Get_spec prh1 (to_bytes pid)) as [Hv' Hs'].
  destruct (bad_Get prh1 (to_bytes pid)) as [v2 prh2]. simpl in *. subst v2.
  pose proof (same_contents_trans _ _ _ Hs Hs') as Hc. destruct Hs as [_ ->].
  destruct (bv prh !! to_bytes pid) as [v|] eqn:Eb; [|done].
  destruct (wf_bad _ Hwf _ _ Eb) as (z & -> & _). done.
Qed.
End facts.

(** A handler over LRU caches of three entries: "good" has rating 5 and "bad"
    has rating -3. *)
Definition demo_prh : peersRatingHandler (list (bytes * Value)) := {|
  topRatedCache := [(to_bytes "good", VInt32 5)];
  badRatedCache := [(to_bytes "bad", VInt32 (-3))] |}.

Lemma demo_prh_wf : prh_wf lru_view demo_prh.
Proof.
  split; unfold tv, bv, lru_view, demo_prh, maxRating, minRating; simpl.
  - intros k v [[_ <-]|[_ Hk]]%lookup_insert_Some; [eexists; split; [done|lia]|].
    by rewrite lookup_empty in Hk.
  - intros k v [[_ <-]|[_ Hk]]%lookup_insert_Some; [eexists; split; [done|lia]|].
    by rewrite lookup_empty in Hk.
  - intros k. destruct (decide (to_bytes "good" = k)) as [<-|Hk]; [by right|left].
    by rewrite lookup_insert_ne, lookup_empty.
Qed.

Lemma updateRating_refines_witness :
  rating_of lru_view (@IncreaseRating _ (lru_Cacher 2) demo_prh "bad") "bad" = Some (-1)
  /\ rating_of lru_view (@DecreaseRating _ (lru_Cacher 2) demo_prh "new") "new" = Some 0.
Proof.
  destruct (@updateRating_refines _ (lru_Cacher 2) lru_view (lru_laws 2) demo_prh "bad"
    demo_prh_wf) as [[_ [Hi _]] _].
  destruct (@updateRating_refines _ (lru_Cacher 2) lru_view (lru_laws 2) demo_prh "new"
    demo_prh_wf) as [_ [_ [Hd _]]].
  by split.
Defined.

Lemma GetTopRatedPeersFromList_spec_witness :
  (@GetTopRatedPeersFromList _ (lru_Cacher 2) false demo_prh ["bad"; "good"; "new"] 2).1
    = ["good"; "new"]
  /\ (@GetTopRatedPeersFromList _ (lru_Cacher 2) false demo_prh ["bad"; "good"; "new"] 3).1
    = ["good"; "new"; "bad"].
Proof.
  destruct (@GetTopRatedPeersFromList_spec _ (lru_Cacher 2) lru_view (lru_laws 2) false demo_prh
    ["bad"; "good"; "new"] 2 demo_prh_wf) as [H2 _].
  destruct (@GetTopRatedPeersFromList_spec _ (lru_Cacher 2) lru_view (lru_laws 2) false demo_prh
    ["bad"; "good"; "new"] 3 demo_prh_wf) as [H3 _].
  split; [rewrite H2; by vm_compute|rewrite H3; by vm_compute].
Defined.

Lemma rating_recovers_witness :
  rating_of lru_view (iterate 100 (fun p => @IncreaseRating _ (lru_Cacher 2) p "bad") demo_prh) "bad"
  = Some 100.
Proof.
  destruct (@rating_recovers _ (lru_Cacher 2) lru_view (lru_laws 2) demo_prh "bad" (-3)
    demo_prh_wf) as (_ & H & _); [by vm_compute|done].
Defined.

Lemma fetchRating_spec_witness :
  (@fetchRating _ (lru_Cacher 2) demo_prh "bad").1 = "-3"
  /\ (@fetchRating _ (lru_Cacher 2) demo_prh "new").1 = "unknown".
Proof.
  destruct (@fetchRating_spec _ (lru_Cacher 2) lru_view (lru_laws 2) demo_prh "bad" demo_prh_wf)
    as [H1 _].
  destruct (@fetchRating_spec _ (lru_Cacher 2) lru_view (lru_laws 2) demo_prh "new" demo_prh_wf)
    as [H2 _].
  split; [rewrite H1; by vm_compute|rewrite H2; by vm_compute].
Defined.
