(* ===== verification/PeersHolder.v ===== *)
(** * Preferred peers

    p2p/peersHolder: the peers that connect from an address of the preferred
    list, with the shard each of them turns out to belong to, and the validator
    of the preferred addresses. A Go run time panic is [None]. *)

From S2P Require Import Prelude Errors Config.
From stdpp Require Import list.
Open Scope Z_scope.

(** ** The data *)

Record peerInfo := {
  pi_pid : PeerID;
  pi_shardID : Z;  (* uint32 *)
}.

Record peerIDData := {
  connectionAddress : string;
  pd_shardID : Z;  (* uint32 *)
  index : Z;       (* int *)
}.

(** The maps hold pointers to [peerInfo] and [peerIDData] values that no other
    structure shares, so that the values stand for them. *)
Record peersHolder := {
  preferredConnAddresses : list string;
  connAddrToPeersInfo : gmap string (list peerInfo);
  tempPeerIDsWaitingForShard : gmap PeerID string;
  peerIDsPerShard : gmap Z (list PeerID);
  peerIDs : gmap PeerID peerIDData;
}.

(** ** connectionStringValidator.go *)

Section validator.
(** [net.ParseIP(s) != nil] and the success of [core.NewPeerID(s)] *)
Context (ParseIP : string -> bool) (NewPeerID : string -> bool).

Definition isValidIP (connStr : string) : bool := ParseIP connStr.
Definition isValidPeerID (connStr : string) : bool := NewPeerID connStr.
Definition IsValid (connStr : string) : bool := isValidIP connStr || isValidPeerID connStr.

(** ** peersHolder.go *)

(** The loop of the constructor over the preferred addresses *)
Fixpoint NewPeersHolder_loop (preferredConnectionAddresses : list string)
    (preferredConnections : list string) (connAddrToPeerIDs : gmap string (list peerInfo))
    : result (list string * gmap string (list peerInfo)) :=
  match preferredConnectionAddresses with
  | [] => Ok (preferredConnections, connAddrToPeerIDs)
  | connAddr :: rest =>
      guard_err (negb (IsValid connAddr)) ErrInvalidValue $
      NewPeersHolder_loop rest (preferredConnections ++ [connAddr])
        (<[connAddr := []]> connAddrToPeerIDs)
  end.

Definition NewPeersHolder (preferredConnectionAddresses : list string) : result peersHolder :=
  '(preferredConnections, connAddrToPeerIDs) ←
    NewPeersHolder_loop preferredConnectionAddresses [] ∅;
  Ok {|
    preferredConnAddresses := preferredConnections;
    connAddrToPeersInfo := connAddrToPeerIDs;
    tempPeerIDsWaitingForShard := ∅;
    peerIDsPerShard := ∅;
    peerIDs := ∅;
  |}.
End validator.

Definition getKnownConnection (ph : peersHolder) (connectionAddressStr : string) : string :=
  match List.find (fun preferredConnAddr => str_contains connectionAddressStr preferredConnAddr)
    (preferredConnAddresses ph) with
  | Some preferredConnAddr => preferredConnAddr
  | None => ""
  end.

Definition getPeerInfoForPeerID (peerID : PeerID) (peersInfo : list peerInfo) : option peerInfo :=
  List.find (fun pInfo => bool_decide (peerID = pi_pid pInfo)) peersInfo.

(** [pInfo.shardID = shardID] through the pointer the search returned *)
Fixpoint setShardForPeerID (peerID : PeerID) (shardID : Z) (peersInfo : list peerInfo)
    : list peerInfo :=
  match peersInfo with
  | [] => []
  | pInfo :: rest =>
      if bool_decide (peerID = pi_pid pInfo)
      then {| pi_pid := pi_pid pInfo; pi_shardID := shardID |} :: rest
      else pInfo :: setShardForPeerID peerID shardID rest
  end.

Section holder.
(** [core.AllShardId], the shard of a peer whose shard is not known yet *)
Context (AllShardId : Z).

Definition addNewPeerInfoToMaps (ph : peersHolder) (peerID : PeerID) (knownConnection : string)
    : peersHolder :=
  let newPeerInfo := {| pi_pid := peerID; pi_shardID := AllShardId |} in
  {| preferredConnAddresses := preferredConnAddresses ph;
     connAddrToPeersInfo :=
       <[knownConnection := map_get (connAddrToPeersInfo ph) knownConnection ++ [newPeerInfo]]>
         (connAddrToPeersInfo ph);
     tempPeerIDsWaitingForShard := <[peerID := knownConnection]> (tempPeerIDsWaitingForShard ph);
     peerIDsPerShard := peerIDsPerShard ph;
     peerIDs := peerIDs ph |}.

Definition PutConnectionAddress (ph : peersHolder) (peerID : PeerID) (connectionAddress : string)
    : peersHolder :=
  let knownConnection := getKnownConnection ph connectionAddress in
  if decide (knownConnection = "") then ph
  else
    let peersInfo := map_get (connAddrToPeersInfo ph) knownConnection in
    match peersInfo with
    | [] => addNewPeerInfoToMaps ph peerID knownConnection
    | _ =>
        match getPeerInfoForPeerID peerID peersInfo with
        | None => addNewPeerInfoToMaps ph peerID knownConnection
        | Some _ => ph
        end
    end.
End holder.

Definition PutShardID (ph : peersHolder) (peerID : PeerID) (shardID : Z) : peersHolder :=
  match tempPeerIDsWaitingForShard ph !! peerID with
  | None => ph
  | Some knownConnection =>
      let peersInfo := map_get (connAddrToPeersInfo ph) knownConnection in
      match getPeerInfoForPeerID peerID peersInfo with
      | None => ph
      | Some _ =>
          let ids := map_get (peerIDsPerShard ph) shardID ++ [peerID] in
          {| preferredConnAddresses := preferredConnAddresses ph;
             connAddrToPeersInfo :=
               <[knownConnection := setShardForPeerID peerID shardID peersInfo]>
                 (connAddrToPeersInfo ph);
             tempPeerIDsWaitingForShard := delete peerID (tempPeerIDsWaitingForShard ph);
             peerIDsPerShard := <[shardID := ids]> (peerIDsPerShard ph);
             peerIDs := <[peerID := {| connectionAddress := knownConnection;
                                       pd_shardID := shardID;
                                       index := len ids - 1 |}]> (peerIDs ph) |}
      end
  end.

Definition Get (ph : peersHolder) : gmap Z (list PeerID) := peerIDsPerShard ph.

Definition Contains (ph : peersHolder) (peerID : PeerID) : bool :=
  bool_decide (is_Some (peerIDs ph !! peerID)).

Definition getShardAndIndexForPeer (ph : peersHolder) (peerID : PeerID) : Z * Z * bool :=
  match peerIDs ph !! peerID with
  | None => (0, 0, false)
  | Some pidData => (pd_shardID pidData, index pidData, true)
  end.

(** [append(s[:index], s[index+1:]...)] panics when the index is out of range. *)
Definition removePeerFromMapAtIndex (ph : peersHolder) (shardID index : Z) : option peersHolder :=
  ids ← remove_at index (map_get (peerIDsPerShard ph) shardID);
  Some {| preferredConnAddresses := preferredConnAddresses ph;
          connAddrToPeersInfo := connAddrToPeersInfo ph;
          tempPeerIDsWaitingForShard := tempPeerIDsWaitingForShard ph;
          peerIDsPerShard :=
            match ids with
            | [] => delete shardID (<[shardID := ids]> (peerIDsPerShard ph))
            | _ => <[shardID := ids]> (peerIDsPerShard ph)
            end;
          peerIDs := peerIDs ph |}.

(** The first entry of the peer is removed; an emptied list becomes nil. *)
Fixpoint removeFirstPeerInfo (peerID : PeerID) (peersInfo : list peerInfo) : list peerInfo :=
  match peersInfo with
  | [] => []
  | pInfo :: rest =>
      if bool_decide (peerID = pi_pid pInfo) then rest
      else pInfo :: removeFirstPeerInfo peerID rest
  end.

Definition removePeerInfoAtConnectionAddress (ph : peersHolder) (peerID : PeerID)
    (connAddr : string) : peersHolder :=
  let peersInfo := map_get (connAddrToPeersInfo ph) connAddr in
  match getPeerInfoForPeerID peerID peersInfo with
  | None => ph
  | Some _ =>
      {| preferredConnAddresses := preferredConnAddresses ph;
         connAddrToPeersInfo :=
           <[connAddr := removeFirstPeerInfo peerID peersInfo]> (connAddrToPeersInfo ph);
         tempPeerIDsWaitingForShard := tempPeerIDsWaitingForShard ph;
         peerIDsPerShard := peerIDsPerShard ph;
         peerIDs := peerIDs ph |}
  end.

Definition Remove (ph : peersHolder) (peerID : PeerID) : option peersHolder :=
  match peerIDs ph !! peerID with
  | None => Some ph
  | Some pidData =>
      let '(shard, index, _) := getShardAndIndexForPeer ph peerID in
      ph ← removePeerFromMapAtIndex ph shard index;
      let connAddress := connectionAddress pidData in
      let ph := {| preferredConnAddresses := preferredConnAddresses ph;
                   connAddrToPeersInfo := connAddrToPeersInfo ph;
                   tempPeerIDsWaitingForShard := tempPeerIDsWaitingForShard ph;
                   peerIDsPerShard := peerIDsPerShard ph;
                   peerIDs := delete peerID (peerIDs ph) |} in
      let ph := removePeerInfoAtConnectionAddress ph peerID connAddress in
      Some {| preferredConnAddresses := preferredConnAddresses ph;
              connAddrToPeersInfo := connAddrToPeersInfo ph;
              tempPeerIDsWaitingForShard := delete peerID (tempPeerIDsWaitingForShard ph);
              peerIDsPerShard := peerIDsPerShard ph;
              peerIDs := peerIDs ph |}
  end.

Definition Clear (ph : peersHolder) : peersHolder :=
  {| preferredConnAddresses := preferredConnAddresses ph;
     connAddrToPeersInfo := ∅;
     tempPeerIDsWaitingForShard := ∅;
     peerIDsPerShard := ∅;
     peerIDs := ∅ |}.

(** ** Facts about the definitions *)

(** The operations as steps; a run stops at a panic. *)
Inductive holder_op :=
| OPutConnectionAddress (peerID : PeerID) (connectionAddress : string)
| OPutShardID (peerID : PeerID) (shardID : Z)
| ORemove (peerID : PeerID)
| OClear.

Definition holder_step (AllShardId : Z) (ph : peersHolder) (op : holder_op) : option peersHolder :=
  match op with
  | OPutConnectionAddress pid addr => Some (PutConnectionAddress AllShardId ph pid addr)
  | OPutShardID pid shard => Some (PutShardID ph pid shard)
  | ORemove pid => Remove ph pid
  | OClear => Some (Clear ph)
  end.

Fixpoint holder_run (AllShardId : Z) (ph : peersHolder) (ops : list holder_op) : option peersHolder :=
  match ops with
  | [] => Some ph
  | op :: ops => ph ← holder_step AllShardId ph op; holder_run AllShardId ph ops
  end.

(** A peer has an entry under a connection address. *)
Definition has_info (ph : peersHolder) (addr : string) (pid : PeerID) : Prop :=
  is_Some (getPeerInfoForPeerID pid (map_get (connAddrToPeersInfo ph) addr)).

(** The invariant: preferred and waiting peers came from a preferred address
    and are registered under it; the recorded shard and index of a preferred
    peer are where the peer is; the peers listed by shard are preferred. *)
Record holder_inv (ph : peersHolder) : Prop := {
  inv_addr pid d : peerIDs ph !! pid = Some d ->
    connectionAddress d ∈ preferredConnAddresses ph /\ has_info ph (connectionAddress d) pid;
  inv_waiting pid addr : tempPeerIDsWaitingForShard ph !! pid = Some addr ->
    addr ∈ preferredConnAddresses ph /\ has_info ph addr pid;
  inv_index pid d : peerIDs ph !! pid = Some d ->
    0 <= index d /\ map_get (peerIDsPerShard ph) (pd_shardID d) !! Z.to_nat (index d) = Some pid;
  inv_listed shard pid : pid ∈ map_get (peerIDsPerShard ph) shard -> is_Some (peerIDs ph !! pid);
}.

Lemma map_get_insert {K A} `{Countable K} (m : gmap K (list A)) k k' l :
  map_get (<[k := l]> m) k' = if decide (k = k') then l else map_get m k'.
Proof. unfold map_get. rewrite lookup_insert. by case_decide. Qed.

Lemma map_get_empty {K A} `{Countable K} (k : K) : map_get (∅ : gmap K (list A)) k = [].
Proof. unfold map_get. by rewrite lookup_empty. Qed.

Lemma getKnownConnection_spec ph addr :
  getKnownConnection ph addr <> "" ->
  getKnownConnection ph addr ∈ preferredConnAddresses ph
  /\ str_contains addr (getKnownConnection ph addr) = true.
Proof.
  unfold getKnownConnection. destruct (List.find _ _) as [a|] eqn:E; [|done]. intros _.
  apply List.find_some in E as [Hin Hc]. split; [by apply list_elem_of_In|done].
Qed.

Lemma getPeerInfo_app pid l l' :
  is_Some (getPeerInfoForPeerID pid (l ++ l')) <->
  is_Some (getPeerInfoForPeerID pid l) \/ is_Some (getPeerInfoForPeerID pid l').
Proof.
  unfold getPeerInfoForPeerID. induction l as [|i l IH]; simpl.
  - split; [by right|]. intros [[? ?]|?]; done.
  - destruct (bool_decide _); [|done]. split; [left|]; by eexists.
Qed.

Lemma getPeerInfo_setShard pid q shard l :
  is_Some (getPeerInfoForPeerID q (setShardForPeerID pid shard l)) <->
  is_Some (getPeerInfoForPeerID q l).
Proof.
  unfold getPeerInfoForPeerID. induction l as [|i l IH]; simpl; [done|].
  destruct (bool_decide_reflect (pid = pi_pid i)) as [->|]; simpl;
    destruct (bool_decide _); done || (split; by eexists).
Qed.

Lemma getPeerInfo_removeFirst pid q l :
  q <> pid -> is_Some (getPeerInfoForPeerID q l) ->
  is_Some (getPeerInfoForPeerID q (removeFirstPeerInfo pid l)).
Proof.
  intros Hq. unfold getPeerInfoForPeerID. induction l as [|i l IH]; simpl; [done|].
  destruct (bool_decide_reflect (pid = pi_pid i)) as [->|]; simpl.
  - by rewrite bool_decide_false by congruence.
  - by destruct (bool_decide (q = pi_pid i)).
Qed.

(** [PutConnectionAddress] either ignores the call or registers the peer. *)
Lemma PutConnectionAddress_cases AllShardId ph pid addr :
  PutConnectionAddress AllShardId ph pid addr = ph
  \/ (getKnownConnection ph addr <> ""
      /\ PutConnectionAddress AllShardId ph pid addr
         = addNewPeerInfoToMaps AllShardId ph pid (getKnownConnection ph addr)).
Proof.
  unfold PutConnectionAddress. case_decide; [by left|].
  destruct (map_get _ _); [by right|]. destruct (getPeerInfoForPeerID _ _); [by left|by right].
Qed.

Lemma addNewPeerInfo_has_info AllShardId ph pid addr a q :
  has_info ph a q -> has_info (addNewPeerInfoToMaps AllShardId ph pid addr) a q.
Proof.
  unfold has_info. simpl. rewrite map_get_insert. case_decide; [subst|done].
  rewrite getPeerInfo_app. by left.
Qed.

Lemma PutConnectionAddress_inv AllShardId ph pid addr :
  holder_inv ph -> holder_inv (PutConnectionAddress AllShardId ph pid addr).
Proof.
  intros Hinv. destruct (PutConnectionAddress_cases AllShardId ph pid addr) as [->|[Hk ->]]; [done|].
  destruct (getKnownConnection_spec ph addr Hk) as [Hin _]. destruct Hinv as [H1 H2 H3 H4].
  split; simpl; [| |done|done].
  - intros q d Hd. destruct (H1 q d Hd). split; [done|by apply addNewPeerInfo_has_info].
  - intros q a. rewrite lookup_insert. case_decide as Hq; [subst q|].
    + intros [= <-]. split; [done|]. unfold has_info. simpl.
      rewrite map_get_insert, decide_True, getPeerInfo_app by done. right.
      unfold getPeerInfoForPeerID. simpl. rewrite bool_decide_true by done. by eexists.
    + intros Ha. destruct (H2 q a Ha). split; [done|by apply addNewPeerInfo_has_info].
Qed.

Lemma PutShardID_inv ph pid shard : holder_inv ph -> holder_inv (PutShardID ph pid shard).
Proof.
  intros Hinv. unfold PutShardID.
  destruct (tempPeerIDsWaitingForShard ph !! pid) as [addr|] eqn:Ht; [|done].
  destruct (getPeerInfoForPeerID pid _) as [i|] eqn:Hi; [|done].
  destruct Hinv as [H1 H2 H3 H4].
  assert (Hinfo : forall a q, has_info ph a q -> is_Some (getPeerInfoForPeerID q (map_get
    (<[addr := setShardForPeerID pid shard (map_get (connAddrToPeersInfo ph) addr)]>
      (connAddrToPeersInfo ph)) a))).
  { intros a q Hq. rewrite map_get_insert. case_decide; [subst|done].
    by apply getPeerInfo_setShard. }
  destruct (H2 _ _ Ht) as [Hin Hhas].
  split; unfold has_info; simpl.
  - intros q d. rewrite lookup_insert. case_decide; [subst|].
    + intros [= <-]. simpl. eauto.
    + intros Hd. destruct (H1 q d Hd). eauto.
  - intros q a Ha. apply lookup_delete_Some in Ha as [_ Ha]. destruct (H2 q a Ha). eauto.
  - intros q d. rewrite lookup_insert. case_decide; [subst|].
    + intros [= <-]. simpl. rewrite map_get_insert, decide_True, len_app by done.
      pose proof (len_nonneg (map_get (peerIDsPerShard ph) shard)). unfold len in *. simpl.
      split; [lia|]. rewrite lookup_app_r by lia.
      replace (_ - _)%nat with 0%nat by lia. done.
    + intros Hd. destruct (H3 q d Hd) as [Hn Hl]. split; [done|].
      rewrite map_get_insert. case_decide; [subst|done].
      by apply lookup_app_l_Some.
  - intros s q. rewrite map_get_insert, lookup_insert. case_decide; subst.
    + rewrite elem_of_app. case_decide; [by eexists|]. intros [Hq|Hq]; [by eapply H4|].
      set_solver.
    + case_decide; [by eexists|]. apply H4.
Qed.

Lemma Clear_inv ph : holder_inv (Clear ph).
Proof.
  split; simpl; intros *; rewrite ?lookup_empty, ?map_get_empty; try done. set_solver.
Qed.

Lemma NewPeersHolder_loop_spec ParseIP NewPeerID addrs acc m r :
  NewPeersHolder_loop ParseIP NewPeerID addrs acc m = Ok r ->
  r.1 = acc ++ addrs /\ (forall k, map_get m k = [] -> map_get r.2 k = []).
Proof.
  revert acc m. induction addrs as [|a addrs IH]; intros acc m; simpl.
  - intros [= <-]. by rewrite app_nil_r.
  - rewrite guard_err_Ok. intros [_ Hl]. destruct (IH _ _ Hl) as [-> Hm].
    rewrite <- app_assoc. split; [done|]. intros k Hk. apply Hm. rewrite map_get_insert.
    by case_decide.
Qed.

Lemma NewPeersHolder_inv ParseIP NewPeerID addrs ph :
  NewPeersHolder ParseIP NewPeerID addrs = Ok ph ->
  holder_inv ph /\ preferredConnAddresses ph = addrs.
Proof.
  unfold NewPeersHolder. rewrite bind_Ok. intros ([pref m] & Hl & [= <-]).
  apply NewPeersHolder_loop_spec in Hl as [Hp _]. simpl in Hp. split; [|done].
  split; simpl; intros *; rewrite ?lookup_empty, ?map_get_empty; try done. set_solver.
Qed.

Definition is_removal (op : holder_op) : bool := match op with ORemove _ => true | _ => false end.

(** C12: as long as no peer is removed, the preferred peers holder is sound. Every
    sequence of connections, shard updates and resets on a new holder succeeds
    and keeps the invariant: each preferred or waiting peer came from one of
    the preferred addresses, and the recorded shard and index of a preferred
    peer are its place in the lists by shard, which hold preferred peers only. *)
Theorem holder_run_inv ParseIP NewPeerID AllShardId addrs ph0 ops
    (Hnew : NewPeersHolder ParseIP NewPeerID addrs = Ok ph0)
    (Hops : forallb (fun op => negb (is_removal op)) ops = true) :
  exists ph, holder_run AllShardId ph0 ops = Some ph /\ holder_inv ph
    /\ preferredConnAddresses ph = addrs.
Proof.
  destruct (NewPeersHolder_inv _ _ _ _ Hnew) as [Hinv Hpref]. clear Hnew.
  revert ph0 Hinv Hpref. induction ops as [|op ops IH]; intros ph0 Hinv Hpref; simpl in *.
  { by exists ph0. }
  bdestruct_all. destruct op as [pid addr|pid shard|pid|]; simpl in *; try done.
  - apply IH; [done|by apply PutConnectionAddress_inv|].
    by destruct (PutConnectionAddress_cases AllShardId ph0 pid addr) as [->|[_ ->]].
  - apply IH; [done|by apply PutShardID_inv|]. unfold PutShardID. by repeat case_match.
  - apply IH; [done|apply Clear_inv|done].
Qed.

(** What the removal of a preferred peer does, when its index is good *)
Lemma Remove_at ph pid d :
  peerIDs ph !! pid = Some d ->
  0 <= index d -> map_get (peerIDsPerShard ph) (pd_shardID d) !! Z.to_nat (index d) = Some pid ->
  exists ph', Remove ph pid = Some ph'
    /\ peerIDs ph' = delete pid (peerIDs ph)
    /\ tempPeerIDsWaitingForShard ph' = delete pid (tempPeerIDsWaitingForShard ph)
    /\ preferredConnAddresses ph' = preferredConnAddresses ph
    /\ (forall s, map_get (peerIDsPerShard ph') s =
         if decide (s = pd_shardID d)
         then take (Z.to_nat (index d)) (map_get (peerIDsPerShard ph) s)
              ++ drop (S (Z.to_nat (index d))) (map_get (peerIDsPerShard ph) s)
         else map_get (peerIDsPerShard ph) s)
    /\ (forall a q, q <> pid -> has_info ph a q -> has_info ph' a q).
Proof.
  intros Hd Hi Hl. unfold Remove, getShardAndIndexForPeer. rewrite !Hd.
  pose proof (lookup_lt_Some _ _ _ Hl) as Hlt.
  unfold removePeerFromMapAtIndex, remove_at, len.
  rewrite (proj2 (Z.leb_le _ _)), (proj2 (Z.ltb_lt _ _)) by lia. simpl.
  eexists. split; [reflexivity|]. unfold removePeerInfoAtConnectionAddress. simpl.
  set (ids := take _ _ ++ drop _ _).
  split_and!; try (destruct (getPeerInfoForPeerID _ _); done).
  - intros s.
    assert (Hm : map_get (match ids with
      | [] => delete (pd_shardID d) (<[pd_shardID d:=ids]> (peerIDsPerShard ph))
      | _ => <[pd_shardID d:=ids]> (peerIDsPerShard ph) end) s
      = if decide (s = pd_shardID d) then ids else map_get (peerIDsPerShard ph) s).
    { destruct ids as [|x ids']; unfold map_get; [rewrite lookup_delete|];
        rewrite lookup_insert; repeat case_decide; by subst. }
    destruct (getPeerInfoForPeerID _ _); simpl; rewrite Hm; case_decide; by subst.
  - intros a q Hq Hh. unfold has_info in *.
    destruct (getPeerInfoForPeerID pid _) as [i|] eqn:E; simpl; [|done].
    rewrite map_get_insert. case_decide; [subst a|done]. by apply getPeerInfo_removeFirst.
Qed.

(** Removing a preferred peer whose recorded place is good succeeds and
    removes exactly that peer: it is neither preferred nor waiting any more, one
    occurrence of it leaves the list of its shard, and every other peer stays
    preferred and listed as before. *)
Theorem Remove_spec ph pid (Hinv : holder_inv ph) (Hin : Contains ph pid = true) :
  exists ph' shard, Remove ph pid = Some ph'
    /\ Contains ph' pid = false
    /\ tempPeerIDsWaitingForShard ph' !! pid = None
    /\ (forall q, q <> pid -> Contains ph' q = Contains ph q)
    /\ map_get (Get ph) shard ≡ₚ pid :: map_get (Get ph') shard
    /\ (forall s, s <> shard -> map_get (Get ph') s = map_get (Get ph) s).
Proof.
  unfold Contains in Hin. apply bool_decide_eq_true in Hin as [d Hd].
  destruct (inv_index _ Hinv _ _ Hd) as [Hi Hl].
  destruct (Remove_at ph pid d Hd Hi Hl) as (ph' & -> & Hp & Ht & _ & Hs & _).
  exists ph', (pd_shardID d). unfold Contains, Get. rewrite Hp, Ht. split_and!.
  - done.
  - rewrite lookup_delete_eq. by apply bool_decide_false; intros [? ?].
  - apply lookup_delete_eq.
  - intros q Hq. by rewrite lookup_delete_ne.
  - rewrite Hs, decide_True by done.
    rewrite <- (take_drop_middle _ _ _ Hl) at 1. by rewrite Permutation_middle.
  - intros s Hne. by rewrite Hs, decide_False.
Qed.

(** A removal leaves stale indexes behind. Removing a preferred peer shifts
    the peers that follow it in the list of its shard, but not their recorded
    indexes, so that removing next the last peer of that list is a run time
    panic (slice bounds out of range) although that peer is still preferred. *)
Theorem Remove_stale_index_panics ph p q dp dq (Hinv : holder_inv ph)
    (Hp : peerIDs ph !! p = Some dp) (Hq : peerIDs ph !! q = Some dq) (Hne : p <> q)
    (Hshard : pd_shardID dp = pd_shardID dq)
    (Hlast : index dq = len (map_get (peerIDsPerShard ph) (pd_shardID dq)) - 1) :
  exists ph', Remove ph p = Some ph' /\ Contains ph' q = true /\ Remove ph' q = None.
Proof.
  destruct (inv_index _ Hinv _ _ Hp) as [Hi Hl].
  destruct (Remove_at ph p dp Hp Hi Hl) as (ph' & Hr & Hids & _ & _ & Hs & _).
  exists ph'. assert (Hq' : peerIDs ph' !! q = Some dq) by (rewrite Hids; by rewrite lookup_delete_ne).
  split_and!; [done|by apply bool_decide_true; eexists|].
  unfold Remove, getShardAndIndexForPeer, removePeerFromMapAtIndex. rewrite !Hq'.
  rewrite remove_at_panics; [done|].
  rewrite Hs, <- Hshard, decide_True by done. rewrite <- Hshard in Hlast.
  apply lookup_lt_Some in Hl. unfold len in *. rewrite length_app, length_take, length_drop. lia.
Qed.

(** A peer that connects from a preferred address becomes preferred when its
    shard is known, and not before: the connection only makes it wait, the
    shard update lists it last in its shard; a peer from any other address
    changes nothing. *)
Theorem preferred_registration AllShardId ph pid addr shard
    (Hinv : holder_inv ph)
    (Hnew : getPeerInfoForPeerID pid
              (map_get (connAddrToPeersInfo ph) (getKnownConnection ph addr)) = None) :
  let ph1 := PutConnectionAddress AllShardId ph pid addr in
  let ph2 := PutShardID ph1 pid shard in
  if decide (getKnownConnection ph addr = "") then ph1 = ph
  else Contains ph1 pid = Contains ph pid
       /\ Get ph1 = Get ph
       /\ Contains ph2 pid = true
       /\ map_get (Get ph2) shard = map_get (Get ph) shard ++ [pid]
       /\ tempPeerIDsWaitingForShard ph2 !! pid = None.
Proof.
  intros ph1 ph2. case_decide as Hk.
  { subst ph1. unfold PutConnectionAddress. by rewrite decide_True. }
  assert (H1 : ph1 = addNewPeerInfoToMaps AllShardId ph pid (getKnownConnection ph addr)).
  { subst ph1. unfold PutConnectionAddress. rewrite decide_False by done. rewrite Hnew.
    by destruct (map_get _ _). }
  subst ph2. rewrite H1. unfold PutShardID. simpl.
  rewrite lookup_insert_eq, map_get_insert, decide_True by done.
  assert (is_Some (getPeerInfoForPeerID pid (map_get (connAddrToPeersInfo ph)
    (getKnownConnection ph addr) ++ [{| pi_pid := pid; pi_shardID := AllShardId |}]))) as [i ->].
  { apply getPeerInfo_app. right. unfold getPeerInfoForPeerID. simpl.
    rewrite bool_decide_true by done. by eexists. }
  unfold Contains, Get. simpl. split_and!; [done|done| | |].
  - rewrite lookup_insert_eq. apply bool_decide_true. by eexists.
  - by rewrite map_get_insert, decide_True.
  - apply lookup_delete_eq.
Qed.

(** ** Concrete instances *)

Definition demo_holder : peersHolder := {|
  preferredConnAddresses := ["10.0.0.1"]; connAddrToPeersInfo := {["10.0.0.1" := []]};
  tempPeerIDsWaitingForShard := ∅; peerIDsPerShard := ∅; peerIDs := ∅ |}.

Lemma demo_holder_new :
  NewPeersHolder (fun _ => true) (fun _ => false) ["10.0.0.1"] = Ok demo_holder.
Proof. by vm_compute. Qed.

(** Two peers connect from the preferred address and belong to shard 7. *)
Definition demo_ops : list holder_op :=
  [OPutConnectionAddress "p1" "/ip4/10.0.0.1/tcp/1/p2p/p1"; OPutShardID "p1" 7;
   OPutConnectionAddress "p2" "/ip4/10.0.0.1/tcp/1/p2p/p2"; OPutShardID "p2" 7].

Definition demo_full : peersHolder := default demo_holder (holder_run 99 demo_holder demo_ops).

Lemma demo_full_inv : holder_inv demo_full.
Proof.
  destruct (NewPeersHolder_inv _ _ _ _ demo_holder_new) as [Hi _].
  unfold demo_full, demo_ops. simpl.
  by repeat (apply PutShardID_inv || apply PutConnectionAddress_inv).
Qed.

Lemma holder_run_inv_witness :
  exists ph, holder_run 99 demo_holder demo_ops = Some ph /\ holder_inv ph
    /\ preferredConnAddresses ph = ["10.0.0.1"].
Proof.
  apply (holder_run_inv (fun _ => true) (fun _ => false) 99 ["10.0.0.1"] demo_holder demo_ops).
  - apply demo_holder_new.
  - by vm_compute.
Defined.

Lemma Remove_spec_witness :
  exists ph' shard, Remove demo_full "p1" = Some ph' /\ Contains ph' "p1" = false
    /\ map_get (Get demo_full) shard ≡ₚ "p1" :: map_get (Get ph') shard.
Proof.
  destruct (Remove_spec demo_full "p1" demo_full_inv) as (ph' & s & H1 & H2 & _ & _ & H3 & _);
    [vm_compute; reflexivity|].
  exists ph', s. exact (conj H1 (conj H2 H3)).
Defined.

Lemma Remove_stale_index_panics_witness :
  exists ph', Remove demo_full "p1" = Some ph' /\ Contains ph' "p2" = true
    /\ Remove ph' "p2" = None.
Proof.
  apply (Remove_stale_index_panics demo_full "p1" "p2"
    {| connectionAddress := "10.0.0.1"; pd_shardID := 7; index := 0 |}
    {| connectionAddress := "10.0.0.1"; pd_shardID := 7; index := 1 |} demo_full_inv);
    done || by vm_compute.
Defined.

Lemma preferred_registration_witness :
  let ph1 := PutConnectionAddress 99 demo_full "p3" "/ip4/10.0.0.1/tcp/1/p2p/p3" in
  Contains ph1 "p3" = false /\ Contains (PutShardID ph1 "p3" 7) "p3" = true.
Proof.
  pose proof (preferred_registration 99 demo_full "p3" "/ip4/10.0.0.1/tcp/1/p2p/p3" 7
    demo_full_inv eq_refl) as H.
  cbv zeta in H.
  rewrite (decide_False (P := getKnownConnection demo_full "/ip4/10.0.0.1/tcp/1/p2p/p3" = "")) in H
    by (vm_compute; discriminate).
  destruct H as (H1 & _ & Hc & _). split; [|exact Hc].
  rewrite H1. vm_compute. reflexivity.
Defined.
