(* ===== verification/Messages.v ===== *)
(** * Messages

    The message of p2p/message, its construction from a pubsub message in
    p2p/libp2p/message.go, and the verifier of p2p/messageCheck, which checks
    signatures and (de)serializes lists of messages. *)

From S2P Require Import Prelude Errors Config.
From stdpp Require Import list.
Open Scope Z_scope.

(** A [[]byte] that may be nil *)
Abbreviation slice := (option (list Byte.byte)).
Definition sl (s : slice) : bytes := default [] s.

(** ** The data *)

(** go-libp2p-pubsub's pb.Message; [Topic] is a pointer. *)
Record pbMessage := {
  pb_From : slice;
  pb_Data : slice;
  pb_Seqno : slice;
  pb_Topic : option string;
  pb_Signature : slice;
  pb_Key : slice;
}.

#[export] Instance pbMessage_eq_decision : EqDecision pbMessage.
Proof. solve_decision. Defined.

(** p2p/data, the struct of topicMessage.pb.go *)
Record TopicMessage := {
  Version : Z;    (* uint32 *)
  Payload : slice;
  Timestamp : Z;  (* int64 *)
  Pk : slice;
  SignatureOnPid : slice;
}.

(** p2p/message/message.go *)
Record Message := {
  FromField : slice;
  DataField : slice;
  PayloadField : slice;
  SeqNoField : slice;
  TopicField : string;
  SignatureField : slice;
  KeyField : slice;
  PeerField : PeerID;
  TimestampField : Z;  (* int64 *)
  BroadcastMethodField : BroadcastMethod;
}.

Definition m_From (m : Message) : slice := FromField m.
Definition m_Data (m : Message) : slice := DataField m.
Definition m_Payload (m : Message) : slice := PayloadField m.
Definition m_SeqNo (m : Message) : slice := SeqNoField m.
Definition m_Topic (m : Message) : string := TopicField m.
Definition m_Signature (m : Message) : slice := SignatureField m.
Definition m_Key (m : Message) : slice := KeyField m.
Definition m_Peer (m : Message) : PeerID := PeerField m.
Definition m_Timestamp (m : Message) : Z := TimestampField m.
Definition m_BroadcastMethod (m : Message) : BroadcastMethod := BroadcastMethodField m.

(** ** p2p/interface.go: what the components that send messages are given *)

Record SignerVerifier := {
  s_Sign : bytes -> result bytes;
  s_Verify : bytes -> PeerID -> slice -> option error;
}.

Record Marshaller := {
  MarshalTopic : TopicMessage -> result bytes;
  UnmarshalTopic : slice -> result TopicMessage;
}.

Class PeerDenialEvaluator (E : Type) := {
  IsDenied : E -> PeerID -> bool;
  UpsertPeerID : E -> PeerID -> Z -> option error * E;
}.

(** A denied peer stays denied, and an upserted one is denied. The laws are those of an
    evaluator that keeps what it is given: one whose upsert fails, and the disabled evaluator
    below, which denies nobody, are not of this class. *)
Class PeerDenialLaws (E : Type) `{PeerDenialEvaluator E} : Prop := {
  upsert_denied d pid span : pid <> "" -> 0 < span -> IsDenied (UpsertPeerID d pid span).2 pid = true;
  upsert_keeps d pid span q : IsDenied d q = true -> IsDenied (UpsertPeerID d pid span).2 q = true;
}.

(** libp2p/disabled/peerDenialEvaluator.go: nobody is denied. *)
Inductive disabledPeerDenialEvaluator := DisabledPeerDenialEvaluator.

#[export] Instance disabled_PeerDenialEvaluator : PeerDenialEvaluator disabledPeerDenialEvaluator := {
  IsDenied _ _ := false;
  UpsertPeerID d _ _ := (None, d);
}.

(** ** libp2p/message.go *)

Definition currentTopicMessageVersion : Z := 1.

(** The topic message that the messages handler makes for a buffer at a time *)
Definition sent_topic (buff : bytes) (timestamp : Z) : TopicMessage := {|
  Version := currentTopicMessageVersion; Payload := Some buff; Timestamp := timestamp; Pk := None;
  SignatureOnPid := None |}.

(** What it relies on: what was marshalled is read back. *)
Class TopicMarshallerLaws (m : Marshaller) : Prop := {
  topic_roundtrip buff timestamp b : buff <> [] -> len buff < 2 ^ 62 -> in_s 64 timestamp ->
    MarshalTopic m (sent_topic buff timestamp) = Ok b ->
    UnmarshalTopic m (Some b) = Ok (sent_topic buff timestamp) /\ b <> [];
}.

Section new_message.
(** [peer.IDFromBytes] *)
Context (IDFromBytes : bytes -> result PeerID).

(** [marshaller] is the marshaller's [Unmarshal] into a topic message, or nil. *)
Definition NewMessage (msg : option pbMessage) (marshaller : option (slice -> result TopicMessage))
    (broadcastMethod : BroadcastMethod) : result Message :=
  match marshaller with
  | None => Err ErrNilMarshaller
  | Some Unmarshal =>
      match msg with
      | None => Err ErrNilMessage
      | Some msg =>
          match pb_Topic msg with
          | None => Err ErrNilTopic
          | Some topic =>
              match Unmarshal (pb_Data msg) with
              | Err _ => Err ErrMessageUnmarshalError
              | Ok topicMessage =>
                  guard_err (negb (Version topicMessage =? currentTopicMessageVersion))
                    ErrUnsupportedMessageVersion $
                  guard_err (len (sl (SignatureOnPid topicMessage)) + len (sl (Pk topicMessage)) >? 0)
                    ErrUnsupportedFields $
                  id ← IDFromBytes (sl (pb_From msg));
                  Ok {|
                    FromField := pb_From msg;
                    DataField := Payload topicMessage;
                    PayloadField := pb_Data msg;
                    SeqNoField := pb_Seqno msg;
                    TopicField := topic;
                    SignatureField := pb_Signature msg;
                    KeyField := pb_Key msg;
                    PeerField := id;
                    TimestampField := Timestamp topicMessage;
                    BroadcastMethodField := broadcastMethod;
                  |}
              end
          end
      end
  end.

(** ** messageCheck/messageVerifier.go *)

(** The parts of the verifier: the marshaller for topic messages and for
    batches of byte slices, and the signature check of the p2p signer. *)
Record messageVerifier := {
  mv_UnmarshalTopic : slice -> result TopicMessage;
  mv_MarshalBatch : list bytes -> result bytes;
  mv_UnmarshalBatch : bytes -> result (list bytes);
  mv_VerifySig : bytes -> PeerID -> slice -> option error;
}.

(** The constructor: any of the three components may be nil. *)
Definition NewMessageVerifier
    (Marshaller : option ((slice -> result TopicMessage) * (list bytes -> result bytes)
                          * (bytes -> result (list bytes))))
    (P2PSigner : option (bytes -> PeerID -> slice -> option error)) (Logger : bool)
    : result messageVerifier :=
  match Marshaller, P2PSigner with
  | None, _ => Err ErrNilMarshaller
  | _, None => Err ErrNilP2PSigner
  | Some (u, mb, ub), Some v =>
      guard_err (negb Logger) ErrNilLogger $
      Ok {| mv_UnmarshalTopic := u; mv_MarshalBatch := mb; mv_UnmarshalBatch := ub;
            mv_VerifySig := v |}
  end.

(** pb.Message's [Marshal] and [Unmarshal], pubsub.SignPrefix *)
Context (pb_Marshal : pbMessage -> result bytes) (pb_Unmarshal : bytes -> result pbMessage).
Context (SignPrefix : string).

Definition withSignPrefix (bytes : bytes) : Prelude.bytes := to_bytes SignPrefix ++ bytes.

Definition convertP2PMessagetoPubSubMessage (msg : option Message) : result pbMessage :=
  match msg with
  | None => Err ErrNilMessage
  | Some msg =>
      let topic := m_Topic msg in
      Ok {| pb_From := m_From msg; pb_Data := m_Payload msg; pb_Seqno := m_SeqNo msg;
            pb_Topic := Some topic; pb_Signature := m_Signature msg; pb_Key := m_Key msg |}
  end.

Definition preparePubSubMessagePayload (msg : option Message) : result bytes :=
  pubsubMsg ← convertP2PMessagetoPubSubMessage msg;
  let xm := {| pb_From := pb_From pubsubMsg; pb_Data := pb_Data pubsubMsg;
               pb_Seqno := pb_Seqno pubsubMsg; pb_Topic := pb_Topic pubsubMsg;
               pb_Signature := None; pb_Key := None |} in
  pubsubMsgBytes ← pb_Marshal xm;
  Ok (withSignPrefix pubsubMsgBytes).

Definition mv_Verify (m : messageVerifier) (msg : option Message) : option error :=
  match msg with
  | None => Some (ErrNilMessage : error)
  | Some message =>
      match preparePubSubMessagePayload msg with
      | Err err => Some err
      | Ok payload => mv_VerifySig m payload (m_Peer message) (m_Signature message)
      end
  end.

(** The loop of [Serialize]: nil messages are skipped, a marshalling error ends
    it. *)
Fixpoint Serialize_loop (messages : list (option Message)) (pubsubMessages : list bytes)
    : result (list bytes) :=
  match messages with
  | [] => Ok pubsubMessages
  | msg :: messages =>
      match convertP2PMessagetoPubSubMessage msg with
      | Err _ => Serialize_loop messages pubsubMessages
      | Ok pubsubMsg =>
          pubsubMsgBytes ← pb_Marshal pubsubMsg;
          Serialize_loop messages (pubsubMessages ++ [pubsubMsgBytes])
      end
  end.

Definition Serialize (m : messageVerifier) (messages : list (option Message)) : result bytes :=
  pubsubMessages ← Serialize_loop messages [];
  if len pubsubMessages =? 0 then Ok []
  else
    messagesBytes ← mv_MarshalBatch m pubsubMessages;
    Ok messagesBytes.

Definition convertPubSubMessagestoP2PMessage (msg : option pbMessage)
    (marshaller : slice -> result TopicMessage) : result Message :=
  match msg with
  | None => Err ErrNilMessage
  | Some msg =>
      let pubsubMsg := {| pb_From := pb_From msg; pb_Data := pb_Data msg;
        pb_Seqno := pb_Seqno msg; pb_Topic := pb_Topic msg;
        pb_Signature := pb_Signature msg; pb_Key := pb_Key msg |} in
      NewMessage (Some pubsubMsg) (Some marshaller) Broadcast
  end.

(** The loop of [Deserialize]: a message that does not unmarshal ends it, one
    that does not convert is skipped. *)
Fixpoint Deserialize_loop (m : messageVerifier) (pubsubMessagesBytes : list bytes)
    (p2pMessages : list Message) : result (list Message) :=
  match pubsubMessagesBytes with
  | [] => Ok p2pMessages
  | pubsubMessageBytes :: rest =>
      pubsubMsg ← pb_Unmarshal pubsubMessageBytes;
      match convertPubSubMessagestoP2PMessage (Some pubsubMsg) (mv_UnmarshalTopic m) with
      | Err _ => Deserialize_loop m rest p2pMessages
      | Ok p2pMsg => Deserialize_loop m rest (p2pMessages ++ [p2pMsg])
      end
  end.

Definition Deserialize (m : messageVerifier) (messagesBytes : bytes) : result (list Message) :=
  pubsubMessagesBytes ← mv_UnmarshalBatch m messagesBytes;
  Deserialize_loop m pubsubMessagesBytes [].

(** ** Facts about the definitions *)

(** The pubsub message a message carries *)
Definition wire (m : Message) : pbMessage :=
  {| pb_From := FromField m; pb_Data := PayloadField m; pb_Seqno := SeqNoField m;
     pb_Topic := Some (TopicField m); pb_Signature := SignatureField m; pb_Key := KeyField m |}.

Definition set_broadcast (b : BroadcastMethod) (m : Message) : Message :=
  {| FromField := FromField m; DataField := DataField m; PayloadField := PayloadField m;
     SeqNoField := SeqNoField m; TopicField := TopicField m; SignatureField := SignatureField m;
     KeyField := KeyField m; PeerField := PeerField m; TimestampField := TimestampField m;
     BroadcastMethodField := b |}.

Lemma NewMessage_Ok_inv msg Unmarshal b m :
  NewMessage (Some msg) (Some Unmarshal) b = Ok m ->
  wire m = msg /\ BroadcastMethodField m = b /\ IDFromBytes (sl (pb_From msg)) = Ok (PeerField m)
  /\ exists tm, Unmarshal (pb_Data msg) = Ok tm /\ Version tm = 1
     /\ sl (SignatureOnPid tm) = [] /\ sl (Pk tm) = []
     /\ DataField m = Payload tm /\ TimestampField m = Timestamp tm.
Proof.
  unfold NewMessage, currentTopicMessageVersion. destruct msg as [f d s t sg k]. simpl.
  destruct t as [t|]; [|done]. destruct (Unmarshal d) as [tm|]; [|done].
  rewrite !guard_err_Ok, bind_Ok. intros (Hv & Hs & id & Hid & [= <-]).
  bdestruct_all. pose proof (len_nonneg (sl (SignatureOnPid tm))).
  pose proof (len_nonneg (sl (Pk tm))).
  split_and!; try done. exists tm. split_and!; try done; apply len_0; lia.
Qed.

Lemma NewMessage_accepts msg Unmarshal b topic tm id :
  pb_Topic msg = Some topic -> Unmarshal (pb_Data msg) = Ok tm -> Version tm = 1 ->
  sl (SignatureOnPid tm) = [] -> sl (Pk tm) = [] -> IDFromBytes (sl (pb_From msg)) = Ok id ->
  NewMessage (Some msg) (Some Unmarshal) b = Ok {|
    FromField := pb_From msg; DataField := Payload tm; PayloadField := pb_Data msg;
    SeqNoField := pb_Seqno msg; TopicField := topic; SignatureField := pb_Signature msg;
    KeyField := pb_Key msg; PeerField := id; TimestampField := Timestamp tm;
    BroadcastMethodField := b |}.
Proof.
  intros Ht Hu Hv Hs Hk Hid. unfold NewMessage, currentTopicMessageVersion.
  by rewrite Ht, Hu, Hv, Hs, Hk, Hid.
Qed.

(** The error [NewMessage] reports for a non nil message and marshaller *)
Definition NewMessage_error Unmarshal msg : option error :=
  match pb_Topic msg with
  | None => Some (ErrNilTopic : error)
  | Some _ =>
      match Unmarshal (pb_Data msg) with
      | Err _ => Some (ErrMessageUnmarshalError : error)
      | Ok tm =>
          if negb (Version tm =? 1) then Some (ErrUnsupportedMessageVersion : error)
          else match sl (SignatureOnPid tm), sl (Pk tm) with
               | [], [] => match IDFromBytes (sl (pb_From msg)) with Err e => Some e | Ok _ => None end
               | _, _ => Some (ErrUnsupportedFields : error)
               end
      end
  end.

(** A message is accepted exactly when it names a topic, its data decodes to
    a topic message of version 1 that uses neither of the two reserved fields,
    and its origin is a peer ID; then its fields are those of the pubsub
    message, with the payload and the timestamp of the topic message. *)
Theorem NewMessage_spec Unmarshal msg b :
  match NewMessage (Some msg) (Some Unmarshal) b with
  | Ok m => NewMessage_error Unmarshal msg = None
      /\ wire m = msg /\ BroadcastMethodField m = b
      /\ IDFromBytes (sl (pb_From msg)) = Ok (PeerField m)
      /\ exists tm, Unmarshal (pb_Data msg) = Ok tm
         /\ DataField m = Payload tm /\ TimestampField m = Timestamp tm
  | Err e => NewMessage_error Unmarshal msg = Some e
  end.
Proof.
  destruct (NewMessage (Some msg) (Some Unmarshal) b) as [m|e] eqn:E.
  - destruct (NewMessage_Ok_inv _ _ _ _ E) as (Hw & Hb & Hid & tm & Hu & Hv & Hs & Hk & Hd & Ht).
    split_and!; eauto. unfold NewMessage_error. rewrite Hu, Hv, Hs, Hk, Hid. by rewrite <- Hw.
  - revert E. unfold NewMessage, NewMessage_error, currentTopicMessageVersion, guard_err,
      mbind, result_bind.
    destruct (pb_Topic msg); [|by intros [= <-]].
    destruct (Unmarshal _) as [tm|]; [|by intros [= <-]].
    destruct (negb _); [by intros [= <-]|].
    pose proof (len_nonneg (sl (SignatureOnPid tm))) as H1.
    pose proof (len_nonneg (sl (Pk tm))) as H2.
    destruct (_ >? 0) eqn:Hg.
    + intros [= <-]. destruct (sl (SignatureOnPid tm)) eqn:Es, (sl (Pk tm)) eqn:Ek; try done.
    + bdestruct_all. rewrite (len_0 (sl (SignatureOnPid tm))), (len_0 (sl (Pk tm))) by lia.
      destruct (IDFromBytes _); intros [=]; by subst.
Qed.

(** ** Serialization *)

(** What the loop of [Serialize] collects: the encodings of the messages that
    are not nil, in order *)
Lemma Serialize_loop_Ok ms acc bs :
  Serialize_loop ms acc = Ok bs <->
  exists new, bs = acc ++ new
    /\ Forall2 (fun m b => pb_Marshal (wire m) = Ok b) (omap id ms) new.
Proof.
  revert acc. induction ms as [|[m|] ms IH]; intros acc; cbn [Serialize_loop].
  - split.
    + intros [= <-]. exists []. by rewrite app_nil_r.
    + intros (new & -> & Hn). inversion Hn. by rewrite app_nil_r.
  - cbn [convertP2PMessagetoPubSubMessage omap id]. rewrite bind_Ok.
    change (omap id (Some m :: ms)) with (m :: omap id ms). split.
    + intros (b & Hb & (new & -> & Hn)%IH). exists (b :: new).
      rewrite <- app_assoc. split; [done|]. by constructor.
    + intros (new & -> & Hn). inversion Hn as [|? b ? new' Hb Hn']; subst.
      exists b. split; [done|]. apply IH. exists new'. by rewrite <- app_assoc.
  - cbn [convertP2PMessagetoPubSubMessage]. change (omap id (None :: ms)) with (omap id ms). apply IH.
Qed.

(** A stored message that [Deserialize] keeps *)
Definition convertible (m : messageVerifier) (msg : pbMessage) : option Message :=
  match NewMessage (Some msg) (Some (mv_UnmarshalTopic m)) Broadcast with
  | Ok p2pMsg => Some p2pMsg
  | Err _ => None
  end.

Lemma Deserialize_loop_Ok mv bs msgs acc :
  Forall2 (fun b msg => pb_Unmarshal b = Ok msg) bs msgs ->
  Deserialize_loop mv bs acc = Ok (acc ++ omap (convertible mv) msgs).
Proof.
  intros H. revert acc. induction H as [|b msg bs msgs Hb H IH]; intros acc.
  - by rewrite app_nil_r.
  - cbn [Deserialize_loop]. rewrite Hb. cbn [mbind result_bind].
    unfold convertPubSubMessagestoP2PMessage.
    replace {| pb_From := pb_From msg; pb_Data := pb_Data msg; pb_Seqno := pb_Seqno msg;
               pb_Topic := pb_Topic msg; pb_Signature := pb_Signature msg;
               pb_Key := pb_Key msg |} with msg by by destruct msg.
    change (omap (convertible mv) (msg :: msgs)) with
      (match convertible mv msg with
       | Some m => m :: omap (convertible mv) msgs
       | None => omap (convertible mv) msgs
       end).
    unfold convertible at 1. destruct (NewMessage _ _ _) as [m|e]; [|apply IH].
    rewrite IH. by rewrite <- app_assoc.
Qed.

(** A message made by [NewMessage] is made again from what it carries on the
    wire, except for the broadcast method, which is not transmitted. *)
Definition received (mv : messageVerifier) (m : Message) : Prop :=
  exists msg b, NewMessage (Some msg) (Some (mv_UnmarshalTopic mv)) b = Ok m.

Lemma received_convertible mv m :
  received mv m -> convertible mv (wire m) = Some (set_broadcast Broadcast m).
Proof.
  intros (msg & b & H). destruct (NewMessage_Ok_inv _ _ _ _ H) as
    (Hw & Hb & Hid & tm & Hu & Hv & Hs & Hk & Hd & Ht).
  unfold convertible. destruct (NewMessage (Some (wire m)) _ Broadcast) as [m'|e] eqn:E.
  - destruct (NewMessage_Ok_inv _ _ _ _ E) as (Hw' & Hb' & Hid' & tm' & Hu' & _ & _ & _ & Hd' & Ht').
    rewrite Hw, Hid in Hid'. rewrite Hw, Hu in Hu'.
    destruct m, m'; unfold wire in Hw'; simpl in *; simplify_eq. done.
  - exfalso. revert E H. rewrite Hw. unfold NewMessage, guard_err, mbind, result_bind.
    repeat case_goal; done.
Qed.

Section roundtrip.
(** The encodings decode to what was encoded. *)
Context (pb_roundtrip : forall msg b, pb_Marshal msg = Ok b -> pb_Unmarshal b = Ok msg).
Context (mv : messageVerifier).
Context (batch_roundtrip : forall l b, mv_MarshalBatch mv l = Ok b -> mv_UnmarshalBatch mv b = Ok l).

Lemma Serialize_Deserialize messages b :
  omap id messages <> [] -> Serialize mv messages = Ok b ->
  Deserialize mv b = Ok (omap (convertible mv) (wire <$> omap id messages)).
Proof.
  intros Hne. unfold Serialize. rewrite bind_Ok. intros (bs & Hl & H).
  apply Serialize_loop_Ok in Hl as (new & -> & Hn). simpl in H.
  destruct (len new =? 0) eqn:E; bdestruct_all.
  - apply len_0 in E as ->. by inversion Hn as [Hm|].
  - apply bind_Ok in H as (b' & Hb & [= <-]). unfold Deserialize.
    rewrite (batch_roundtrip _ _ Hb). cbn [mbind result_bind].
    rewrite (Deserialize_loop_Ok mv new (wire <$> omap id messages)); [done|].
    apply Forall2_fmap_r, Forall2_flip. eapply Forall2_impl; [exact Hn|].
    intros m w Hw. by apply pb_roundtrip.
Qed.

(** C31: what [Serialize] writes, [Deserialize] reads back: the messages that
    were received from the network come back in order and unchanged, except
    that the method they arrived by reads [Broadcast]; the nil ones are
    dropped. *)
Theorem Serialize_roundtrip messages b :
  omap id messages <> [] -> Forall (received mv) (omap id messages) ->
  Serialize mv messages = Ok b ->
  Deserialize mv b = Ok (set_broadcast Broadcast <$> omap id messages).
Proof.
  intros Hne Hr Hs. rewrite (Serialize_Deserialize messages b Hne Hs). f_equal.
  clear Hne Hs. induction Hr as [|m l Hm _ IH]; [done|].
  change (omap (convertible mv) (wire <$> m :: l)) with
    (match convertible mv (wire m) with
     | Some x => x :: omap (convertible mv) (wire <$> l)
     | None => omap (convertible mv) (wire <$> l)
     end).
  by rewrite (received_convertible mv m Hm), IH.
Qed.

(** ** Signatures *)

Lemma preparePubSubMessagePayload_Ok m p :
  preparePubSubMessagePayload (Some m) = Ok p <->
  exists b, pb_Marshal {| pb_From := FromField m; pb_Data := PayloadField m;
    pb_Seqno := SeqNoField m; pb_Topic := Some (TopicField m);
    pb_Signature := None; pb_Key := None |} = Ok b /\ p = to_bytes SignPrefix ++ b.
Proof.
  unfold preparePubSubMessagePayload, convertP2PMessagetoPubSubMessage.
  cbn [mbind result_bind]. rewrite bind_Ok. unfold withSignPrefix, m_From, m_Payload, m_SeqNo, m_Topic.
  simpl. split.
  - intros (b & Hb & [= <-]). eauto.
  - intros (b & Hb & ->). eauto.
Qed.

Lemma payload_binds m1 m2 p :
  preparePubSubMessagePayload (Some m1) = Ok p -> preparePubSubMessagePayload (Some m2) = Ok p ->
  FromField m1 = FromField m2 /\ PayloadField m1 = PayloadField m2
  /\ SeqNoField m1 = SeqNoField m2 /\ TopicField m1 = TopicField m2.
Proof.
  rewrite !preparePubSubMessagePayload_Ok. intros (b1 & H1 & ->) (b2 & H2 & Hb).
  apply app_inv_head in Hb as <-.
  apply pb_roundtrip in H1, H2. rewrite H1 in H2. by injection H2.
Qed.

(** C18: a verified message is authentic: the signature was checked for the
    peer the message names as its origin, and any received message for which
    the same signed bytes are checked has the same origin, topic, sequence
    number, payload, data and timestamp; only the signature, the key and the
    broadcast method may differ. *)
Theorem mv_Verify_authentic m :
  received mv m -> mv_Verify mv (Some m) = None ->
  exists p, mv_VerifySig mv p (PeerField m) (SignatureField m) = None
    /\ preparePubSubMessagePayload (Some m) = Ok p
    /\ forall m', received mv m' -> preparePubSubMessagePayload (Some m') = Ok p ->
         PeerField m' = PeerField m /\ TopicField m' = TopicField m
         /\ SeqNoField m' = SeqNoField m /\ PayloadField m' = PayloadField m
         /\ DataField m' = DataField m /\ TimestampField m' = TimestampField m.
Proof.
  intros (msg & br & Hr) Hv. unfold mv_Verify in Hv.
  destruct (preparePubSubMessagePayload (Some m)) as [p|e] eqn:Hp; [|done].
  exists p. split_and!; [done|done|]. intros m' (msg' & br' & Hr') Hp'.
  destruct (payload_binds _ _ _ Hp Hp') as (Hf & Hd & Hs & Ht).
  destruct (NewMessage_Ok_inv _ _ _ _ Hr) as (Hw & _ & Hid & tm & Hu & _ & _ & _ & Hda & Htm).
  destruct (NewMessage_Ok_inv _ _ _ _ Hr') as (Hw' & _ & Hid' & tm' & Hu' & _ & _ & _ & Hda' & Htm').
  rewrite <- Hw in Hid, Hu. rewrite <- Hw' in Hid', Hu'.
  unfold wire in Hid, Hid', Hu, Hu'. simpl in *.
  rewrite <- Hf, Hid in Hid'. rewrite <- Hd, Hu in Hu'.
  injection Hid' as Hid'. injection Hu' as Hu'. subst tm'. split_and!; congruence.
Qed.
End roundtrip.
End new_message.

(** ** A codec for the examples

    The encodings are outside the repository; the examples use this one: a
    byte is preceded by a one, a string is closed by a zero, and so for the
    strings of a list. *)
Fixpoint enc_bytes (b : bytes) : bytes :=
  match b with [] => [Byte.x00] | c :: b => Byte.x01 :: c :: enc_bytes b end.
Fixpoint enc_list (l : list bytes) : bytes :=
  match l with [] => [Byte.x00] | b :: l => Byte.x01 :: enc_bytes b ++ enc_list l end.
Fixpoint dec_list (s : bytes) (cur : option bytes) (acc : list bytes) : option (list bytes) :=
  match cur with
  | None =>
      match s with
      | Byte.x00 :: s => match s with [] => Some acc | _ => None end
      | Byte.x01 :: s => dec_list s (Some []) acc
      | _ => None
      end
  | Some c =>
      match s with
      | Byte.x00 :: s => dec_list s None (acc ++ [c])
      | Byte.x01 :: b :: s => dec_list s (Some (c ++ [b])) acc
      | _ => None
      end
  end.

Lemma dec_enc_bytes b s c acc :
  dec_list (enc_bytes b ++ s) (Some c) acc = dec_list s None (acc ++ [c ++ b]).
Proof.
  revert c. induction b as [|x b IH]; intros c; simpl; [by rewrite app_nil_r|].
  rewrite IH. by rewrite <- app_assoc.
Qed.

Lemma dec_enc_list l acc : dec_list (enc_list l) None acc = Some (acc ++ l).
Proof.
  revert acc. induction l as [|b l IH]; intros acc; simpl; [by rewrite app_nil_r|].
  rewrite dec_enc_bytes, IH. by rewrite <- app_assoc.
Qed.

Definition enc_slice (s : slice) : bytes := match s with None => [] | Some b => Byte.x01 :: b end.
Definition dec_slice (b : bytes) : slice := match b with [] => None | _ :: b => Some b end.
Lemma dec_enc_slice s : dec_slice (enc_slice s) = s.
Proof. by destruct s. Qed.

Definition demo_pb_Marshal (m : pbMessage) : result bytes :=
  Ok (enc_list [enc_slice (pb_From m); enc_slice (pb_Data m); enc_slice (pb_Seqno m);
    enc_slice (to_bytes <$> pb_Topic m); enc_slice (pb_Signature m); enc_slice (pb_Key m)]).
Definition demo_pb_Unmarshal (b : bytes) : result pbMessage :=
  match dec_list b None [] with
  | Some [f; d; n; t; s; k] =>
      Ok {| pb_From := dec_slice f; pb_Data := dec_slice d; pb_Seqno := dec_slice n;
            pb_Topic := of_bytes <$> dec_slice t; pb_Signature := dec_slice s; pb_Key := dec_slice k |}
  | _ => Err (EExternal "bad encoding")
  end.

Lemma demo_pb_roundtrip msg b : demo_pb_Marshal msg = Ok b -> demo_pb_Unmarshal b = Ok msg.
Proof.
  unfold demo_pb_Marshal. intros H. apply (inj Ok) in H as <-. unfold demo_pb_Unmarshal.
  rewrite (dec_enc_list _ []). destruct msg as [f d n t s k]. simpl.
  rewrite !dec_enc_slice. destruct t; simpl; by rewrite ?of_to_bytes.
Qed.

(** Topic messages: the payload between the version byte and nothing else *)
Definition demo_MarshalTopic (t : TopicMessage) : bytes :=
  byte_of (Version t) :: byte_of (Timestamp t) :: sl (Payload t).
Definition demo_UnmarshalTopic (s : slice) : result TopicMessage :=
  match s with
  | Some (v :: t :: payload) =>
      Ok {| Version := byte_val v; Payload := Some payload; Timestamp := byte_val t;
            Pk := None; SignatureOnPid := None |}
  | _ => Err (EExternal "bad encoding")
  end.

(** Signatures: the peer's name before the signed bytes *)
Definition demo_sign (pid : PeerID) (payload : bytes) : bytes := to_bytes pid ++ payload.
Definition demo_verify (payload : bytes) (pid : PeerID) (signature : slice) : option error :=
  if decide (sl signature = demo_sign pid payload) then None else Some (EExternal "bad signature").

Definition demo_IDFromBytes (b : bytes) : result PeerID :=
  if len b =? 0 then Err (EExternal "empty peer ID") else Ok (of_bytes b).

Definition demo_verifier : messageVerifier := {|
  mv_UnmarshalTopic := demo_UnmarshalTopic;
  mv_MarshalBatch := fun l => Ok (enc_list l);
  mv_UnmarshalBatch := fun b =>
    match dec_list b None [] with Some l => Ok l | None => Err (EExternal "bad encoding") end;
  mv_VerifySig := demo_verify;
|}.

Definition demo_prefix : string := "libp2p-pubsub:".

Definition demo_msg : Message := {|
  FromField := Some (to_bytes "alice"); DataField := Some (to_bytes "hello");
  PayloadField := Some (Byte.x01 :: Byte.x07 :: to_bytes "hello"); SeqNoField := Some [Byte.x2a];
  TopicField := "transactions";
  SignatureField := Some (demo_sign "alice" (to_bytes demo_prefix ++
    enc_list [Byte.x01 :: to_bytes "alice"; Byte.x01 :: Byte.x01 :: Byte.x07 :: to_bytes "hello"; [Byte.x01; Byte.x2a];
              Byte.x01 :: to_bytes "transactions"; []; []]));
  KeyField := None; PeerField := "alice"; TimestampField := 7; BroadcastMethodField := Direct;
|}.

Lemma demo_batch_roundtrip l b :
  mv_MarshalBatch demo_verifier l = Ok b -> mv_UnmarshalBatch demo_verifier b = Ok l.
Proof.
  unfold demo_verifier, mv_MarshalBatch, mv_UnmarshalBatch. intros H. apply (inj Ok) in H as <-.
  by rewrite dec_enc_list.
Qed.

Lemma demo_received : received demo_IDFromBytes demo_verifier demo_msg.
Proof. exists (wire demo_msg), Direct. vm_compute. reflexivity. Defined.

Lemma Serialize_roundtrip_witness :
  exists b, Serialize demo_pb_Marshal demo_verifier [Some demo_msg; None; Some demo_msg] = Ok b
  /\ Deserialize demo_IDFromBytes demo_pb_Unmarshal demo_verifier b
     = Ok [set_broadcast Broadcast demo_msg; set_broadcast Broadcast demo_msg].
Proof.
  eexists. split; [vm_compute; reflexivity|].
  refine (Serialize_roundtrip demo_IDFromBytes demo_pb_Marshal demo_pb_Unmarshal
    demo_pb_roundtrip demo_verifier demo_batch_roundtrip
    [Some demo_msg; None; Some demo_msg] _ _ _ _); [done| |vm_compute; reflexivity].
  repeat constructor; exact demo_received.
Defined.

Lemma mv_Verify_authentic_witness :
  mv_Verify demo_pb_Marshal demo_prefix demo_verifier (Some demo_msg) = None
  /\ exists p, preparePubSubMessagePayload demo_pb_Marshal demo_prefix (Some demo_msg) = Ok p.
Proof.
  assert (Hv : mv_Verify demo_pb_Marshal demo_prefix demo_verifier (Some demo_msg) = None)
    by (vm_compute; reflexivity).
  split; [exact Hv|].
  destruct (mv_Verify_authentic demo_IDFromBytes demo_pb_Marshal demo_pb_Unmarshal demo_prefix
    demo_pb_roundtrip demo_verifier demo_msg demo_received Hv) as (p & _ & Hp & _).
  exists p. exact Hp.
Defined.

(** A changed payload is not verified. *)
Example tampered_rejected :
  is_ok (then_ok (mv_Verify demo_pb_Marshal demo_prefix demo_verifier
    (Some {| FromField := FromField demo_msg; DataField := DataField demo_msg;
             PayloadField := Some [Byte.x01; Byte.x07; Byte.x07]; SeqNoField := SeqNoField demo_msg;
             TopicField := TopicField demo_msg; SignatureField := SignatureField demo_msg;
             KeyField := None; PeerField := PeerField demo_msg; TimestampField := 7;
             BroadcastMethodField := Broadcast |})) (Ok ()))
  = false.
Proof. vm_compute. reflexivity. Qed.
