(* ===== verification/DirectSender.v ===== *)
(** * The direct sender

    p2p/libp2p/directSender.go, which sends one message to one connected peer
    and checks the messages received this way, and p2p/libp2p/mutexHolder.go,
    which gives it a mutex per peer. The operations return the effects they
    have on streams and mutexes as a list, in order. *)

From S2P Require Import Prelude Errors Config Cache Messages.
From stdpp Require Import list.
Open Scope Z_scope.

(** ** mutexHolder.go *)

(** The dynamic values of the cache: a pointer to a mutex, named by the
    order of its allocation, or a value of another type *)
Inductive cached := CMutex (id : nat) | COther.

Record MutexHolder (C : Type) := {
  mutexes : C;
  allocated : nat;  (* the mutexes made so far *)
}.
Arguments Build_MutexHolder {C}.
Arguments mutexes {C}.
Arguments allocated {C}.

Section mutex_holder.
Context {C : Type} `{Cacher cached C}.
(** [lrucache.NewCache] *)
Context (NewCache : Z -> result C).

Definition NewMutexHolder (mutexesCapacity : Z) : result (MutexHolder C) :=
  mutexes ← NewCache mutexesCapacity;
  Ok {| mutexes := mutexes; allocated := 0 |}.

Definition mh_Get (mh : MutexHolder C) (key : string) : nat * MutexHolder C :=
  let sliceKey := to_bytes key in
  let '(val, c) := cache_Get (mutexes mh) sliceKey in
  let fresh :=
    let newMutex := allocated mh in
    (newMutex, {| mutexes := cache_Put c sliceKey (CMutex newMutex) 0; allocated := S newMutex |}) in
  match val with
  | None => fresh
  | Some COther => fresh
  | Some (CMutex mutex) => (mutex, {| mutexes := c; allocated := allocated mh |})
  end.

Context (view : C -> gmap bytes cached) `{!CacherLaws cached C view}.

(** The stored mutexes were allocated, and no mutex serves two keys. *)
Record mh_wf (mh : MutexHolder C) : Prop := {
  mh_allocated k id : view (mutexes mh) !! k = Some (CMutex id) -> (id < allocated mh)%nat;
  mh_distinct k1 k2 id : view (mutexes mh) !! k1 = Some (CMutex id) ->
    view (mutexes mh) !! k2 = Some (CMutex id) -> k1 = k2;
}.

Lemma mh_wf_mono mh mh' :
  mh_wf mh -> (allocated mh <= allocated mh')%nat ->
  (forall k id, view (mutexes mh') !! k = Some (CMutex id) ->
     view (mutexes mh) !! k = Some (CMutex id)) ->
  mh_wf mh'.
Proof.
  intros [Ha Hd] Hle Hv. split.
  - intros k id Hk. apply Hv, Ha in Hk. lia.
  - intros k1 k2 id H1 H2. eauto.
Qed.

Lemma mh_fresh_spec mh c key :
  mh_wf mh -> view c = view (mutexes mh) ->
  let mh' := {| mutexes := cache_Put c key (CMutex (allocated mh)) 0;
                allocated := S (allocated mh) |} in
  mh_wf mh' /\ view (mutexes mh') !! key = Some (CMutex (allocated mh)).
Proof.
  intros [Ha Hd] Hc. simpl. split; [|apply cache_Put_same].
  assert (Hold : forall k id, k <> key ->
    view (cache_Put c key (CMutex (allocated mh)) 0) !! k = Some (CMutex id) ->
    view (mutexes mh) !! k = Some (CMutex id)).
  { intros k id Hk Hl. destruct (cache_Put_other c key (CMutex (allocated mh)) 0 k (not_eq_sym Hk))
      as [Heq|Heq]; rewrite Heq in Hl; [by rewrite Hc in Hl|done]. }
  assert (Hnew : forall id, view (cache_Put c key (CMutex (allocated mh)) 0) !! key = Some (CMutex id) ->
    id = allocated mh).
  { intros id. rewrite cache_Put_same. by intros [= ->]. }
  split; simpl.
  - intros k id Hk. destruct (decide (k = key)) as [->|Hne].
    + apply Hnew in Hk as ->. lia.
    + apply Hold, Ha in Hk; [lia|done].
  - intros k1 k2 id H1 H2.
    destruct (decide (k1 = key)) as [->|Hn1], (decide (k2 = key)) as [->|Hn2]; [done| | |].
    + apply Hnew in H1 as ->. apply Hold, Ha in H2; [lia|done].
    + apply Hnew in H2 as ->. apply Hold, Ha in H1; [lia|done].
    + apply (Hd k1 k2 id); by apply Hold.
Qed.

Lemma mh_Get_case mh key :
  mh_wf mh ->
  let '(m, mh') := mh_Get mh key in
  mh_wf mh' /\ view (mutexes mh') !! to_bytes key = Some (CMutex m)
  /\ (view (mutexes mh) !! to_bytes key = Some (CMutex m) /\ allocated mh' = allocated mh
      /\ view (mutexes mh') = view (mutexes mh)
      \/ (forall id, view (mutexes mh) !! to_bytes key <> Some (CMutex id))
         /\ m = allocated mh /\ allocated mh' = S (allocated mh)).
Proof.
  intros Hwf. unfold mh_Get.
  pose proof (cache_Get_value (mutexes mh) (to_bytes key)) as Hval.
  pose proof (cache_Get_view (mutexes mh) (to_bytes key)) as Hview.
  destruct (cache_Get (mutexes mh) (to_bytes key)) as [val c]. simpl in *. subst val.
  pose proof (mh_fresh_spec mh c (to_bytes key) Hwf Hview) as [Hf1 Hf2]. simpl in *.
  destruct (view (mutexes mh) !! to_bytes key) as [[m|]|] eqn:E; simpl.
  - split_and!.
    + apply (mh_wf_mono mh); [done|done|]. simpl. by rewrite Hview.
    + by rewrite Hview.
    + by left.
  - split_and!; [done|done|]. right. by split.
  - split_and!; [done|done|]. right. by split.
Qed.

(** A key gets the mutex stored for it, else a mutex never given out
    before, which is stored; so two peers never share a mutex, and as long as
    the entry is not evicted all the sends to one peer take the same one. *)
Theorem mh_Get_spec mh key1 key2 :
  mh_wf mh ->
  let '(m1, mh1) := mh_Get mh key1 in
  let '(m2, mh2) := mh_Get mh1 key2 in
  mh_wf mh2
  /\ (key1 = key2 -> m2 = m1)
  /\ (key1 <> key2 -> m2 <> m1)
  /\ (m1 = allocated mh
      \/ view (mutexes mh) !! to_bytes key1 = Some (CMutex m1) /\ (m1 < allocated mh)%nat).
Proof.
  intros Hwf. pose proof (mh_Get_case mh key1 Hwf) as H1.
  destruct (mh_Get mh key1) as [m1 mh1]. destruct H1 as (Hwf1 & Hv1 & Hc1).
  pose proof (mh_Get_case mh1 key2 Hwf1) as H2.
  destruct (mh_Get mh1 key2) as [m2 mh2]. destruct H2 as (Hwf2 & Hv2 & Hc2).
  split_and!; [done| | |].
  - intros <-. destruct Hc2 as [(Hs & _)|(Hn & _)]; [congruence|]. by destruct (Hn m1).
  - intros Hne ->. destruct Hc2 as [(Hs & _)|(_ & Hf & _)].
    + apply Hne, to_bytes_inj, (mh_distinct _ Hwf1 _ _ _ Hv1 Hs).
    + apply (mh_allocated _ Hwf1) in Hv1. lia.
  - destruct Hc1 as [(Hs & _)|(_ & -> & _)]; [right|by left].
    split; [done|]. by apply (mh_allocated _ Hwf) in Hs.
Qed.
End mutex_holder.

(** ** directSender.go *)

Definition timeSeenMessages : Z := time_Second * 120.
Definition maxMutexes : Z := 10000.
Definition sequenceNumberSize : Z := 8.

(** libp2p/netMessenger.go and libp2p/messagesHandler.go *)
Definition DirectSendID : string := "/drt/directsend/1.0.0".
Definition messageHeader : Z := 64 * 1024.
Definition maxSendBuffSize : Z := Z.shiftl 1 21 - messageHeader.

(** github.com/whyrusleeping/timecache: a set of strings, each kept for a time
    span at least; adding takes the current time. *)
Class TimeCache (T : Type) := {
  tc_Has : T -> string -> bool;
  tc_Add : Z -> T -> string -> T;
}.

(** What it promises, on the insertion times [tview]: an added string is
    present, and one that disappears was added longer than the span ago. *)
Class TimeCacheLaws (T : Type) `{TimeCache T} (span : Z) (tview : T -> gmap string Z) : Prop := {
  tc_Has_view c s : tc_Has c s = bool_decide (is_Some (tview c !! s));
  tc_Add_same now c s : tview (tc_Add now c s) !! s = Some now;
  tc_Add_other now c s s' : s <> s' ->
    tview (tc_Add now c s) !! s' = tview c !! s'
    \/ exists t, tview c !! s' = Some t /\ span < now - t;
}.

(** The registered [p2p.MessageHandler]: what its [ProcessReceivedMessage]
    answers *)
Abbreviation MessageHandler := (Message -> PeerID -> option error).

Record directSender (T C : Type) := {
  counter : Z;  (* uint64 *)
  messageHandler : option MessageHandler;
  seenMessages : T;
  mutexForPeer : MutexHolder C;
  ds_signer : SignerVerifier;
  ds_marshaller : Marshaller;
}.
Arguments Build_directSender {T C}.
Arguments counter {T C}.
Arguments messageHandler {T C}.
Arguments seenMessages {T C}.
Arguments mutexForPeer {T C}.
Arguments ds_signer {T C}.
Arguments ds_marshaller {T C}.

(** go-libp2p's streams and connections, as far as they are read *)
Record Stream := {
  st_id : Z;
  st_Protocol : string;
  st_Outbound : bool;
}.

Record Conn := {
  LocalPeer : PeerID;
  RemotePeer : PeerID;
  GetStreams : list Stream;
}.

(** What the operations do to streams and mutexes *)
Inductive ds_effect :=
| DoSetStreamHandler (protocol : string)
| DoLock (mutex : nat)
| DoUnlock (mutex : nat)
| DoNewStream (peer : PeerID) (protocol : string)
| DoWriteMsg (stream : Z) (msg : pbMessage)
| DoFlush (stream : Z)
| DoReset (stream : Z)
| DoClose (stream : Z)
| DoHandle (msg : Message) (from : PeerID).

Section direct_sender.
Context {T C : Type} `{TimeCache T} `{Cacher cached C}.
Context (NewTimeCache : Z -> T) (NewCache : Z -> result C).
Context (IDFromBytes : bytes -> result PeerID).
Context (pb_Marshal : pbMessage -> result bytes) (SignPrefix : string).
Implicit Types ds : directSender T C.

(** The constructor: host, context and logger are tested for nil only.
    [nowNano] is [time.Now().UnixNano()]. *)
Definition NewDirectSender (ctx h : bool) (signer : option SignerVerifier)
    (marshaller : option Marshaller) (logger : bool) (nowNano : Z)
    : result (directSender T C * list ds_effect) :=
  guard_err (negb h) ErrNilHost $
  guard_err (negb ctx) ErrNilContext $
  match signer, marshaller with
  | None, _ => Err ErrNilP2PSigner
  | _, None => Err ErrNilMarshaller
  | Some signer, Some marshaller =>
      guard_err (negb logger) ErrNilLogger $
      mutexForPeer ← NewMutexHolder NewCache maxMutexes;
      Ok ({| counter := wrapu 64 nowNano; messageHandler := None;
             seenMessages := NewTimeCache timeSeenMessages; mutexForPeer := mutexForPeer;
             ds_signer := signer; ds_marshaller := marshaller |},
          [DoSetStreamHandler DirectSendID])
  end.

Definition set_handler ds (h : option MessageHandler) : directSender T C := {| counter := counter ds; messageHandler := h;
  seenMessages := seenMessages ds; mutexForPeer := mutexForPeer ds;
  ds_signer := ds_signer ds; ds_marshaller := ds_marshaller ds |}.
Definition set_seen ds (s : T) : directSender T C := {| counter := counter ds; messageHandler := messageHandler ds;
  seenMessages := s; mutexForPeer := mutexForPeer ds;
  ds_signer := ds_signer ds; ds_marshaller := ds_marshaller ds |}.
Definition set_counter ds (c : Z) : directSender T C := {| counter := c; messageHandler := messageHandler ds;
  seenMessages := seenMessages ds; mutexForPeer := mutexForPeer ds;
  ds_signer := ds_signer ds; ds_marshaller := ds_marshaller ds |}.
Definition set_mutexes ds (m : MutexHolder C) : directSender T C := {| counter := counter ds; messageHandler := messageHandler ds;
  seenMessages := seenMessages ds; mutexForPeer := m;
  ds_signer := ds_signer ds; ds_marshaller := ds_marshaller ds |}.

Definition RegisterDirectMessageProcessor ds (handler : option MessageHandler)
    : option error * directSender T C :=
  match handler with
  | None => (Some (ErrNilDirectSendMessageHandler : error), ds)
  | Some _ => (None, set_handler ds handler)
  end.

Definition ds_withSignPrefix (bytes : bytes) : Prelude.bytes := to_bytes SignPrefix ++ bytes.

Definition msgId (msg : pbMessage) : string :=
  of_bytes (sl (pb_From msg)) +:+ of_bytes (sl (pb_Seqno msg)).

Definition checkAndSetSeenMessage (now : Z) ds (msg : pbMessage) : bool * directSender T C :=
  if tc_Has (seenMessages ds) (msgId msg) then (true, ds)
  else (false, set_seen ds (tc_Add now (seenMessages ds) (msgId msg))).

Definition checkSig ds (message : pbMessage) : option error :=
  if len (sl (pb_Signature message)) =? 0 then None
  else
    let copyMessage := {| pb_From := pb_From message; pb_Data := pb_Data message;
      pb_Seqno := pb_Seqno message; pb_Topic := pb_Topic message;
      pb_Signature := None; pb_Key := None |} in
    match pb_Marshal copyMessage with
    | Err err => Some err
    | Ok buff =>
        let buff := ds_withSignPrefix buff in
        s_Verify (ds_signer ds) buff (of_bytes (sl (pb_From message))) (pb_Signature message)
    end.

(** The handler call is the only effect. *)
Definition processReceivedDirectMessage (now : Z) ds (message : option pbMessage)
    (fromConnectedPeer : PeerID) : option error * directSender T C * list ds_effect :=
  match messageHandler ds with
  | None => (Some (ErrNilDirectSendMessageHandler : error), ds, [])
  | Some handler =>
      match message with
      | None => (Some (ErrNilMessage : error), ds, [])
      | Some message =>
          match pb_Topic message with
          | None => (Some (ErrNilTopic : error), ds, [])
          | Some _ =>
              if negb (bool_decide (sl (pb_From message) = to_bytes fromConnectedPeer))
              then (Some (ErrInvalidValue : error), ds, [])
              else if negb (bool_decide (pb_Key message = None))
              then (Some (ErrInvalidValue : error), ds, [])
              else if len (sl (pb_Seqno message)) >? sequenceNumberSize
              then (Some (ErrInvalidValue : error), ds, [])
              else
                let '(seen, ds) := checkAndSetSeenMessage now ds message in
                if seen : bool then (Some (ErrAlreadySeenMessage : error), ds, [])
                else
                  match checkSig ds message with
                  | Some err => (Some err, ds, [])
                  | None =>
                      match NewMessage IDFromBytes (Some message)
                              (Some (UnmarshalTopic (ds_marshaller ds))) Direct with
                      | Err err => (Some err, ds, [])
                      | Ok msg => (handler msg fromConnectedPeer, ds,
                                   [DoHandle msg fromConnectedPeer])
                      end
                  end
          end
      end
  end.

(** The goroutine of [directStreamHandler]: what arrives on the stream, one element per
    [ReadMsg] until an error: a message, with the time it is processed at and the length that
    its frame declares; while the reader blocks the list has ended. The delimited
    reader was made with [maxSendBuffSize]: it answers a longer frame with an error, which is
    not the end of the stream. *)
Inductive read_result := ReadMsg (now size : Z) (msg : pbMessage) | ReadErr (isEOF : bool).

Fixpoint directStreamHandler ds (s : Stream) (remote : PeerID) (reads : list read_result)
    : directSender T C * list ds_effect :=
  match reads with
  | [] => (ds, [])
  | ReadErr isEOF :: _ =>
      if negb isEOF then (ds, [DoReset (st_id s)]) else (ds, [DoClose (st_id s)])
  | ReadMsg now size msg :: reads =>
      if (size <? 0) || (size >? maxSendBuffSize) then (ds, [DoReset (st_id s)])
      else
        let '(_, ds, effects) := processReceivedDirectMessage now ds (Some msg) remote in
        let '(ds, rest) := directStreamHandler ds s remote reads in
        (ds, effects ++ rest)
  end.

(** [binary.BigEndian.PutUint64] into eight bytes *)
Definition putUint64 (v : Z) : bytes :=
  (fun i => byte_of (Z.shiftr v (8 * i))) <$> [7; 6; 5; 4; 3; 2; 1; 0].

Definition ds_NextSequenceNumber ds : bytes * directSender T C :=
  let newVal := wrapu 64 (counter ds + 1) in
  (putUint64 newVal, set_counter ds newVal).

(** The host: the connections to a peer and the opening of a stream *)
Context (ConnsToPeer : PeerID -> list Conn) (NewStream : PeerID -> string -> result Stream).

Definition getConnection (p : PeerID) : result Conn :=
  let conns := ConnsToPeer p in
  match conns with
  | [] => Err ErrPeerNotDirectlyConnected
  | first :: _ =>
      (* the fold starts at (nil, 0), and the first connection always replaces nil *)
      Ok (fold_left (fun '(conn, lStreams) c =>
            let length := len (GetStreams c) in
            if length >=? lStreams then (c, length) else (conn, lStreams))
          conns (first, 0)).1
  end.

Definition getOrCreateStream (conn : Conn) : result Stream * list ds_effect :=
  match list_find (fun s => st_Protocol s = DirectSendID /\ st_Outbound s = true)
          (GetStreams conn) with
  | Some (_, foundStream) => (Ok foundStream, [])
  | None => (NewStream (RemotePeer conn) DirectSendID, [DoNewStream (RemotePeer conn) DirectSendID])
  end.

Definition createMessage ds (topic : string) (buff : bytes) (conn : Conn)
    : result pbMessage * directSender T C :=
  let '(seqno, ds) := ds_NextSequenceNumber ds in
  let mes := {| pb_From := Some (to_bytes (LocalPeer conn)); pb_Data := Some buff;
    pb_Seqno := Some seqno; pb_Topic := Some topic; pb_Signature := None; pb_Key := None |} in
  (buff ← pb_Marshal mes;
   signature ← s_Sign (ds_signer ds) (ds_withSignPrefix buff);
   Ok {| pb_From := pb_From mes; pb_Data := pb_Data mes; pb_Seqno := pb_Seqno mes;
         pb_Topic := pb_Topic mes; pb_Signature := Some signature; pb_Key := None |}, ds).

(** What writing to a stream and flushing it returns *)
Context (WriteMsg : Stream -> pbMessage -> option error) (Flush : Stream -> option error).

(** [Send] between its lock and the deferred unlock *)
Definition Send_locked ds (topic : string) (buff : bytes) (peer : PeerID)
    : option error * directSender T C * list ds_effect :=
  match getConnection peer with
  | Err err => (Some err, ds, [])
  | Ok conn =>
      let '(stream, opened) := getOrCreateStream conn in
      match stream with
      | Err err => (Some err, ds, opened)
      | Ok stream =>
          let '(msg, ds) := createMessage ds topic buff conn in
          match msg with
          | Err err => (Some err, ds, opened)
          | Ok msg =>
              match WriteMsg stream msg with
              | Some err =>
                  (Some err, ds, opened ++ [DoWriteMsg (st_id stream) msg;
                     DoReset (st_id stream); DoClose (st_id stream)])
              | None =>
                  match Flush stream with
                  | Some err =>
                      (Some err, ds, opened ++ [DoWriteMsg (st_id stream) msg; DoFlush (st_id stream);
                         DoReset (st_id stream); DoClose (st_id stream)])
                  | None =>
                      (None, ds, opened ++ [DoWriteMsg (st_id stream) msg; DoFlush (st_id stream)])
                  end
              end
          end
      end
  end.

Definition ds_Send ds (topic : string) (buff : bytes) (peer : PeerID)
    : option error * directSender T C * list ds_effect :=
  if len buff >=? maxSendBuffSize then (Some (ErrMessageTooLarge : error), ds, [])
  else
    let '(mut, mutexes) := mh_Get (mutexForPeer ds) peer in
    let ds := set_mutexes ds mutexes in
    let '(err, ds, effects) := Send_locked ds topic buff peer in
    (err, ds, DoLock mut :: effects ++ [DoUnlock mut]).
End direct_sender.

(** ** Receiving *)

Section receiving.
Context {T C : Type} `{TimeCache T}.
Context (pb_Marshal : pbMessage -> result bytes) (SignPrefix : string).
Implicit Types ds : directSender T C.

Abbreviation sig_error := (checkSig pb_Marshal SignPrefix).

Lemma checkSig_None ds m from :
  sl (pb_From m) = to_bytes from ->
  sig_error ds m = None <->
  (sl (pb_Signature m) = []
   \/ exists b, pb_Marshal {| pb_From := pb_From m; pb_Data := pb_Data m; pb_Seqno := pb_Seqno m;
        pb_Topic := pb_Topic m; pb_Signature := None; pb_Key := None |} = Ok b
      /\ s_Verify (ds_signer ds) (to_bytes SignPrefix ++ b) from (pb_Signature m) = None).
Proof.
  intros Hf. unfold checkSig, ds_withSignPrefix. rewrite Hf, of_to_bytes.
  destruct (len (sl (pb_Signature m)) =? 0) eqn:E; bdestruct_all.
  - apply len_0 in E. naive_solver.
  - assert (sl (pb_Signature m) <> []) by (intros Hn; by rewrite Hn in E).
    cbv zeta. destruct (pb_Marshal _); naive_solver.
Qed.

Context (IDFromBytes : bytes -> result PeerID).
Abbreviation receive := (processReceivedDirectMessage IDFromBytes pb_Marshal SignPrefix).
Abbreviation handle_stream := (directStreamHandler IDFromBytes pb_Marshal SignPrefix).

(** The messages that the connected peer [from] may deliver, and the message
    handed to the handler *)
Definition deliverable ds (m : pbMessage) (from : PeerID) (msg : Message) : Prop :=
  sl (pb_From m) = to_bytes from /\ pb_Key m = None
  /\ len (sl (pb_Seqno m)) <= sequenceNumberSize
  /\ tc_Has (seenMessages ds) (msgId m) = false
  /\ (sl (pb_Signature m) = []
      \/ exists b, pb_Marshal {| pb_From := pb_From m; pb_Data := pb_Data m; pb_Seqno := pb_Seqno m;
           pb_Topic := pb_Topic m; pb_Signature := None; pb_Key := None |} = Ok b
         /\ s_Verify (ds_signer ds) (to_bytes SignPrefix ++ b) from (pb_Signature m) = None)
  /\ NewMessage IDFromBytes (Some m) (Some (UnmarshalTopic (ds_marshaller ds))) Direct = Ok msg.

(** The operation with its first guards decided *)
Lemma processReceived_guarded now ds m from h t :
  messageHandler ds = Some h -> pb_Topic m = Some t ->
  sl (pb_From m) = to_bytes from -> pb_Key m = None ->
  len (sl (pb_Seqno m)) <= sequenceNumberSize ->
  receive now ds (Some m) from =
    if tc_Has (seenMessages ds) (msgId m) then (Some (ErrAlreadySeenMessage : error), ds, [])
    else
      let ds := set_seen ds (tc_Add now (seenMessages ds) (msgId m)) in
      match sig_error ds m with
      | Some err => (Some err, ds, [])
      | None =>
          match NewMessage IDFromBytes (Some m) (Some (UnmarshalTopic (ds_marshaller ds))) Direct with
          | Err err => (Some err, ds, [])
          | Ok msg => (h msg from, ds, [DoHandle msg from])
          end
      end.
Proof.
  intros Hh Ht Hf Hk Hs. unfold processReceivedDirectMessage, checkAndSetSeenMessage.
  rewrite Hh, Ht, !bool_decide_eq_true_2 by done. cbn [negb].
  destruct (_ >? _) eqn:E; bdestruct_all; [lia|].
  by destruct (tc_Has _ _).
Qed.

Lemma processReceived_blocked now ds m from :
  (messageHandler ds = None \/ pb_Topic m = None \/ sl (pb_From m) <> to_bytes from
   \/ pb_Key m <> None \/ sequenceNumberSize < len (sl (pb_Seqno m))) ->
  exists e, receive now ds (Some m) from = (Some e, ds, []).
Proof.
  intros H1. unfold processReceivedDirectMessage.
  destruct (messageHandler ds) as [h|]; [|eauto].
  destruct (pb_Topic m) as [t|]; [|eauto].
  destruct (bool_decide _) eqn:Ef; [|eauto]. cbn [negb].
  destruct (bool_decide (pb_Key m = None)) eqn:Ek; [|eauto]. cbn [negb].
  destruct (_ >? _) eqn:Es; [eauto|]. exfalso.
  apply bool_decide_eq_true in Ef, Ek. bdestruct_all.
  destruct H1 as [?|[?|[?|[?|?]]]]; done || lia.
Qed.

Lemma not_blocked ds m from h :
  messageHandler ds = Some h ->
  (exists t, pb_Topic m = Some t /\ sl (pb_From m) = to_bytes from /\ pb_Key m = None
     /\ len (sl (pb_Seqno m)) <= sequenceNumberSize)
  \/ (messageHandler ds = None \/ pb_Topic m = None \/ sl (pb_From m) <> to_bytes from
   \/ pb_Key m <> None \/ sequenceNumberSize < len (sl (pb_Seqno m))).
Proof.
  intros Hh. destruct (pb_Topic m) as [t|]; [|by right; right; left].
  destruct (decide (sl (pb_From m) = to_bytes from)); [|by right; right; right; left].
  destruct (decide (pb_Key m = None)); [|by right; right; right; right; left].
  destruct (Z_le_gt_dec (len (sl (pb_Seqno m))) sequenceNumberSize); [|right; do 4 right; lia].
  left. eauto.
Qed.

(** C13: with a registered handler, a direct message reaches it exactly when it
    is deliverable: the peer at the other end of the stream names itself as the
    origin, there is no key, the sequence number has at most eight bytes, the
    message was not seen, its signature (when there is one) is the peer's, and
    it decodes; the handler is called once and its answer is returned. Any
    other message is refused with an error and reaches nobody. *)
Theorem processReceivedDirectMessage_spec now ds m from h :
  messageHandler ds = Some h ->
  (forall msg, deliverable ds m from msg ->
     receive now ds (Some m) from
     = (h msg from, set_seen ds (tc_Add now (seenMessages ds) (msgId m)), [DoHandle msg from]))
  /\ ((forall msg, ~ deliverable ds m from msg) ->
      exists e ds', receive now ds (Some m) from = (Some e, ds', [])
        /\ (ds' = ds \/ ds' = set_seen ds (tc_Add now (seenMessages ds) (msgId m)))).
Proof.
  intros Hh. split.
  - intros msg (Hf & Hk & Hs & Hn & Hsig & Hm).
    assert (exists t, pb_Topic m = Some t) as [t Ht]
      by (unfold NewMessage in Hm; destruct (pb_Topic m); naive_solver).
    rewrite (processReceived_guarded now ds m from h t), Hn by done. cbv zeta.
    rewrite (proj2 (checkSig_None (set_seen ds _) m from Hf) Hsig).
    change (ds_marshaller (set_seen ds _)) with (ds_marshaller ds). by rewrite Hm.
  - intros Hno. destruct (not_blocked ds m from h Hh) as [(t & Ht & Hf & Hk & Hs)|Hb].
    + rewrite (processReceived_guarded now ds m from h t) by done.
      destruct (tc_Has _ _) eqn:Hn; [eauto|]. cbv zeta.
      destruct (sig_error _ m) eqn:Hc; [eauto|].
      change (ds_marshaller (set_seen ds _)) with (ds_marshaller ds).
      destruct (NewMessage _ _ _ _) as [msg|e] eqn:Hm; [|eauto]. exfalso.
      apply (Hno msg). apply (checkSig_None _ m from Hf) in Hc. by repeat split.
    + destruct (processReceived_blocked now ds m from Hb) as [e ->]. eauto.
Qed.

(** The messages of all streams, interleaved as they are processed *)
Fixpoint processAll ds (l : list (Z * option pbMessage * PeerID)) : directSender T C :=
  match l with
  | [] => ds
  | (now, m, from) :: l => processAll (receive now ds m from).1.2 l
  end.

(** A message changes nothing but the seen messages, and those only by its
    own identifier when that was absent. *)
Lemma processReceived_seen now ds m from :
  (receive now ds m from).1.2 = ds
  \/ exists m', m = Some m' /\ tc_Has (seenMessages ds) (msgId m') = false
     /\ (receive now ds m from).1.2
        = set_seen ds (tc_Add now (seenMessages ds) (msgId m')).
Proof.
  destruct m as [m|]; [|left; unfold processReceivedDirectMessage; by destruct (messageHandler ds)].
  destruct (messageHandler ds) as [h|] eqn:Hh;
    [|left; unfold processReceivedDirectMessage; by rewrite Hh].
  destruct (not_blocked ds m from h Hh) as [(t & Ht & Hf & Hk & Hs)|Hb].
  - rewrite (processReceived_guarded now ds m from h t) by done.
    destruct (tc_Has _ _) eqn:Hn; [by left|]. right. exists m. split_and!; [done|done|]. cbv zeta.
    repeat case_goal; done.
  - destruct (processReceived_blocked now ds m from Hb) as [e ->]. by left.
Qed.

Context (span : Z) (tview : T -> gmap string Z) `{!TimeCacheLaws T span tview}.

Lemma processAll_keeps l ds id t0 :
  tview (seenMessages ds) !! id = Some t0 ->
  Forall (fun e => e.1.1 <= t0 + span) l ->
  tview (seenMessages (processAll ds l)) !! id = Some t0.
Proof.
  revert ds. induction l as [|[[now m] from] l IH]; intros ds Hid Hl; [done|].
  inversion Hl as [|? ? Hnow Hl']; subst. simpl in *. apply IH; [|done].
  destruct (processReceived_seen now ds m from) as [->|(m' & -> & Hn & ->)]; [done|]. simpl.
  rewrite tc_Has_view in Hn. apply bool_decide_eq_false in Hn.
  destruct (decide (msgId m' = id)) as [<-|Hne]; [exfalso; apply Hn; eauto|].
  destruct (tc_Add_other now (seenMessages ds) (msgId m') id Hne) as [->|(t & Ht & Hsp)]; [done|].
  rewrite Hid in Ht. injection Ht as <-. lia.
Qed.

(** C14: no replay: after a message was handed to the handler at time [t0],
    whatever messages arrive on any stream until [t0] plus the time span of
    the cache, no message with the same origin and sequence number is handed
    to the handler again. *)
Theorem no_replay t0 ds m from err ds1 effects l t m' from' :
  receive t0 ds (Some m) from = (err, ds1, effects) -> effects <> [] ->
  Forall (fun e => e.1.1 <= t0 + span) l -> msgId m' = msgId m ->
  exists e, receive t (processAll ds1 l) (Some m') from'
    = (Some e, processAll ds1 l, []).
Proof.
  intros Hp He Hl Hid.
  assert (Hseen : tview (seenMessages ds1) !! msgId m = Some t0).
  { destruct (messageHandler ds) as [h|] eqn:Hh;
      [|unfold processReceivedDirectMessage in Hp; rewrite Hh in Hp; by injection Hp as <- <- <-].
    destruct (not_blocked ds m from h Hh) as [(tp & Ht & Hf & Hk & Hs)|Hb].
    - rewrite (processReceived_guarded t0 ds m from h tp) in Hp by done. cbv zeta in Hp.
      repeat case_in Hp; injection Hp as <- <- <-; try done. simpl. apply tc_Add_same.
    - destruct (processReceived_blocked t0 ds m from Hb) as [e Hb']. rewrite Hb' in Hp.
      by injection Hp as <- <- <-. }
  pose proof (processAll_keeps l ds1 (msgId m) t0 Hseen Hl) as Hk.
  set (ds2 := processAll ds1 l) in *. clearbody ds2.
  destruct (messageHandler ds2) as [h|] eqn:Hh;
    [|unfold processReceivedDirectMessage; rewrite Hh; eauto].
  destruct (not_blocked ds2 m' from' h Hh) as [(tp & Ht & Hf & Hk' & Hs)|Hb].
  - rewrite (processReceived_guarded t ds2 m' from' h tp) by done.
    rewrite tc_Has_view, Hid, Hk, bool_decide_eq_true_2 by eauto. eauto.
  - apply processReceived_blocked, Hb.
Qed.
(** What a stream gives to the handler: each message that fits is processed in its
    order, and the first that does not ends the reading. *)
Definition fits (r : read_result) : bool :=
  match r with ReadMsg _ size _ => (0 <=? size) && (size <=? maxSendBuffSize) | ReadErr _ => false end.

Definition process_read (from : PeerID) (state : directSender T C * list ds_effect) (r : read_result)
    : directSender T C * list ds_effect :=
  match r with
  | ReadMsg now _ msg =>
      let '(_, ds, effects) := receive now state.1 (Some msg) from in (ds, state.2 ++ effects)
  | ReadErr _ => state
  end.

Lemma process_read_app from l ds effects :
  foldl (process_read from) (ds, effects) l
  = ((foldl (process_read from) (ds, []) l).1, effects ++ (foldl (process_read from) (ds, []) l).2).
Proof.
  revert ds effects. induction l as [|r l IH]; intros ds effects; [by rewrite app_nil_r|]. cbn [foldl].
  destruct r as [now size msg|eof]; cbn [process_read fst snd]; [|apply IH].
  destruct (receive now ds (Some msg) from) as [[err ds'] eff]. cbn [app].
  rewrite (IH _ (effects ++ eff)), (IH _ eff). cbn [fst snd]. by rewrite app_assoc.
Qed.

(** Reading a stream: the messages that fit, up to the first element that is none *)
Theorem directStreamHandler_spec s from ds l r rest :
  forallb fits l = true -> fits r = false ->
  let '(ds', effects) := foldl (process_read from) (ds, []) l in
  handle_stream ds s from (l ++ r :: rest)
  = (ds', effects ++ [match r with ReadErr true => DoClose (st_id s) | _ => DoReset (st_id s) end])
  /\ handle_stream ds s from l = (ds', effects).
Proof.
  revert ds. induction l as [|r0 l IH]; intros ds Hl Hr; cbn [foldl app directStreamHandler].
  - split; [|done]. destruct r as [now size msg|[]]; [|done..]. simpl in Hr.
    by replace ((size <? 0) || (size >? maxSendBuffSize)) with true by lia.
  - cbn [forallb] in Hl. apply andb_true_iff in Hl as [Hr0 Hl]. destruct r0 as [now size msg|]; [|done]. simpl in Hr0.
    replace ((size <? 0) || (size >? maxSendBuffSize)) with false by lia. cbn [process_read fst snd].
    destruct (receive now ds (Some msg) from) as [[err ds1] eff]. rewrite process_read_app. cbn [app].
    specialize (IH ds1 Hl Hr). destruct (foldl (process_read from) (ds1, []) l) as [ds' effects].
    destruct IH as [-> ->]. cbn [fst snd]. by rewrite app_assoc.
Qed.

(** A frame that is longer than the reader's bound is never processed, nor is
    what follows it on its stream. *)
Theorem oversized_message_resets ds s from now size msg rest :
  maxSendBuffSize < size -> handle_stream ds s from (ReadMsg now size msg :: rest) = (ds, [DoReset (st_id s)]).
Proof.
  intros Hs. cbn [directStreamHandler]. by replace ((size <? 0) || (size >? maxSendBuffSize)) with true by lia.
Qed.
End receiving.

(** ** Sequence numbers *)

Section sequence.
Context {T C : Type}.
Implicit Types ds : directSender T C.

Definition getUint64 (b : bytes) : Z := fold_left (fun acc x => acc * 256 + byte_val x) b 0.

Lemma get_putUint64 v : in_u 64 v -> getUint64 (putUint64 v) = v.
Proof.
  intros Hv. unfold in_u in Hv. change (2 ^ 64) with 18446744073709551616 in Hv.
  unfold getUint64, putUint64. cbn [fmap list_fmap fold_left].
  rewrite !byte_val_of, !Z.shiftr_div_pow2 by lia.
  change (2 ^ (8 * 7)) with 72057594037927936. change (2 ^ (8 * 6)) with 281474976710656.
  change (2 ^ (8 * 5)) with 1099511627776. change (2 ^ (8 * 4)) with 4294967296.
  change (2 ^ (8 * 3)) with 16777216. change (2 ^ (8 * 2)) with 65536.
  change (2 ^ (8 * 1)) with 256. change (2 ^ (8 * 0)) with 1.
  Z.div_mod_to_equations. lia.
Qed.

Fixpoint sequence_numbers ds (n : nat) : list bytes :=
  match n with
  | O => []
  | S n => let '(seqno, ds) := ds_NextSequenceNumber ds in seqno :: sequence_numbers ds n
  end.

Lemma sequence_numbers_elem n ds b :
  b ∈ sequence_numbers ds n ->
  exists i, 1 <= i <= Z.of_nat n /\ b = putUint64 (wrapu 64 (counter ds + i)).
Proof.
  revert ds. induction n as [|n IH]; intros ds; cbn [sequence_numbers ds_NextSequenceNumber].
  - by intros ?%not_elem_of_nil.
  - intros [->|Hb]%elem_of_cons; [exists 1; split; [lia|done]|].
    destruct (IH _ Hb) as (i & Hi & ->). exists (i + 1). split; [lia|]. cbn [counter set_counter].
    unfold wrapu. rewrite Z.add_mod_idemp_l by done. do 2 f_equal. lia.
Qed.

(** Sequence numbers are eight bytes long and 2^64 consecutive ones are
    pairwise distinct, the wrap-around of the counter included; so the
    receiver never takes a fresh message of this sender for one it has seen. *)
Theorem NextSequenceNumber_distinct ds n :
  Z.of_nat n <= 2 ^ 64 ->
  NoDup (sequence_numbers ds n) /\ Forall (fun b => len b = sequenceNumberSize) (sequence_numbers ds n).
Proof.
  intros Hn. split.
  - revert ds Hn. induction n as [|n IH]; intros ds Hn; cbn [sequence_numbers ds_NextSequenceNumber];
      [apply NoDup_nil_2|].
    apply NoDup_cons. split; [|apply IH; lia].
    intros (i & Hi & Heq)%sequence_numbers_elem. cbn [counter set_counter] in Heq.
    apply (f_equal getUint64) in Heq. rewrite !get_putUint64 in Heq by (apply wrapu_range; lia).
    rewrite <- (Z.add_0_r (wrapu 64 (counter ds + 1))) in Heq at 1.
    assert (Hw : wrapu 64 (wrapu 64 (counter ds + 1) + 0) = wrapu 64 (wrapu 64 (counter ds + 1) + i)).
    { rewrite <- Heq, Z.add_0_r. apply wrapu_small, wrapu_range. lia. }
    apply wrapu_add_inj in Hw; lia.
  - apply Forall_forall. intros b (i & _ & ->)%sequence_numbers_elem. done.
Qed.
End sequence.

(** ** Sending *)

Section sending.
Context {T C : Type} `{TimeCache T} `{Cacher cached C}.
Context (IDFromBytes : bytes -> result PeerID).
Context (pb_Marshal : pbMessage -> result bytes) (SignPrefix : string).
Context (ConnsToPeer : PeerID -> list Conn) (NewStream : PeerID -> string -> result Stream).
Context (WriteMsg : Stream -> pbMessage -> option error) (Flush : Stream -> option error).
Implicit Types ds : directSender T C.

Abbreviation create := (createMessage pb_Marshal SignPrefix).
Abbreviation send := (ds_Send pb_Marshal SignPrefix ConnsToPeer NewStream WriteMsg Flush).
Abbreviation connection := (getConnection ConnsToPeer).
Abbreviation stream_of := (getOrCreateStream NewStream).

Lemma createMessage_Ok ds topic buff conn m :
  (create ds topic buff conn).1 = Ok m ->
  exists b sig,
    pb_Marshal {| pb_From := pb_From m; pb_Data := pb_Data m; pb_Seqno := pb_Seqno m;
      pb_Topic := pb_Topic m; pb_Signature := None; pb_Key := None |} = Ok b
    /\ s_Sign (ds_signer ds) (to_bytes SignPrefix ++ b) = Ok sig
    /\ m = {| pb_From := Some (to_bytes (LocalPeer conn)); pb_Data := Some buff;
              pb_Seqno := Some (ds_NextSequenceNumber ds).1; pb_Topic := Some topic;
              pb_Signature := Some sig; pb_Key := None |}.
Proof.
  unfold createMessage. cbn [ds_NextSequenceNumber fst]. rewrite bind_Ok.
  intros (b & Hb & Hs). apply bind_Ok in Hs as (sig & Hsig & Hm).
  apply (inj Ok) in Hm as <-. exists b, sig. split_and!; done.
Qed.

(** What one sender makes, the direct sender of the other peer accepts:
    when signatures made with the key of the local peer verify for its peer ID
    and the buffer is an encoded topic message of the supported version, the
    receiver hands to its handler one direct message with the topic, the
    buffer as payload, the data and the timestamp of the topic message, and
    the sender's peer ID as origin. *)
Theorem sent_message_accepted ds (dr : directSender T C) now topic buff conn m h tm :
  (create ds topic buff conn).1 = Ok m ->
  (forall p sig, s_Sign (ds_signer ds) p = Ok sig ->
     s_Verify (ds_signer dr) p (LocalPeer conn) (Some sig) = None) ->
  IDFromBytes (to_bytes (LocalPeer conn)) = Ok (LocalPeer conn) ->
  UnmarshalTopic (ds_marshaller dr) (Some buff) = Ok tm ->
  Version tm = 1 -> sl (SignatureOnPid tm) = [] -> sl (Pk tm) = [] ->
  messageHandler dr = Some h -> tc_Has (seenMessages dr) (msgId m) = false ->
  exists msg,
    processReceivedDirectMessage IDFromBytes pb_Marshal SignPrefix now dr (Some m) (LocalPeer conn)
    = (h msg (LocalPeer conn), set_seen dr (tc_Add now (seenMessages dr) (msgId m)),
       [DoHandle msg (LocalPeer conn)])
    /\ TopicField msg = topic /\ PeerField msg = LocalPeer conn
    /\ PayloadField msg = Some buff /\ DataField msg = Payload tm
    /\ TimestampField msg = Timestamp tm /\ BroadcastMethodField msg = Direct.
Proof.
  intros Hm Hsig Hid Hu Hv Hs Hk Hh Hn.
  destruct (createMessage_Ok _ _ _ _ _ Hm) as (b & sig & Hb & Hsg & ->). clear Hm.
  apply Hsig in Hsg. rewrite (processReceived_guarded pb_Marshal SignPrefix IDFromBytes now dr _ (LocalPeer conn) h topic) by done.
  rewrite Hn. cbv zeta.
  assert (Hc : checkSig pb_Marshal SignPrefix (set_seen dr (tc_Add now (seenMessages dr) (msgId
    {| pb_From := Some (to_bytes (LocalPeer conn)); pb_Data := Some buff;
       pb_Seqno := Some (ds_NextSequenceNumber ds).1; pb_Topic := Some topic;
       pb_Signature := Some sig; pb_Key := None |})))
    {| pb_From := Some (to_bytes (LocalPeer conn)); pb_Data := Some buff;
       pb_Seqno := Some (ds_NextSequenceNumber ds).1; pb_Topic := Some topic;
       pb_Signature := Some sig; pb_Key := None |} = None).
  { apply (checkSig_None pb_Marshal SignPrefix _ _ (LocalPeer conn)); [done|]. right. eauto. }
  rewrite Hc. change (ds_marshaller (set_seen dr _)) with (ds_marshaller dr).
  erewrite NewMessage_accepts by done. eexists. split_and!; done.
Qed.

Lemma getConnection_fold (conns : list Conn) conn n :
  len (GetStreams conn) <= n \/ n = 0 ->
  let r := fold_left (fun '(conn, lStreams) c =>
    let length := len (GetStreams c) in
    if length >=? lStreams then (c, length) else (conn, lStreams)) conns (conn, n) in
  (r.1 = conn /\ r.2 = n /\ (forall c, c ∈ conns -> len (GetStreams c) < n)
   \/ r.1 ∈ conns /\ r.2 = len (GetStreams r.1) /\ n <= r.2)
  /\ (forall c, c ∈ conns -> len (GetStreams c) <= r.2).
Proof.
  revert conn n. induction conns as [|c conns IH]; intros conn n Hn; cbn [fold_left].
  - cbv zeta. split; [left; split_and!; [done|done|set_solver]|set_solver].
  - cbv zeta in *. destruct (_ >=? _) eqn:E; bdestruct_all.
    + destruct (IH c (len (GetStreams c)) ltac:(left; lia)) as [[(H1 & H2 & H3)|(H1 & H2 & H3)] Hall];
        (split; [right; split_and!; [set_solver|congruence || done|lia]|]);
        intros c' [->|Hc']%elem_of_cons; try (by apply Hall); lia.
    + destruct (IH conn n Hn) as [[(H1 & H2 & H3)|(H1 & H2 & H3)] Hall];
        (split; [|intros c' [->|Hc']%elem_of_cons; [lia|by apply Hall]]).
      * left. split_and!; [done|done|]. intros c' [->|Hc']%elem_of_cons; [lia|by apply H3].
      * right. split_and!; [set_solver|done|done].
Qed.

Lemma getConnection_Ok p conn :
  connection p = Ok conn ->
  conn ∈ ConnsToPeer p
  /\ forall c, c ∈ ConnsToPeer p -> len (GetStreams c) <= len (GetStreams conn).
Proof.
  unfold getConnection. destruct (ConnsToPeer p) as [|first conns] eqn:Hc; [done|].
  intros H1. apply (inj Ok) in H1.
  destruct (getConnection_fold (first :: conns) first 0) as [Hr Hall]; [by right|]. cbv zeta in *.
  destruct Hr as [(_ & _ & Hlt)|(Hin & Hlen & _)].
  - pose proof (Hlt first ltac:(set_solver)). pose proof (len_nonneg (GetStreams first)). lia.
  - rewrite H1 in Hin, Hlen. rewrite Hlen in Hall. by split.
Qed.

(** The stream used for a connection: an outgoing one of the direct protocol
    when there is one, else a new one *)
Definition stream_for (conn : Conn) (st : Stream) (opened : list ds_effect) : Prop :=
  (st ∈ GetStreams conn /\ st_Protocol st = DirectSendID /\ st_Outbound st = true /\ opened = [])
  \/ ((forall s, s ∈ GetStreams conn -> st_Protocol s = DirectSendID -> st_Outbound s = false)
      /\ NewStream (RemotePeer conn) DirectSendID = Ok st
      /\ opened = [DoNewStream (RemotePeer conn) DirectSendID]).

Lemma getOrCreateStream_Ok conn st opened :
  stream_of conn = (Ok st, opened) -> stream_for conn st opened.
Proof.
  unfold getOrCreateStream, stream_for. destruct (list_find _ _) as [[i s]|] eqn:Hf.
  - intros [= <- <-]. apply list_find_Some in Hf as (Hi & [Hp Ho] & _).
    left. split_and!; [by eapply list_elem_of_lookup_2|done|done|done].
  - intros [= H1 <-]. right. split_and!; [|done|done].
    apply list_find_None in Hf. rewrite Forall_forall in Hf.
    intros s Hs Hp. destruct (st_Outbound s) eqn:Ho; [|done]. by destruct (Hf s Hs).
Qed.

(** [Send] takes the peer's mutex first and gives it back last, on every
    path. It succeeds exactly by writing and flushing one message, with the
    topic, the buffer and the local peer as origin, to a stream of the direct
    protocol on the connection with the most streams; when the write or the
    flush fails the stream is reset and closed; a buffer that is too large
    touches nothing. *)
Theorem Send_spec ds topic buff peer err ds' effects :
  send ds topic buff peer = (err, ds', effects) ->
  (maxSendBuffSize <= len buff /\ err = Some (ErrMessageTooLarge : error) /\ ds' = ds /\ effects = [])
  \/ (len buff < maxSendBuffSize /\ exists body,
      effects = DoLock (mh_Get (mutexForPeer ds) peer).1 :: body
                ++ [DoUnlock (mh_Get (mutexForPeer ds) peer).1]
      /\ ((exists e, err = Some e /\ forall st m, DoWriteMsg st m ∉ body)
          \/ exists conn st opened msg,
            conn ∈ ConnsToPeer peer
            /\ (forall c, c ∈ ConnsToPeer peer -> len (GetStreams c) <= len (GetStreams conn))
            /\ stream_for conn st opened
            /\ pb_From msg = Some (to_bytes (LocalPeer conn)) /\ pb_Data msg = Some buff
            /\ pb_Topic msg = Some topic /\ pb_Seqno msg = Some (ds_NextSequenceNumber ds).1
            /\ (err = None /\ WriteMsg st msg = None /\ Flush st = None
                  /\ body = opened ++ [DoWriteMsg (st_id st) msg; DoFlush (st_id st)]
                \/ (exists e flushed, err = Some e
                    /\ (WriteMsg st msg = Some e \/ Flush st = Some e)
                    /\ body = opened ++ DoWriteMsg (st_id st) msg :: flushed
                         ++ [DoReset (st_id st); DoClose (st_id st)])))).
Proof.
  unfold ds_Send. destruct (_ >=? _) eqn:E; bdestruct_all.
  { intros [= <- <- <-]. left. by split_and!. }
  destruct (mh_Get (mutexForPeer ds) peer) as [mut mutexes] eqn:Hm. cbv zeta.
  destruct (Send_locked _ _ _ _ _ _ _ topic buff peer) as [[err0 ds0] body] eqn:Hs.
  intros [= <- <- <-]. right. split; [lia|]. exists body. split; [done|].
  revert Hs. unfold Send_locked.
  destruct (getConnection _ peer) as [conn|e] eqn:Hc;
    [|intros [= <- <- <-]; left; eexists; split; [done|set_solver]].
  destruct (getConnection_Ok _ _ Hc) as [Hin Hmax].
  destruct (getOrCreateStream _ conn) as [[st|e] opened] eqn:Hst.
  2: { intros [= <- <- <-]. left. exists e. split; [done|]. intros st m.
       unfold getOrCreateStream in Hst. case_in Hst; [destruct p; by injection Hst|].
       injection Hst as _ <-. set_solver. }
  apply getOrCreateStream_Ok in Hst.
  assert (Hop : forall st m, DoWriteMsg st m ∉ opened)
    by (intros s m; destruct Hst as [(_ & _ & _ & ->)|(_ & _ & ->)]; set_solver).
  destruct (create _ topic buff conn) as [[msg|e] ds1] eqn:Hcm.
  2: { intros [= <- <- <-]. left. eauto. }
  assert (Hmsg := createMessage_Ok (set_mutexes ds mutexes) topic buff conn msg).
  rewrite Hcm in Hmsg. destruct (Hmsg eq_refl) as (b & sig & _ & _ & Heq). clear Hmsg.
  intros Hrest. right. exists conn, st, opened, msg.
  split_and!; [done|done|done|by rewrite Heq|by rewrite Heq|by rewrite Heq|by rewrite Heq|].
  destruct (WriteMsg st msg) as [e|] eqn:Hw; [|destruct (Flush st) as [e|] eqn:Hfl];
    injection Hrest as <- <- <-.
  - right. exists e, []. split_and!; [done|by left|done].
  - right. exists e, [DoFlush (st_id st)]. split_and!; [done|by right|done].
  - left. by split_and!.
Qed.
End sending.

(** ** Examples *)

(** A time cache that forgets, when something is added, what is older than the
    span. *)
#[export] Instance demo_TimeCache : TimeCache (gmap string Z) := {
  tc_Has c s := bool_decide (is_Some (c !! s));
  tc_Add now c s := <[s := now]> (filter (fun e => now - e.2 <= timeSeenMessages) c);
}.

#[export] Instance demo_TimeCacheLaws : TimeCacheLaws (gmap string Z) timeSeenMessages id.
Proof.
  split; [done| |].
  - intros now c s. apply lookup_insert_eq.
  - intros now c s s' Hs. unfold tc_Add, demo_TimeCache, id. rewrite lookup_insert_ne by done.
    rewrite map_lookup_filter. destruct (c !! s') as [t|] eqn:E; [|by left]. simpl.
    destruct (decide (now - t <= timeSeenMessages)) as [Hle|Hgt].
    + left. rewrite option_guard_True by done. done.
    + right. exists t. split; [done|]. lia.
Qed.

Definition demo_signer (pid : PeerID) : SignerVerifier := {|
  s_Sign := fun payload => Ok (demo_sign pid payload);
  s_Verify := demo_verify;
|}.

Definition demo_marshaller : Marshaller := {|
  MarshalTopic := fun t => Ok (demo_MarshalTopic t);
  UnmarshalTopic := demo_UnmarshalTopic;
|}.

Abbreviation demo_cache := (list (bytes * cached)).
#[local] Instance demo_mutex_cache : Cacher cached demo_cache := lru_Cacher 100.

Definition demo_ds (pid : PeerID) (h : MessageHandler) : directSender (gmap string Z) demo_cache := {|
  counter := 41; messageHandler := Some h; seenMessages := ∅;
  mutexForPeer := {| mutexes := []; allocated := 0 |};
  ds_signer := demo_signer pid; ds_marshaller := demo_marshaller;
|}.

Definition demo_handler : MessageHandler := fun _ _ => None.
Definition demo_stream (id : Z) : Stream := {|
  st_id := id; st_Protocol := DirectSendID; st_Outbound := true |}.
Definition demo_conn : Conn := {|
  LocalPeer := "alice"; RemotePeer := "bob"; GetStreams := [demo_stream 1] |}.
Definition demo_buff : bytes := demo_MarshalTopic {|
  Version := 1; Payload := Some (to_bytes "hello"); Timestamp := 7; Pk := None; SignatureOnPid := None |}.

Definition demo_direct : pbMessage :=
  match (createMessage demo_pb_Marshal demo_prefix (demo_ds "alice" demo_handler)
           "transactions" demo_buff demo_conn).1 with
  | Ok m => m
  | Err _ => wire demo_msg
  end.

Lemma demo_mh_wf : mh_wf lru_view {| mutexes := [] : demo_cache; allocated := 0 |}.
Proof. split; intros *; unfold lru_view; simpl; by rewrite lookup_empty. Defined.

Definition demo_mh : MutexHolder demo_cache := {| mutexes := []; allocated := 0 |}.

Lemma mh_Get_spec_witness :
  (mh_Get demo_mh "alice").1 = 0%nat /\ (mh_Get (mh_Get demo_mh "alice").2 "bob").1 = 1%nat
  /\ mh_wf lru_view (mh_Get (mh_Get demo_mh "alice").2 "bob").2.
Proof.
  pose proof (mh_Get_spec (H := demo_mutex_cache) lru_view (CacherLaws0 := lru_laws 100)
    demo_mh "alice" "bob" demo_mh_wf) as H1.
  split_and!; [by vm_compute..|].
  hnf in H1. destruct H1 as (Hwf & _). exact Hwf.
Defined.

Lemma processReceivedDirectMessage_spec_witness :
  (processReceivedDirectMessage demo_IDFromBytes demo_pb_Marshal demo_prefix 5
     (demo_ds "bob" demo_handler) (Some (wire demo_msg)) "alice").2
  = [DoHandle demo_msg "alice"].
Proof.
  destruct (processReceivedDirectMessage_spec demo_pb_Marshal demo_prefix demo_IDFromBytes 5
    (demo_ds "bob" demo_handler) (wire demo_msg) "alice" demo_handler eq_refl) as [Hyes _].
  rewrite (Hyes demo_msg); [done|]. unfold deliverable.
  split_and!; [by vm_compute..| |by vm_compute]. right. eexists.
  split; vm_compute; reflexivity.
Defined.

Lemma no_replay_witness :
  let ds := demo_ds "bob" demo_handler in
  let step t ds m := processReceivedDirectMessage demo_IDFromBytes demo_pb_Marshal demo_prefix t ds
    (Some m) "alice" in
  exists e, step 60 (step 5 ds (wire demo_msg)).1.2 (wire demo_msg)
    = (Some e, (step 5 ds (wire demo_msg)).1.2, []).
Proof.
  cbv zeta. refine (no_replay demo_pb_Marshal demo_prefix demo_IDFromBytes timeSeenMessages id
    5 (demo_ds "bob" demo_handler) (wire demo_msg) "alice" None _ [DoHandle demo_msg "alice"] []
    60 (wire demo_msg) "alice" _ _ _ eq_refl); [by vm_compute|done|by apply Forall_nil_2].
Defined.

Lemma NextSequenceNumber_distinct_witness :
  NoDup (sequence_numbers (demo_ds "bob" demo_handler) 3).
Proof.
  apply (NextSequenceNumber_distinct (demo_ds "bob" demo_handler) 3). lia.
Defined.

Lemma sent_message_accepted_witness :
  exists msg,
    (processReceivedDirectMessage demo_IDFromBytes demo_pb_Marshal demo_prefix 5
       (demo_ds "bob" demo_handler) (Some demo_direct) "alice").2 = [DoHandle msg "alice"]
    /\ DataField msg = Some (to_bytes "hello").
Proof.
  destruct (sent_message_accepted demo_IDFromBytes demo_pb_Marshal demo_prefix
    (demo_ds "alice" demo_handler) (demo_ds "bob" demo_handler) 5 "transactions" demo_buff demo_conn
    demo_direct demo_handler
    {| Version := 1; Payload := Some (to_bytes "hello"); Timestamp := 7; Pk := None;
       SignatureOnPid := None |}) as (msg & Hp & _ & _ & _ & Hd & _).
  1, 3, 4, 5, 6, 7, 8, 9: by vm_compute.
  - intros p sig H1. change (Ok (demo_sign "alice" p) = Ok sig) in H1. apply (inj Ok) in H1 as <-.
    change (demo_verify p "alice" (Some (demo_sign "alice" p)) = None). unfold demo_verify.
    by rewrite decide_True.
  - exists msg. split; [|exact Hd]. change (LocalPeer demo_conn) with "alice" in Hp. by rewrite Hp.
Defined.

Definition demo_send :=
  ds_Send demo_pb_Marshal demo_prefix (fun _ => [demo_conn])
    (fun _ _ => Err (EExternal "no stream")) (fun _ _ => None) (fun _ => None)
    (demo_ds "alice" demo_handler) "transactions" demo_buff "bob".

Lemma Send_spec_witness :
  demo_send.1.1 = None /\ demo_send.2 = [DoLock 0; DoWriteMsg 1 demo_direct; DoFlush 1; DoUnlock 0].
Proof.
  assert (E : demo_send = (demo_send.1.1, demo_send.1.2, demo_send.2))
    by (by destruct demo_send as [[??]?]).
  destruct (Send_spec demo_IDFromBytes demo_pb_Marshal demo_prefix (fun _ => [demo_conn])
    (fun _ _ => Err (EExternal "no stream")) (fun _ _ => None) (fun _ => None)
    (demo_ds "alice" demo_handler) "transactions" demo_buff "bob" _ _ _ E)
    as [(Hlen & _)|(_ & body & _)]; [by vm_compute in Hlen|]. by vm_compute.
Defined.
