(* ===== verification/Topics.v ===== *)
(** * Topics: processors, outgoing channels, peers

    Three helpers of the messages handler: p2p/libp2p/topicProcessors.go, the
    processors of a topic by identifier; p2p/libp2p/outgoingChannelLoadBalancer.go,
    the channels the broadcasts wait on and the goroutines that forward them;
    p2p/libp2p/peersOnChannel.go, the cached lists of peers per topic. *)

From S2P Require Import Prelude Errors Config.
From stdpp Require Import list gmap sets.
Open Scope Z_scope.

(** ** topicProcessors.go *)

Section topic_processors.
(** [p2p.MessageProcessor] *)
Context {P : Type}.

Record topicProcessors := { tp_processors : gmap string P }.

Definition newTopicProcessors : topicProcessors := {| tp_processors := ∅ |}.

Definition AddTopicProcessor (tp : topicProcessors) (identifier : string) (processor : P)
    : option error * topicProcessors :=
  match tp_processors tp !! identifier with
  | Some _ => (Some (ErrMessageProcessorAlreadyDefined : error), tp)
  | None => (None, {| tp_processors := <[identifier := processor]> (tp_processors tp) |})
  end.

Definition RemoveTopicProcessor (tp : topicProcessors) (identifier : string)
    : option error * topicProcessors :=
  match tp_processors tp !! identifier with
  | None => (Some (ErrMessageProcessorDoesNotExists : error), tp)
  | Some _ => (None, {| tp_processors := delete identifier (tp_processors tp) |})
  end.

(** The order in which Go visits the keys of a map is unspecified: [order] is
    any enumeration of the entries. *)
Context (order : gmap string P -> list (string * P)).

Definition GetList (tp : topicProcessors) : list string * list P :=
  ((order (tp_processors tp)).*1, (order (tp_processors tp)).*2).
End topic_processors.
Arguments topicProcessors P : clear implicits.

(** ** outgoingChannelLoadBalancer.go *)

Definition defaultSendChannel : string := "default send channel".

Section load_balancer.
(** What is sent: [*SendableData], [None] being the nil pointer *)
Context {D : Type}.

(** The goroutine [appendChannel] starts for a channel: it waits on the
    channel, holds an object it offers to [mainChan], or has returned. *)
Inductive forwarder := Waiting | Holding (obj : option D) | Stopped.

(** Channels are unbuffered and named by the order they are made in. *)
Record outgoingChannelLoadBalancer := {
  chans : list nat;
  names : list string;
  namesChans : gmap string nat;
  made : nat;
  closed : gset nat;
  forwarders : gmap nat forwarder;
  ctxDone : bool;
}.

Definition appendChannel (oplb : outgoingChannelLoadBalancer) (channel : string)
    : outgoingChannelLoadBalancer :=
  let ch := made oplb in {|
    names := names oplb ++ [channel];
    chans := chans oplb ++ [ch];
    namesChans := <[channel := ch]> (namesChans oplb);
    made := S ch;
    closed := closed oplb;
    forwarders := <[ch := Waiting]> (forwarders oplb);
    ctxDone := ctxDone oplb;
  |}.

Definition NewOutgoingChannelLoadBalancer (logger : bool) : result outgoingChannelLoadBalancer :=
  guard_err (negb logger) ErrNilLogger $
  Ok (appendChannel {| chans := []; names := []; namesChans := ∅; made := 0; closed := ∅;
                       forwarders := ∅; ctxDone := false |} defaultSendChannel).

Definition oplb_AddChannel (oplb : outgoingChannelLoadBalancer) (channel : string)
    : option error * outgoingChannelLoadBalancer :=
  if decide (channel = defaultSendChannel) then (Some (ErrChannelCanNotBeReAdded : error), oplb)
  else match namesChans oplb !! channel with
       | Some _ => (None, oplb)
       | None => (None, appendChannel oplb channel)
       end.

(** [RemoveChannel]; [None] is the run time panic of an index out of range. *)
Definition RemoveChannel (oplb : outgoingChannelLoadBalancer) (channel : string)
    : option (option error * outgoingChannelLoadBalancer) :=
  if decide (channel = defaultSendChannel) then Some (Some (ErrChannelCanNotBeDeleted : error), oplb)
  else match list_find (fun name => name = channel) (names oplb) with
       | None => Some (Some (ErrChannelDoesNotExist : error), oplb)
       | Some (index, _) =>
           sendableChan ← chans oplb !! index;
           chans' ← remove_at (Z.of_nat index) (chans oplb);
           names' ← remove_at (Z.of_nat index) (names oplb);
           Some (None, {|
             chans := chans';
             names := names';
             namesChans := delete channel (namesChans oplb);
             made := made oplb;
             closed := {[ sendableChan ]} ∪ closed oplb;
             forwarders := forwarders oplb;
             ctxDone := ctxDone oplb;
           |})
       end.

Definition oplb_GetChannelOrDefault (oplb : outgoingChannelLoadBalancer) (channel : string) : option nat :=
  match namesChans oplb !! channel with
  | Some ch => Some ch
  | None => chans oplb !! 0%nat
  end.

Definition set_forwarder (oplb : outgoingChannelLoadBalancer) (ch : nat) (f : forwarder)
    : outgoingChannelLoadBalancer := {|
  chans := chans oplb; names := names oplb; namesChans := namesChans oplb; made := made oplb;
  closed := closed oplb; forwarders := <[ch := f]> (forwarders oplb); ctxDone := ctxDone oplb |}.

Definition oplb_Close (oplb : outgoingChannelLoadBalancer) : outgoingChannelLoadBalancer := {|
  chans := chans oplb; names := names oplb; namesChans := namesChans oplb; made := made oplb;
  closed := closed oplb; forwarders := forwarders oplb; ctxDone := true |}.

(** What happens, one communication or call at a time: a sender meets the
    goroutine of an open channel; a closed channel yields nil; the consumer
    ([CollectOneElementFromChannels]) takes what a goroutine offers, or nil when
    the context is done; a waiting goroutine sees that the context is done. *)
Inductive oplb_event :=
| EvSend (ch : nat) (obj : option D)
| EvClosedReceive (ch : nat)
| EvCollect (ch : nat) (obj : option D)
| EvCollectDone
| EvStop (ch : nat)
| EvAddChannel (name : string)
| EvRemoveChannel (name : string)
| EvClose.

Inductive oplb_step (oplb : outgoingChannelLoadBalancer) :
    oplb_event -> outgoingChannelLoadBalancer -> Prop :=
| step_send ch obj :
    forwarders oplb !! ch = Some Waiting -> ch ∉ closed oplb ->
    oplb_step oplb (EvSend ch obj) (set_forwarder oplb ch (Holding obj))
| step_closed ch :
    forwarders oplb !! ch = Some Waiting -> ch ∈ closed oplb ->
    oplb_step oplb (EvClosedReceive ch) (set_forwarder oplb ch (Holding None))
| step_collect ch obj :
    forwarders oplb !! ch = Some (Holding obj) ->
    oplb_step oplb (EvCollect ch obj) (set_forwarder oplb ch Waiting)
| step_collect_done :
    ctxDone oplb = true -> oplb_step oplb EvCollectDone oplb
| step_stop ch :
    forwarders oplb !! ch = Some Waiting -> ctxDone oplb = true ->
    oplb_step oplb (EvStop ch) (set_forwarder oplb ch Stopped)
| step_add name :
    oplb_step oplb (EvAddChannel name) (oplb_AddChannel oplb name).2
| step_remove name err oplb' :
    RemoveChannel oplb name = Some (err, oplb') -> oplb_step oplb (EvRemoveChannel name) oplb'
| step_close :
    oplb_step oplb EvClose (oplb_Close oplb).

(** Executions, with the events in order *)
Inductive oplb_run (oplb : outgoingChannelLoadBalancer) :
    list oplb_event -> outgoingChannelLoadBalancer -> Prop :=
| run_nil : oplb_run oplb [] oplb
| run_snoc l ev oplb1 oplb2 :
    oplb_run oplb l oplb1 -> oplb_step oplb1 ev oplb2 -> oplb_run oplb (l ++ [ev]) oplb2.

(** *** The channel table *)

(** The two parallel slices and the map describe one table, which starts with
    the default channel; its channels are distinct and open. *)
Record oplb_inv (oplb : outgoingChannelLoadBalancer) : Prop := {
  inv_length : length (names oplb) = length (chans oplb);
  inv_names : NoDup (names oplb);
  inv_chans : NoDup (chans oplb);
  inv_map : namesChans oplb = list_to_map (zip (names oplb) (chans oplb));
  inv_default : names oplb !! 0%nat = Some defaultSendChannel;
  inv_made ch : ch ∈ chans oplb -> (ch < made oplb)%nat;
  inv_open ch : ch ∈ chans oplb -> ch ∉ closed oplb;
  inv_forwarders ch : (ch < made oplb)%nat <-> is_Some (forwarders oplb !! ch);
  inv_closed ch : ch ∈ closed oplb -> (ch < made oplb)%nat;
}.

Lemma oplb_lookup oplb name ch :
  oplb_inv oplb ->
  namesChans oplb !! name = Some ch <->
  exists i, names oplb !! i = Some name /\ chans oplb !! i = Some ch.
Proof.
  intros Hinv. rewrite (inv_map _ Hinv). rewrite <- elem_of_list_to_map.
  - rewrite list_elem_of_lookup. setoid_rewrite lookup_zip_Some. done.
  - rewrite fst_zip by (rewrite (inv_length _ Hinv); lia). apply (inv_names _ Hinv).
Qed.

Lemma namesChans_None oplb name :
  oplb_inv oplb -> namesChans oplb !! name = None <-> name ∉ names oplb.
Proof.
  intros Hinv. rewrite (inv_map _ Hinv), <- not_elem_of_list_to_map.
  by rewrite fst_zip by (rewrite (inv_length _ Hinv); lia).
Qed.

Lemma appendChannel_inv oplb name :
  oplb_inv oplb -> name ∉ names oplb -> oplb_inv (appendChannel oplb name).
Proof.
  intros Hinv Hname. pose proof (inv_length _ Hinv) as Hl. split; simpl.
  - rewrite !length_app. simpl. lia.
  - apply NoDup_app. split_and!; [apply (inv_names _ Hinv)| |apply NoDup_singleton].
    intros x Hx ->%list_elem_of_singleton. done.
  - apply NoDup_app. split_and!; [apply (inv_chans _ Hinv)| |apply NoDup_singleton].
    intros x Hx ->%list_elem_of_singleton. apply (inv_made _ Hinv) in Hx. lia.
  - rewrite zip_with_app by done. rewrite list_to_map_app, (inv_map _ Hinv). simpl.
    rewrite <- insert_union_r, map_union_empty; [done|].
    rewrite <- not_elem_of_list_to_map, fst_zip by lia. done.
  - rewrite lookup_app_l; [apply (inv_default _ Hinv)|].
    apply lookup_lt_Some with defaultSendChannel, (inv_default _ Hinv).
  - intros ch [Hch| ->%list_elem_of_singleton]%elem_of_app; [|lia].
    apply (inv_made _ Hinv) in Hch. lia.
  - intros ch [Hch| ->%list_elem_of_singleton]%elem_of_app; [by apply (inv_open _ Hinv)|].
    intros Hc%(inv_closed _ Hinv). lia.
  - intros ch. rewrite lookup_insert_is_Some, <- (inv_forwarders _ Hinv). lia.
  - intros ch Hc%(inv_closed _ Hinv). lia.
Qed.

Lemma AddChannel_inv oplb name : oplb_inv oplb -> oplb_inv (oplb_AddChannel oplb name).2.
Proof.
  intros Hinv. unfold oplb_AddChannel. case_decide; [done|].
  destruct (namesChans oplb !! name) eqn:E; [done|]. simpl.
  apply appendChannel_inv, namesChans_None; done.
Qed.

Lemma remove_at_delete {A} i (l l' : list A) :
  remove_at (Z.of_nat i) l = Some l' -> l' = delete i l /\ (i < length l)%nat.
Proof.
  unfold remove_at, len. destruct (_ && _) eqn:E; [|done]. intros [= <-]. bdestruct_all.
  rewrite Nat2Z.id, delete_take_drop. split; [done|lia].
Qed.

Lemma remove_at_total {A} i (l : list A) :
  (i < length l)%nat -> remove_at (Z.of_nat i) l = Some (delete i l).
Proof.
  intros Hi. unfold remove_at, len.
  rewrite (proj2 (Z.leb_le _ _)), (proj2 (Z.ltb_lt _ _)) by lia. simpl.
  by rewrite Nat2Z.id, delete_take_drop.
Qed.

(** The state after a removal that found its channel *)
Lemma RemoveChannel_found oplb name i ch :
  oplb_inv oplb -> name <> defaultSendChannel ->
  names oplb !! i = Some name -> chans oplb !! i = Some ch ->
  RemoveChannel oplb name = Some (None, {|
    chans := delete i (chans oplb); names := delete i (names oplb);
    namesChans := delete name (namesChans oplb); made := made oplb;
    closed := {[ ch ]} ∪ closed oplb; forwarders := forwarders oplb; ctxDone := ctxDone oplb |}).
Proof.
  intros Hinv Hd Hn Hc. unfold RemoveChannel. rewrite decide_False by done.
  assert (Hf : list_find (fun x => x = name) (names oplb) = Some (i, name)).
  { apply list_find_Some. split_and!; [done|done|]. intros j y Hj Hlt ->.
    pose proof (NoDup_lookup _ _ _ _ (inv_names _ Hinv) Hj Hn). lia. }
  rewrite Hf. simpl. rewrite Hc. simpl.
  rewrite !remove_at_total by (by eapply lookup_lt_Some). done.
Qed.

Lemma list_to_map_delete_zip (ns : list string) (cs : list nat) i name :
  NoDup ns -> length ns = length cs -> ns !! i = Some name ->
  delete name (list_to_map (zip ns cs) : gmap string nat) = list_to_map (zip (delete i ns) (delete i cs)).
Proof.
  revert cs i. induction ns as [|n ns IH]; intros [|c cs] i Hnd Hl Hi; [done..|].
  simpl in Hl. injection Hl as Hl. apply NoDup_cons in Hnd as [Hn Hnd].
  destruct i as [|i]; simpl in *.
  - injection Hi as ->. rewrite delete_insert_id; [done|].
    rewrite <- not_elem_of_list_to_map, fst_zip by lia. done.
  - rewrite delete_insert_ne.
    + f_equal. by apply IH.
    + intros <-. apply Hn. by eapply list_elem_of_lookup_2.
Qed.

Lemma RemoveChannel_inv oplb name err oplb' :
  oplb_inv oplb -> RemoveChannel oplb name = Some (err, oplb') -> oplb_inv oplb'.
Proof.
  intros Hinv Hr. destruct (decide (name = defaultSendChannel)) as [->|Hd].
  { unfold RemoveChannel in Hr. rewrite decide_True in Hr by done. by injection Hr as <- <-. }
  destruct (list_find (fun x => x = name) (names oplb)) as [[i x]|] eqn:Hf.
  2: { unfold RemoveChannel in Hr. rewrite decide_False, Hf in Hr by done. by injection Hr as <- <-. }
  apply list_find_Some in Hf as (Hi & -> & _). pose proof (inv_length _ Hinv) as Hl.
  destruct (lookup_lt_is_Some_2 (chans oplb) i) as [ch Hch];
    [rewrite <- Hl; by eapply lookup_lt_Some|].
  rewrite (RemoveChannel_found oplb name i ch Hinv Hd Hi Hch) in Hr. injection Hr as <- <-.
  pose proof (lookup_lt_Some _ _ _ Hi). pose proof (lookup_lt_Some _ _ _ Hch).
  split; simpl.
  - rewrite !length_delete by eauto. lia.
  - eapply sublist_NoDup; [apply (inv_names _ Hinv)|apply sublist_delete].
  - eapply sublist_NoDup; [apply (inv_chans _ Hinv)|apply sublist_delete].
  - rewrite (inv_map _ Hinv). apply list_to_map_delete_zip; [apply (inv_names _ Hinv)|done|done].
  - rewrite list_lookup_delete_lt; [apply (inv_default _ Hinv)|].
    destruct i; [|lia]. rewrite (inv_default _ Hinv) in Hi. congruence.
  - intros c Hc. apply (inv_made _ Hinv). eapply elem_of_sublist; [exact Hc|apply sublist_delete].
  - intros c Hc. assert (Hin : c ∈ chans oplb) by (eapply elem_of_sublist; [exact Hc|apply sublist_delete]).
    pose proof (inv_open _ Hinv _ Hin). assert (c <> ch); [|set_solver]. intros ->.
    apply list_elem_of_lookup in Hc as [j Hj]. destruct (decide (j < i)%nat).
    + rewrite list_lookup_delete_lt in Hj by done.
      pose proof (NoDup_lookup _ _ _ _ (inv_chans _ Hinv) Hj Hch). lia.
    + rewrite list_lookup_delete_ge in Hj by lia.
      pose proof (NoDup_lookup _ _ _ _ (inv_chans _ Hinv) Hj Hch). lia.
  - apply (inv_forwarders _ Hinv).
  - intros c [->%elem_of_singleton|Hc]%elem_of_union;
      [|by apply (inv_closed _ Hinv)].
    apply (inv_made _ Hinv). by eapply list_elem_of_lookup_2.
Qed.

Lemma set_forwarder_inv oplb ch f :
  oplb_inv oplb -> is_Some (forwarders oplb !! ch) -> oplb_inv (set_forwarder oplb ch f).
Proof.
  intros Hinv Hch. destruct Hinv; split; simpl; auto.
  intros c. rewrite lookup_insert_is_Some. destruct (decide (ch = c)) as [<-|Hne].
  - pose proof (proj2 (inv_forwarders0 ch) Hch). split; [by left|done].
  - rewrite inv_forwarders0. split; [by right|]. by intros [?|[_ ?]].
Qed.

Lemma oplb_step_inv oplb ev oplb' : oplb_inv oplb -> oplb_step oplb ev oplb' -> oplb_inv oplb'.
Proof.
  intros Hinv Hs. destruct Hs; eauto using set_forwarder_inv, AddChannel_inv, RemoveChannel_inv.
  by destruct Hinv; split.
Qed.

Lemma New_inv oplb : NewOutgoingChannelLoadBalancer true = Ok oplb -> oplb_inv oplb.
Proof.
  unfold NewOutgoingChannelLoadBalancer. simpl. intros Hn. apply (inj Ok) in Hn as <-.
  split; simpl; try done.
  - apply NoDup_singleton.
  - apply NoDup_singleton.
  - intros ch ->%list_elem_of_singleton. lia.
  - intros ch. rewrite lookup_insert_is_Some, lookup_empty. split.
    + intros Hlt. left. lia.
    + intros [<-|[_ [? ?]]]; [lia|done].
Qed.

Lemma oplb_run_inv oplb l oplb' : oplb_inv oplb -> oplb_run oplb l oplb' -> oplb_inv oplb'.
Proof. intros Hinv Hr. induction Hr; eauto using oplb_step_inv. Qed.

(** In every state the balancer can reach, [GetChannelOrDefault] answers
    without a panic: an added name has its own channel, shared with no other
    name, and any other name that of the default channel; the channel is open
    and its goroutine exists; and [RemoveChannel] does not panic either. *)
Theorem GetChannelOrDefault_spec oplb0 l oplb name :
  NewOutgoingChannelLoadBalancer true = Ok oplb0 -> oplb_run oplb0 l oplb ->
  (exists ch, oplb_GetChannelOrDefault oplb name = Some ch
     /\ ch ∉ closed oplb /\ is_Some (forwarders oplb !! ch)
     /\ (name ∈ names oplb -> forall name', name' ∈ names oplb ->
           oplb_GetChannelOrDefault oplb name' = Some ch -> name' = name)
     /\ (name ∉ names oplb -> oplb_GetChannelOrDefault oplb defaultSendChannel = Some ch))
  /\ is_Some (RemoveChannel oplb name).
Proof.
  intros Hn Hr. pose proof (oplb_run_inv _ _ _ (New_inv _ Hn) Hr) as Hinv. clear Hn Hr.
  pose proof (inv_length _ Hinv) as Hl. pose proof (lookup_lt_Some _ _ _ (inv_default _ Hinv)).
  assert (Hin : forall n, n ∈ names oplb -> exists i ch, names oplb !! i = Some n
    /\ chans oplb !! i = Some ch /\ oplb_GetChannelOrDefault oplb n = Some ch).
  { intros n [i Hi]%list_elem_of_lookup.
    destruct (lookup_lt_is_Some_2 (chans oplb) i) as [ch Hch];
      [rewrite <- Hl; by eapply lookup_lt_Some|].
    exists i, ch. split_and!; [done|done|]. unfold oplb_GetChannelOrDefault.
    by rewrite (proj2 (oplb_lookup oplb n ch Hinv)) by eauto. }
  assert (Hgood : forall i ch, chans oplb !! i = Some ch ->
    ch ∉ closed oplb /\ is_Some (forwarders oplb !! ch)).
  { intros i ch Hch%list_elem_of_lookup_2. split; [by apply (inv_open _ Hinv)|].
    by apply (inv_forwarders _ Hinv), (inv_made _ Hinv). }
  split.
  - destruct (decide (name ∈ names oplb)) as [Hname|Hname].
    + destruct (Hin name Hname) as (i & ch & Hi & Hch & Hg). exists ch.
      destruct (Hgood _ _ Hch). split_and!; [done|done|done| |done].
      intros _ name' (j & ch' & Hj & Hch' & ->)%Hin [= ->].
      pose proof (NoDup_lookup _ _ _ _ (inv_chans _ Hinv) Hch Hch') as ->. congruence.
    + destruct (Hin defaultSendChannel) as (i & ch & Hi & Hch & Hg);
        [eapply list_elem_of_lookup_2, (inv_default _ Hinv)|].
      pose proof (NoDup_lookup _ _ _ _ (inv_names _ Hinv) Hi (inv_default _ Hinv)) as ->.
      exists ch. destruct (Hgood _ _ Hch). split_and!; [|done|done|done|done].
      unfold oplb_GetChannelOrDefault at 1. by rewrite (proj2 (namesChans_None _ _ Hinv)).
  - unfold RemoveChannel. case_decide; [eauto|].
    destruct (list_find _ _) as [[i x]|] eqn:Hf; [|eauto].
    apply list_find_Some in Hf as (Hi & -> & _).
    destruct (lookup_lt_is_Some_2 (chans oplb) i) as [ch Hch];
      [rewrite <- Hl; by eapply lookup_lt_Some|].
    pose proof (RemoveChannel_found oplb name i ch Hinv ltac:(done) Hi Hch) as Hr.
    unfold RemoveChannel in Hr. rewrite decide_False in Hr by done.
    assert (Hf : list_find (fun x => x = name) (names oplb) = Some (i, name)).
    { apply list_find_Some. split_and!; [done|done|]. intros j y Hj Hlt ->.
      pose proof (NoDup_lookup _ _ _ _ (inv_names _ Hinv) Hj Hi). lia. }
    rewrite Hf in Hr. rewrite Hr. eauto.
Qed.

(** *** What goes in comes out *)

(** The objects given to a channel and those collected from it, in order; the
    nil pointer is not an object. *)
Definition sent (ch : nat) (l : list (oplb_event)) : list D :=
  omap (fun ev => match ev with
                  | EvSend ch' obj => if decide (ch' = ch) then obj else None
                  | _ => None
                  end) l.
Definition collected (ch : nat) (l : list (oplb_event)) : list D :=
  omap (fun ev => match ev with
                  | EvCollect ch' obj => if decide (ch' = ch) then obj else None
                  | _ => None
                  end) l.
Definition held (oplb : outgoingChannelLoadBalancer) (ch : nat) : list D :=
  match forwarders oplb !! ch with
  | Some (Holding (Some obj)) => [obj]
  | _ => []
  end.

Lemma held_set oplb ch f ch' :
  held (set_forwarder oplb ch f) ch'
  = if decide (ch = ch') then match f with Holding (Some obj) => [obj] | _ => [] end
    else held oplb ch'.
Proof. unfold held. simpl. rewrite lookup_insert. by case_decide. Qed.

Lemma held_table oplb oplb' ch :
  forwarders oplb' = forwarders oplb -> held oplb' ch = held oplb ch.
Proof. unfold held. by intros ->. Qed.

Lemma held_append oplb name ch :
  forwarders oplb !! made oplb = None -> held (appendChannel oplb name) ch = held oplb ch.
Proof.
  intros Hm. unfold held. simpl. destruct (decide (made oplb = ch)) as [<-|Hne].
  - by rewrite lookup_insert_eq, Hm.
  - by rewrite lookup_insert_ne.
Qed.

Lemma RemoveChannel_forwarders oplb name err oplb' :
  RemoveChannel oplb name = Some (err, oplb') -> forwarders oplb' = forwarders oplb.
Proof.
  unfold RemoveChannel. case_decide; [by intros [= <- <-]|].
  destruct (list_find _ _) as [[i x]|]; [|by intros [= <- <-]].
  destruct (chans oplb !! i); simpl; [|done]. destruct (remove_at _ (chans oplb)); simpl; [|done].
  destruct (remove_at _ (names oplb)); simpl; [|done]. by intros [= <- <-].
Qed.

Lemma step_conserves oplb ev oplb' ch :
  oplb_inv oplb -> oplb_step oplb ev oplb' ->
  collected ch [ev] ++ held oplb' ch = held oplb ch ++ sent ch [ev].
Proof.
  intros Hinv Hs. destruct Hs; unfold collected, sent; cbn [omap list_omap];
    rewrite ?held_set, ?app_nil_r.
  - destruct (decide (ch0 = ch)) as [->|]; [|by rewrite app_nil_r].
    unfold held. rewrite H. by destruct obj.
  - case_decide; [|done]. subst. unfold held. by rewrite H.
  - destruct (decide (ch0 = ch)) as [->|]; [|done].
    unfold held. rewrite H. by destruct obj.
  - done.
  - case_decide; [|done]. subst. unfold held. by rewrite H.
  - unfold oplb_AddChannel. case_decide; [done|]. destruct (namesChans oplb !! name); [done|].
    apply held_append. destruct (forwarders oplb !! made oplb) eqn:E; [|done].
    assert (made oplb < made oplb)%nat by (apply (inv_forwarders _ Hinv); eauto). lia.
  - simpl. by apply held_table, (RemoveChannel_forwarders _ name err).
  - by apply held_table.
Qed.

Lemma omap_snoc {A B} (f : A -> option B) l x : omap f (l ++ [x]) = omap f l ++ omap f [x].
Proof. apply omap_app. Qed.

(** Nothing is lost, duplicated or reordered on a channel: at any moment,
    what the consumer has collected from a channel followed by what its
    goroutine still holds is exactly what was sent on the channel, in the order
    it was sent, whatever channels are added or removed meanwhile. *)
Theorem channels_fifo oplb0 l oplb ch :
  NewOutgoingChannelLoadBalancer true = Ok oplb0 -> oplb_run oplb0 l oplb ->
  collected ch l ++ held oplb ch = sent ch l.
Proof.
  intros Hn Hr. induction Hr as [|l ev oplb1 oplb2 Hr IH Hs].
  - simpl. unfold NewOutgoingChannelLoadBalancer in Hn. simpl in Hn. apply (inj Ok) in Hn as <-.
    unfold held. simpl. rewrite lookup_insert. by case_decide.
  - pose proof (oplb_run_inv _ _ _ (New_inv _ Hn) Hr) as Hinv.
    pose proof (step_conserves _ _ _ ch Hinv Hs) as Hc.
    unfold collected, sent in *. rewrite !omap_snoc, <- IH, <- app_assoc, Hc. apply app_assoc.
Qed.

Definition is_nil_collect (ch : nat) (ev : oplb_event) : bool :=
  match ev with EvCollect c None => Nat.eqb c ch | _ => false end.

(** The run of a goroutine whose channel was closed: it yields nil for ever. *)
Lemma closed_channel_spins oplb ch n :
  forwarders oplb !! ch = Some Waiting -> ch ∈ closed oplb ->
  exists l oplb', oplb_run oplb l oplb'
    /\ length (filter (fun ev => is_nil_collect ch ev = true) l) = n
    /\ (forall ch' obj, EvSend ch' obj ∉ l)
    /\ forwarders oplb' !! ch = Some Waiting /\ ch ∈ closed oplb'.
Proof.
  intros Hw Hc. induction n as [|n IH].
  - exists [], oplb. split_and!; [constructor|done|set_solver|done|done].
  - destruct IH as (l & o & Hr & Hlen & Hno & Hw' & Hc').
    exists ((l ++ [EvClosedReceive ch]) ++ [EvCollect ch None]).
    exists (set_forwarder (set_forwarder o ch (Holding None)) ch Waiting).
    split_and!.
    + eapply run_snoc; [eapply run_snoc; [exact Hr|by apply step_closed]|].
      apply step_collect. apply lookup_insert_eq.
    + rewrite !filter_app, !length_app, Hlen. rewrite !filter_cons, !filter_nil.
      rewrite decide_False, decide_True by (simpl; by rewrite ?Nat.eqb_refl). simpl. lia.
    + set_solver.
    + apply lookup_insert_eq.
    + done.
Qed.

(** Removing a channel leaves its goroutine running: as the closed channel
    yields nil at once, the goroutine keeps offering nil pointers, and the
    consumer can collect any number of them although nothing is ever sent. *)
Theorem removed_channel_spins oplb0 l oplb name ch err oplb' n :
  NewOutgoingChannelLoadBalancer true = Ok oplb0 -> oplb_run oplb0 l oplb ->
  name <> defaultSendChannel -> namesChans oplb !! name = Some ch ->
  forwarders oplb !! ch = Some Waiting ->
  RemoveChannel oplb name = Some (err, oplb') ->
  exists l' oplb'', oplb_run oplb' l' oplb''
    /\ length (filter (fun ev => is_nil_collect ch ev = true) l') = n
    /\ (forall ch' obj, EvSend ch' obj ∉ l').
Proof.
  intros Hn Hr Hd Hname Hw Hrm. pose proof (oplb_run_inv _ _ _ (New_inv _ Hn) Hr) as Hinv.
  apply (oplb_lookup _ _ _ Hinv) in Hname as (i & Hi & Hch).
  rewrite (RemoveChannel_found oplb name i ch Hinv Hd Hi Hch) in Hrm. injection Hrm as <- <-.
  edestruct (closed_channel_spins {|
    chans := delete i (chans oplb); names := delete i (names oplb);
    namesChans := delete name (namesChans oplb); made := made oplb;
    closed := {[ ch ]} ∪ closed oplb; forwarders := forwarders oplb;
    ctxDone := ctxDone oplb |} ch n) as (l' & o & Hl & Hlen & Hno & _); [done|simpl; set_solver|].
  eauto.
Qed.
End load_balancer.
Arguments outgoingChannelLoadBalancer D : clear implicits.
Arguments oplb_event D : clear implicits.

(** ** peersOnChannel.go *)

Record peersOnChannel := {
  poc_peers : gmap string (list PeerID);
  lastUpdated : gmap string Z;  (* time.Time, in nanoseconds *)
  refreshInterval : Z;
  ttlInterval : Z;
}.

(** [fetchPeersHandler] and [logger] are tested for nil only. *)
Definition newPeersOnChannel (fetchPeersHandler : bool) (refreshInterval ttlInterval : Z) (logger : bool)
    : result peersOnChannel :=
  guard_err (negb fetchPeersHandler) ErrNilFetchPeersOnTopicHandler $
  guard_err (refreshInterval =? 0) ErrInvalidDurationProvided $
  guard_err (ttlInterval =? 0) ErrInvalidDurationProvided $
  guard_err (negb logger) ErrNilLogger $
  Ok {| poc_peers := ∅; lastUpdated := ∅; refreshInterval := refreshInterval;
        ttlInterval := ttlInterval |}.

Section peers_on_channel.
(** [getTimeHandler()] when the list is stored *)
Definition updateConnectedPeersOnTopic (now : Z) (poc : peersOnChannel) (topic : string)
    (connectedPeers : list PeerID) : peersOnChannel := {|
  poc_peers := <[topic := connectedPeers]> (poc_peers poc);
  lastUpdated := <[topic := now]> (lastUpdated poc);
  refreshInterval := refreshInterval poc;
  ttlInterval := ttlInterval poc |}.

(** [fetchPeersHandler], at the time of the call *)
Context (fetchPeersHandler : string -> list PeerID).

Definition refreshPeersOnTopic (now : Z) (poc : peersOnChannel) (topic : string)
    : list PeerID * peersOnChannel :=
  let connectedPeers := fetchPeersHandler topic in
  (connectedPeers, updateConnectedPeersOnTopic now poc topic connectedPeers).

(** A stored list is never nil, so a nil list is a topic without an entry. *)
Definition ConnectedPeersOnChannel (now : Z) (poc : peersOnChannel) (topic : string)
    : list PeerID * peersOnChannel :=
  match poc_peers poc !! topic with
  | Some peers => (peers, poc)
  | None => refreshPeersOnTopic now poc topic
  end.

(** One iteration of the loop of [refreshPeersOnAllKnownTopics] after its timer
    fired: the clock reads [now] while the topics are compared and [stamp t]
    when topic [t] is stored. *)
Definition topicsToBeRefreshed (order : gmap string Z -> list (string * Z)) (now : Z) (poc : peersOnChannel)
    : list string :=
  (filter (fun e : string * Z => now - e.2 > ttlInterval poc) (order (lastUpdated poc))).*1.

Definition refreshPeersOnAllKnownTopics (order : gmap string Z -> list (string * Z)) (now : Z)
    (stamp : string -> Z) (poc : peersOnChannel) : peersOnChannel :=
  fold_left (fun poc topic => (refreshPeersOnTopic (stamp topic) poc topic).2)
    (topicsToBeRefreshed order now poc) poc.

(** The two maps have the same topics. *)
Definition poc_wf (poc : peersOnChannel) : Prop :=
  forall t, is_Some (poc_peers poc !! t) <-> is_Some (lastUpdated poc !! t).

Lemma refresh_wf now poc topic : poc_wf poc -> poc_wf (refreshPeersOnTopic now poc topic).2.
Proof.
  intros Hwf t. simpl. rewrite !lookup_insert_is_Some. by rewrite (Hwf t).
Qed.

Lemma refresh_fold stamp l poc :
  poc_wf poc ->
  let poc' := fold_left (fun poc topic => (refreshPeersOnTopic (stamp topic) poc topic).2) l poc in
  poc_wf poc' /\ ttlInterval poc' = ttlInterval poc
  /\ forall t,
       (t ∈ l -> poc_peers poc' !! t = Some (fetchPeersHandler t) /\ lastUpdated poc' !! t = Some (stamp t))
       /\ (t ∉ l -> poc_peers poc' !! t = poc_peers poc !! t /\ lastUpdated poc' !! t = lastUpdated poc !! t).
Proof.
  revert poc. induction l as [|x l IH]; intros poc Hwf; cbn [fold_left].
  { split_and!; [done|done|]. intros t. split; [set_solver|done]. }
  destruct (IH _ (refresh_wf (stamp x) poc x Hwf)) as (Hw & Ht & Hall). cbv zeta.
  split_and!; [done|done|]. intros t. destruct (Hall t) as [Hin Hout].
  destruct (decide (t ∈ l)) as [Hl|Hl].
  { split; [intros _; by apply Hin|intros H; exfalso; apply H; set_solver]. }
  destruct (Hout Hl) as [-> ->]. simpl. split.
  - intros [->|?]%elem_of_cons; [|done]. by rewrite !lookup_insert_eq.
  - intros Hne. by rewrite !lookup_insert_ne by set_solver.
Qed.

Lemma topicsToBeRefreshed_elem order now poc t :
  (forall m, order m ≡ₚ map_to_list m) ->
  t ∈ topicsToBeRefreshed order now poc <->
  exists last, lastUpdated poc !! t = Some last /\ ttlInterval poc < now - last.
Proof.
  intros Ho. unfold topicsToBeRefreshed. rewrite list_elem_of_fmap. split.
  - intros ([t' last] & -> & [Hlt Hm]%list_elem_of_filter).
    rewrite Ho, elem_of_map_to_list in Hm. exists last. simpl in *. split; [done|lia].
  - intros (last & Hm & Hlt). exists (t, last). split; [done|].
    apply list_elem_of_filter. rewrite Ho, elem_of_map_to_list. simpl. split; [lia|done].
Qed.

(** Bounded staleness: after an iteration of the refresh loop every topic
    that was ever asked for has either a list fetched in this iteration or one
    no older than the time to live, and the other topics are left alone; a
    question about a known topic is answered from the stored list, about an
    unknown one by a fetch that is then stored. *)
Theorem refreshPeersOnAllKnownTopics_fresh order now stamp poc :
  (forall m, order m ≡ₚ map_to_list m) -> poc_wf poc ->
  let poc' := refreshPeersOnAllKnownTopics order now stamp poc in
  poc_wf poc'
  /\ (forall t last, lastUpdated poc !! t = Some last ->
       (ttlInterval poc < now - last /\ poc_peers poc' !! t = Some (fetchPeersHandler t)
          /\ lastUpdated poc' !! t = Some (stamp t))
       \/ (now - last <= ttlInterval poc /\ poc_peers poc' !! t = poc_peers poc !! t
          /\ lastUpdated poc' !! t = Some last))
  /\ (forall t, lastUpdated poc !! t = None ->
        poc_peers poc' !! t = None /\ lastUpdated poc' !! t = None)
  /\ (forall t at_, (ConnectedPeersOnChannel at_ poc' t).1
        = default (fetchPeersHandler t) (poc_peers poc' !! t)
        /\ poc_peers (ConnectedPeersOnChannel at_ poc' t).2 !! t
           = Some (ConnectedPeersOnChannel at_ poc' t).1).
Proof.
  intros Ho Hwf. cbv zeta. unfold refreshPeersOnAllKnownTopics.
  destruct (refresh_fold stamp (topicsToBeRefreshed order now poc) poc Hwf) as (Hw & Ht & Hall).
  cbv zeta in *. set (poc' := fold_left _ _ _) in *. clearbody poc'.
  pose proof (fun t => topicsToBeRefreshed_elem order now poc t Ho) as Hin.
  split_and!; [done| | |].
  - intros t last Hl. destruct (Z_lt_ge_dec (ttlInterval poc) (now - last)) as [Hlt|Hge].
    + left. split; [done|]. apply Hall, Hin. eauto.
    + right. split; [lia|]. rewrite <- Hl. apply Hall. intros (last' & Hl' & ?)%Hin.
      assert (last' = last) by congruence. lia.
  - intros t Hl. destruct (Hall t) as [_ Hout]. destruct Hout as [-> ->].
    + intros (last & Hl' & _)%Hin. congruence.
    + split; [|done]. apply eq_None_not_Some. rewrite (Hwf t), Hl. by intros [??].
  - intros t at_. unfold ConnectedPeersOnChannel.
    destruct (poc_peers poc' !! t) eqn:E; simpl; [done|]. by rewrite lookup_insert_eq.
Qed.
End peers_on_channel.

(** ** Examples *)

Definition demo_oplb : outgoingChannelLoadBalancer Z :=
  match NewOutgoingChannelLoadBalancer true with
  | Ok oplb => oplb
  | Err _ => {| chans := []; names := []; namesChans := ∅; made := 0; closed := ∅;
                forwarders := ∅; ctxDone := false |}
  end.

(** A channel is added, an object passes through it, the channel is removed. *)
Definition demo_events : list (oplb_event Z) :=
  [EvAddChannel "transactions"; EvSend 1 (Some 7); EvCollect 1 (Some 7)].

Lemma demo_run : exists oplb, oplb_run demo_oplb demo_events oplb
  /\ namesChans oplb !! "transactions" = Some 1%nat /\ forwarders oplb !! 1%nat = Some Waiting
  /\ is_Some (RemoveChannel oplb "transactions").
Proof.
  eexists. split.
  - unfold demo_events.
    eapply (run_snoc _ [EvAddChannel "transactions"; EvSend 1 (Some 7)]);
      [eapply (run_snoc _ [EvAddChannel "transactions"]); [eapply (run_snoc _ [] (EvAddChannel _)); [constructor|apply step_add]|]|].
    + apply step_send; [by vm_compute|]. vm_compute. intros Hc. set_solver.
    + apply step_collect. by vm_compute.
  - split_and!; [by vm_compute..|]. vm_compute. eauto.
Defined.

Lemma GetChannelOrDefault_spec_witness :
  exists oplb, oplb_run demo_oplb demo_events oplb /\ is_Some (RemoveChannel oplb "blocks").
Proof.
  destruct demo_run as (oplb & Hr & _). exists oplb. split; [exact Hr|].
  destruct (GetChannelOrDefault_spec demo_oplb demo_events oplb "blocks" eq_refl Hr) as [_ H].
  exact H.
Defined.

Lemma channels_fifo_witness :
  exists oplb, oplb_run demo_oplb demo_events oplb /\ collected 1 demo_events ++ held oplb 1 = [7].
Proof.
  destruct demo_run as (oplb & Hr & _). exists oplb. split; [exact Hr|].
  rewrite (channels_fifo demo_oplb demo_events oplb 1 eq_refl Hr). reflexivity.
Defined.

Lemma removed_channel_spins_witness :
  exists (oplb' : outgoingChannelLoadBalancer Z) l' oplb'', oplb_run oplb' l' oplb''
    /\ length (filter (fun ev => is_nil_collect 1 ev = true) l') = 3%nat.
Proof.
  destruct demo_run as (oplb & Hr & Hn & Hw & [[err oplb'] Hrm]). exists oplb'.
  destruct (removed_channel_spins demo_oplb demo_events oplb "transactions" 1 err oplb' 3 eq_refl Hr
    ltac:(done) Hn Hw Hrm) as (l' & oplb'' & H1 & H2 & _).
  eauto.
Defined.

Definition demo_poc : peersOnChannel := {|
  poc_peers := {[ "old" := ["a"]; "new" := ["b"] ]};
  lastUpdated := {[ "old" := 10; "new" := 90 ]};
  refreshInterval := 5; ttlInterval := 20 |}.

Lemma refreshPeersOnAllKnownTopics_fresh_witness :
  let poc' := refreshPeersOnAllKnownTopics (fun _ => ["c"]) map_to_list 100 (fun _ => 101) demo_poc in
  poc_peers poc' !! "old" = Some ["c"] /\ lastUpdated poc' !! "new" = Some 90.
Proof.
  assert (Hwf : poc_wf demo_poc).
  { intros t. unfold demo_poc. simpl. rewrite !lookup_insert_is_Some, !lookup_singleton_is_Some. done. }
  destruct (refreshPeersOnAllKnownTopics_fresh (fun _ => ["c"]) map_to_list 100 (fun _ => 101) demo_poc
    (fun m => Permutation_refl _) Hwf) as (_ & H & _).
  cbv zeta. split.
  - destruct (H "old" 10 ltac:(by vm_compute)) as [(_ & Hp & _)|(Hle & _)];
      [exact Hp|vm_compute in Hle; by destruct Hle].
  - destruct (H "new" 90 ltac:(by vm_compute)) as [(Hlt & _)|(_ & _ & Hp)];
      [by vm_compute in Hlt|exact Hp].
Defined.
