(* ===== verification/TopicPeers.v ===== *)
(** * The age of the cached peers of a topic

    The cache of p2p/libp2p/peersOnChannel.go over time: the callers of
    [ConnectedPeersOnChannel], each in its own goroutine, the loop of
    [refreshPeersOnAllKnownTopics] and the closing, in every interleaving; a fetch
    reads the network first and stores what it read later. *)

From S2P Require Import Prelude Errors Config Topics.
From stdpp Require Import list gmap.
Open Scope Z_scope.

(** ** The state *)

(** What a goroutine has read and not stored yet *)
Record reading := {
  r_topic : string;
  r_peers : list PeerID;
  r_at : Z;
}.

(** The loop waits for its timer, goes over the topics it found too old when it woke, or
    has returned. *)
Inductive refresher :=
| Sleeping (until : Z)
| Refreshing (since : Z) (todo : list string) (fetched : option reading)
| Ended.

(** An answer, and when it was given *)
Record answer := {
  a_topic : string;
  a_peers : list PeerID;
  a_at : Z;
}.

Record poc_state := {
  ps_now : Z;
  ps_poc : peersOnChannel;
  ps_loop : refresher;
  ps_asking : list reading;
  ps_cancelled : bool;
  ps_answers : list answer;
}.

Definition ps_start (now : Z) (poc : peersOnChannel) : poc_state := {|
  ps_now := now; ps_poc := poc; ps_loop := Sleeping (now + refreshInterval poc); ps_asking := [];
  ps_cancelled := false; ps_answers := [] |}.

Definition ps_set (st : poc_state) (poc : peersOnChannel) (loop : refresher) : poc_state := {|
  ps_now := ps_now st; ps_poc := poc; ps_loop := loop; ps_asking := ps_asking st;
  ps_cancelled := ps_cancelled st; ps_answers := ps_answers st |}.

Definition ps_answer (st : poc_state) (topic : string) (peers : list PeerID) : list answer :=
  ps_answers st ++ [{| a_topic := topic; a_peers := peers; a_at := ps_now st |}].

(** [Close] *)
Definition poc_Close (st : poc_state) : option error * poc_state :=
  (None, {| ps_now := ps_now st; ps_poc := ps_poc st; ps_loop := ps_loop st; ps_asking := ps_asking st;
            ps_cancelled := true; ps_answers := ps_answers st |}).

(** ** What can happen *)

Section steps.
(** What [fetchPeersHandler] finds on a topic at a time *)
Context (peers_at : Z -> string -> list PeerID).
(** The order in which Go ranges over the map of the times *)
Context (order : gmap string Z -> list (string * Z)).

Inductive poc_event :=
| PTime (d : Z)
| PAsk (topic : string)
| PAnswer (i : nat)
| PWake
| PFetch
| PStore
| PRest
| PClose
| PEnd.

Definition fetches (st : poc_state) (topic : string) : reading := {|
  r_topic := topic; r_peers := peers_at (ps_now st) topic; r_at := ps_now st |}.

Definition stores (st : poc_state) (r : reading) : peersOnChannel :=
  updateConnectedPeersOnTopic (ps_now st) (ps_poc st) (r_topic r) (r_peers r).

Definition poc_next (st : poc_state) (ev : poc_event) : option poc_state :=
  match ev with
  | PTime d =>
      if 0 <=? d
      then Some {| ps_now := ps_now st + d; ps_poc := ps_poc st; ps_loop := ps_loop st;
                   ps_asking := ps_asking st; ps_cancelled := ps_cancelled st; ps_answers := ps_answers st |}
      else None
  | PAsk topic =>
      Some match poc_peers (ps_poc st) !! topic with
           | Some peers => {|
               ps_now := ps_now st; ps_poc := ps_poc st; ps_loop := ps_loop st; ps_asking := ps_asking st;
               ps_cancelled := ps_cancelled st; ps_answers := ps_answer st topic peers |}
           | None => {|
               ps_now := ps_now st; ps_poc := ps_poc st; ps_loop := ps_loop st;
               ps_asking := ps_asking st ++ [fetches st topic];
               ps_cancelled := ps_cancelled st; ps_answers := ps_answers st |}
           end
  | PAnswer i =>
      r ← ps_asking st !! i;
      Some {| ps_now := ps_now st; ps_poc := stores st r; ps_loop := ps_loop st;
              ps_asking := delete i (ps_asking st); ps_cancelled := ps_cancelled st;
              ps_answers := ps_answer st (r_topic r) (r_peers r) |}
  | PWake =>
      match ps_loop st with
      | Sleeping until =>
          if until <=? ps_now st
          then Some (ps_set st (ps_poc st)
                 (Refreshing (ps_now st) (topicsToBeRefreshed order (ps_now st) (ps_poc st)) None))
          else None
      | _ => None
      end
  | PFetch =>
      match ps_loop st with
      | Refreshing since (topic :: todo) None =>
          Some (ps_set st (ps_poc st) (Refreshing since todo (Some (fetches st topic))))
      | _ => None
      end
  | PStore =>
      match ps_loop st with
      | Refreshing since todo (Some r) => Some (ps_set st (stores st r) (Refreshing since todo None))
      | _ => None
      end
  | PRest =>
      match ps_loop st with
      | Refreshing _ [] None => Some (ps_set st (ps_poc st) (Sleeping (ps_now st + refreshInterval (ps_poc st))))
      | _ => None
      end
  | PClose => Some (poc_Close st).2
  | PEnd =>
      match ps_loop st with
      | Sleeping _ => if ps_cancelled st then Some (ps_set st (ps_poc st) Ended) else None
      | _ => None
      end
  end.

(** The scheduling of the goroutines: from reading to storing takes at most [phi], the
    loop wakes at most [delta] after its timer and goes over the topics within
    [delta]. *)
Definition timely (delta phi : Z) (st : poc_state) : Prop :=
  Forall (fun r => ps_now st <= r_at r + phi) (ps_asking st)
  /\ match ps_loop st with
     | Sleeping until => ps_now st <= until + delta
     | Refreshing since _ fetched =>
         ps_now st <= since + delta /\ (forall r, fetched = Some r -> ps_now st <= r_at r + phi)
     | Ended => True
     end.

Inductive poc_reachable (delta phi : Z) (st0 : poc_state) : poc_state -> Prop :=
| PocStart : poc_reachable delta phi st0 st0
| PocStep st ev st' :
    poc_reachable delta phi st0 st -> poc_next st ev = Some st' -> timely delta phi st' ->
    poc_reachable delta phi st0 st'.

(** Alone, a question and its answer are [ConnectedPeersOnChannel]. *)
Lemma ask_alone st topic st1 :
  ps_asking st = [] -> poc_next st (PAsk topic) = Some st1 ->
  let st2 := default st1 (poc_next st1 (PAnswer 0)) in
  let '(peers, poc) := ConnectedPeersOnChannel (peers_at (ps_now st)) (ps_now st) (ps_poc st) topic in
  ps_poc st2 = poc /\ ps_answers st2 = ps_answer st topic peers.
Proof.
  intros Hn [= <-]. unfold ConnectedPeersOnChannel. destruct (poc_peers (ps_poc st) !! topic) as [peers|]; simpl.
  - by rewrite Hn.
  - by rewrite Hn.
Qed.

(** Alone, a turn of the loop is [refreshPeersOnAllKnownTopics]. *)
Fixpoint turn_alone (n : nat) : list poc_event :=
  match n with O => [PRest] | S n => PFetch :: PStore :: turn_alone n end.

Definition poc_run (st : poc_state) (l : list poc_event) : option poc_state :=
  foldl (fun ost ev => st ← ost; poc_next st ev) (Some st) l.

Lemma loop_alone st until :
  ps_loop st = Sleeping until -> until <= ps_now st ->
  exists st', poc_run st (PWake :: turn_alone (length (topicsToBeRefreshed order (ps_now st) (ps_poc st)))) = Some st'
  /\ ps_poc st' = refreshPeersOnAllKnownTopics (peers_at (ps_now st)) order (ps_now st) (fun _ => ps_now st) (ps_poc st)
  /\ ps_loop st' = Sleeping (ps_now st + refreshInterval (ps_poc st)).
Proof.
  intros Hl Hu. unfold poc_run. cbn [foldl mbind option_bind poc_next]. rewrite Hl, (proj2 (Z.leb_le _ _)) by done.
  unfold refreshPeersOnAllKnownTopics. set (todo := topicsToBeRefreshed order (ps_now st) (ps_poc st)).
  assert (Hgen : forall todo poc, exists st',
    foldl (fun ost ev => st ← ost; poc_next st ev)
      (Some (ps_set st poc (Refreshing (ps_now st) todo None))) (turn_alone (length todo)) = Some st'
    /\ ps_poc st' = fold_left (fun poc topic => (refreshPeersOnTopic (peers_at (ps_now st)) (ps_now st) poc topic).2) todo poc
    /\ ps_loop st' = Sleeping (ps_now st + refreshInterval poc)); [|apply (Hgen todo (ps_poc st))].
  clear todo. induction todo as [|topic todo IH]; intros poc.
  - by eexists.
  - cbn [length turn_alone foldl mbind option_bind poc_next ps_loop ps_set fold_left].
    destruct (IH (updateConnectedPeersOnTopic (ps_now st) poc topic (peers_at (ps_now st) topic))) as (st' & H1 & H2 & H3).
    exists st'. split_and!; [|exact H2|exact H3]. exact H1.
Qed.

(** ** The age of what is stored *)

Section age.
Context (delta phi : Z) (Hdelta : 0 <= delta) (Hphi : 0 <= phi).
Context (Horder : forall m, order m ≡ₚ map_to_list m).

(** What was read is what was there. *)
Definition read_ok (now : Z) (r : reading) : Prop :=
  r_peers r = peers_at (r_at r) (r_topic r) /\ r_at r <= now.

(** How old an answer may be *)
Definition max_age (poc : peersOnChannel) : Z := ttlInterval poc + refreshInterval poc + 3 * delta + phi.

Definition answer_ok (age : Z) (a : answer) : Prop :=
  exists at_, a_peers a = peers_at at_ (a_topic a) /\ a_at a - age <= at_ <= a_at a.

(** No entry is older than the loop allows. *)
Definition ages_ok (st : poc_state) : Prop :=
  let poc := ps_poc st in
  match ps_loop st with
  | Sleeping until =>
      until - refreshInterval poc <= ps_now st
      /\ forall t u, lastUpdated poc !! t = Some u -> until - refreshInterval poc - delta - ttlInterval poc <= u
  | Refreshing since todo fetched =>
      since <= ps_now st
      /\ forall t u, lastUpdated poc !! t = Some u ->
           since - refreshInterval poc - 2 * delta - ttlInterval poc <= u
           /\ (since - ttlInterval poc <= u \/ t ∈ todo \/ exists r, fetched = Some r /\ r_topic r = t)
  | Ended => True
  end.

Record age_inv (poc0 : peersOnChannel) (st : poc_state) : Prop := {
  ag_config : refreshInterval (ps_poc st) = refreshInterval poc0 /\ ttlInterval (ps_poc st) = ttlInterval poc0;
  ag_timely : timely delta phi st;
  ag_asking : Forall (read_ok (ps_now st)) (ps_asking st);
  ag_fetched since todo r : ps_loop st = Refreshing since todo (Some r) -> read_ok (ps_now st) r;
  ag_known t : is_Some (poc_peers (ps_poc st) !! t) -> is_Some (lastUpdated (ps_poc st) !! t);
  ag_stored t u : lastUpdated (ps_poc st) !! t = Some u ->
    u <= ps_now st /\ exists at_, poc_peers (ps_poc st) !! t = Some (peers_at at_ t) /\ at_ <= u <= at_ + phi;
  ag_ages : ages_ok st;
  ag_answers : Forall (answer_ok (max_age poc0)) (ps_answers st);
}.

Lemma read_ok_later now now' r : now <= now' -> read_ok now r -> read_ok now' r.
Proof. intros Hn [H1 H2]. split; [done|lia]. Qed.

(** Storing what was read a short time ago *)
Lemma stores_stored st r t u :
  read_ok (ps_now st) r -> ps_now st <= r_at r + phi ->
  (forall t u, lastUpdated (ps_poc st) !! t = Some u ->
    u <= ps_now st /\ exists at_, poc_peers (ps_poc st) !! t = Some (peers_at at_ t) /\ at_ <= u <= at_ + phi) ->
  lastUpdated (stores st r) !! t = Some u ->
  u <= ps_now st /\ exists at_, poc_peers (stores st r) !! t = Some (peers_at at_ t) /\ at_ <= u <= at_ + phi.
Proof.
  intros [Hr Hle] Hphi' Hall. unfold stores, updateConnectedPeersOnTopic. simpl.
  intros [[<- <-]|[Hne Hu]]%lookup_insert_Some.
  - split; [lia|]. exists (r_at r). rewrite lookup_insert_eq, Hr. split; [done|lia].
  - rewrite lookup_insert_ne by done. by apply Hall.
Qed.

Lemma stores_known st r t :
  (forall t, is_Some (poc_peers (ps_poc st) !! t) -> is_Some (lastUpdated (ps_poc st) !! t)) ->
  is_Some (poc_peers (stores st r) !! t) -> is_Some (lastUpdated (stores st r) !! t).
Proof. intros Hall. unfold stores. simpl. rewrite !lookup_insert_is_Some. naive_solver. Qed.

Lemma stores_ages st r loop :
  0 <= ttlInterval (ps_poc st) -> 0 <= refreshInterval (ps_poc st) -> ages_ok st ->
  (loop = ps_loop st \/ exists since todo, ps_loop st = Refreshing since todo (Some r) /\ loop = Refreshing since todo None) ->
  ages_ok (ps_set st (stores st r) loop).
Proof.
  intros Ht Hr Ha Hl. unfold ages_ok in *. cbn [ps_set ps_loop ps_poc ps_now stores updateConnectedPeersOnTopic
    lastUpdated refreshInterval ttlInterval].
  destruct Hl as [-> |(since & todo & Hl & ->)].
  - destruct (ps_loop st) as [until|since todo fetched|]; [| |done]; destruct Ha as [H1 H2]; (split; [done|]).
    + intros t u [[<- <-]|[_ Hu]]%lookup_insert_Some; [lia|by eapply H2].
    + intros t u [[<- <-]|[_ Hu]]%lookup_insert_Some; [split; [lia|left; lia]|by apply H2].
  - rewrite Hl in Ha. destruct Ha as [H1 H2]. split; [done|].
    intros t u [[<- <-]|[Hne Hu]]%lookup_insert_Some; [split; [lia|left; lia]|].
    destruct (H2 t u Hu) as [H3 [H4|[H4|(r' & [= <-] & H4)]]]; [by auto..|done].
Qed.

(** The steps that store what was read *)
Lemma stores_inv poc0 st r loop asking answers :
  0 <= ttlInterval poc0 -> 0 <= refreshInterval poc0 -> age_inv poc0 st ->
  read_ok (ps_now st) r -> ps_now st <= r_at r + phi ->
  (loop = ps_loop st \/ exists since todo, ps_loop st = Refreshing since todo (Some r) /\ loop = Refreshing since todo None) ->
  asking `sublist_of` ps_asking st -> Forall (answer_ok (max_age poc0)) answers ->
  age_inv poc0 {| ps_now := ps_now st; ps_poc := stores st r; ps_loop := loop; ps_asking := asking;
                  ps_cancelled := ps_cancelled st; ps_answers := answers |}.
Proof.
  intros Ht Hr [Hc [Hta Htl] Has Hf Hk Hs Hag Han] Hok Hp Hl Hsub Hans.
  assert (Hall : forall P : reading -> Prop, Forall P (ps_asking st) -> Forall P asking).
  { intros P. rewrite !Forall_forall. intros HP x Hx. apply HP. by eapply elem_of_sublist. }
  split; simpl; try done.
  - split; [by apply Hall|]. simpl. destruct Hl as [-> |(since & todo & Hl & ->)]; [done|].
    rewrite Hl in Htl. destruct Htl as [H1 _]. by split.
  - by apply Hall.
  - intros since todo r' ->. destruct Hl as [Hl|(? & ? & _ & Hl)]; [|done]. by eapply Hf.
  - intros t. by apply stores_known.
  - intros t u. by apply stores_stored.
  - destruct Hc as [Hcr Hct]. refine (stores_ages st r loop _ _ Hag Hl); [by rewrite Hct|by rewrite Hcr].
Qed.

(** An entry may be answered. *)
Lemma known_answer poc0 st topic peers :
  age_inv poc0 st -> ps_loop st <> Ended -> poc_peers (ps_poc st) !! topic = Some peers ->
  answer_ok (max_age poc0) {| a_topic := topic; a_peers := peers; a_at := ps_now st |}.
Proof.
  intros [[Hcr Hct] [_ Htl] _ _ Hk Hs Hag _] Hne Hp. destruct (Hk topic) as [u Hu]; [by eexists|].
  destruct (Hs topic u Hu) as (Hun & at_ & Hat & Hle). rewrite Hp in Hat. injection Hat as ->.
  exists at_. split; [done|]. simpl. unfold max_age. unfold ages_ok in Hag.
  destruct (ps_loop st) as [until|since todo fetched|]; [..|done]; destruct Hag as [H1 H2].
  - specialize (H2 topic u Hu). lia.
  - destruct (H2 topic u Hu) as [H3 _]. lia.
Qed.

Lemma wake_inv poc0 st until :
  age_inv poc0 st -> ps_loop st = Sleeping until -> until <= ps_now st ->
  age_inv poc0 (ps_set st (ps_poc st) (Refreshing (ps_now st) (topicsToBeRefreshed order (ps_now st) (ps_poc st)) None)).
Proof.
  intros [Hc [Hta Htl] Has Hf Hk Hs Hag Han] Hl Hu. rewrite Hl in Htl. unfold ages_ok in Hag. rewrite Hl in Hag.
  destruct Hag as [H1 H2]. split; simpl; try done; [split; simpl; [done|split; [lia|done]]|].
  split; simpl; [lia|]. intros t u Htu. split; [specialize (H2 t u Htu); lia|].
  destruct (decide (t ∈ topicsToBeRefreshed order (ps_now st) (ps_poc st))) as [Hin|Hin]; [by auto|]. left.
  destruct (Z_lt_ge_dec (ttlInterval (ps_poc st)) (ps_now st - u)) as [Hlt|Hge]; [|lia].
  destruct Hin. apply topicsToBeRefreshed_elem; [done|eauto].
Qed.

Lemma fetch_inv poc0 st since topic todo :
  age_inv poc0 st -> ps_loop st = Refreshing since (topic :: todo) None ->
  age_inv poc0 (ps_set st (ps_poc st) (Refreshing since todo (Some (fetches st topic)))).
Proof.
  intros [Hc [Hta Htl] Has Hf Hk Hs Hag Han] Hl. rewrite Hl in Htl. unfold ages_ok in Hag. rewrite Hl in Hag.
  destruct Hag as [H1 H2]. split; simpl; try done.
  - split; simpl; [done|]. split; [by destruct Htl|]. intros r [= <-]. simpl. lia.
  - intros ? ? r [= _ _ <-]. by split.
  - split; simpl; [done|]. intros t u Htu. destruct (H2 t u Htu) as [H3 [H4|[H4|(? & ? & _)]]]; [by auto| |done].
    split; [done|]. apply elem_of_cons in H4 as [->|H4]; [right; right; by eexists|by auto].
Qed.

Lemma rest_inv poc0 st since :
  0 <= refreshInterval poc0 -> age_inv poc0 st -> ps_loop st = Refreshing since [] None ->
  age_inv poc0 (ps_set st (ps_poc st) (Sleeping (ps_now st + refreshInterval (ps_poc st)))).
Proof.
  intros HR [Hc [Hta Htl] Has Hf Hk Hs Hag Han] Hl. rewrite Hl in Htl. unfold ages_ok in Hag. rewrite Hl in Hag.
  destruct Hag as [H1 H2]. destruct Hc as [Hcr Hct]. split; simpl; try done.
  - split; simpl; [done|lia].
  - split; simpl; [lia|]. intros t u Htu. destruct (H2 t u Htu) as [_ [H4|[H4|(? & ? & _)]]]; [|by apply elem_of_nil in H4|done].
    destruct Htl as [Htl _]. lia.
Qed.

Lemma time_inv poc0 st d st' :
  age_inv poc0 st -> poc_next st (PTime d) = Some st' -> timely delta phi st' -> age_inv poc0 st'.
Proof.
  intros [Hc _ Has Hf Hk Hs Hag Han]. cbn [poc_next]. destruct (0 <=? d) eqn:Hd; [|done]. bdestruct_all.
  intros [= <-] Ht. split; simpl; try done.
  - eapply Forall_impl; [exact Has|]. intros r. apply read_ok_later. lia.
  - intros since todo r Hl. eapply read_ok_later; [|by eapply Hf]. lia.
  - intros t u Hu. destruct (Hs t u Hu) as [H1 H2]. split; [lia|done].
  - unfold ages_ok in *. simpl. destruct (ps_loop st); [..|done]; destruct Hag as [H1 H2]; (split; [lia|done]).
Qed.

Lemma poc_next_inv poc0 st ev st' :
  0 <= ttlInterval poc0 -> 0 <= refreshInterval poc0 -> age_inv poc0 st -> ps_loop st' <> Ended ->
  poc_next st ev = Some st' -> timely delta phi st' -> age_inv poc0 st'.
Proof.
  intros Htt Hrr Hinv Hne Hst Ht. pose proof Hinv as [Hc [Hta Htl] Has Hf Hk Hs Hag Han].
  destruct ev as [d|topic|i| | | | | |]; [by eapply time_inv|..]; cbn [poc_next] in Hst.
  - apply (inj Some) in Hst as <-. destruct (poc_peers (ps_poc st) !! topic) as [peers|] eqn:Hp.
    + split; simpl; try done. unfold ps_answer. apply Forall_app. split; [done|]. apply Forall_singleton.
      by apply (known_answer poc0 st topic peers).
    + split; simpl; try done. apply Forall_app. split; [done|]. by apply Forall_singleton.
  - destruct (ps_asking st !! i) as [r|] eqn:Hi; [|done]. cbn [mbind option_bind] in Hst. apply (inj Some) in Hst as <-.
    pose proof (Forall_lookup_1 _ _ _ _ Has Hi) as Hok. pose proof (Forall_lookup_1 _ _ _ _ Hta Hi) as Hlate. simpl in Hlate.
    apply stores_inv; try done; [by left|apply sublist_delete|].
    unfold ps_answer. apply Forall_app. split; [done|]. apply Forall_singleton. destruct Hok as [Hr Hle].
    exists (r_at r). split; [done|]. unfold max_age. simpl. lia.
  - destruct (ps_loop st) as [until| |] eqn:Hl; [|done..]. destruct (until <=? ps_now st) eqn:Hu; [|done].
    bdestruct_all. apply (inj Some) in Hst as <-. by eapply wake_inv.
  - destruct (ps_loop st) as [|since [|topic todo] [r|]|] eqn:Hl; try done. apply (inj Some) in Hst as <-.
    by apply fetch_inv.
  - destruct (ps_loop st) as [|since todo [r|]|] eqn:Hl; try done. apply (inj Some) in Hst as <-.
    apply stores_inv; try done; [by eapply Hf|by apply Htl|right; by exists since, todo].
  - destruct (ps_loop st) as [|since [|topic todo] [r|]|] eqn:Hl; try done. apply (inj Some) in Hst as <-.
    by eapply rest_inv.
  - apply (inj Some) in Hst as <-. by split.
  - destruct (ps_loop st) as [until| |]; [|done..]. destruct (ps_cancelled st); [|done].
    apply (inj Some) in Hst as <-. done.
Qed.

(** The loop does not come back. *)
Lemma ended_stays st ev st' : poc_next st ev = Some st' -> ps_loop st = Ended -> ps_loop st' = Ended.
Proof.
  intros Hst Hl. destruct ev; cbn [poc_next] in Hst; rewrite ?Hl in Hst; try done.
  - destruct (0 <=? d); [|done]. by apply (inj Some) in Hst as <-.
  - apply (inj Some) in Hst as <-. by destruct (poc_peers _ !! _).
  - destruct (ps_asking st !! i); [|done]. by apply (inj Some) in Hst as <-.
  - by apply (inj Some) in Hst as <-.
Qed.

(** C20: the answers about the peers of a topic are never older than the time to live, the
    interval of the refreshing loop, the time between reading and storing and three
    times the latency of the loop together: in every interleaving of the callers with each
    other, with the loop and with slow fetches, as long as the loop has not ended, each answer of
    [ConnectedPeersOnChannel] is exactly what the network had on the topic at one
    time within this bound. *)
Theorem answers_are_fresh interval ttl poc0 start st a :
  newPeersOnChannel true interval ttl true = Ok poc0 -> 0 <= interval -> 0 <= ttl ->
  poc_reachable delta phi (ps_start start poc0) st -> ps_loop st <> Ended -> a ∈ ps_answers st ->
  exists at_, a_peers a = peers_at at_ (a_topic a)
    /\ a_at a - (ttl + interval + 3 * delta + phi) <= at_ <= a_at a.
Proof.
  intros Hn HR HT Hr Hne Ha. unfold newPeersOnChannel in Hn. rewrite !guard_err_Ok in Hn.
  destruct Hn as (_ & _ & _ & _ & Hn). apply (inj Ok) in Hn as <-. set (poc0 := {| poc_peers := ∅ |}) in *.
  assert (Hinv : age_inv poc0 st).
  { clear a Ha. induction Hr as [|st ev st' Hr IH Hst Ht].
    - split; simpl; try done; try (intros t [? ?]; done); [split; simpl; [done|lia]|split; simpl; [lia|]]; done.
    - apply (poc_next_inv poc0 st ev st'); try done. apply IH. intros Hl. by apply Hne, (ended_stays st ev). }
  pose proof (ag_answers _ _ Hinv) as Hans. rewrite Forall_forall in Hans. exact (Hans a Ha).
Qed.
End age.
End steps.

(** ** Examples *)

Definition demo_peers_at (now : Z) (topic : string) : list PeerID := if now <? 1 then ["a"] else ["a"; "b"].

Definition demo_poc0 : peersOnChannel := {|
  poc_peers := ∅; lastUpdated := ∅; refreshInterval := 3; ttlInterval := 10 |}.

(** A topic is asked for twice; the second answer comes from the cache. *)
Definition demo_poc_state (n : nat) : poc_state :=
  default (ps_start 0 demo_poc0)
    (poc_run demo_peers_at map_to_list (ps_start 0 demo_poc0)
      (take n [PAsk "blocks"; PAnswer 0; PTime 2; PAsk "blocks"])).

Lemma demo_poc_reaches : poc_reachable demo_peers_at map_to_list 1 1 (ps_start 0 demo_poc0) (demo_poc_state 4).
Proof.
  assert (Hstep : forall n ev, poc_next demo_peers_at map_to_list (demo_poc_state n) ev = Some (demo_poc_state (S n)) ->
    timely 1 1 (demo_poc_state (S n)) ->
    poc_reachable demo_peers_at map_to_list 1 1 (ps_start 0 demo_poc0) (demo_poc_state n) ->
    poc_reachable demo_peers_at map_to_list 1 1 (ps_start 0 demo_poc0) (demo_poc_state (S n))).
  { intros n ev Hn Ht Hr. by eapply PocStep. }
  apply (Hstep 3%nat (PAsk "blocks")), (Hstep 2%nat (PTime 2)), (Hstep 1%nat (PAnswer 0)), (Hstep 0%nat (PAsk "blocks"));
    try reflexivity; try apply PocStart; split; vm_compute; repeat constructor; done.
Qed.

Lemma answers_are_fresh_witness :
  map (fun a => (a_peers a, a_at a)) (ps_answers (demo_poc_state 4)) = [(["a"], 0); (["a"], 2)]
  /\ exists at_, ["a"] = demo_peers_at at_ "blocks" /\ 2 - (10 + 3 + 3 * 1 + 1) <= at_ <= 2.
Proof.
  split; [vm_compute; reflexivity|].
  apply (answers_are_fresh demo_peers_at map_to_list 1 1 ltac:(lia) ltac:(lia) (fun m => Permutation_refl _)
    3 10 demo_poc0 0 (demo_poc_state 4) {| a_topic := "blocks"; a_peers := ["a"]; a_at := 2 |});
    [reflexivity|lia|lia|exact demo_poc_reaches|vm_compute; discriminate|].
  apply list_elem_of_In. vm_compute. right. left. reflexivity.
Defined.
