(* ===== verification/MessagesHandler.v ===== *)
(** * The messages handler

    p2p/libp2p/messagesHandler.go: broadcasting through the outgoing channels,
    the processors registered per topic and the validators given to pubsub,
    direct messages, topics. What a call does outside the handler is returned
    as a list of effects, in order. *)

From S2P Require Import Prelude Errors Config Messages DirectSender Topics.
From stdpp Require Import list gmap.
Open Scope Z_scope.

(** libp2p/interface.go *)
Record SendableData (K : Type) := {
  Buff : bytes;
  sd_Topic : string;
  Sk : option K;
  sd_ID : PeerID;
}.
Arguments Buff {K}.
Arguments sd_Topic {K}.
Arguments Sk {K}.
Arguments sd_ID {K}.

Definition durationBetweenSends : Z := time_Microsecond * 10.

(** libp2p/netMessenger.go *)
Definition pubsubTimeCacheDuration : Z := 10 * time_Minute.
Definition acceptMessagesInAdvanceDuration : Z := 20 * time_Second.

(** ** What the handler is given *)

(** libp2p/interface.go, PubSub. A validator is the handler's callback for the
    topic and for the topic processors at a location. *)
Class PubSub (PS : Type) := {
  ps_Join : PS -> string -> result nat * PS;
  ps_RegisterTopicValidator : PS -> string -> nat -> option error * PS;
  ps_UnregisterTopicValidator : PS -> string -> option error * PS;
}.

(** go-libp2p-pubsub keeps at most one validator per topic: registering a second
    one is an error, and so is unregistering where there is none. The laws are those of a
    pubsub that runs: once its context is done, registering fails as well. *)
Class PubSubLaws (PS : Type) `{PubSub PS} (validators : PS -> gmap string nat) : Prop := {
  ps_register ps t l : validators ps !! t = None ->
    (ps_RegisterTopicValidator ps t l).1 = None
    /\ validators (ps_RegisterTopicValidator ps t l).2 = <[t := l]> (validators ps);
  ps_register_twice ps t l l' : validators ps !! t = Some l' ->
    is_Some (ps_RegisterTopicValidator ps t l).1
    /\ validators (ps_RegisterTopicValidator ps t l).2 = validators ps;
  ps_unregister ps t l : validators ps !! t = Some l ->
    (ps_UnregisterTopicValidator ps t).1 = None
    /\ validators (ps_UnregisterTopicValidator ps t).2 = delete t (validators ps);
  ps_unregister_none ps t : validators ps !! t = None ->
    is_Some (ps_UnregisterTopicValidator ps t).1
    /\ validators (ps_UnregisterTopicValidator ps t).2 = validators ps;
  ps_join ps t : validators (ps_Join ps t).2 = validators ps;
}.

(** libp2p/interface.go, ChannelLoadBalancer; [None] is a run time panic. *)
Class ChannelLoadBalancer (B : Type) := {
  clb_AddChannel : B -> string -> option error * B;
  clb_GetChannelOrDefault : B -> string -> option nat;
  clb_Close : B -> option error * B;
}.

#[export] Instance outgoing_ChannelLoadBalancer D : ChannelLoadBalancer (outgoingChannelLoadBalancer D) := {
  clb_AddChannel := oplb_AddChannel;
  clb_GetChannelOrDefault := oplb_GetChannelOrDefault;
  clb_Close := fun oplb => (None, oplb_Close oplb);
}.

Inductive mh_effect (K P : Type) :=
| DoProcess (processor : P) (identifier : string) (msg : Message) (from : PeerID)
| DoAddMessage (debugger : nat) (incoming : bool) (topic : string) (size : Z) (isRejected : bool)
| DoIncreaseRating (pid : PeerID)
| DoStartProcessing
| DoEndProcessing
| DoChanSend (ch : nat) (data : SendableData K)
| DoPublish (topic : nat) (data : bytes) (key : option (K * PeerID))
| DoSend (topic : string) (buff : bytes) (pid : PeerID)
| DoCancelSubscription (subscription : nat)
| DoCloseTopic (topic : nat)
| DoCloseDebugger (debugger : nat).
Arguments DoProcess {K P}.
Arguments DoAddMessage {K P}.
Arguments DoIncreaseRating {K P}.
Arguments DoStartProcessing {K P}.
Arguments DoEndProcessing {K P}.
Arguments DoChanSend {K P}.
Arguments DoPublish {K P}.
Arguments DoSend {K P}.
Arguments DoCancelSubscription {K P}.
Arguments DoCloseTopic {K P}.
Arguments DoCloseDebugger {K P}.

(** ** The handler *)

(** The topic processors are objects that the map and the validators share:
    [heap] holds them, and the map and pubsub refer to their locations.
    A key of [processors] may hold nil. *)
Record messagesHandler (P PS B E : Type) := {
  processors : gmap string (option nat);
  heap : gmap nat (topicProcessors P);
  nextLoc : nat;
  topics : gmap string nat;
  subscriptions : gmap string nat;
  pubSub : PS;
  outgoingCLB : B;
  denial : E;
  debugger : nat;
  mh_peerID : PeerID;
}.
Arguments Build_messagesHandler {P PS B E}.
Arguments processors {P PS B E}.
Arguments heap {P PS B E}.
Arguments nextLoc {P PS B E}.
Arguments topics {P PS B E}.
Arguments subscriptions {P PS B E}.
Arguments pubSub {P PS B E}.
Arguments outgoingCLB {P PS B E}.
Arguments denial {P PS B E}.
Arguments debugger {P PS B E}.
Arguments mh_peerID {P PS B E}.

(** The constructor's arguments; the ones the handler only calls are tested for
    nil, and [RegisterDirect] is what the direct sender answers. *)
Record ArgMessagesHandler (PS B E : Type) := {
  amh_PubSub : option PS;
  amh_DirectSender : bool;
  amh_Throttler : bool;
  amh_OutgoingCLB : option B;
  amh_Marshaller : bool;
  amh_ConnMonitor : option E;
  amh_PeersRatingHandler : bool;
  amh_SyncTimer : bool;
  amh_PeerID : PeerID;
  amh_Logger : bool;
}.
Arguments amh_PubSub {PS B E}.
Arguments amh_DirectSender {PS B E}.
Arguments amh_Throttler {PS B E}.
Arguments amh_OutgoingCLB {PS B E}.
Arguments amh_Marshaller {PS B E}.
Arguments amh_ConnMonitor {PS B E}.
Arguments amh_PeersRatingHandler {PS B E}.
Arguments amh_SyncTimer {PS B E}.
Arguments amh_PeerID {PS B E}.
Arguments amh_Logger {PS B E}.

(** [handler.checkSendableData] *)
Definition checkSendableData (buff : bytes) : option error :=
  guard_opt (len buff >? maxSendBuffSize) ErrMessageTooLarge $
  guard_opt (len buff =? 0) ErrEmptyBufferToSend $
  None.

(** [t.Unix()] of a time in nanoseconds *)
Definition unix (t : Z) : Z := t / time_Second.

(** [validateMessageByTimestamp]; [now] is the sync timer's current time. *)
Definition validateMessageByTimestamp (now : Z) (msg : Message) : option error :=
  guard_opt (unix (now + acceptMessagesInAdvanceDuration) <? m_Timestamp msg) ErrMessageTooNew $
  let past := int_sub (unix now) (pubsubTimeCacheDuration / time_Second) in
  guard_opt (m_Timestamp msg <? past) ErrMessageTooOld $
  None.

Section messages_handler.
Context {K P PS B E : Type} `{PubSub PS} `{ChannelLoadBalancer B} `{PeerDenialEvaluator E}.
Implicit Types h : messagesHandler P PS B E.
Abbreviation effects := (list (mh_effect K P)).

Definition set_processors h p : messagesHandler P PS B E := {| processors := p; heap := heap h;
  nextLoc := nextLoc h; topics := topics h; subscriptions := subscriptions h; pubSub := pubSub h;
  outgoingCLB := outgoingCLB h; denial := denial h; debugger := debugger h; mh_peerID := mh_peerID h |}.
Definition set_heap h m n : messagesHandler P PS B E := {| processors := processors h; heap := m;
  nextLoc := n; topics := topics h; subscriptions := subscriptions h; pubSub := pubSub h;
  outgoingCLB := outgoingCLB h; denial := denial h; debugger := debugger h; mh_peerID := mh_peerID h |}.
Definition set_topics h t s : messagesHandler P PS B E := {| processors := processors h; heap := heap h;
  nextLoc := nextLoc h; topics := t; subscriptions := s; pubSub := pubSub h;
  outgoingCLB := outgoingCLB h; denial := denial h; debugger := debugger h; mh_peerID := mh_peerID h |}.
Definition set_pubSub h ps : messagesHandler P PS B E := {| processors := processors h; heap := heap h;
  nextLoc := nextLoc h; topics := topics h; subscriptions := subscriptions h; pubSub := ps;
  outgoingCLB := outgoingCLB h; denial := denial h; debugger := debugger h; mh_peerID := mh_peerID h |}.
Definition set_clb h b : messagesHandler P PS B E := {| processors := processors h; heap := heap h;
  nextLoc := nextLoc h; topics := topics h; subscriptions := subscriptions h; pubSub := pubSub h;
  outgoingCLB := b; denial := denial h; debugger := debugger h; mh_peerID := mh_peerID h |}.
Definition set_denial h d : messagesHandler P PS B E := {| processors := processors h; heap := heap h;
  nextLoc := nextLoc h; topics := topics h; subscriptions := subscriptions h; pubSub := pubSub h;
  outgoingCLB := outgoingCLB h; denial := d; debugger := debugger h; mh_peerID := mh_peerID h |}.
Definition set_debugger h d : messagesHandler P PS B E := {| processors := processors h; heap := heap h;
  nextLoc := nextLoc h; topics := topics h; subscriptions := subscriptions h; pubSub := pubSub h;
  outgoingCLB := outgoingCLB h; denial := denial h; debugger := d; mh_peerID := mh_peerID h |}.

(** The disabled debugger is number 0. *)
Definition NewMessagesHandler (args : ArgMessagesHandler PS B E) (RegisterDirect : option error)
    : result (messagesHandler P PS B E) :=
  match amh_PubSub args with
  | None => Err ErrNilPubSub
  | Some ps =>
      guard_err (negb (amh_DirectSender args)) ErrNilDirectSender $
      guard_err (negb (amh_Throttler args)) ErrNilThrottler $
      match amh_OutgoingCLB args with
      | None => Err ErrNilChannelLoadBalancer
      | Some clb =>
          guard_err (negb (amh_Marshaller args)) ErrNilMarshaller $
          match amh_ConnMonitor args with
          | None => Err ErrNilConnectionMonitor
          | Some d =>
              guard_err (negb (amh_PeersRatingHandler args)) ErrNilPeersRatingHandler $
              guard_err (negb (amh_SyncTimer args)) ErrNilSyncTimer $
              guard_err (negb (amh_Logger args)) ErrNilLogger $
              then_ok RegisterDirect $
              Ok {| processors := ∅; heap := ∅; nextLoc := 0; topics := ∅; subscriptions := ∅;
                    pubSub := ps; outgoingCLB := clb; denial := d; debugger := 0;
                    mh_peerID := amh_PeerID args |}
          end
      end
  end.

(** *** Registration *)

(** [handler.processors[topic]]: nil for a missing key too *)
Definition procs_of h (topic : string) : option nat := mjoin (processors h !! topic).

(** Calls a method of the topic processors at location [l]. *)
Definition at_loc h (l : nat) : topicProcessors P := default newTopicProcessors (heap h !! l).

Definition addProcessor h (l : nat) (identifier : string) (msgProcessor : P)
    : option error * messagesHandler P PS B E :=
  let '(err, tp) := AddTopicProcessor (at_loc h l) identifier msgProcessor in
  (err, set_heap h (<[l := tp]> (heap h)) (nextLoc h)).

Definition RegisterMessageProcessor h (topic identifier : string) (msgProcessor : option P)
    : option error * messagesHandler P PS B E :=
  match msgProcessor with
  | None => (Some (ErrNilValidator : error), h)
  | Some msgProcessor =>
      match procs_of h topic with
      | Some l => addProcessor h l identifier msgProcessor
      | None =>
          let l := nextLoc h in
          let h := set_heap h (<[l := newTopicProcessors]> (heap h)) (S l) in
          let h := set_processors h (<[topic := Some l]> (processors h)) in
          let '(err, ps) := ps_RegisterTopicValidator (pubSub h) topic l in
          let h := set_pubSub h ps in
          match err with
          | Some err => (Some err, h)
          | None => addProcessor h l identifier msgProcessor
          end
      end
  end.

Definition UnregisterMessageProcessor h (topic identifier : string)
    : option error * messagesHandler P PS B E :=
  match procs_of h topic with
  | None => (None, h)
  | Some l =>
      let '(err, tp) := RemoveTopicProcessor (at_loc h l) identifier in
      let h := set_heap h (<[l := tp]> (heap h)) (nextLoc h) in
      match err with
      | Some err => (Some err, h)
      | None =>
          if decide (tp_processors tp = ∅) then
            let h := set_processors h (<[topic := None]> (processors h)) in
            let '(err, ps) := ps_UnregisterTopicValidator (pubSub h) topic in
            (err, set_pubSub h ps)
          else (None, h)
      end
  end.

(** The loop of [UnregisterAllMessageProcessors] over the keys of the map, in
    the order Go visits them *)
Fixpoint UnregisterAll_loop h (keys : list string) : option error * messagesHandler P PS B E :=
  match keys with
  | [] => (None, h)
  | topic :: keys =>
      let '(err, ps) := ps_UnregisterTopicValidator (pubSub h) topic in
      let h := set_pubSub h ps in
      match err with
      | Some err => (Some err, h)
      | None => UnregisterAll_loop (set_processors h (delete topic (processors h))) keys
      end
  end.

Definition UnregisterAllMessageProcessors (order : gmap string (option nat) -> list string) h
    : option error * messagesHandler P PS B E :=
  UnregisterAll_loop h (order (processors h)).

(** *** Receiving *)

Context (IDFromBytes : bytes -> result PeerID) (mh_marshaller : Marshaller).
(** [ProcessReceivedMessage] of a processor *)
Context (Process : P -> Message -> PeerID -> option error).
Context (order : gmap string P -> list (string * P)).
(** [core.TopicRequestSuffix] *)
Context (TopicRequestSuffix : string).

Definition blacklistPid h (pid : PeerID) (banDuration : Z) : messagesHandler P PS B E :=
  if IsDenied (denial h) pid then h
  else if decide (pid = "") then h
  else set_denial h (UpsertPeerID (denial h) pid banDuration).2.

Definition processDebugMessage h (topic : string) (fromConnectedPeer : PeerID) (size : Z)
    (isRejected : bool) : effects :=
  if decide (fromConnectedPeer = mh_peerID h)
  then [DoAddMessage (debugger h) false topic size isRejected]
  else [DoAddMessage (debugger h) true topic size isRejected].

Definition checkMessage (now : Z) h (msg : Message) (pid : PeerID) (topic : string)
    : option error * effects :=
  match validateMessageByTimestamp now msg with
  | Some err => (Some err, processDebugMessage h topic pid (len (sl (m_Data msg))) true)
  | None => (None, [])
  end.

Definition transformAndCheckMessage (now : Z) h (pbMsg : option pbMessage) (pid : PeerID)
    (topic : string) : result Message * messagesHandler P PS B E * effects :=
  match NewMessage IDFromBytes pbMsg (Some (UnmarshalTopic mh_marshaller)) Broadcast with
  | Err errUnmarshal =>
      let h := blacklistPid h pid WrongP2PMessageBlacklistDuration in
      let h := match pbMsg with
               | Some pbMsg =>
                   if len (sl (pb_From pbMsg)) >? 0
                   then blacklistPid h (of_bytes (sl (pb_From pbMsg))) WrongP2PMessageBlacklistDuration
                   else h
               | None => h
               end in
      (Err errUnmarshal, h, [])
  | Ok msg =>
      match checkMessage now h msg pid topic with
      | (Some err, debug) => (Err err, h, debug)
      | (None, debug) => (Ok msg, h, debug)
      end
  end.

(** The loop over the processors: all are called, and the message is fine when
    none returns an error. *)
Fixpoint run_processors (procs : list (string * P)) (msg : Message) (fromConnectedPeer : PeerID)
    (messageOk : bool) : bool * effects :=
  match procs with
  | [] => (messageOk, [])
  | (identifier, msgProc) :: procs =>
      let messageOk := match Process msgProc msg fromConnectedPeer with
                       | Some _ => false
                       | None => messageOk
                       end in
      let '(ok, rest) := run_processors procs msg fromConnectedPeer messageOk in
      (ok, DoProcess msgProc identifier msg fromConnectedPeer :: rest)
  end.

(** The validator registered for [topic] with the processors at [l] *)
Definition pubsubCallback (now : Z) h (l : nat) (topic : string) (pid : PeerID)
    (message : option pbMessage) : bool * messagesHandler P PS B E * effects :=
  let '(msg, h, debug) := transformAndCheckMessage now h message pid topic in
  match msg with
  | Err _ => (false, h, debug)
  | Ok msg =>
      let '(messageOk, calls) := run_processors (order (tp_processors (at_loc h l))) msg pid true in
      let size := match message with Some m => len (sl (pb_Data m)) | None => 0 end in
      (messageOk, h, debug ++ calls ++ processDebugMessage h topic pid size (negb messageOk))
  end.

(** A direct message: what [ProcessReceivedMessage] answers, what it does before
    it returns, and what the goroutine it starts will run. *)
Definition direct_job : Type := list (string * P) * Message * PeerID.

Definition ProcessReceivedMessage (now : Z) h (message : option Message) (fromConnectedPeer : PeerID)
    (source : bool) : option error * effects * option direct_job :=
  match message with
  | None => (None, [], None)
  | Some message =>
      if negb source then (None, [], None)
      else
        let topic := m_Topic message in
        match checkMessage now h message fromConnectedPeer topic with
        | (Some err, debug) => (Some err, debug, None)
        | (None, debug) =>
            match procs_of h topic with
            | None => (Some (ErrNilValidator : error), debug, None)
            | Some l => (None, debug, Some (order (tp_processors (at_loc h l)), message, fromConnectedPeer))
            end
        end
  end.

Definition increaseRatingIfNeeded (msg : Message) (fromConnectedPeer : PeerID) : effects :=
  let isDirectMessage := bool_decide (m_BroadcastMethod msg = Direct) in
  let isRequestMessage := str_contains (m_Topic msg) TopicRequestSuffix in
  let shouldIncreaseRating := isDirectMessage && negb isRequestMessage in
  if shouldIncreaseRating then [DoIncreaseRating fromConnectedPeer] else [].

(** The goroutine, which reads the debugger when it runs *)
Definition run_direct_job h (job : direct_job) : effects :=
  let '(procs, msg, fromConnectedPeer) := job in
  let '(messageOk, calls) := run_processors procs msg fromConnectedPeer true in
  calls
  ++ [DoAddMessage (debugger h) true (m_Topic msg) (len (sl (m_Data msg))) (negb messageOk)]
  ++ (if messageOk then increaseRatingIfNeeded msg fromConnectedPeer else []).

(** *** Sending *)

(** The empty slice stands for a failed marshalling. *)
Definition createMessageBytes (now : Z) (buff : bytes) : bytes :=
  let message := {| Version := currentTopicMessageVersion; Payload := Some buff;
    Timestamp := unix now; Pk := None; SignatureOnPid := None |} in
  match MarshalTopic mh_marshaller message with
  | Err _ => []
  | Ok buffToSend => buffToSend
  end.

(** [Send] and [NextSequenceNumber] of the direct sender *)
Context (Send : string -> bytes -> PeerID -> option error) (NextSequenceNumber : bytes).

Definition sendDirectToSelf (now : Z) h (topic : string) (buff : bytes)
    : option error * effects * option direct_job :=
  let pubSubMsg := {| pb_From := Some (to_bytes (mh_peerID h)); pb_Data := Some buff;
    pb_Seqno := Some NextSequenceNumber; pb_Topic := Some topic;
    pb_Signature := Some (to_bytes (mh_peerID h)); pb_Key := None |} in
  match NewMessage IDFromBytes (Some pubSubMsg) (Some (UnmarshalTopic mh_marshaller)) Direct with
  | Err err => (Some err, [], None)
  | Ok msg => ProcessReceivedMessage now h (Some msg) (mh_peerID h) true
  end.

Definition SendToConnectedPeer (now : Z) h (topic : string) (buff : bytes) (peerID : PeerID)
    : option error * effects * option direct_job :=
  match checkSendableData buff with
  | Some err => (Some err, [], None)
  | None =>
      let buffToSend := createMessageBytes now buff in
      if len buffToSend =? 0 then (None, [], None)
      else if decide (peerID = mh_peerID h) then sendDirectToSelf now h topic buffToSend
      else
        let err := Send topic buffToSend peerID in
        (err, [DoSend topic buffToSend peerID;
               DoAddMessage (debugger h) false topic (len buffToSend) (bool_decide (err <> None))], None)
  end.

(** [libp2pCrypto.UnmarshalSecp256k1PrivateKey]; [CanProcess] is the throttler's
    answer. The outer [None] is a run time panic. *)
Context (UnmarshalSecp256k1PrivateKey : bytes -> result K) (CanProcess : bool).

Definition send_on_channel h (channel : string) (sendable : SendableData K)
    : option (option error * effects) :=
  match checkSendableData (Buff sendable) with
  | Some err => Some (Some err, [])
  | None =>
      if negb CanProcess then Some (Some (ErrTooManyGoroutines : error), [])
      else
        ch ← clb_GetChannelOrDefault (outgoingCLB h) channel;
        Some (None, [DoStartProcessing; DoChanSend ch sendable; DoEndProcessing])
  end.

Definition broadcastOnChannelBlocking h (channel topic : string) (buff : bytes)
    : option (option error * effects) :=
  send_on_channel h channel
    {| Buff := buff; sd_Topic := topic; Sk := None; sd_ID := mh_peerID h |}.

(** [Broadcast] uses the topic's name as the channel. *)
Definition mh_Broadcast h (topic : string) (buff : bytes) : option (option error * effects) :=
  broadcastOnChannelBlocking h topic topic buff.

Definition broadcastOnChannelBlockingUsingPrivateKey h (channel topic : string) (buff : bytes)
    (pid : PeerID) (skBytes : bytes) : option (option error * effects) :=
  match UnmarshalSecp256k1PrivateKey skBytes with
  | Err err => Some (Some err, [])
  | Ok sk =>
      send_on_channel h channel {| Buff := buff; sd_Topic := topic; Sk := Some sk; sd_ID := pid |}
  end.

Definition BroadcastUsingPrivateKey h (topic : string) (buff : bytes) (pid : PeerID) (skBytes : bytes)
    : option (option error * effects) :=
  broadcastOnChannelBlockingUsingPrivateKey h topic topic buff pid skBytes.

Definition publish (topic : nat) (data : SendableData K) (packedSendableDataBuff : bytes) : effects :=
  let options := match Sk data with Some sk => Some (sk, sd_ID data) | None => None end in
  [DoPublish topic packedSendableDataBuff options].

(** One iteration of [processChannelLoadBalancer] after its pause, on what was
    collected; what publishing returns is only logged. *)
Definition processChannelLoadBalancer (now : Z) h (sendableData : option (SendableData K)) : effects :=
  match sendableData with
  | None => []
  | Some sendableData =>
      match topics h !! sd_Topic sendableData with
      | None => []
      | Some topic =>
          let packedSendableDataBuff := createMessageBytes now (Buff sendableData) in
          if len packedSendableDataBuff =? 0 then []
          else publish topic sendableData packedSendableDataBuff
      end
  end.

(** *** Topics *)

(** [Subscribe] and [Close] of a topic, [Close] of a debugger *)
Context (Subscribe : nat -> result nat) (TopicClose : nat -> option error)
  (DebuggerClose : nat -> option error).

Definition CreateTopic h (name : string) (createChannelForTopic : bool)
    : option error * messagesHandler P PS B E :=
  match topics h !! name with
  | Some _ => (None, h)
  | None =>
      let '(topic, ps) := ps_Join (pubSub h) name in
      let h := set_pubSub h ps in
      match topic with
      | Err err => (Some err, h)
      | Ok topic =>
          let h := set_topics h (<[name := topic]> (topics h)) (subscriptions h) in
          match Subscribe topic with
          | Err err => (Some err, h)
          | Ok subscrRequest =>
              let h := set_topics h (topics h) (<[name := subscrRequest]> (subscriptions h)) in
              if createChannelForTopic then
                let '(err, b) := clb_AddChannel (outgoingCLB h) name in (err, set_clb h b)
              else (None, h)
          end
      end
  end.

Definition HasTopic h (name : string) : bool := bool_decide (is_Some (topics h !! name)).

Fixpoint UnJoin_loop h (entries : list (string * nat)) (errFound : option error)
    : option error * messagesHandler P PS B E * effects :=
  match entries with
  | [] => (errFound, h, [])
  | (topicName, t) :: entries =>
      let cancel := match subscriptions h !! topicName with
                    | Some subscription => [DoCancelSubscription subscription]
                    | None => []
                    end in
      let errFound := match TopicClose t with Some err => Some err | None => errFound end in
      let h := set_topics h (delete topicName (topics h)) (subscriptions h) in
      let '(errFound, h, rest) := UnJoin_loop h entries errFound in
      (errFound, h, cancel ++ [DoCloseTopic t] ++ rest)
  end.

Definition UnJoinAllTopics (order : gmap string nat -> list (string * nat)) h
    : option error * messagesHandler P PS B E * effects :=
  UnJoin_loop h (order (topics h)) None.

Definition mh_SetDebugger h (debugger : option nat) : option error * messagesHandler P PS B E :=
  match debugger with
  | None => (Some (ErrNilDebugger : error), h)
  | Some d => (None, set_debugger h d)
  end.

Definition mh_Close h : option error * messagesHandler P PS B E * effects :=
  let '(errOCLB, b) := clb_Close (outgoingCLB h) in
  let h := set_clb h b in
  let err := errOCLB in
  let errDebugger := DebuggerClose (debugger h) in
  let err := match errDebugger with Some _ => errDebugger | None => err end in
  (err, h, [DoCloseDebugger (debugger h)]).
End messages_handler.

(** ** Registration *)

Section registration.
Context {K P PS B E : Type} `{PubSub PS} `{ChannelLoadBalancer B} `{PeerDenialEvaluator E}.
Context (validators : PS -> gmap string nat) `{!PubSubLaws PS validators}.
Implicit Types h : messagesHandler P PS B E.

(** The map of the handler and the validators of pubsub name the same topic
    processors; these are objects of the heap, not shared between topics and
    never empty. *)
Record mh_inv h : Prop := {
  inv_sync t l : procs_of h t = Some l <-> validators (pubSub h) !! t = Some l;
  inv_loc t l : procs_of h t = Some l -> (l < nextLoc h)%nat;
  inv_unshared t1 t2 l : procs_of h t1 = Some l -> procs_of h t2 = Some l -> t1 = t2;
  inv_nonempty t l : procs_of h t = Some l -> tp_processors (at_loc h l) <> ∅;
}.

(** The abstract state: the processors of a topic by identifier *)
Definition registered h (topic : string) : gmap string P :=
  match procs_of h topic with
  | Some l => tp_processors (at_loc h l)
  | None => ∅
  end.

Lemma registered_empty h t : mh_inv h -> registered h t = ∅ <-> procs_of h t = None.
Proof.
  intros Hinv. unfold registered. destruct (procs_of h t) as [l|] eqn:Hl; [|done].
  split; [|done]. intros Hr. by destruct (inv_nonempty _ Hinv t l Hl).
Qed.

Lemma procs_of_insert h t v t' :
  procs_of (set_processors h (<[t := v]> (processors h))) t'
  = if decide (t = t') then v else procs_of h t'.
Proof.
  unfold procs_of. simpl. destruct (decide (t = t')) as [->|Hne].
  - by rewrite lookup_insert_eq.
  - by rewrite lookup_insert_ne.
Qed.

Lemma at_loc_insert h l tp n l' :
  at_loc (set_heap h (<[l := tp]> (heap h)) n) l' = if decide (l = l') then tp else at_loc h l'.
Proof.
  unfold at_loc. simpl. destruct (decide (l = l')) as [->|Hne].
  - by rewrite lookup_insert_eq.
  - by rewrite lookup_insert_ne.
Qed.

(** Replaces the processors of a topic by others, not empty. *)
Definition update_topic h (l : nat) (tp : topicProcessors P) : messagesHandler P PS B E :=
  set_heap h (<[l := tp]> (heap h)) (nextLoc h).

Lemma update_topic_spec h t l tp :
  mh_inv h -> procs_of h t = Some l -> tp_processors tp <> ∅ ->
  mh_inv (update_topic h l tp)
  /\ registered (update_topic h l tp) t = tp_processors tp
  /\ forall t', t <> t' -> registered (update_topic h l tp) t' = registered h t'.
Proof.
  intros Hinv Hl Hne. unfold registered.
  change (procs_of (update_topic h l tp)) with (procs_of h). split_and!.
  - split.
    + apply (inv_sync _ Hinv).
    + apply (inv_loc _ Hinv).
    + apply (inv_unshared _ Hinv).
    + intros t' l' Hl'. unfold update_topic. rewrite at_loc_insert.
      case_decide; [done|]. by apply (inv_nonempty _ Hinv t').
  - rewrite Hl. unfold update_topic. rewrite at_loc_insert. by rewrite decide_True.
  - intros t' Ht. destruct (procs_of h t') as [l'|] eqn:Hl'; [|done].
    unfold update_topic. rewrite at_loc_insert. rewrite decide_False; [done|].
    intros ->. by apply Ht, (inv_unshared _ Hinv t t' l').
Qed.

(** The state after a first registration on a topic *)
Definition new_topic h (t : string) (tp : topicProcessors P) : messagesHandler P PS B E :=
  let l := nextLoc h in
  let h1 := set_heap h (<[l := tp]> (heap h)) (S l) in
  let h2 := set_processors h1 (<[t := Some l]> (processors h)) in
  set_pubSub h2 (ps_RegisterTopicValidator (pubSub h) t l).2.

Lemma new_topic_spec h t tp :
  mh_inv h -> procs_of h t = None -> tp_processors tp <> ∅ ->
  mh_inv (new_topic h t tp)
  /\ registered (new_topic h t tp) t = tp_processors tp
  /\ forall t', t <> t' -> registered (new_topic h t tp) t' = registered h t'.
Proof.
  intros Hinv Hn Hne.
  assert (Hv : validators (pubSub h) !! t = None).
  { apply eq_None_not_Some. intros [l Hl%(inv_sync _ Hinv)]. congruence. }
  destruct (ps_register (pubSub h) t (nextLoc h) Hv) as [_ Hreg].
  assert (Hp : forall t', procs_of (new_topic h t tp) t'
    = if decide (t = t') then Some (nextLoc h) else procs_of h t')
    by (intros t'; apply (procs_of_insert (set_heap h (<[nextLoc h := tp]> (heap h)) (S (nextLoc h))))).
  assert (Ha : forall l, at_loc (new_topic h t tp) l
    = if decide (nextLoc h = l) then tp else at_loc h l)
    by (intros l; unfold new_topic; cbv zeta; apply (at_loc_insert h (nextLoc h) tp (S (nextLoc h)))).
  split_and!.
  - split.
    + intros t' l. rewrite Hp. change (pubSub (new_topic h t tp)) with
        (ps_RegisterTopicValidator (pubSub h) t (nextLoc h)).2. rewrite Hreg, lookup_insert.
      case_decide; [done|]. apply (inv_sync _ Hinv).
    + intros t' l. rewrite Hp. change (nextLoc (new_topic h t tp)) with (S (nextLoc h)).
      case_decide; [intros [= <-]; lia|]. intros Hl%(inv_loc _ Hinv). lia.
    + intros t1 t2 l. rewrite !Hp. repeat case_decide; subst; try done.
      * intros [= <-] Hl%(inv_loc _ Hinv). lia.
      * intros Hl%(inv_loc _ Hinv) [= <-]. lia.
      * apply (inv_unshared _ Hinv).
    + intros t' l. rewrite Hp, Ha. repeat case_decide; try done.
      * congruence.
      * apply (inv_nonempty _ Hinv).
  - unfold registered. rewrite Hp, decide_True by done. rewrite Ha. by rewrite decide_True.
  - intros t' Ht. unfold registered. rewrite Hp, decide_False by done.
    destruct (procs_of h t') as [l|] eqn:Hl; [|done]. rewrite Ha, decide_False; [done|].
    intros <-. apply (inv_loc _ Hinv) in Hl. lia.
Qed.

(** The state after the last processor of a topic is gone *)
Definition drop_topic h (t : string) (l : nat) (tp : topicProcessors P) : messagesHandler P PS B E :=
  let h1 := set_heap h (<[l := tp]> (heap h)) (nextLoc h) in
  let h2 := set_processors h1 (<[t := None]> (processors h)) in
  set_pubSub h2 (ps_UnregisterTopicValidator (pubSub h) t).2.

Lemma drop_topic_spec h t l tp :
  mh_inv h -> procs_of h t = Some l ->
  mh_inv (drop_topic h t l tp)
  /\ registered (drop_topic h t l tp) t = ∅
  /\ forall t', t <> t' -> registered (drop_topic h t l tp) t' = registered h t'.
Proof.
  intros Hinv Hl. pose proof (proj1 (inv_sync _ Hinv t l) Hl) as Hv.
  destruct (ps_unregister (pubSub h) t l Hv) as [_ Hun].
  assert (Hp : forall t', procs_of (drop_topic h t l tp) t'
    = if decide (t = t') then None else procs_of h t')
    by (intros t'; apply (procs_of_insert (set_heap h (<[l := tp]> (heap h)) (nextLoc h)))).
  assert (Ha : forall l', at_loc (drop_topic h t l tp) l' = if decide (l = l') then tp else at_loc h l')
    by (intros l'; unfold drop_topic; cbv zeta; apply (at_loc_insert h l tp (nextLoc h))).
  assert (Hother : forall t' l', t <> t' -> procs_of h t' = Some l' -> l <> l')
    by (intros t' l' Ht Hl' ->; by apply Ht, (inv_unshared _ Hinv t t' l')).
  split_and!.
  - split.
    + intros t' l'. rewrite Hp. change (pubSub (drop_topic h t l tp)) with
        (ps_UnregisterTopicValidator (pubSub h) t).2. rewrite Hun, lookup_delete.
      case_decide; [done|]. apply (inv_sync _ Hinv).
    + intros t' l'. rewrite Hp. case_decide; [done|]. apply (inv_loc _ Hinv).
    + intros t1 t2 l'. rewrite !Hp. repeat case_decide; try done. apply (inv_unshared _ Hinv).
    + intros t' l'. rewrite Hp, Ha. case_decide; [done|]. intros Hl'.
      rewrite decide_False by eauto. by apply (inv_nonempty _ Hinv t').
  - unfold registered. by rewrite Hp, decide_True.
  - intros t' Ht. unfold registered. rewrite Hp, decide_False by done.
    destruct (procs_of h t') as [l'|] eqn:Hl'; [|done]. by rewrite Ha, decide_False by eauto.
Qed.

(** What the two operations do to the abstract state *)
Definition only_topic_changes h h' (t : string) (m : gmap string P) : Prop :=
  registered h' t = m /\ forall t', t <> t' -> registered h' t' = registered h t'.

Lemma Register_spec h t identifier p :
  mh_inv h ->
  let '(err, h') := RegisterMessageProcessor h t identifier (Some p) in
  mh_inv h'
  /\ match registered h t !! identifier with
     | Some _ => err = Some (ErrMessageProcessorAlreadyDefined : error)
                 /\ only_topic_changes h h' t (registered h t)
     | None => err = None /\ only_topic_changes h h' t (<[identifier := p]> (registered h t))
     end.
Proof.
  intros Hinv. unfold RegisterMessageProcessor, only_topic_changes.
  destruct (procs_of h t) as [l|] eqn:Hl.
  - assert (Hr : registered h t = tp_processors (at_loc h l)) by (unfold registered; by rewrite Hl).
    rewrite Hr. unfold addProcessor, AddTopicProcessor.
    destruct (tp_processors (at_loc h l) !! identifier) as [q|] eqn:Hi.
    + destruct (update_topic_spec h t l (at_loc h l) Hinv Hl) as (H2 & H3 & H4);
        [by apply (inv_nonempty _ Hinv t)|].
      split; [exact H2|]. split; [done|]. by split.
    + destruct (update_topic_spec h t l
        {| tp_processors := <[identifier := p]> (tp_processors (at_loc h l)) |} Hinv Hl)
        as (H2 & H3 & H4); [apply insert_non_empty|].
      split; [exact H2|]. split; [done|]. by split.
  - assert (Hr : registered h t = ∅) by (unfold registered; by rewrite Hl).
    rewrite Hr, lookup_empty. cbv zeta.
    assert (Hv : validators (pubSub h) !! t = None).
    { apply eq_None_not_Some. intros [l Hl'%(inv_sync _ Hinv)]. congruence. }
    destruct (ps_register (pubSub h) t (nextLoc h) Hv) as [Hok _].
    destruct (new_topic_spec h t {| tp_processors := <[identifier := p]> ∅ |} Hinv Hl) as (H2 & H3 & H4);
      [apply insert_non_empty|].
    unfold addProcessor, at_loc. simpl.
    destruct (ps_RegisterTopicValidator (pubSub h) t (nextLoc h)) as [err ps] eqn:Hreg.
    simpl in Hok. subst err. simpl. rewrite lookup_insert_eq.
    unfold AddTopicProcessor. simpl. rewrite lookup_empty.
    unfold set_heap. simpl. rewrite insert_insert_eq.
    unfold new_topic, set_heap, set_processors, set_pubSub in *. simpl in *. rewrite Hreg in *.
    split; [exact H2|]. split; [done|]. by split.
Qed.

Lemma Unregister_spec h t identifier :
  mh_inv h ->
  let '(err, h') := UnregisterMessageProcessor h t identifier in
  mh_inv h'
  /\ match registered h t !! identifier with
     | Some _ => err = None /\ only_topic_changes h h' t (delete identifier (registered h t))
     | None => err = (if decide (registered h t = ∅) then None
                      else Some (ErrMessageProcessorDoesNotExists : error))
               /\ only_topic_changes h h' t (registered h t)
     end.
Proof.
  intros Hinv. unfold UnregisterMessageProcessor, only_topic_changes.
  destruct (procs_of h t) as [l|] eqn:Hl.
  2: { assert (Hr : registered h t = ∅) by (unfold registered; by rewrite Hl).
       rewrite Hr, lookup_empty, decide_True by done. by split_and!. }
  assert (Hr : registered h t = tp_processors (at_loc h l)) by (unfold registered; by rewrite Hl).
  pose proof (inv_nonempty _ Hinv t l Hl) as Hne. rewrite Hr. unfold RemoveTopicProcessor.
  destruct (tp_processors (at_loc h l) !! identifier) as [q|] eqn:Hi.
  - simpl. case_decide as Hlast.
    + destruct (ps_unregister (pubSub h) t l) as [Hok _]; [by apply (inv_sync _ Hinv)|].
      destruct (drop_topic_spec h t l
        {| tp_processors := delete identifier (tp_processors (at_loc h l)) |} Hinv Hl) as (H2 & H3 & H4).
      unfold drop_topic, set_heap, set_processors, set_pubSub in *. simpl in *.
      destruct (ps_UnregisterTopicValidator (pubSub h) t) as [err ps]. simpl in *. subst err.
      split; [exact H2|]. split; [done|].
      split; [etrans; [exact H3|symmetry; exact Hlast]|exact H4].
    + destruct (update_topic_spec h t l
        {| tp_processors := delete identifier (tp_processors (at_loc h l)) |} Hinv Hl) as (H2 & H3 & H4);
        [done|].
      split; [exact H2|]. split; [done|]. by split.
  - rewrite decide_False by done.
    destruct (update_topic_spec h t l (at_loc h l) Hinv Hl) as (H2 & H3 & H4); [done|].
    split; [exact H2|]. split; [done|]. by split.
Qed.

(** A change that touches neither the processors nor the validators *)
Lemma mh_inv_frame h h' :
  mh_inv h -> processors h' = processors h -> heap h' = heap h -> nextLoc h' = nextLoc h ->
  validators (pubSub h') = validators (pubSub h) -> mh_inv h'.
Proof.
  intros Hinv Hp Hh Hn Hv.
  assert (Hpo : forall t, procs_of h' t = procs_of h t) by (intros t; unfold procs_of; by rewrite Hp).
  assert (Hat : forall l, at_loc h' l = at_loc h l) by (intros l; unfold at_loc; by rewrite Hh).
  split.
  - intros t l. rewrite Hpo, Hv. apply (inv_sync _ Hinv).
  - intros t l. rewrite Hpo, Hn. apply (inv_loc _ Hinv).
  - intros t1 t2 l. rewrite !Hpo. apply (inv_unshared _ Hinv).
  - intros t l. rewrite Hpo, Hat. apply (inv_nonempty _ Hinv).
Qed.

Definition drop_key h (t : string) : messagesHandler P PS B E :=
  set_processors (set_pubSub h (ps_UnregisterTopicValidator (pubSub h) t).2) (delete t (processors h)).

Lemma drop_key_spec h t l :
  mh_inv h -> procs_of h t = Some l ->
  (ps_UnregisterTopicValidator (pubSub h) t).1 = None /\ mh_inv (drop_key h t)
  /\ validators (pubSub (drop_key h t)) = delete t (validators (pubSub h)).
Proof.
  intros Hinv Hl. destruct (ps_unregister (pubSub h) t l) as [Hok Hun]; [by apply (inv_sync _ Hinv)|].
  assert (Hp : forall t', procs_of (drop_key h t) t' = if decide (t = t') then None else procs_of h t').
  { intros t'. unfold procs_of, drop_key. simpl. rewrite lookup_delete. by case_decide. }
  split_and!; [done| |exact Hun]. split.
  - intros t' l'. rewrite Hp. change (pubSub (drop_key h t)) with
      (ps_UnregisterTopicValidator (pubSub h) t).2. rewrite Hun, lookup_delete.
    case_decide; [done|]. apply (inv_sync _ Hinv).
  - intros t' l'. rewrite Hp. case_decide; [done|]. apply (inv_loc _ Hinv).
  - intros t1 t2 l'. rewrite !Hp. repeat case_decide; try done. apply (inv_unshared _ Hinv).
  - intros t' l'. rewrite Hp. case_decide; [done|]. apply (inv_nonempty _ Hinv).
Qed.

Lemma UnregisterAll_loop_step h t keys :
  UnregisterAll_loop h (t :: keys)
  = match (ps_UnregisterTopicValidator (pubSub h) t).1 with
    | Some err => (Some err, set_pubSub h (ps_UnregisterTopicValidator (pubSub h) t).2)
    | None => UnregisterAll_loop (drop_key h t) keys
    end.
Proof.
  cbn [UnregisterAll_loop]. unfold drop_key.
  by destruct (ps_UnregisterTopicValidator (pubSub h) t) as [[e|] ps].
Qed.

(** The loop removes the validators of the keys it reaches, and stops at the
    first key that holds nil. *)
Lemma UnregisterAll_loop_spec keys h :
  mh_inv h -> NoDup keys -> (forall t, t ∈ keys -> is_Some (processors h !! t)) ->
  let '(err, h') := UnregisterAll_loop h keys in
  mh_inv h'
  /\ ((forall t, t ∈ keys -> processors h !! t <> Some None) ->
        err = None /\ (forall t, processors h' !! t = if decide (t ∈ keys) then None else processors h !! t)
        /\ forall t, validators (pubSub h') !! t
             = if decide (t ∈ keys) then None else validators (pubSub h) !! t)
  /\ ((exists t, t ∈ keys /\ processors h !! t = Some None) -> is_Some err).
Proof.
  revert h. induction keys as [|t keys IH]; intros h Hinv Hnd Hdom.
  { cbn [UnregisterAll_loop]. split_and!; [done| |].
    - intros _. split_and!; [done| |]; intros t; case_decide; [set_solver|done|set_solver|done].
    - intros (t & Ht & _). set_solver. }
  apply NoDup_cons in Hnd as [Ht Hnd]. rewrite UnregisterAll_loop_step.
  destruct (Hdom t ltac:(set_solver)) as [[l|] Hl].
  - destruct (drop_key_spec h t l Hinv) as (Hok & Hinv' & Hv); [unfold procs_of; by rewrite Hl|].
    rewrite Hok. specialize (IH (drop_key h t) Hinv' Hnd).
    change (processors (drop_key h t)) with (delete t (processors h)) in IH. rewrite Hv in IH.
    destruct (UnregisterAll_loop (drop_key h t) keys) as [err h'].
    destruct IH as (H2 & H3 & H4).
    { intros t' Ht'. rewrite lookup_delete_ne by set_solver. apply Hdom. set_solver. }
    split_and!; [done| |].
    + intros Hall. destruct H3 as (-> & H5 & H6).
      { intros t' Ht'. rewrite lookup_delete_ne by set_solver. apply Hall. set_solver. }
      split_and!; [done| |]; intros t'.
      * rewrite H5, lookup_delete. repeat case_decide; set_solver.
      * rewrite H6, lookup_delete. repeat case_decide; set_solver.
    + intros (t' & Ht' & Hnil). apply H4. exists t'.
      assert (t <> t') by congruence. split; [set_solver|]. by rewrite lookup_delete_ne.
  - assert (Hv : validators (pubSub h) !! t = None).
    { apply eq_None_not_Some. intros [l Hl'%(inv_sync _ Hinv)].
      unfold procs_of in Hl'. by rewrite Hl in Hl'. }
    destruct (ps_unregister_none (pubSub h) t Hv) as [[e He] Hsame]. rewrite He.
    split_and!; [by apply (mh_inv_frame h)| |by eauto].
    intros Hall. destruct (Hall t); [set_solver|done].
Qed.

(** The states the handler can be in: any sequence of its operations from a
    new handler over a pubsub without validators *)
Inductive mh_reachable : messagesHandler P PS B E -> Prop :=
| reach_new args RegisterDirect h :
    NewMessagesHandler args RegisterDirect = Ok h -> validators (pubSub h) = ∅ -> mh_reachable h
| reach_register h topic identifier msgProcessor :
    mh_reachable h -> mh_reachable (RegisterMessageProcessor h topic identifier msgProcessor).2
| reach_unregister h topic identifier :
    mh_reachable h -> mh_reachable (UnregisterMessageProcessor h topic identifier).2
| reach_unregisterAll h (order : gmap string (option nat) -> list string) :
    (forall m, order m ≡ₚ (map_to_list m).*1) ->
    mh_reachable h -> mh_reachable (UnregisterAllMessageProcessors order h).2
| reach_callback h IDFromBytes m Process (order : gmap string P -> list (string * P)) now l topic pid msg :
    mh_reachable h ->
    mh_reachable (pubsubCallback (K := K) IDFromBytes m Process order now h l topic pid msg).1.2
| reach_create h Subscribe name createChannel :
    mh_reachable h -> mh_reachable (CreateTopic Subscribe h name createChannel).2
| reach_unjoin h TopicClose (order : gmap string nat -> list (string * nat)) :
    mh_reachable h -> mh_reachable (UnJoinAllTopics (K := K) TopicClose order h).1.2
| reach_debugger h d : mh_reachable h -> mh_reachable (mh_SetDebugger h d).2
| reach_close h DebuggerClose : mh_reachable h -> mh_reachable (mh_Close (K := K) DebuggerClose h).1.2.

Lemma New_mh_inv args RegisterDirect h :
  NewMessagesHandler args RegisterDirect = Ok h -> validators (pubSub h) = ∅ -> mh_inv h.
Proof.
  unfold NewMessagesHandler. destruct (amh_PubSub args) as [ps|]; [|done].
  rewrite !guard_err_Ok. intros (_ & _ & Hn). destruct (amh_OutgoingCLB args) as [clb|]; [|done].
  rewrite guard_err_Ok in Hn. destruct Hn as (_ & Hn). destruct (amh_ConnMonitor args) as [d|]; [|done].
  rewrite !guard_err_Ok, then_ok_Ok in Hn. destruct Hn as (_ & _ & _ & _ & Hn).
  apply (inj Ok) in Hn as <-. simpl. intros Hv.
  assert (Hp : forall t l, procs_of ({| processors := ∅; heap := ∅; nextLoc := 0; topics := ∅;
    subscriptions := ∅; pubSub := ps; outgoingCLB := clb; denial := d; debugger := 0;
    mh_peerID := amh_PeerID args |} : messagesHandler P PS B E) t = Some l -> False)
    by (intros t l; unfold procs_of; simpl; by rewrite lookup_empty).
  split; simpl; try (intros; exfalso; eauto; fail).
  intros t l. rewrite Hv, lookup_empty. split; [intros Hl; by apply Hp in Hl|done].
Qed.

Lemma blacklistPid_frame h pid d :
  exists e, blacklistPid h pid d = set_denial h e.
Proof.
  unfold blacklistPid. destruct (IsDenied _ _); [exists (denial h); by destruct h|].
  case_decide; [exists (denial h); by destruct h|eauto].
Qed.

Lemma transform_frame IDFromBytes m now h msg pid topic :
  exists e, (transformAndCheckMessage (K := K) IDFromBytes m now h msg pid topic).1.2 = set_denial h e.
Proof.
  unfold transformAndCheckMessage. destruct (NewMessage _ _ _ _).
  - destruct (checkMessage _ _ _ _ _) as [[e|] d]; exists (denial h); by destruct h.
  - cbv zeta. destruct (blacklistPid_frame h pid WrongP2PMessageBlacklistDuration) as [e1 ->].
    destruct msg as [msg|]; [|by exists e1].
    destruct (_ >? _); [|by exists e1].
    destruct (blacklistPid_frame (set_denial h e1) (of_bytes (sl (pb_From msg)))
      WrongP2PMessageBlacklistDuration) as [e2 ->]. by exists e2.
Qed.

Lemma UnJoin_frame TopicClose entries h err :
  exists t, (UnJoin_loop (K := K) TopicClose h entries err).1.2 = set_topics h t (subscriptions h).
Proof.
  revert h err. induction entries as [|[n t] entries IH]; intros h err; cbn [UnJoin_loop].
  - exists (topics h). by destruct h.
  - set (h1 := set_topics h (delete n (topics h)) (subscriptions h)).
    destruct (IH h1 (match TopicClose t with Some err => Some err | None => err end)) as [t' Ht].
    cbv zeta. fold h1. destruct (UnJoin_loop TopicClose h1 entries _) as [[e h'] rest].
    simpl in Ht. subst h'. by exists t'.
Qed.

Lemma reachable_inv h : mh_reachable h -> mh_inv h.
Proof.
  intros Hr. induction Hr as [args rd h Hn Hv|h t i p _ IH|h t i _ IH|h o Ho _ IH
    |h idf m pr o now l t pid msg _ IH|h sub n c _ IH|h tc o _ IH|h d _ IH|h dc _ IH].
  - by eapply New_mh_inv.
  - destruct p as [p|]; [|done]. pose proof (Register_spec h t i p IH) as Hs.
    destruct (RegisterMessageProcessor _ _ _ _) as [e h']. apply Hs.
  - pose proof (Unregister_spec h t i IH) as Hs.
    destruct (UnregisterMessageProcessor _ _ _) as [e h']. apply Hs.
  - unfold UnregisterAllMessageProcessors.
    pose proof (UnregisterAll_loop_spec (o (processors h)) h IH) as Hs.
    destruct (UnregisterAll_loop h (o (processors h))) as [e h']. apply Hs.
    + rewrite Ho. apply NoDup_fst_map_to_list.
    + intros x. rewrite Ho, list_elem_of_fmap. intros ([k v] & -> & Hk%elem_of_map_to_list). eauto.
  - unfold pubsubCallback. destruct (transform_frame idf m now h msg pid t) as [e He].
    destruct (transformAndCheckMessage _ _ _ _ _ _ _) as [[[msg'|er] h'] d]; simpl in He; subst h'.
    + destruct (run_processors _ _ _ _ _) as [ok calls]. by apply (mh_inv_frame h).
    + by apply (mh_inv_frame h).
  - unfold CreateTopic. destruct (topics h !! n); [done|].
    pose proof (ps_join (pubSub h) n) as Hj. destruct (ps_Join (pubSub h) n) as [[t|e] ps]; simpl in Hj.
    + destruct (sub t); [|by apply (mh_inv_frame h)]. destruct c; [|by apply (mh_inv_frame h)].
      destruct (clb_AddChannel _ _). by apply (mh_inv_frame h).
    + by apply (mh_inv_frame h).
  - unfold UnJoinAllTopics. destruct (UnJoin_frame tc (o (topics h)) h None) as [t ->].
    by apply (mh_inv_frame h).
  - destruct d; [by apply (mh_inv_frame h)|done].
  - unfold mh_Close. destruct (clb_Close _). by apply (mh_inv_frame h).
Qed.

(** C16: in every reachable state, registration refines a map from topics to
    processors by identifier: registering adds exactly the given processor, or
    fails when the identifier is taken; unregistering removes exactly it, or
    fails when it is missing on a topic that has processors; no other topic
    changes; and pubsub has a validator for a topic exactly when the topic has
    processors, and that validator runs exactly these. *)
Theorem registration_refines h topic identifier p :
  mh_reachable h ->
  (let '(err, h') := RegisterMessageProcessor h topic identifier (Some p) in
   match registered h topic !! identifier with
   | Some _ => err = Some (ErrMessageProcessorAlreadyDefined : error)
               /\ only_topic_changes h h' topic (registered h topic)
   | None => err = None /\ only_topic_changes h h' topic (<[identifier := p]> (registered h topic))
   end)
  /\ (let '(err, h') := UnregisterMessageProcessor h topic identifier in
      match registered h topic !! identifier with
      | Some _ => err = None /\ only_topic_changes h h' topic (delete identifier (registered h topic))
      | None => err = (if decide (registered h topic = ∅) then None
                       else Some (ErrMessageProcessorDoesNotExists : error))
                /\ only_topic_changes h h' topic (registered h topic)
      end)
  /\ match validators (pubSub h) !! topic with
     | Some l => tp_processors (at_loc h l) = registered h topic /\ registered h topic <> ∅
     | None => registered h topic = ∅
     end.
Proof.
  intros Hr%reachable_inv. split_and!.
  - pose proof (Register_spec h topic identifier p Hr) as Hs.
    destruct (RegisterMessageProcessor _ _ _ _). apply Hs.
  - pose proof (Unregister_spec h topic identifier Hr) as Hs.
    destruct (UnregisterMessageProcessor _ _ _). apply Hs.
  - destruct (validators (pubSub h) !! topic) as [l|] eqn:Hv.
    + apply (inv_sync _ Hr) in Hv. unfold registered. rewrite Hv.
      split; [done|]. by apply (inv_nonempty _ Hr topic).
    + apply registered_empty; [done|]. apply eq_None_not_Some.
      intros [l Hl%(inv_sync _ Hr)]. congruence.
Qed.

(** Unregistering everything works when no topic lost its last processor
    before; but after the last processor of some topic was unregistered, it
    always returns an error, in whatever order the topics are visited: the key
    of that topic stays in the map with a nil value, and pubsub has no
    validator to unregister for it. *)
Theorem UnregisterAll_after_last_unregistered h topic identifier p
    (order : gmap string (option nat) -> list string) :
  mh_reachable h -> (forall m, order m ≡ₚ (map_to_list m).*1) ->
  ((forall t, processors h !! t <> Some None) ->
     (UnregisterAllMessageProcessors order h).1 = None
     /\ forall t, registered (UnregisterAllMessageProcessors order h).2 t = ∅
        /\ validators (pubSub (UnregisterAllMessageProcessors order h).2) !! t = None)
  /\ (registered h topic = {[ identifier := p ]} ->
      let '(err, h1) := UnregisterMessageProcessor h topic identifier in
      err = None /\ is_Some (UnregisterAllMessageProcessors order h1).1).
Proof.
  intros Hinv%reachable_inv Ho.
  assert (Hkeys : forall g : messagesHandler P PS B E, NoDup (order (processors g))
    /\ forall t, t ∈ order (processors g) <-> is_Some (processors g !! t)).
  { intros g. split; [rewrite Ho; apply NoDup_fst_map_to_list|].
    intros t. rewrite Ho, list_elem_of_fmap. split.
    - intros ([k v] & -> & Hk%elem_of_map_to_list). eauto.
    - intros [v Hv]. exists (t, v). by rewrite elem_of_map_to_list. }
  split.
  - intros Hnil. unfold UnregisterAllMessageProcessors. destruct (Hkeys h) as [Hnd Hk].
    pose proof (UnregisterAll_loop_spec _ h Hinv Hnd (fun t => proj1 (Hk t))) as Hs.
    destruct (UnregisterAll_loop h _) as [err h']. destruct Hs as (_ & Hs & _).
    destruct Hs as (-> & Hp & Hv); [by intros t _|]. split; [done|]. intros t.
    assert (Hpt : processors h' !! t = None).
    { rewrite Hp. case_decide as Ht; [done|]. rewrite Hk in Ht. by apply eq_None_not_Some. }
    simpl. split.
    + unfold registered, procs_of. by rewrite Hpt.
    + rewrite Hv. case_decide as Ht; [done|]. rewrite Hk in Ht.
      apply eq_None_not_Some. intros [l Hl%(inv_sync _ Hinv)]. unfold procs_of in Hl.
      apply Ht. destruct (processors h !! t); [eauto|done].
  - intros Hreg. pose proof (Unregister_spec h topic identifier Hinv) as Hs.
    assert (Hnil : (processors (UnregisterMessageProcessor h topic identifier).2) !! topic = Some None).
    { unfold registered in Hreg. unfold UnregisterMessageProcessor.
      destruct (procs_of h topic) as [l|] eqn:Hl; [|by apply (f_equal (lookup identifier)) in Hreg;
        rewrite lookup_empty, lookup_singleton_eq in Hreg].
      unfold RemoveTopicProcessor. rewrite Hreg, lookup_singleton_eq. simpl.
      rewrite delete_singleton_eq, decide_True by done.
      destruct (ps_UnregisterTopicValidator (pubSub h) topic). simpl. apply lookup_insert_eq. }
    destruct (UnregisterMessageProcessor h topic identifier) as [err h1]. simpl in Hnil.
    destruct Hs as [Hinv1 Hs]. rewrite Hreg, lookup_singleton_eq in Hs. destruct Hs as [-> _].
    split; [done|]. unfold UnregisterAllMessageProcessors. destruct (Hkeys h1) as [Hnd Hk].
    pose proof (UnregisterAll_loop_spec _ h1 Hinv1 Hnd (fun t => proj1 (Hk t))) as Hall.
    destruct (UnregisterAll_loop h1 _) as [err h']. destruct Hall as (_ & _ & Hall). simpl.
    apply Hall. exists topic. split; [apply Hk; eauto|done].
Qed.
End registration.

(** ** Timestamps *)

Lemma unix_add t s : unix (t + s * time_Second) = unix t + s.
Proof. unfold unix, time_Second. by rewrite Z.div_add by lia. Qed.

(** A time whose seconds are far from the bounds of int64 *)
Definition sane_time (now : Z) : Prop := in_s 62 (unix now).

Lemma validate_spec now msg :
  sane_time now ->
  validateMessageByTimestamp now msg
  = if m_Timestamp msg <? unix now - 600 then Some (ErrMessageTooOld : error)
    else if unix now + 20 <? m_Timestamp msg then Some (ErrMessageTooNew : error) else None.
Proof.
  intros Hnow. unfold sane_time, in_s in Hnow.
  change (2 ^ (62 - 1)) with 2305843009213693952 in Hnow.
  unfold validateMessageByTimestamp, guard_opt.
  change acceptMessagesInAdvanceDuration with (20 * time_Second). rewrite unix_add.
  change (pubsubTimeCacheDuration / time_Second) with 600.
  rewrite int_sub_small by (unfold in_s; change (2 ^ (64 - 1)) with 9223372036854775808; lia).
  destruct (unix now + 20 <? m_Timestamp msg) eqn:E1, (m_Timestamp msg <? unix now - 600) eqn:E2;
    bdestruct_all; done || lia.
Qed.

(** C33: a message is accepted exactly from 20 seconds before its timestamp to
    600 seconds after it; so one message is accepted during 620 seconds, and
    one stamped 20 seconds ahead is still accepted when the 600 seconds of the
    cache by which pubsub recognises the messages it has seen are over. *)
Theorem acceptance_window now msg :
  sane_time now ->
  (validateMessageByTimestamp now msg = None
   <-> unix now - 600 <= m_Timestamp msg <= unix now + 20)
  /\ (forall later, sane_time later -> now <= later ->
        validateMessageByTimestamp now msg = None -> validateMessageByTimestamp later msg = None ->
        later - now < pubsubTimeCacheDuration + acceptMessagesInAdvanceDuration + time_Second)
  /\ (m_Timestamp msg = unix now + 20 ->
      sane_time (now + pubsubTimeCacheDuration + acceptMessagesInAdvanceDuration) ->
      validateMessageByTimestamp now msg = None
      /\ validateMessageByTimestamp (now + pubsubTimeCacheDuration + acceptMessagesInAdvanceDuration) msg
         = None).
Proof.
  intros Hnow.
  assert (Hiff : forall t, sane_time t -> validateMessageByTimestamp t msg = None
    <-> unix t - 600 <= m_Timestamp msg <= unix t + 20).
  { intros t Ht. rewrite (validate_spec t msg Ht). repeat case_goal; bdestruct_all; split; done || lia. }
  split_and!.
  - by apply Hiff.
  - intros later Hlater Hle H1%(Hiff _ Hnow) H2%(Hiff _ Hlater).
    assert (Hu : unix later - unix now <= 620) by lia. revert Hu. unfold unix.
    change pubsubTimeCacheDuration with (600 * time_Second).
    change acceptMessagesInAdvanceDuration with (20 * time_Second).
    unfold time_Second. intros Hu. Z.div_mod_to_equations. lia.
  - intros Hts Hs. rewrite (Hiff _ Hnow), (Hiff _ Hs).
    change pubsubTimeCacheDuration with (600 * time_Second).
    change acceptMessagesInAdvanceDuration with (20 * time_Second).
    rewrite !unix_add. lia.
Qed.

(** ** Delivery *)

Section delivery.
Context {K P PS B E : Type} `{PubSub PS} `{ChannelLoadBalancer B} `{!PeerDenialEvaluator E}.
Context (IDFromBytes : bytes -> result PeerID) (m : Marshaller).
Context (Process : P -> Message -> PeerID -> option error).
Context (order : gmap string P -> list (string * P)).
Implicit Types h : messagesHandler P PS B E.

Abbreviation all_accept procs msg from :=
  (forallb (fun e : string * P => bool_decide (Process e.2 msg from = None)) procs).
Abbreviation calls_of procs msg from :=
  ((fun e : string * P => @DoProcess K P e.2 e.1 msg from) <$> procs).

Lemma run_processors_spec procs msg from ok :
  run_processors (K := K) Process procs msg from ok
  = (ok && all_accept procs msg from, calls_of procs msg from).
Proof.
  revert ok. induction procs as [|[i p] procs IH]; intros ok; simpl; [by rewrite andb_true_r|].
  rewrite IH. destruct (Process p msg from) eqn:Hp.
  - rewrite bool_decide_eq_false_2 by done. by destruct ok.
  - rewrite bool_decide_eq_true_2 by done. by destruct ok.
Qed.

Lemma blacklistPid_denied `{!PeerDenialLaws E} h pid :
  pid <> "" -> IsDenied (denial (blacklistPid h pid WrongP2PMessageBlacklistDuration)) pid = true.
Proof.
  intros Hp. unfold blacklistPid. destruct (IsDenied (denial h) pid) eqn:Hd; [done|].
  rewrite decide_False by done. simpl. by apply upsert_denied.
Qed.

Lemma blacklistPid_keeps `{!PeerDenialLaws E} h pid q :
  IsDenied (denial h) q = true ->
  IsDenied (denial (blacklistPid h pid WrongP2PMessageBlacklistDuration)) q = true.
Proof.
  intros Hq. unfold blacklistPid. destruct (IsDenied (denial h) pid) eqn:Hd; [done|].
  case_decide; [done|]. simpl. by apply upsert_keeps.
Qed.

Lemma processDebugMessage_eq h topic pid size isRejected :
  processDebugMessage (K := K) h topic pid size isRejected
  = [DoAddMessage (debugger h) (negb (bool_decide (pid = mh_peerID h))) topic size isRejected].
Proof.
  unfold processDebugMessage. case_decide; [by rewrite bool_decide_eq_true_2|].
  by rewrite bool_decide_eq_false_2.
Qed.

Lemma pubsubCallback_accepted now h l topic pid pb msg :
  NewMessage IDFromBytes (Some pb) (Some (UnmarshalTopic m)) Broadcast = Ok msg ->
  validateMessageByTimestamp now msg = None ->
  pubsubCallback (K := K) IDFromBytes m Process order now h l topic pid (Some pb)
  = (all_accept (order (tp_processors (at_loc h l))) msg pid, h,
     calls_of (order (tp_processors (at_loc h l))) msg pid
     ++ [DoAddMessage (debugger h) (negb (bool_decide (pid = mh_peerID h))) topic
           (len (sl (pb_Data pb))) (negb (all_accept (order (tp_processors (at_loc h l))) msg pid))]).
Proof.
  intros Hnew Hv. unfold pubsubCallback, transformAndCheckMessage, checkMessage.
  rewrite Hnew, Hv. cbv zeta. by rewrite run_processors_spec, processDebugMessage_eq.
Qed.

(** C17: what the validator of a topic does: a message that cannot be understood
    is rejected and both the peer that sent it and the peer it names as its
    origin are denied from then on; one outside the time window is rejected;
    any other one is handed to each processor of the topic once, and accepted
    exactly when all of them accept it. The outcome is counted once. *)
Theorem pubsubCallback_spec `{!PeerDenialLaws E} now h l topic pid pb :
  let '(ok, h', effs) := pubsubCallback (K := K) IDFromBytes m Process order now h l topic pid (Some pb) in
  let procs := order (tp_processors (at_loc h l)) in
  match NewMessage IDFromBytes (Some pb) (Some (UnmarshalTopic m)) Broadcast with
  | Err _ =>
      ok = false /\ effs = []
      /\ (pid <> "" -> IsDenied (denial h') pid = true)
      /\ (sl (pb_From pb) <> [] -> IsDenied (denial h') (of_bytes (sl (pb_From pb))) = true)
  | Ok msg =>
      h' = h
      /\ match validateMessageByTimestamp now msg with
         | Some _ =>
             ok = false
             /\ effs = [DoAddMessage (debugger h) (negb (bool_decide (pid = mh_peerID h))) topic
                          (len (sl (m_Data msg))) true]
         | None =>
             ok = all_accept procs msg pid
             /\ effs = calls_of procs msg pid
                  ++ [DoAddMessage (debugger h) (negb (bool_decide (pid = mh_peerID h))) topic
                        (len (sl (pb_Data pb))) (negb ok)]
         end
  end.
Proof.
  destruct (NewMessage IDFromBytes (Some pb) (Some (UnmarshalTopic m)) Broadcast) as [msg|e] eqn:Hnew.
  - destruct (validateMessageByTimestamp now msg) as [e|] eqn:Hv.
    + unfold pubsubCallback, transformAndCheckMessage, checkMessage. rewrite Hnew, Hv. cbv zeta.
      by rewrite processDebugMessage_eq.
    + by rewrite (pubsubCallback_accepted now h l topic pid pb msg Hnew Hv).
  - unfold pubsubCallback, transformAndCheckMessage. rewrite Hnew.
    cbv zeta. set (h1 := blacklistPid h pid _). split_and!; [done|done| |].
    + intros Hp%(blacklistPid_denied h). fold h1 in Hp.
      destruct (_ >? _); [by apply blacklistPid_keeps|done].
    + intros Hne. destruct (_ >? _) eqn:Hlen.
      * apply blacklistPid_denied. intros Hs. apply Hne.
        by rewrite <- (to_of_bytes (sl (pb_From pb))), Hs.
      * bdestruct_all. pose proof (len_nonneg (sl (pb_From pb))).
        by destruct Hne; apply len_0; lia.
Qed.

Lemma checkSendableData_None buff : checkSendableData buff = None -> buff <> [] /\ len buff < 2 ^ 62.
Proof.
  unfold checkSendableData, guard_opt. destruct (_ >? _) eqn:E1; [done|]. destruct (_ =? _) eqn:E2; [done|].
  intros _. bdestruct_all. split; [by intros ->|].
  change maxSendBuffSize with 2031616 in E1. change (2 ^ 62) with 4611686018427387904. lia.
Qed.

(** Who gets a message of a given topic and data: the receiver's view of a
    published buffer *)
Context `{!TopicMarshallerLaws m}.

Lemma createMessageBytes_Ok now buff b :
  checkSendableData buff = None -> in_s 64 (unix now) -> createMessageBytes m now buff = b -> b <> [] ->
  UnmarshalTopic m (Some b) = Ok (sent_topic buff (unix now)).
Proof.
  intros [Hne Hlen]%checkSendableData_None Hnow. unfold createMessageBytes.
  change {| Version := currentTopicMessageVersion; Payload := Some buff; Timestamp := unix now; Pk := None;
    SignatureOnPid := None |} with (sent_topic buff (unix now)).
  destruct (MarshalTopic m _) as [b'|e] eqn:Hm; [|by intros <-].
  intros <- _. by apply topic_roundtrip.
Qed.

Lemma near_in_s now later : sane_time later -> unix later - 600 <= unix now <= unix later + 20 -> in_s 64 (unix now).
Proof.
  unfold sane_time, in_s. change (2 ^ (62 - 1)) with 2305843009213693952.
  change (2 ^ (64 - 1)) with 9223372036854775808. lia.
Qed.

(** What a node makes of published bytes that hold a message of the present *)
Lemma published_received now (hr : messagesHandler P PS B E) topic buff published later l pid pb origin :
  UnmarshalTopic m (Some published) = Ok (sent_topic buff (unix now)) ->
  pb_Data pb = Some published -> pb_Topic pb = Some topic ->
  IDFromBytes (sl (pb_From pb)) = Ok origin ->
  sane_time later -> unix later - 600 <= unix now <= unix later + 20 ->
  exists msg,
    DataField msg = Some buff /\ TopicField msg = topic /\ PeerField msg = origin
    /\ pubsubCallback (K := K) IDFromBytes m Process order later hr l topic pid (Some pb)
       = (all_accept (order (tp_processors (at_loc hr l))) msg pid, hr,
          calls_of (order (tp_processors (at_loc hr l))) msg pid
          ++ [DoAddMessage (debugger hr) (negb (bool_decide (pid = mh_peerID hr))) topic
                (len published) (negb (all_accept (order (tp_processors (at_loc hr l))) msg pid))]).
Proof.
  intros Hu Hd Ht Hid Hlater Hwin. rewrite <- Hd in Hu.
  pose proof (NewMessage_accepts IDFromBytes pb (UnmarshalTopic m) Broadcast topic _ origin
    Ht Hu eq_refl eq_refl eq_refl Hid) as Hnew.
  eexists. split_and!; cycle 3.
  - assert (Hl : len published = len (sl (pb_Data pb))) by by rewrite Hd.
    rewrite Hl. apply (pubsubCallback_accepted later hr l topic pid pb _ Hnew).
    rewrite (validate_spec later _ Hlater). unfold m_Timestamp. cbn [TimestampField Timestamp sent_topic].
    by rewrite !(proj2 (Z.ltb_ge _ _)) by lia.
  - done.
  - done.
  - done.
Qed.

(** A broadcast arrives: when a broadcast of [buff] is taken by a channel
    and the sender publishes what it collects from it, then a node that
    receives the published bytes on the topic, from any neighbour, with its
    clock at most 600 seconds ahead and 20 seconds behind the sender's, hands
    [buff] to every processor of the topic. *)
Theorem broadcast_delivered now (hs hr : messagesHandler P PS B E) channel topic buff ch sd effs
    CanProcess published key later l pid pb origin topicHandle :
  broadcastOnChannelBlocking (K := K) CanProcess hs channel topic buff = Some (None, effs) ->
  DoChanSend ch sd ∈ effs ->
  processChannelLoadBalancer (P := P) m now hs (Some sd) = [DoPublish topicHandle published key] ->
  pb_Data pb = Some published -> pb_Topic pb = Some topic ->
  IDFromBytes (sl (pb_From pb)) = Ok origin ->
  sane_time later -> unix later - 600 <= unix now <= unix later + 20 ->
  topics hs !! topic = Some topicHandle /\ key = None
  /\ exists msg,
       DataField msg = Some buff /\ TopicField msg = topic /\ PeerField msg = origin
       /\ pubsubCallback (K := K) IDFromBytes m Process order later hr l topic pid (Some pb)
          = (all_accept (order (tp_processors (at_loc hr l))) msg pid, hr,
             calls_of (order (tp_processors (at_loc hr l))) msg pid
             ++ [DoAddMessage (debugger hr) (negb (bool_decide (pid = mh_peerID hr))) topic
                   (len published) (negb (all_accept (order (tp_processors (at_loc hr l))) msg pid))]).
Proof.
  intros Hb Hin Hpub Hd Ht Hid Hlater Hwin.
  assert (Hsd : sd = {| Buff := buff; sd_Topic := topic; Sk := None; sd_ID := mh_peerID hs |}
                /\ checkSendableData buff = None).
  { unfold broadcastOnChannelBlocking, send_on_channel in Hb. cbn [Buff] in Hb.
    destruct (checkSendableData buff); [by injection Hb as ? <-|].
    destruct (negb CanProcess); [by injection Hb as ? <-|].
    destruct (clb_GetChannelOrDefault _ channel); [|done]. injection Hb as <-.
    split; [set_solver|done]. }
  destruct Hsd as [-> Hsendable]. unfold processChannelLoadBalancer in Hpub. cbn [sd_Topic Buff] in Hpub.
  destruct (topics hs !! topic) as [th|]; [|done].
  destruct (len (createMessageBytes m now buff) =? 0) eqn:Hlen; [done|].
  unfold publish in Hpub. cbn [Sk] in Hpub. injection Hpub as -> Hp <-.
  split_and!; [done|done|].
  assert (Hne : published <> []) by (intros ->; by rewrite Hp in Hlen).
  apply (published_received now); [|done..].
  exact (createMessageBytes_Ok _ _ _ Hsendable (near_in_s _ _ Hlater Hwin) Hp Hne).
Qed.

(** ** Direct messages *)

Context (TopicRequestSuffix : string).

(** The goroutine of a direct message hands it to every processor once and
    counts it once; it then raises the rating of the peer that sent it exactly
    when every processor accepted the message, it came directly, and its topic
    is not one for requests. *)
Theorem run_direct_job_spec h procs msg from :
  exists rate : bool,
    run_direct_job (K := K) Process TopicRequestSuffix h (procs, msg, from)
    = calls_of procs msg from
      ++ [DoAddMessage (debugger h) true (TopicField msg) (len (sl (DataField msg)))
            (negb (all_accept procs msg from))]
      ++ (if rate then [DoIncreaseRating from] else [])
    /\ (rate = true <->
        (forall e, e ∈ procs -> Process e.2 msg from = None) /\ BroadcastMethodField msg = Direct
        /\ ~ exists a b, TopicField msg = a +:+ TopicRequestSuffix +:+ b).
Proof.
  unfold run_direct_job. rewrite run_processors_spec. cbn [andb].
  assert (Hall : all_accept procs msg from = true <-> forall e, e ∈ procs -> Process e.2 msg from = None).
  { rewrite forallb_forall. setoid_rewrite bool_decide_eq_true. setoid_rewrite <- list_elem_of_In. done. }
  exists (all_accept procs msg from && (bool_decide (BroadcastMethodField msg = Direct)
          && negb (str_contains (TopicField msg) TopicRequestSuffix))). split.
  - f_equal. f_equal. unfold increaseRatingIfNeeded, m_BroadcastMethod, m_Topic.
    by destruct (all_accept procs msg from).
  - rewrite !andb_true_iff, Hall, bool_decide_eq_true, negb_true_iff, <- str_contains_spec.
    by rewrite not_true_iff_false.
Qed.

(** A message a node sends to itself is delivered: when the buffer has a
    legal size and marshals, and the topic has processors, [SendToConnectedPeer]
    succeeds, nothing leaves the node, and the goroutine it starts is given all
    the processors of the topic and a direct message from the node itself with
    the buffer as its data. *)
Theorem SendToConnectedPeer_self Send seqno now h topic buff b l :
  0 < len buff <= maxSendBuffSize ->
  MarshalTopic m {| Version := 1; Payload := Some buff; Timestamp := unix now; Pk := None;
    SignatureOnPid := None |} = Ok b ->
  IDFromBytes (to_bytes (mh_peerID h)) = Ok (mh_peerID h) ->
  sane_time now -> procs_of h topic = Some l ->
  exists msg,
    SendToConnectedPeer (K := K) IDFromBytes m order Send seqno now h topic buff (mh_peerID h)
    = (None, [], Some (order (tp_processors (at_loc h l)), msg, mh_peerID h))
    /\ TopicField msg = topic /\ DataField msg = Some buff /\ PeerField msg = mh_peerID h
    /\ SeqNoField msg = Some seqno /\ BroadcastMethodField msg = Direct.
Proof.
  intros Hlen Hm Hid Hnow Hl. unfold SendToConnectedPeer, checkSendableData, guard_opt.
  destruct (len buff >? maxSendBuffSize) eqn:E1; bdestruct_all; [lia|].
  destruct (len buff =? 0) eqn:E2; bdestruct_all; [lia|].
  replace (createMessageBytes m now buff) with b
    by (unfold createMessageBytes, currentTopicMessageVersion; by rewrite Hm).
  destruct (topic_roundtrip buff (unix now) b) as [Hu Hne]; [by intros ->| | |exact Hm|].
  { change maxSendBuffSize with 2031616 in Hlen. change (2 ^ 62) with 4611686018427387904. lia. }
  { apply (near_in_s now now Hnow). lia. }
  destruct (len b =? 0) eqn:E3; bdestruct_all; [by apply len_0 in E3|].
  rewrite decide_True by done. unfold sendDirectToSelf.
  erewrite NewMessage_accepts by done. cbn [ProcessReceivedMessage negb].
  unfold checkMessage. rewrite (validate_spec now _ Hnow). unfold m_Timestamp, m_Topic.
  cbn [TimestampField Timestamp TopicField sent_topic]. rewrite !(proj2 (Z.ltb_ge _ _)) by lia.
  rewrite Hl. eexists. split_and!; done.
Qed.
End delivery.

(** ** Examples *)

(** A pubsub that is its table of validators, a denial evaluator that is the
    set of the denied peers *)
#[export] Instance demo_PubSub : PubSub (gmap string nat) := {
  ps_Join ps t := (Ok (String.length t), ps);
  ps_RegisterTopicValidator ps t l :=
    match ps !! t with
    | None => (None, <[t := l]> ps)
    | Some _ => (Some (EExternal "duplicate validator for topic"), ps)
    end;
  ps_UnregisterTopicValidator ps t :=
    match ps !! t with
    | Some _ => (None, delete t ps)
    | None => (Some (EExternal "no validator for topic"), ps)
    end;
}.

#[export] Instance demo_PubSubLaws : PubSubLaws (gmap string nat) id.
Proof.
  split; unfold id; simpl.
  - intros ps t l ->. done.
  - intros ps t l l' ->. eauto.
  - intros ps t l ->. done.
  - intros ps t ->. eauto.
  - done.
Qed.

#[export] Instance demo_Denial : PeerDenialEvaluator (gset string) := {
  IsDenied d pid := bool_decide (pid ∈ d);
  UpsertPeerID d pid span := (None, {[ pid ]} ∪ d);
}.

#[export] Instance demo_DenialLaws : PeerDenialLaws (gset string).
Proof.
  split; simpl.
  - intros. apply bool_decide_eq_true_2. set_solver.
  - intros d pid span q Hq%bool_decide_eq_true. apply bool_decide_eq_true_2. set_solver.
Qed.

Abbreviation demo_handler_state :=
  (messagesHandler string (gmap string nat) (outgoingChannelLoadBalancer (SendableData Z)) (gset string)).

Definition demo_args : ArgMessagesHandler (gmap string nat)
    (outgoingChannelLoadBalancer (SendableData Z)) (gset string) := {|
  amh_PubSub := Some ∅; amh_DirectSender := true; amh_Throttler := true;
  amh_OutgoingCLB := match NewOutgoingChannelLoadBalancer true with Ok b => Some b | Err _ => None end;
  amh_Marshaller := true; amh_ConnMonitor := Some ∅; amh_PeersRatingHandler := true;
  amh_SyncTimer := true; amh_PeerID := "alice"; amh_Logger := true;
|}.

Definition demo_h0 : demo_handler_state :=
  match NewMessagesHandler demo_args None with
  | Ok h => h
  | Err _ => {| processors := ∅; heap := ∅; nextLoc := 0; topics := ∅; subscriptions := ∅; pubSub := ∅;
                outgoingCLB := {| chans := []; names := []; namesChans := ∅; made := 0; closed := ∅;
                                  forwarders := ∅; ctxDone := false |};
                denial := ∅; debugger := 0; mh_peerID := "" |}
  end.

(** One processor for the transactions, one topic created *)
Definition demo_h : demo_handler_state := (RegisterMessageProcessor demo_h0 "transactions" "id1" (Some "proc")).2.
Definition demo_hs : demo_handler_state := (CreateTopic (fun t => Ok t) demo_h "transactions" true).2.

Lemma demo_reachable : mh_reachable (K := Z) id demo_h.
Proof.
  apply reach_register. apply (reach_new _ demo_args None); vm_compute; reflexivity.
Defined.

Lemma demo_hs_reachable : mh_reachable (K := Z) id demo_hs.
Proof. apply (reach_create _ demo_h), demo_reachable. Defined.

Definition demo_Process : string -> Message -> PeerID -> option error := fun p _ _ =>
  if decide (p = "strict") then Some (EExternal "rejected") else None.

(** The marshaller of the examples, refusing what it cannot represent *)
Definition demo_checked : Marshaller := {|
  MarshalTopic := fun tm =>
    if decide (0 <= Version tm < 256 /\ 0 <= Timestamp tm < 256 /\ Pk tm = None
               /\ SignatureOnPid tm = None /\ Payload tm <> None)
    then Ok (demo_MarshalTopic tm) else Err (EExternal "cannot marshal");
  UnmarshalTopic := demo_UnmarshalTopic;
|}.

Lemma demo_checked_roundtrip tm b :
  MarshalTopic demo_checked tm = Ok b -> UnmarshalTopic demo_checked (Some b) = Ok tm /\ b <> [].
Proof.
  destruct tm as [v p t k s]. unfold demo_checked. cbn [MarshalTopic UnmarshalTopic]. case_decide as Hd; [|done].
  simpl in Hd. destruct Hd as (Hv & Ht & -> & -> & Hp). destruct p as [p|]; [|done].
  intros Hb. apply (inj Ok) in Hb as <-. split; [|done].
  unfold demo_MarshalTopic, demo_UnmarshalTopic. cbn [Version Timestamp Payload sl default].
  by rewrite !byte_val_of_small by lia.
Qed.

#[export] Instance demo_checked_laws : TopicMarshallerLaws demo_checked.
Proof. split. intros buff ts b _ _ _. apply demo_checked_roundtrip. Qed.

Lemma registration_refines_witness :
  (RegisterMessageProcessor demo_h "transactions" "id1" (Some "other")).1
    = Some (ErrMessageProcessorAlreadyDefined : error)
  /\ registered (RegisterMessageProcessor demo_h "transactions" "id2" (Some "other")).2 "transactions"
     = {[ "id1" := "proc"; "id2" := "other" ]}.
Proof.
  destruct (registration_refines id demo_h "transactions" "id1" "other" demo_reachable) as [H1 _].
  destruct (registration_refines id demo_h "transactions" "id2" "other" demo_reachable) as [H2 _].
  split.
  - destruct (RegisterMessageProcessor demo_h "transactions" "id1" (Some "other")) as [err h'].
    change (registered demo_h "transactions" !! "id1") with (Some "proc") in H1. exact (proj1 H1).
  - destruct (RegisterMessageProcessor demo_h "transactions" "id2" (Some "other")) as [err h'].
    change (registered demo_h "transactions" !! "id2") with (@None string) in H2.
    destruct H2 as [_ [H2 _]]. simpl. rewrite H2. vm_compute. reflexivity.
Defined.

Definition demo_order : gmap string (option nat) -> list string := fun m => (map_to_list m).*1.

Lemma UnregisterAll_after_last_unregistered_witness :
  (UnregisterAllMessageProcessors demo_order demo_h).1 = None
  /\ is_Some (UnregisterAllMessageProcessors demo_order
       (UnregisterMessageProcessor demo_h "transactions" "id1").2).1.
Proof.
  destruct (UnregisterAll_after_last_unregistered id demo_h "transactions" "id1" "proc" demo_order
    demo_reachable (fun m => Permutation_refl _)) as [H1 H2].
  split.
  - apply H1. intros t. change (processors demo_h) with ({[ "transactions" := Some 0%nat ]} : gmap string (option nat)).
    intros [_ Ht]%lookup_singleton_Some. done.
  - specialize (H2 ltac:(vm_compute; reflexivity)).
    destruct (UnregisterMessageProcessor demo_h "transactions" "id1") as [err h1]. apply H2.
Defined.

Definition demo_stamped (ts : Z) : Message := {|
  FromField := None; DataField := None; PayloadField := None; SeqNoField := None; TopicField := "";
  SignatureField := None; KeyField := None; PeerField := ""; TimestampField := ts;
  BroadcastMethodField := Broadcast |}.

(** A message is accepted at second 1000 and again at second 1620. *)
Lemma acceptance_window_witness :
  validateMessageByTimestamp (1000 * time_Second) (demo_stamped 1020) = None
  /\ validateMessageByTimestamp (1000 * time_Second + pubsubTimeCacheDuration
       + acceptMessagesInAdvanceDuration) (demo_stamped 1020) = None.
Proof.
  destruct (acceptance_window (1000 * time_Second) (demo_stamped 1020)) as (_ & _ & H).
  { vm_compute. split; [discriminate|reflexivity]. }
  apply H; [by vm_compute|]. vm_compute. split; [discriminate|reflexivity].
Defined.

Definition demo_published : bytes := Byte.x01 :: Byte.x07 :: to_bytes "hi".
Definition demo_pb : pbMessage := {|
  pb_From := Some (to_bytes "alice"); pb_Data := Some demo_published; pb_Seqno := None;
  pb_Topic := Some "transactions"; pb_Signature := None; pb_Key := None |}.

Lemma pubsubCallback_spec_witness :
  let bad := {| pb_From := Some (to_bytes "mallory"); pb_Data := None; pb_Seqno := None;
                pb_Topic := Some "transactions"; pb_Signature := None; pb_Key := None |} in
  let r := pubsubCallback (K := Z) demo_IDFromBytes demo_checked demo_Process map_to_list
    (7 * time_Second) demo_h 0 "transactions" "bob" (Some bad) in
  r.1.1 = false /\ IsDenied (denial r.1.2) "mallory" = true /\ IsDenied (denial r.1.2) "bob" = true.
Proof.
  cbv zeta. set (bad := Build_pbMessage _ _ _ _ _ _).
  pose proof (pubsubCallback_spec (K := Z) demo_IDFromBytes demo_checked demo_Process map_to_list
    (7 * time_Second) demo_h 0 "transactions" "bob" bad) as H.
  destruct (pubsubCallback _ _ _ _ _ _ _ _ _ _) as [[ok h'] effs].
  change (NewMessage demo_IDFromBytes (Some bad) (Some (UnmarshalTopic demo_checked)) Broadcast)
    with (@Err Message ErrMessageUnmarshalError) in H.
  destruct H as (-> & _ & H1 & H2). split_and!; [done|by apply H2|by apply H1].
Defined.

Lemma broadcast_delivered_witness :
  exists msg, DataField msg = Some (to_bytes "hi")
  /\ pubsubCallback (K := Z) demo_IDFromBytes demo_checked demo_Process map_to_list
       (20 * time_Second) demo_h 0 "transactions" "bob" (Some demo_pb)
     = (true, demo_h, [DoProcess "proc" "id1" msg "bob"; DoAddMessage 0 true "transactions" 4 false]).
Proof.
  set (sd := {| Buff := to_bytes "hi"; sd_Topic := "transactions"; Sk := @None Z; sd_ID := "alice" |}).
  destruct (broadcast_delivered (K := Z) demo_IDFromBytes demo_checked demo_Process map_to_list
    (7 * time_Second) demo_hs demo_h "transactions" "transactions"
    (to_bytes "hi") 1 sd [DoStartProcessing; DoChanSend 1 sd; DoEndProcessing] true demo_published None
    (20 * time_Second) 0 "bob" demo_pb "alice" 12) as (_ & _ & msg & Hd & _ & _ & Hcb).
  1, 3, 4, 5, 6: by vm_compute.
  - right. left.
  - vm_compute. split; [discriminate|reflexivity].
  - vm_compute. split; discriminate.
  - exists msg. split; [exact Hd|]. rewrite Hcb. vm_compute. reflexivity.
Defined.

Lemma SendToConnectedPeer_self_witness :
  exists msg, SendToConnectedPeer (K := Z) demo_IDFromBytes demo_checked map_to_list (fun _ _ _ => None)
      [Byte.x05] (7 * time_Second) demo_h "transactions" (to_bytes "hi") "alice"
    = (None, [], Some ([("id1", "proc")], msg, "alice"))
    /\ DataField msg = Some (to_bytes "hi").
Proof.
  destruct (SendToConnectedPeer_self (K := Z) demo_IDFromBytes demo_checked map_to_list
    (fun _ _ _ => None) [Byte.x05] (7 * time_Second) demo_h "transactions"
    (to_bytes "hi") demo_published 0) as (msg & Hs & _ & Hd & _).
  1: vm_compute; split; [reflexivity|discriminate].
  1, 2, 4: by vm_compute.
  - vm_compute. split; [discriminate|reflexivity].
  - exists msg. split; [|exact Hd]. etrans; [exact Hs|]. by vm_compute.
Defined.
