(* ===== verification/Broadcasts.v ===== *)
(** * The broadcasts of a node

    The way of a broadcast inside a node and out of it: the goroutine of
    [BroadcastOnChannel] that waits to send on a channel of the balancer, the
    goroutine of the channel, the loop that collects, marshals and publishes, and
    what another node makes of what was published; in every interleaving of these
    with each other and with the other operations of the messages handler. *)

From S2P Require Import Prelude Errors Config Messages Topics MessagesHandler.
From stdpp Require Import list gmap well_founded.
Open Scope Z_scope.

(** ** The state *)

Section outgoing.
Context {K P PS E : Type} `{PubSub PS} `{PeerDenialEvaluator E}.
Context (m : Marshaller) (UnmarshalSecp256k1PrivateKey : bytes -> result K).
Context (Subscribe : nat -> result nat) (DebuggerClose : nat -> option error).

Abbreviation handler := (messagesHandler P PS (outgoingChannelLoadBalancer (SendableData K)) E).
Implicit Types h : handler.

(** What was collected from a channel, when, the topics that the node had then, and
    what the loop did about it *)
Record collection := {
  pub_ch : nat;
  pub_data : SendableData K;
  pub_now : Z;
  pub_topics : gmap string nat;
  pub_effects : list (mh_effect K P);
}.

(** The handler; the sends that broadcasts have begun, those of them that wait, those
    that have gone through, and what was collected, each in their order *)
Record outgoing := {
  og_handler : handler;
  og_accepted : list (nat * SendableData K);
  og_waiting : list (nat * SendableData K);
  og_sent : list (nat * SendableData K);
  og_collected : list collection;
}.

Definition og_clb (s : outgoing) : outgoingChannelLoadBalancer (SendableData K) := outgoingCLB (og_handler s).

Definition og_start (h : handler) : outgoing := {|
  og_handler := h; og_accepted := []; og_waiting := []; og_sent := []; og_collected := [] |}.

Definition sends_of (effects : list (mh_effect K P)) : list (nat * SendableData K) :=
  omap (fun e => match e with DoChanSend ch sd => Some (ch, sd) | _ => None end) effects.

Definition begin_sends (s : outgoing) (sends : list (nat * SendableData K)) : outgoing := {|
  og_handler := og_handler s; og_accepted := og_accepted s ++ sends; og_waiting := og_waiting s ++ sends;
  og_sent := og_sent s; og_collected := og_collected s |}.

Definition with_og_handler (s : outgoing) (h : handler) : outgoing := {|
  og_handler := h; og_accepted := og_accepted s; og_waiting := og_waiting s; og_sent := og_sent s;
  og_collected := og_collected s |}.

(** ** The steps *)

Inductive og_label :=
| OBroadcast (channel topic : string) (buff : bytes) (key : option (PeerID * bytes)) (CanProcess : bool)
| OSend (i : nat)
| OPublish (ch : nat) (now : Z)
| OCreateTopic (name : string) (createChannelForTopic : bool)
| OOther
| OClose
| OStop (ch : nat).

(** The broadcast of a label: with the key of the node or with one that is given *)
Definition broadcast (CanProcess : bool) (h : handler) (channel topic : string) (buff : bytes) (key : option (PeerID * bytes))
    : option (option error * list (mh_effect K P)) :=
  match key with
  | None => broadcastOnChannelBlocking CanProcess h channel topic buff
  | Some (pid, skBytes) =>
      broadcastOnChannelBlockingUsingPrivateKey UnmarshalSecp256k1PrivateKey CanProcess h channel topic buff pid skBytes
  end.

Inductive og_step (s : outgoing) : og_label -> outgoing -> Prop :=
| og_broadcast channel topic buff key CanProcess err effects :
    broadcast CanProcess (og_handler s) channel topic buff key = Some (err, effects) ->
    og_step s (OBroadcast channel topic buff key CanProcess) (begin_sends s (sends_of effects))
| og_send i ch sd clb :
    og_waiting s !! i = Some (ch, sd) -> oplb_step (og_clb s) (EvSend ch (Some sd)) clb ->
    og_step s (OSend i) {|
      og_handler := set_clb (og_handler s) clb; og_accepted := og_accepted s; og_waiting := delete i (og_waiting s);
      og_sent := og_sent s ++ [(ch, sd)]; og_collected := og_collected s |}
| og_publish ch sd now clb :
    oplb_step (og_clb s) (EvCollect ch (Some sd)) clb ->
    og_step s (OPublish ch now) {|
      og_handler := set_clb (og_handler s) clb; og_accepted := og_accepted s; og_waiting := og_waiting s;
      og_sent := og_sent s;
      og_collected := og_collected s ++ [{| pub_ch := ch; pub_data := sd; pub_now := now;
        pub_topics := topics (og_handler s);
        pub_effects := processChannelLoadBalancer m now (set_clb (og_handler s) clb) (Some sd) |}] |}
| og_create name createChannelForTopic :
    og_step s (OCreateTopic name createChannelForTopic)
      (with_og_handler s (CreateTopic Subscribe (og_handler s) name createChannelForTopic).2)
| og_other h :
    outgoingCLB h = og_clb s -> og_step s OOther (with_og_handler s h)
| og_close :
    og_step s OClose (with_og_handler s (mh_Close (K := K) DebuggerClose (og_handler s)).1.2)
| og_stop ch clb :
    oplb_step (og_clb s) (EvStop ch) clb ->
    og_step s (OStop ch) (with_og_handler s (set_clb (og_handler s) clb)).

Inductive og_run (s0 : outgoing) : list og_label -> outgoing -> Prop :=
| og_nil : og_run s0 [] s0
| og_snoc l ev s1 s2 : og_run s0 l s1 -> og_step s1 ev s2 -> og_run s0 (l ++ [ev]) s2.

(** ** The invariant *)

Definition on_channel (ch : nat) (l : list (nat * SendableData K)) : list (SendableData K) :=
  omap (fun e => if decide (e.1 = ch) then Some e.2 else None) l.

Definition collected_on (ch : nat) (l : list collection) : list (SendableData K) :=
  omap (fun p => if decide (pub_ch p = ch) then Some (pub_data p) else None) l.

Lemma elem_of_on_channel ch sd l : sd ∈ on_channel ch l <-> (ch, sd) ∈ l.
Proof.
  unfold on_channel. rewrite list_elem_of_omap. split.
  - intros ([ch' sd'] & Hin & Hd). simpl in Hd. case_decide; [|done]. by simplify_eq.
  - intros Hin. exists (ch, sd). split; [done|]. simpl. by rewrite decide_True.
Qed.

(** What the loop owes to what it collected: when the node has the topic and the message
    of the buffer marshals, into something, these bytes are published on the topic, with the key of
    the broadcast if it has one; in the other cases nothing is. *)
Definition due (p : collection) : list (mh_effect K P) :=
  let message := {| Version := currentTopicMessageVersion; Payload := Some (Buff (pub_data p));
    Timestamp := unix (pub_now p); Pk := None; SignatureOnPid := None |} in
  match pub_topics p !! sd_Topic (pub_data p), MarshalTopic m message with
  | Some th, Ok (byte :: rest) =>
      [DoPublish th (byte :: rest)
         (match Sk (pub_data p) with Some sk => Some (sk, sd_ID (pub_data p)) | None => None end)]
  | _, _ => []
  end.

Record og_inv (s : outgoing) : Prop := {
  og_oplb : oplb_inv (og_clb s);
  og_open : closed (og_clb s) = ∅;
  og_made ch sd : (ch, sd) ∈ og_accepted s -> (ch < made (og_clb s))%nat;
  og_objects ch : forwarders (og_clb s) !! ch <> Some (Holding None);
  og_fifo ch : collected_on ch (og_collected s) ++ held (og_clb s) ch = on_channel ch (og_sent s);
  og_all : og_sent s ++ og_waiting s ≡ₚ og_accepted s;
  og_sendable ch sd : (ch, sd) ∈ og_accepted s -> checkSendableData (Buff sd) = None;
  og_due : Forall (fun p => pub_effects p = due p) (og_collected s);
}.

Lemma og_inv_start h :
  NewOutgoingChannelLoadBalancer true = Ok (outgoingCLB h) -> og_inv (og_start h).
Proof.
  intros Hn. pose proof (New_inv _ Hn) as Hinv. unfold NewOutgoingChannelLoadBalancer in Hn. simpl in Hn.
  assert (Hf : forwarders (outgoingCLB h) = {[ 0%nat := Waiting ]} /\ closed (outgoingCLB h) = ∅).
  { apply (inj Ok) in Hn as <-. done. }
  destruct Hf as [Hf Hc]. split; simpl; unfold og_clb; simpl; rewrite ?Hf; try done.
  - intros ch sd Hin. by apply elem_of_nil in Hin.
  - intros ch. by destruct (decide (ch = 0%nat)) as [->|]; [rewrite lookup_singleton_eq|rewrite lookup_singleton_ne].
  - intros ch. unfold held. rewrite Hf.
    by destruct (decide (ch = 0%nat)) as [->|]; [rewrite lookup_singleton_eq|rewrite lookup_singleton_ne].
  - intros ch sd Hin. by apply elem_of_nil in Hin.
Qed.

(** A change of the balancer that keeps what its goroutines hold *)
Lemma og_inv_clb s h :
  og_inv s -> oplb_inv (outgoingCLB h) -> closed (outgoingCLB h) = ∅ -> (made (og_clb s) <= made (outgoingCLB h))%nat ->
  (forall ch, forwarders (outgoingCLB h) !! ch <> Some (Holding None)) ->
  (forall ch, held (outgoingCLB h) ch = held (og_clb s) ch) ->
  og_inv (with_og_handler s h).
Proof.
  intros [] ? ? ? ? Hheld. split; simpl; try done.
  - intros ch sd Hin%og_made0. unfold og_clb at 1. simpl. lia.
  - intros ch. unfold og_clb. simpl. by rewrite Hheld.
Qed.

Lemma GetChannelOrDefault_made (oplb : outgoingChannelLoadBalancer (SendableData K)) channel ch :
  oplb_inv oplb -> oplb_GetChannelOrDefault oplb channel = Some ch -> (ch < made oplb)%nat.
Proof.
  intros Hinv. unfold oplb_GetChannelOrDefault. destruct (namesChans oplb !! channel) as [c|] eqn:Hc.
  - intros [= ->]. apply (oplb_lookup _ _ _ Hinv) in Hc as (i & _ & Hi). apply (inv_made _ Hinv).
    by eapply list_elem_of_lookup_2.
  - intros Hi. apply (inv_made _ Hinv). by eapply list_elem_of_lookup_2.
Qed.

Lemma GetChannelOrDefault_total (oplb : outgoingChannelLoadBalancer (SendableData K)) channel :
  oplb_inv oplb -> is_Some (oplb_GetChannelOrDefault oplb channel).
Proof.
  intros Hinv. unfold oplb_GetChannelOrDefault. destruct (namesChans oplb !! channel); [by eexists|].
  apply lookup_lt_is_Some_2. rewrite <- (inv_length _ Hinv). eapply lookup_lt_Some, (inv_default _ Hinv).
Qed.

(** What a broadcast begins: nothing after an error, and otherwise one send, on the
    channel of its name, or the default one, of the buffer it was given. *)
Lemma broadcast_spec CanProcess h channel topic buff key err effects :
  broadcast CanProcess h channel topic buff key = Some (err, effects) ->
  (err <> None /\ sends_of effects = [])
  \/ (err = None /\ checkSendableData buff = None /\ CanProcess = true
      /\ exists ch sd, clb_GetChannelOrDefault (outgoingCLB h) channel = Some ch /\ sends_of effects = [(ch, sd)]
           /\ Buff sd = buff /\ sd_Topic sd = topic
           /\ match key with
              | None => Sk sd = None /\ sd_ID sd = mh_peerID h
              | Some (pid, skBytes) => exists sk, UnmarshalSecp256k1PrivateKey skBytes = Ok sk /\ Sk sd = Some sk /\ sd_ID sd = pid
              end).
Proof.
  assert (Hsend : forall sd, send_on_channel CanProcess h channel sd = Some (err, effects) ->
    (err <> None /\ sends_of effects = [])
    \/ (err = None /\ checkSendableData (Buff sd) = None /\ CanProcess = true
        /\ exists ch, clb_GetChannelOrDefault (outgoingCLB h) channel = Some ch /\ sends_of effects = [(ch, sd)])).
  { intros sd. unfold send_on_channel. destruct (checkSendableData _) eqn:Hck; [intros [= <- <-]; by left|].
    destruct CanProcess; [|intros [= <- <-]; by left]. cbn [negb].
    destruct (clb_GetChannelOrDefault _ _) as [ch|]; [|done]. cbn [mbind option_bind]. intros [= <- <-]. right. eauto 10. }
  unfold broadcast, broadcastOnChannelBlocking, broadcastOnChannelBlockingUsingPrivateKey.
  destruct key as [[pid skBytes]|].
  - destruct (UnmarshalSecp256k1PrivateKey skBytes) as [sk|e] eqn:Hsk; [|intros [= <- <-]; by left].
    intros [?|(? & ? & ? & ch & ? & ?)]%Hsend; [by left|right]. split_and!; [done..|].
    eexists ch, _. split_and!; [done..|]. by exists sk.
  - intros [?|(? & ? & ? & ch & ? & ?)]%Hsend; [by left|right]. split_and!; [done..|].
    eexists ch, _. by split_and!.
Qed.

Lemma CreateTopic_clb h name createChannelForTopic :
  outgoingCLB (CreateTopic Subscribe h name createChannelForTopic).2 = outgoingCLB h
  \/ outgoingCLB (CreateTopic Subscribe h name createChannelForTopic).2 = (oplb_AddChannel (outgoingCLB h) name).2.
Proof.
  unfold CreateTopic. destruct (topics h !! name); [by left|]. destruct (ps_Join _ _) as [[t|e] ps]; [|by left].
  destruct (Subscribe t); [|by left]. destruct createChannelForTopic; [|by left]. simpl. right.
  by destruct (oplb_AddChannel _ _).
Qed.

Lemma on_channel_snoc ch l e :
  on_channel ch (l ++ [e]) = on_channel ch l ++ (if decide (e.1 = ch) then [e.2] else []).
Proof. unfold on_channel. rewrite omap_app. simpl. by case_decide. Qed.

Lemma collected_on_snoc ch l p :
  collected_on ch (l ++ [p]) = collected_on ch l ++ (if decide (pub_ch p = ch) then [pub_data p] else []).
Proof. unfold collected_on. rewrite omap_app. simpl. by case_decide. Qed.

Lemma processChannelLoadBalancer_due now h ch sd p :
  p = {| pub_ch := ch; pub_data := sd; pub_now := now; pub_topics := topics h;
         pub_effects := processChannelLoadBalancer m now h (Some sd) |} -> pub_effects p = due p.
Proof.
  intros ->. unfold due, processChannelLoadBalancer, createMessageBytes. cbn [pub_effects pub_now pub_data pub_topics].
  destruct (topics h !! sd_Topic sd) as [th|]; [|done]. cbv zeta. by destruct (MarshalTopic m _) as [[|byte rest]|].
Qed.

(** What is published is made by [createMessageBytes]. *)
Lemma due_made p th b key :
  DoPublish th b key ∈ due p -> createMessageBytes m (pub_now p) (Buff (pub_data p)) = b /\ b <> []
  /\ key = (match Sk (pub_data p) with Some sk => Some (sk, sd_ID (pub_data p)) | None => None end).
Proof.
  unfold due, createMessageBytes. cbv zeta. destruct (pub_topics p !! _); [|by intros ?%elem_of_nil].
  destruct (MarshalTopic m _) as [[|byte rest]|]; [by intros ?%elem_of_nil| |by intros ?%elem_of_nil].
  intros Hin%list_elem_of_singleton. injection Hin as -> -> ->. by split_and!.
Qed.

(** Goroutines that change what they hold *)
Lemma held_no_None (oplb : outgoingChannelLoadBalancer (SendableData K)) ch f :
  (forall c, forwarders oplb !! c <> Some (Holding None)) -> f <> Holding None ->
  forall c, forwarders (set_forwarder oplb ch f) !! c <> Some (Holding None).
Proof.
  intros Ho Hf c. simpl. destruct (decide (ch = c)) as [->|]; [rewrite lookup_insert_eq; congruence|].
  by rewrite lookup_insert_ne.
Qed.

Lemma AddChannel_keeps (oplb : outgoingChannelLoadBalancer (SendableData K)) name :
  oplb_inv oplb -> let oplb' := (oplb_AddChannel oplb name).2 in
  closed oplb' = closed oplb /\ (made oplb <= made oplb')%nat /\ (forall ch, held oplb' ch = held oplb ch)
  /\ ((forall c, forwarders oplb !! c <> Some (Holding None)) -> forall c, forwarders oplb' !! c <> Some (Holding None)).
Proof.
  intros Hinv. unfold oplb_AddChannel. case_decide; [done|]. destruct (namesChans oplb !! name); [done|]. simpl.
  split_and!; [done|lia| |].
  - intros ch. apply held_append. apply eq_None_not_Some. intros Hs%(inv_forwarders _ Hinv). lia.
  - intros Ho c. destruct (decide (made oplb = c)) as [->|]; [by rewrite lookup_insert_eq|by rewrite lookup_insert_ne].
Qed.

Lemma create_inv s name create :
  og_inv s -> og_inv (with_og_handler s (CreateTopic Subscribe (og_handler s) name create).2).
Proof.
  intros Hinv. destruct (CreateTopic_clb (og_handler s) name create) as [Hsame|Hadd].
  - apply og_inv_clb; try rewrite Hsame; try done; apply Hinv || by destruct Hinv.
  - destruct (AddChannel_keeps (og_clb s) name (og_oplb _ Hinv)) as (H1 & H2 & H3 & H4).
    apply og_inv_clb; rewrite ?Hadd; try done.
    + by apply AddChannel_inv, Hinv.
    + rewrite <- (og_open _ Hinv). exact H1.
    + intros c. rewrite ?Hadd. apply H4, Hinv.
Qed.

Lemma og_step_inv s ev s' : og_inv s -> og_step s ev s' -> og_inv s'.
Proof.
  intros Hinv Hst. destruct Hst as [channel topic buff key can err effects Hb|i ch sd clb Hi Ho|ch sd now clb Ho
    |name create|h Hh| |ch clb Ho].
  - apply broadcast_spec in Hb as [[_ Hs]|(_ & Hck & _ & ch & sd & Hch & Hs & Hbuff & _)]; rewrite Hs.
    + destruct Hinv. split; simpl; rewrite ?app_nil_r; done.
    + pose proof (GetChannelOrDefault_made _ _ _ (og_oplb _ Hinv) Hch) as Hlt.
      destruct Hinv. split; simpl; [done|done| |done|done|by rewrite app_assoc, og_all0| |done].
      * intros c d [Hin|Heq%list_elem_of_singleton]%elem_of_app; [by eapply og_made0|by simplify_eq].
      * intros c d [Hin|Heq%list_elem_of_singleton]%elem_of_app; [by eapply og_sendable0|]. by simplify_eq.
  - pose proof (oplb_step_inv _ _ _ (og_oplb _ Hinv) Ho) as Hoplb. inversion Ho as [? ? Hw Hc| | | | | | |]; subst.
    destruct Hinv. split; simpl; try done.
    + by apply held_no_None.
    + intros c. unfold og_clb at 1. cbn [og_handler outgoingCLB set_clb]. rewrite held_set, on_channel_snoc. cbn [fst snd]. specialize (og_fifo0 c).
      destruct (decide (ch = c)) as [->|]; [|by rewrite app_nil_r].
      assert (Hheld : held (og_clb s) c = []) by (unfold held; by rewrite Hw). rewrite Hheld, app_nil_r in og_fifo0.
      by rewrite og_fifo0.
    + rewrite <- og_all0, <- app_assoc. apply Permutation_app_head. symmetry. by apply delete_Permutation.
  - pose proof (oplb_step_inv _ _ _ (og_oplb _ Hinv) Ho) as Hoplb. inversion Ho as [| |? ? Hw| | | | |]; subst.
    destruct Hinv. split; simpl; try done.
    + by apply held_no_None.
    + intros c. unfold og_clb at 1. cbn [og_handler outgoingCLB set_clb]. rewrite held_set, collected_on_snoc. cbn [pub_ch pub_data]. specialize (og_fifo0 c).
      destruct (decide (ch = c)) as [->|]; [|by rewrite app_nil_r].
      assert (Hheld : held (og_clb s) c = [sd]) by (unfold held; by rewrite Hw). rewrite Hheld in og_fifo0.
      by rewrite app_nil_r.
    + apply Forall_app. split; [done|]. apply Forall_singleton. by eapply (processChannelLoadBalancer_due now _ ch sd).
  - by apply create_inv.
  - apply og_inv_clb; rewrite ?Hh; try done; try apply Hinv. all: intros c; rewrite ?Hh; [apply Hinv|done].
  - apply og_inv_clb; simpl; try done; try apply Hinv. by destruct (og_oplb _ Hinv); split.
  - pose proof (oplb_step_inv _ _ _ (og_oplb _ Hinv) Ho) as Hoplb. inversion Ho as [| | | |? Hw Hd| | |]; subst.
    apply og_inv_clb; simpl; try done.
    + apply Hinv.
    + by apply held_no_None; [apply Hinv|].
    + intros c. rewrite held_set. case_decide as Hc; [|done]. subst. unfold held. by rewrite Hw.
Qed.

Lemma og_run_inv s0 l s : og_inv s0 -> og_run s0 l s -> og_inv s.
Proof. intros Hs0 Hr. induction Hr; eauto using og_step_inv. Qed.

Lemma og_clb_set h clb accepted waiting sent published :
  og_clb {| og_handler := set_clb h clb; og_accepted := accepted; og_waiting := waiting; og_sent := sent;
            og_collected := published |} = clb.
Proof. done. Qed.

(** What is begun was asked for. *)
Lemma accepted_asked s0 l s :
  og_accepted s0 = [] -> og_run s0 l s -> forall ch sd, (ch, sd) ∈ og_accepted s ->
  exists channel key, OBroadcast channel (sd_Topic sd) (Buff sd) key true ∈ l.
Proof.
  intros Hs0 Hr. induction Hr as [|l ev s1 s2 Hr IH Hst]; intros ch sd Hin; [rewrite Hs0 in Hin; by apply elem_of_nil in Hin|].
  assert (Hold : (ch, sd) ∈ og_accepted s1 \/ exists channel key, ev = OBroadcast channel (sd_Topic sd) (Buff sd) key true).
  { destruct Hst as [channel topic buff key can err effects Hb| | | | | |]; [|by left..].
    apply elem_of_app in Hin as [Hin|Hin]; [by left|right].
    apply broadcast_spec in Hb as [[_ Hs]|(_ & _ & -> & c & d & _ & Hs & Hbuff & Ht & _)]; rewrite Hs in Hin.
    - by apply elem_of_nil in Hin.
    - apply list_elem_of_singleton in Hin. simplify_eq. by exists channel, key. }
  destruct Hold as [(channel & key & Hk)%IH|(channel & key & ->)]; exists channel, key; apply elem_of_app.
  - by left.
  - right. by apply list_elem_of_singleton.
Qed.

(** *** Coming to rest *)

(** A send that goes through, or a turn of the loop that publishes *)
Definition og_internal (s' s : outgoing) : Prop :=
  exists ev, og_step s ev s' /\ match ev with OSend _ | OPublish _ _ => True | _ => False end.

Definition holds (f : nat * forwarder (D := SendableData K)) : Prop := exists sd, f.2 = Holding (Some sd).

#[local] Instance holds_dec f : Decision (holds f).
Proof. destruct f as [c [| [sd|] |]]; [right|left|right|right]; unfold holds; naive_solver. Defined.

Definition work (s : outgoing) : nat :=
  (2 * length (og_waiting s) + size (filter holds (forwarders (og_clb s))))%nat.

Lemma internal_work s' s : og_internal s' s -> (work s' < work s)%nat.
Proof.
  intros (ev & Hst & Hev). unfold work. destruct Hst as [|i ch sd clb Hi Ho|ch sd now clb Ho| | | |]; try done;
    inversion Ho as [? ? Hw Hc| |? ? Hw| | | | |]; subst;
    rewrite og_clb_set; cbn [og_waiting forwarders set_forwarder].
  - rewrite (length_delete _ i) by eauto. apply lookup_lt_Some in Hi.
    rewrite map_filter_insert_True by (by exists sd). rewrite map_size_insert_None; [lia|].
    apply map_lookup_filter_None. right. intros f Hf [sd' Hh]. simpl in Hh. congruence.
  - rewrite map_filter_insert_False by (intros [sd' Hh]; done). rewrite map_filter_delete.
    assert (Hin : filter holds (forwarders (og_clb s)) !! ch = Some (Holding (Some sd))).
    { apply map_lookup_filter_Some. split; [done|]. by exists sd. }
    pose proof (map_size_ne_0_lookup_2 (filter holds (forwarders (og_clb s))) ch ltac:(by eexists)).
    rewrite map_size_delete, Hin. simpl. lia.
Qed.

Lemma internal_wf : well_founded og_internal.
Proof. apply (wf_projected lt work); [apply internal_work|apply lt_wf]. Qed.

(** Before the handler is closed, the goroutines of the channels go on. *)
Lemma forwarders_go_on s0 l s :
  (forall ch, forwarders (og_clb s0) !! ch <> Some Stopped) -> ctxDone (og_clb s0) = false ->
  og_inv s0 -> og_run s0 l s -> OClose ∉ l ->
  (forall ch, forwarders (og_clb s) !! ch <> Some Stopped) /\ ctxDone (og_clb s) = false.
Proof.
  intros Hs0 Hd0 Hinv0 Hr. induction Hr as [|l ev s1 s2 Hr IH Hst]; intros Hn; [done|].
  apply not_elem_of_app in Hn as [Hl Hev]. destruct (IH Hl) as [Hs Hd]. clear IH Hs0 Hd0 Hl.
  assert (Hset : forall ch f, f <> Stopped -> forall c, forwarders (set_forwarder (og_clb s1) ch f) !! c <> Some Stopped).
  { intros ch f Hf c. simpl. destruct (decide (ch = c)) as [->|]; [rewrite lookup_insert_eq; congruence|].
    by rewrite lookup_insert_ne. }
  destruct Hst as [| ? ? ? ? ? Ho|? ? ? ? Ho|name create|h Hh| |? ? Ho]; [done|inversion Ho; subst; by split; [apply Hset|]..| | | |].
  - unfold og_clb, with_og_handler. cbn [og_handler].
    destruct (CreateTopic_clb (og_handler s1) name create) as [-> | ->]; [done|]. fold (og_clb s1).
    unfold oplb_AddChannel. case_decide; [done|]. destruct (namesChans _ !! name); [done|]. simpl. split; [|done].
    intros c. destruct (decide (made (og_clb s1) = c)) as [->|]; [by rewrite lookup_insert_eq|by rewrite lookup_insert_ne].
  - assert (Hc : og_clb (with_og_handler s1 h) = og_clb s1) by done. by rewrite Hc.
  - by destruct Hev; apply list_elem_of_singleton.
  - inversion Ho; subst. congruence.
Qed.

(** A goroutine that has ended does not come back. *)
Lemma stopped_stays s ev s' ch :
  og_inv s -> og_step s ev s' -> forwarders (og_clb s) !! ch = Some Stopped ->
  forwarders (og_clb s') !! ch = Some Stopped.
Proof.
  intros Hinv Hst Hf.
  assert (Hset : forall c f, forwarders (og_clb s) !! c <> Some Stopped ->
    forwarders (set_forwarder (og_clb s) c f) !! ch = Some Stopped).
  { intros c f Hc. simpl. rewrite lookup_insert_ne; [done|]. by intros ->. }
  destruct Hst as [| ? ? ? ? ? Ho|? ? ? ? Ho|name create|h Hh| |? ? Ho]; try done;
    try (inversion Ho; subst; apply Hset; congruence).
  - unfold og_clb, with_og_handler. cbn [og_handler].
    destruct (CreateTopic_clb (og_handler s) name create) as [-> | ->]; [done|]. fold (og_clb s).
    unfold oplb_AddChannel. case_decide; [done|]. destruct (namesChans _ !! name); [done|]. simpl.
    rewrite lookup_insert_ne; [done|]. intros <-.
    assert (Hlt : (made (og_clb s) < made (og_clb s))%nat); [|lia].
    apply (inv_forwarders _ (og_oplb _ Hinv)). by eexists.
  - by rewrite <- Hh in Hf.
Qed.

(** A broadcast that still waits when the goroutine of its channel has ended waits for
    ever: nothing else reads the channel, and the waiting looks at no context. *)
Theorem closed_broadcast_hangs h l1 s l2 s' ch sd :
  NewOutgoingChannelLoadBalancer true = Ok (outgoingCLB h) ->
  og_run (og_start h) l1 s -> og_run s l2 s' ->
  forwarders (og_clb s) !! ch = Some Stopped -> (ch, sd) ∈ og_waiting s -> (ch, sd) ∈ og_waiting s'.
Proof.
  intros Hn Hr1 Hr2 Hf Hw. assert (Hinv : og_inv s) by (eapply og_run_inv; [by apply og_inv_start|done]).
  assert (Hall : forwarders (og_clb s') !! ch = Some Stopped /\ (ch, sd) ∈ og_waiting s'); [|apply Hall].
  induction Hr2 as [|l ev s1 s2 Hr2 [Hf1 Hw1] Hst]; [done|].
  pose proof (og_run_inv _ _ _ Hinv Hr2) as Hinv1. split; [by eapply stopped_stays|].
  destruct Hst as [| i c d clb Hi Ho| | | | |]; try done; simpl; [set_solver|].
  inversion Ho; subst. rewrite (delete_Permutation _ _ _ Hi) in Hw1.
  apply elem_of_cons in Hw1 as [[= <- <-]|Hw1]; [congruence|done].
Qed.

(** While something waits or is held, something goes through. *)
Lemma outgoing_progress s :
  og_inv s -> (forall ch, forwarders (og_clb s) !! ch <> Some Stopped) ->
  og_waiting s <> [] \/ (exists ch, held (og_clb s) ch <> []) -> exists s', og_internal s' s.
Proof.
  intros Hinv Hns [Hw|[ch Hh]].
  - destruct (og_waiting s) as [|[ch sd] w] eqn:Hq; [done|].
    assert (Hacc : (ch, sd) ∈ og_accepted s) by (rewrite <- (og_all _ Hinv), Hq; set_solver).
    pose proof (og_made _ Hinv _ _ Hacc) as Hlt. apply (inv_forwarders _ (og_oplb _ Hinv)) in Hlt as [[| [o|] |] Hf].
    + eexists. exists (OSend 0). split; [|done]. eapply og_send; [by rewrite Hq|].
      apply step_send; [done|]. rewrite (og_open _ Hinv). by apply not_elem_of_empty.
    + eexists. exists (OPublish ch 0). split; [|done]. eapply og_publish. by apply step_collect.
    + by destruct (og_objects _ Hinv ch).
    + by destruct (Hns ch).
  - unfold held in Hh. destruct (forwarders (og_clb s) !! ch) as [[|[o|]|]|] eqn:Hf; try done.
    eexists. exists (OPublish ch 0). split; [|done]. eapply og_publish. by apply step_collect.
Qed.

(** What is the same on every channel is the same but for the order. *)
Lemma on_channel_Permutation l1 l2 : (forall ch, on_channel ch l1 = on_channel ch l2) -> l1 ≡ₚ l2.
Proof.
  revert l2. induction l1 as [|[ch sd] l1 IH]; intros l2 Heq.
  - destruct l2 as [|[ch sd] l2]; [done|]. specialize (Heq ch). simpl in Heq. by rewrite decide_True in Heq.
  - assert (Hin : exists l3 l4, l2 = l3 ++ (ch, sd) :: l4 /\ on_channel ch l3 = []).
    { specialize (Heq ch). cbn [on_channel omap list_omap fst snd] in Heq. rewrite decide_True in Heq by done.
      clear IH. revert Heq. induction l2 as [|[c d] l2 IH]; [done|]. cbn [on_channel omap list_omap fst snd].
      destruct (decide (c = ch)) as [->|Hne].
      - intros [= -> _]. by exists [], l2.
      - intros (l3 & l4 & -> & H3)%IH. exists ((c, d) :: l3), l4. split; [done|].
        cbn [on_channel omap list_omap fst snd]. by rewrite decide_False. }
    destruct Hin as (l3 & l4 & -> & H3). rewrite <- Permutation_middle. constructor. apply IH.
    intros c. specialize (Heq c). unfold on_channel in *. rewrite omap_app in *. cbn [omap list_omap fst snd] in Heq.
    destruct (decide (ch = c)) as [->|]; [|done]. rewrite H3 in *. by injection Heq.
Qed.

Lemma collected_on_channel ch l : collected_on ch l = on_channel ch ((fun p => (pub_ch p, pub_data p)) <$> l).
Proof.
  unfold collected_on, on_channel. induction l as [|p l IH]; [done|]. cbn. by rewrite IH.
Qed.

(** C26: no broadcast is held up. The sends that broadcasts have begun and the loop that
    collects them cannot go on for ever without new broadcasts, in any order, and no
    broadcast panics; and as long as the handler is not closed, when nothing of this can go
    on any more, no send waits and each begun send was collected exactly once (to be
    published, unless its topic is gone or it does not marshal). *)
Theorem every_broadcast_published h0 :
  NewOutgoingChannelLoadBalancer true = Ok (outgoingCLB h0) ->
  well_founded og_internal
  /\ forall l s, og_run (og_start h0) l s ->
     (forall can channel topic buff key, is_Some (broadcast can (og_handler s) channel topic buff key))
     /\ (OClose ∉ l -> (forall s', ~ og_internal s' s) ->
         og_waiting s = [] /\ ((fun p => (pub_ch p, pub_data p)) <$> og_collected s) ≡ₚ og_accepted s).
Proof.
  intros Hn. pose proof (og_inv_start h0 Hn) as Hinv0. split; [apply internal_wf|]. intros l s Hr.
  pose proof (og_run_inv _ _ _ Hinv0 Hr) as Hinv. split.
  - intros can channel topic buff key. unfold broadcast, broadcastOnChannelBlocking, broadcastOnChannelBlockingUsingPrivateKey, send_on_channel.
    destruct (GetChannelOrDefault_total (og_clb s) channel (og_oplb _ Hinv)) as [ch Hch]. simpl. unfold og_clb in Hch. rewrite Hch.
    destruct key as [[pid sk]|]; [destruct (UnmarshalSecp256k1PrivateKey sk); [|by eexists]|];
      cbn [Buff]; destruct (checkSendableData buff); [by eexists| |by eexists|]; destruct can; by eexists.
  - intros Hopen Hrest. assert (Hgo : (forall ch, forwarders (og_clb s) !! ch <> Some Stopped) /\ ctxDone (og_clb s) = false).
    { eapply forwarders_go_on; [| |exact Hinv0|exact Hr|done];
        unfold og_clb; simpl; apply (inj Ok) in Hn as <-; [|done].
      intros ch. simpl. by destruct (decide (ch = 0%nat)) as [->|]; [rewrite lookup_insert_eq|rewrite lookup_insert_ne]. }
    assert (Hno : ~ (og_waiting s <> [] \/ exists ch, held (og_clb s) ch <> [])).
    { intros Hw. destruct (outgoing_progress s Hinv (proj1 Hgo) Hw) as [s' Hs]. by apply (Hrest s'). }
    assert (Hw : og_waiting s = []) by (destruct (og_waiting s); [done|by destruct Hno; left]).
    split; [done|]. etrans; [|apply (og_all _ Hinv)]. rewrite Hw, app_nil_r. apply on_channel_Permutation.
    intros ch. rewrite <- collected_on_channel, <- (og_fifo _ Hinv ch).
    destruct (held (og_clb s) ch) as [|x t] eqn:Hh; [by rewrite app_nil_r|]. destruct Hno. right. exists ch. by rewrite Hh.
Qed.

(** *** What arrives *)

Context (IDFromBytes : bytes -> result PeerID) (Process : P -> Message -> PeerID -> option error).
Context (order : gmap string P -> list (string * P)) `{!TopicMarshallerLaws m}.

(** A node that gets published bytes of the topic, from any neighbour, with its clock at
    most 600 seconds ahead and 20 seconds behind, hands the buffer to every processor of
    the topic, once, and passes the message on exactly when all of them accept it. *)
Definition delivers (published : bytes) (now : Z) (topic : string) (buff : bytes) : Prop :=
  forall (hr : handler) later l pid pb origin,
    pb_Data pb = Some published -> pb_Topic pb = Some topic -> IDFromBytes (sl (pb_From pb)) = Ok origin ->
    sane_time later -> unix later - 600 <= unix now <= unix later + 20 ->
    let procs := order (tp_processors (at_loc hr l)) in
    exists msg, DataField msg = Some buff /\ TopicField msg = topic /\ PeerField msg = origin
    /\ let ok := forallb (fun e => bool_decide (Process e.2 msg pid = None)) procs in
       pubsubCallback (K := K) IDFromBytes m Process order later hr l topic pid (Some pb)
       = (ok, hr, ((fun e => DoProcess e.2 e.1 msg pid) <$> procs)
            ++ [DoAddMessage (debugger hr) (negb (bool_decide (pid = mh_peerID hr))) topic (len published) (negb ok)]).

(** C5: the node publishes its broadcasts, faithfully and in order, in every interleaving of
    broadcasts, goroutines, topics that come and go and the other operations. On each
    channel, what was collected followed by what the channel's goroutine holds is what was
    sent on it, in this order; what was sent and what waits to be is what was begun, and
    each of it was asked for by a broadcast with this topic and buffer. For each that was
    collected, if the node had its topic at that time and its message marshals into
    something, these bytes were published on this topic, once, under the key of the
    broadcast, and nothing else was; otherwise nothing was published for it. And what was
    published is what every node delivers. *)
Theorem broadcasts_in_order h0 l s :
  NewOutgoingChannelLoadBalancer true = Ok (outgoingCLB h0) -> og_run (og_start h0) l s ->
  (forall ch, collected_on ch (og_collected s) ++ held (og_clb s) ch = on_channel ch (og_sent s))
  /\ og_sent s ++ og_waiting s ≡ₚ og_accepted s
  /\ (forall ch sd, (ch, sd) ∈ og_accepted s ->
       exists channel key, OBroadcast channel (sd_Topic sd) (Buff sd) key true ∈ l)
  /\ forall p, p ∈ og_collected s ->
       (pub_ch p, pub_data p) ∈ og_accepted s /\ pub_effects p = due p
       /\ forall th b key, DoPublish th b key ∈ pub_effects p ->
          delivers b (pub_now p) (sd_Topic (pub_data p)) (Buff (pub_data p)).
Proof.
  intros Hn Hr. pose proof (og_run_inv _ _ _ (og_inv_start h0 Hn) Hr) as Hinv.
  split_and!; [apply (og_fifo _ Hinv)|apply (og_all _ Hinv)|by apply (accepted_asked (og_start h0) l s)|].
  intros p Hp. assert (Hacc : (pub_ch p, pub_data p) ∈ og_accepted s).
  { rewrite <- (og_all _ Hinv). apply elem_of_app. left. apply elem_of_on_channel. rewrite <- (og_fifo _ Hinv).
    apply elem_of_app. left. rewrite collected_on_channel. apply elem_of_on_channel.
    apply list_elem_of_fmap. by exists p. }
  pose proof (og_due _ Hinv) as Hpub. rewrite Forall_forall in Hpub. pose proof (Hpub p Hp) as Heff.
  split_and!; [done|done|]. intros th b key He. rewrite Heff in He. destruct (due_made _ _ _ _ He) as (<- & Hne & _).
  intros hr later l' pid pb origin Hd Ht Hid Hlater Hwin procs.
  apply (published_received IDFromBytes m Process order (pub_now p)); try done.
  apply (createMessageBytes_Ok m); [by eapply og_sendable|by eapply near_in_s|done|done].
Qed.
End outgoing.

(** ** Examples *)

(** A node that creates the topic and broadcasts on it *)
Abbreviation demo_outgoing := (outgoing (K := Z) (P := string) (PS := gmap string nat) (E := gset string)).
Abbreviation demo_og_step := (og_step (K := Z) demo_checked (fun _ => Err (EExternal "no key")) (fun t => Ok t) (fun _ => None)).
Abbreviation demo_og_run := (og_run (K := Z) demo_checked (fun _ => Err (EExternal "no key")) (fun t => Ok t) (fun _ => None)).

Definition demo_sendable : SendableData Z :=
  {| Buff := to_bytes "hi"; sd_Topic := "transactions"; Sk := None; sd_ID := "alice" |}.

Definition demo_og1 : demo_outgoing :=
  with_og_handler (og_start demo_h0) (CreateTopic (fun t => Ok t) demo_h0 "transactions" true).2.
Definition demo_og2 : demo_outgoing := begin_sends demo_og1 [(1%nat, demo_sendable)].
Definition demo_og3 : demo_outgoing := {|
  og_handler := set_clb (og_handler demo_og2) (set_forwarder (og_clb demo_og2) 1 (Holding (Some demo_sendable)));
  og_accepted := og_accepted demo_og2; og_waiting := []; og_sent := [(1%nat, demo_sendable)]; og_collected := [] |}.
Definition demo_collection : collection (K := Z) (P := string) := {|
  pub_ch := 1%nat; pub_data := demo_sendable; pub_now := 7 * time_Second;
  pub_topics := {[ "transactions" := 12%nat ]}; pub_effects := [DoPublish 12 demo_published None] |}.
Definition demo_og4 : demo_outgoing := {|
  og_handler := set_clb (og_handler demo_og3) (set_forwarder (og_clb demo_og3) 1 Waiting);
  og_accepted := og_accepted demo_og3; og_waiting := []; og_sent := [(1%nat, demo_sendable)];
  og_collected := [demo_collection] |}.

Definition demo_og_labels : list og_label :=
  [OCreateTopic "transactions" true; OBroadcast "transactions" "transactions" (to_bytes "hi") None true; OSend 0;
   OPublish 1 (7 * time_Second)].

Lemma demo_og_runs : demo_og_run (og_start demo_h0) demo_og_labels demo_og4.
Proof.
  assert (R1 : demo_og_run (og_start demo_h0) (take 1 demo_og_labels) demo_og1).
  { apply (og_snoc _ _ _ _ _ [] _ _ _ (og_nil _ _ _ _ _)), og_create. }
  assert (R2 : demo_og_run (og_start demo_h0) (take 2 demo_og_labels) demo_og2).
  { eapply (og_snoc _ _ _ _ _ _ _ _ _ R1), (og_broadcast _ _ _ _ _ _ _ _ _ true None
      [DoStartProcessing; DoChanSend 1 demo_sendable; DoEndProcessing]). vm_compute. reflexivity. }
  assert (R3 : demo_og_run (og_start demo_h0) (take 3 demo_og_labels) demo_og3).
  { apply (og_snoc _ _ _ _ _ _ _ _ _ R2).
    apply (og_send _ _ _ _ demo_og2 0 1%nat demo_sendable (set_forwarder (og_clb demo_og2) 1 (Holding (Some demo_sendable)))
      eq_refl), step_send; [vm_compute; reflexivity|]. vm_compute. intros Hin. discriminate Hin. }
  apply (og_snoc _ _ _ _ _ _ _ _ _ R3).
  assert (Hp : [DoPublish 12 demo_published None]
    = processChannelLoadBalancer demo_checked (7 * time_Second)
        (set_clb (og_handler demo_og3) (set_forwarder (og_clb demo_og3) 1 Waiting)) (Some demo_sendable))
    by (vm_compute; reflexivity).
  assert (Ht : {[ "transactions" := 12%nat ]} = topics (og_handler demo_og3)) by (vm_compute; reflexivity).
  unfold demo_og4, demo_collection. rewrite Hp, Ht. apply (og_publish _ _ _ _ demo_og3 1%nat demo_sendable (7 * time_Second)), step_collect.
  vm_compute. reflexivity.
Qed.

Lemma broadcasts_in_order_witness :
  due (P := string) demo_checked demo_collection = [DoPublish 12 demo_published None]
  /\ delivers (K := Z) (P := string) (PS := gmap string nat) (E := gset string) demo_checked demo_IDFromBytes demo_Process
    map_to_list demo_published (7 * time_Second) "transactions" (to_bytes "hi").
Proof.
  destruct (broadcasts_in_order (K := Z) demo_checked (fun _ => Err (EExternal "no key")) (fun t => Ok t) (fun _ => None)
    demo_IDFromBytes demo_Process map_to_list demo_h0 demo_og_labels demo_og4) as (_ & _ & _ & Hp).
  - vm_compute. reflexivity.
  - apply demo_og_runs.
  - destruct (Hp demo_collection) as (_ & Hdue & Hd); [by apply list_elem_of_singleton|].
    split; [symmetry; exact Hdue|]. apply (Hd 12%nat demo_published None). by apply list_elem_of_singleton.
Defined.

Lemma every_broadcast_published_witness :
  ((fun p => (pub_ch p, pub_data p)) <$> og_collected demo_og4) ≡ₚ [(1%nat, demo_sendable)].
Proof.
  destruct (every_broadcast_published (K := Z) demo_checked (fun _ => Err (EExternal "no key")) (fun t => Ok t) (fun _ => None)
    demo_h0) as [_ Hl].
  - vm_compute. reflexivity.
  - destruct (Hl demo_og_labels demo_og4 demo_og_runs) as [_ Hrest]. apply Hrest.
    + intros Hin. repeat (apply elem_of_cons in Hin as [Hin|Hin]; [discriminate Hin|]). by apply elem_of_nil in Hin.
    + intros s' (ev & Hst & Hev). destruct Hst as [|i ch sd clb Hi Ho|ch sd now clb Ho| | | |]; try done.
      inversion Ho as [| |? ? Hw| | | | |]. subst.
      assert (Hf : forwarders (og_clb demo_og4) = <[0%nat := Waiting]> (<[1%nat := Waiting]> ∅)) by (vm_compute; reflexivity).
      rewrite Hf, !lookup_insert, lookup_empty in Hw. repeat case_decide; discriminate Hw.
Defined.
