(* ===== verification/ConnectionMonitor.v ===== *)
(** * The connection monitor

    p2p/libp2p/connectionMonitor/libp2pConnectionMonitorSimple.go: what happens
    when a connection opens or closes, the periodic check for denied peers, and
    the loop with its two timers that reconnects to the network, whose work takes
    time and can miss requests. *)

From S2P Require Import Prelude Errors Config Sharding PeersHolder Messages.
From stdpp Require Import list.
Open Scope Z_scope.

Definition durationBetweenReconnectAttempts : Z := time_Second * 5.
Definition durationCheckConnections : Z := time_Second.

(** ** Opening and closing connections *)

(** A libp2p connection, as far as the monitor reads it *)
Record NetConn := {
  nc_ID : string;
  nc_RemotePeer : PeerID;
  nc_RemoteMultiaddr : string;
}.

(** What the monitor does to the network, the watcher and its own loop *)
Inductive cm_effect :=
| DoNotify
| DoConnClose (id : string)
| DoNewKnownConnection (pid : PeerID) (connection : string)
| DoClosePeer (pid : PeerID)
| DoReconn.

#[export] Instance cm_effect_eq_decision : EqDecision cm_effect.
Proof. solve_decision. Defined.

(** The denial evaluator is replaced at run time: the disabled one at first. *)
Record libp2pConnectionMonitorSimple (E : Type) := {
  thresholdMinConnectedPeers : Z;  (* int *)
  lcms_sharder : Sharder;
  lcms_preferredPeersHolder : peersHolder;
  peerDenialEvaluator : disabledPeerDenialEvaluator + E;
}.
Arguments Build_libp2pConnectionMonitorSimple {E}.
Arguments thresholdMinConnectedPeers {E}.
Arguments lcms_sharder {E}.
Arguments lcms_preferredPeersHolder {E}.
Arguments peerDenialEvaluator {E}.

(** The arguments of the constructor; the reconnecters, the watcher, the network
    and the logger are only called, and tested for nil. *)
Record ArgsConnectionMonitorSimple := {
  acm_Reconnecters : list bool;
  acm_ThresholdMinConnectedPeers : Z;  (* uint32 *)
  acm_Sharder : option Sharder;
  acm_PreferredPeersHolder : option peersHolder;
  acm_ConnectionsWatcher : bool;
  acm_Network : bool;
  acm_Logger : bool;
}.

Section monitor.
Context {E : Type} `{PeerDenialEvaluator E}.
Context (Pretty : PeerID -> string).
Context (sort_Sort : list PeerDistance -> list PeerDistance).
(** [core.AllShardId] *)
Context (AllShardId : Z).
Implicit Types lcms : libp2pConnectionMonitorSimple E.

Definition NewLibp2pConnectionMonitorSimple (args : ArgsConnectionMonitorSimple)
    : result (libp2pConnectionMonitorSimple E * list cm_effect) :=
  guard_err (existsb negb (acm_Reconnecters args)) ErrNilReconnecter $
  match acm_Sharder args with
  | None => Err ErrNilSharder
  | Some sharder =>
      match acm_PreferredPeersHolder args with
      | None => Err ErrNilPreferredPeersHolder
      | Some holder =>
          guard_err (negb (acm_ConnectionsWatcher args)) ErrNilConnectionsWatcher $
          guard_err (negb (acm_Network args)) ErrNilNetwork $
          guard_err (negb (acm_Logger args)) ErrNilLogger $
          Ok ({| thresholdMinConnectedPeers := acm_ThresholdMinConnectedPeers args;
                 lcms_sharder := sharder; lcms_preferredPeersHolder := holder;
                 peerDenialEvaluator := inl DisabledPeerDenialEvaluator |}, [DoNotify])
      end
  end.

Definition set_holder lcms ph : libp2pConnectionMonitorSimple E := {|
  thresholdMinConnectedPeers := thresholdMinConnectedPeers lcms; lcms_sharder := lcms_sharder lcms;
  lcms_preferredPeersHolder := ph; peerDenialEvaluator := peerDenialEvaluator lcms |}.

Definition lcms_IsDenied lcms (pid : PeerID) : bool :=
  match peerDenialEvaluator lcms with
  | inl d => IsDenied d pid
  | inr e => IsDenied e pid
  end.

(** [Connected]; [allPeers] is [netw.Peers()]. *)
Definition Connected lcms (allPeers : list PeerID) (conn : NetConn)
    : libp2pConnectionMonitorSimple E * list cm_effect :=
  let pid := nc_RemotePeer conn in
  if lcms_IsDenied lcms pid then (lcms, [DoConnClose (nc_ID conn)])
  else
    let peerId := nc_RemotePeer conn in
    let connectionStr := nc_RemoteMultiaddr conn in
    let lcms := set_holder lcms
      (PutConnectionAddress AllShardId (lcms_preferredPeersHolder lcms) peerId connectionStr) in
    let evictedList := sh_ComputeEvictionList Pretty sort_Sort (lcms_sharder lcms) allPeers in
    (lcms, DoNewKnownConnection peerId connectionStr :: (DoClosePeer <$> evictedList)).

Definition lcms_IsConnectedToTheNetwork lcms (peers : list PeerID) : bool :=
  len peers >=? thresholdMinConnectedPeers lcms.

Definition doReconnectionIfNeeded lcms (peers : list PeerID) : list cm_effect :=
  if negb (lcms_IsConnectedToTheNetwork lcms peers) then [DoReconn] else [].

(** [Disconnected]; [None] is the panic of the holder's [Remove]. *)
Definition Disconnected lcms (peers : list PeerID) (conn : option NetConn)
    : option (libp2pConnectionMonitorSimple E * list cm_effect) :=
  lcms ← match conn with
         | Some conn =>
             ph ← Remove (lcms_preferredPeersHolder lcms) (nc_ID conn);
             Some (set_holder lcms ph)
         | None => Some lcms
         end;
  Some (lcms, doReconnectionIfNeeded lcms peers).

(** [netw] is nil or its list of peers. *)
Definition lcms_SetThresholdMinConnectedPeers lcms (threshold : Z) (netw : option (list PeerID))
    : libp2pConnectionMonitorSimple E * list cm_effect :=
  match netw with
  | None => (lcms, [])
  | Some peers =>
      let lcms := {| thresholdMinConnectedPeers := threshold; lcms_sharder := lcms_sharder lcms;
        lcms_preferredPeersHolder := lcms_preferredPeersHolder lcms;
        peerDenialEvaluator := peerDenialEvaluator lcms |} in
      (lcms, doReconnectionIfNeeded lcms peers)
  end.

Definition lcms_ThresholdMinConnectedPeers lcms : Z := thresholdMinConnectedPeers lcms.

Definition lcms_SetPeerDenialEvaluator lcms (handler : option E)
    : option error * libp2pConnectionMonitorSimple E :=
  match handler with
  | None => (Some (ErrNilPeerDenialEvaluator : error), lcms)
  | Some handler =>
      (None, {| thresholdMinConnectedPeers := thresholdMinConnectedPeers lcms;
                lcms_sharder := lcms_sharder lcms;
                lcms_preferredPeersHolder := lcms_preferredPeersHolder lcms;
                peerDenialEvaluator := inr handler |})
  end.

Definition lcms_PeerDenialEvaluator lcms : disabledPeerDenialEvaluator + E := peerDenialEvaluator lcms.

(** [checkConnectionsBlocking] on the peers of the network *)
Definition checkConnectionsBlocking lcms (peers : list PeerID) : list cm_effect :=
  DoClosePeer <$> filter (fun pid => lcms_IsDenied lcms pid = true) peers.

(** The peers that are left when the asked for closings are done *)
Definition after_closing (peers : list PeerID) (effects : list cm_effect) : list PeerID :=
  filter (fun p => DoClosePeer p ∉ effects) peers.

Lemma elem_of_DoClosePeer p (l : list PeerID) : DoClosePeer p ∈ (DoClosePeer <$> l) <-> p ∈ l.
Proof. rewrite list_elem_of_fmap. naive_solver. Qed.

Lemma after_closing_evicted peers pid connection (l : list PeerID) :
  after_closing peers (DoNewKnownConnection pid connection :: (DoClosePeer <$> l))
  = filter (fun p => p ∉ l) peers.
Proof.
  unfold after_closing. apply list_filter_iff. intros p.
  rewrite elem_of_cons, elem_of_DoClosePeer. naive_solver.
Qed.

(** Closing a connection asks for a reconnection exactly when too few peers
    are left, and it never makes a peer lose its preferred status: the holder
    is told the identifier of the connection instead of the peer's, so unless
    some peer has that identifier, the peer that left stays preferred. *)
Theorem Disconnected_keeps_preferred lcms peers conn lcms' effects :
  Disconnected lcms peers (Some conn) = Some (lcms', effects) ->
  (DoReconn ∈ effects <-> len peers < thresholdMinConnectedPeers lcms)
  /\ (Contains (lcms_preferredPeersHolder lcms) (nc_ID conn) = false ->
      lcms_preferredPeersHolder lcms' = lcms_preferredPeersHolder lcms
      /\ forall p, Contains (lcms_preferredPeersHolder lcms') p
                   = Contains (lcms_preferredPeersHolder lcms) p).
Proof.
  unfold Disconnected. simpl. destruct (Remove _ (nc_ID conn)) as [ph|] eqn:Hr; [|done].
  simpl. intros [= <- <-]. split.
  - unfold doReconnectionIfNeeded, lcms_IsConnectedToTheNetwork. simpl.
    destruct (_ >=? _) eqn:Hcmp; bdestruct_all; simpl; (split; [set_solver by lia|]); [lia|set_solver].
  - intros Hc. unfold Contains in Hc. apply bool_decide_eq_false in Hc.
    rewrite <- eq_None_not_Some in Hc. unfold Remove in Hr. rewrite Hc in Hr.
    by injection Hr as <-.
Qed.
Context `{!SortSort sort_Sort}.

Lemma remaining_bounded ls peers :
  ls_wf ls -> NoDup peers ->
  len (filter (fun p => counted Pretty ls p = true)
         (filter (fun p => p ∉ ComputeEvictionList Pretty sort_Sort ls peers) peers)) <= maxPeerCount ls.
Proof.
  intros Hwf Hnd. destruct (ComputeEvictionList_bounded Pretty sort_Sort ls peers Hwf)
    as (kept & Hp & Hle & _).
  set (ev := ComputeEvictionList Pretty sort_Sort ls peers) in *. clearbody ev.
  rewrite list_filter_filter. rewrite (list_filter_iff _ (fun p => p ∉ ev /\ counted Pretty ls p = true))
    by (intros; naive_solver).
  rewrite <- (list_filter_filter (fun p => p ∉ ev)), Hp, filter_app.
  rewrite (filter_none _ ev) by set_solver. rewrite app_nil_r.
  etrans; [apply len_filter|done].
Qed.

(** Opening a connection keeps the number of peers bounded. A peer that is
    denied has its connection closed, and nothing else happens. Otherwise it is
    reported to the watcher and to the preferred peers holder, only connected
    peers are closed, and of the peers that remain, those the lists sharder
    counts are at most its maximum. *)
Theorem Connected_spec lcms ls peers conn :
  lcms_sharder lcms = SLists ls -> ls_wf ls -> NoDup peers ->
  let '(lcms', effects) := Connected lcms peers conn in
  (lcms_IsDenied lcms (nc_RemotePeer conn) = true ->
     lcms' = lcms /\ effects = [DoConnClose (nc_ID conn)])
  /\ (lcms_IsDenied lcms (nc_RemotePeer conn) = false ->
      lcms_preferredPeersHolder lcms' = PutConnectionAddress AllShardId (lcms_preferredPeersHolder lcms)
        (nc_RemotePeer conn) (nc_RemoteMultiaddr conn)
      /\ DoNewKnownConnection (nc_RemotePeer conn) (nc_RemoteMultiaddr conn) ∈ effects
      /\ (forall p, DoClosePeer p ∈ effects -> p ∈ peers)
      /\ len (filter (fun p => counted Pretty ls p = true) (after_closing peers effects))
         <= maxPeerCount ls).
Proof.
  intros Hsh Hwf Hnd. unfold Connected. destruct (lcms_IsDenied lcms (nc_RemotePeer conn)); [done|].
  cbv zeta. cbn [lcms_sharder set_holder lcms_preferredPeersHolder]. rewrite Hsh.
  cbn [sh_ComputeEvictionList]. split; [done|]. intros _. split_and!.
  - done.
  - set_solver.
  - intros p [|Hp]%elem_of_cons; [done|]. apply elem_of_DoClosePeer in Hp.
    by apply (ComputeEvictionList_elem Pretty sort_Sort ls peers p Hwf).
  - rewrite after_closing_evicted. by apply remaining_bounded.
Qed.

End monitor.

(** ** The loop *)

(** A [time.Timer] as Go 1.20 has it: the time it fires at, and its channel,
    which holds one tick at most and is not drained by [Reset] *)
Record timer := {
  deadline : option Z;
  tick : bool;
}.

Definition timer_at (now : Z) (t : timer) : timer :=
  match deadline t with
  | Some d => if d <=? now then {| deadline := None; tick := true |} else t
  | None => t
  end.

Definition timer_Reset (now d : Z) (t : timer) : timer :=
  {| deadline := Some (now + d); tick := tick t |}.

Definition timer_receive (t : timer) : timer := {| deadline := deadline t; tick := false |}.

Record loop_state := {
  now : Z;
  timerCheckConnections : timer;
  timerBetweenReconnectAttempts : timer;
  canReconnect : bool;
}.

Definition processLoop_init (start : Z) : loop_state := {|
  now := start;
  timerCheckConnections := {| deadline := Some (start + durationCheckConnections); tick := false |};
  timerBetweenReconnectAttempts :=
    {| deadline := Some (start + durationBetweenReconnectAttempts); tick := false |};
  canReconnect := true |}.

(** [d] nanoseconds go by. *)
Definition time_passes (d : Z) (st : loop_state) : loop_state := {|
  now := now st + d;
  timerCheckConnections := timer_at (now st + d) (timerCheckConnections st);
  timerBetweenReconnectAttempts := timer_at (now st + d) (timerBetweenReconnectAttempts st);
  canReconnect := canReconnect st |}.

(** What the loop does next: it waits, or takes one of the ready branches of
    its select. Checking the connections and reconnecting take time. *)
Inductive loop_event :=
| Wait (d : Z)
| CheckConnections (duration : Z)
| DoReconnect (duration : Z)
| ReconnectTimer.

(** The state after the event, and whether the reconnecters were called; [None]
    when the branch is not ready. A sender on [chDoReconnect] is always
    possible, the notifications come at any time. *)
Definition processLoop_step (st : loop_state) (ev : loop_event) : option (loop_state * bool) :=
  match ev with
  | Wait d => if 0 <=? d then Some (time_passes d st, false) else None
  | CheckConnections d =>
      if (0 <=? d) && tick (timerCheckConnections st) then
        let st := time_passes d {| now := now st;
          timerCheckConnections := timer_receive (timerCheckConnections st);
          timerBetweenReconnectAttempts := timerBetweenReconnectAttempts st;
          canReconnect := canReconnect st |} in
        Some ({| now := now st;
                 timerCheckConnections :=
                   timer_Reset (now st) durationCheckConnections (timerCheckConnections st);
                 timerBetweenReconnectAttempts := timerBetweenReconnectAttempts st;
                 canReconnect := canReconnect st |}, false)
      else None
  | DoReconnect d =>
      if negb (0 <=? d) then None
      else if negb (canReconnect st) then Some (st, false)
      else
        let st := time_passes d st in
        Some ({| now := now st;
                 timerCheckConnections := timerCheckConnections st;
                 timerBetweenReconnectAttempts :=
                   timer_Reset (now st) durationBetweenReconnectAttempts (timerBetweenReconnectAttempts st);
                 canReconnect := false |}, true)
  | ReconnectTimer =>
      if tick (timerBetweenReconnectAttempts st) then
        Some ({| now := now st;
                 timerCheckConnections := timerCheckConnections st;
                 timerBetweenReconnectAttempts := timer_receive (timerBetweenReconnectAttempts st);
                 canReconnect := true |}, false)
      else None
  end.

Fixpoint processLoop_run (st : loop_state) (l : list loop_event) : option loop_state :=
  match l with
  | [] => Some st
  | ev :: l => '(st, _) ← processLoop_step st ev; processLoop_run st l
  end.

(** *** Requests and the loop

    The same loop with its work spread over time, so that requests can come
    while it is at work. *)

(** Where the loop is: in its select, in [checkConnectionsBlocking] or in
    [reconnectToNetwork] *)
Inductive monitor_phase := Selecting | Checking | Reconnecting.

#[export] Instance monitor_phase_eq_decision : EqDecision monitor_phase.
Proof. solve_decision. Defined.

(** The channel has no buffer: the send goes through when the loop is in its
    select, and otherwise the [default] branch drops the request. *)
Definition doReconn (phase : monitor_phase) : bool := bool_decide (phase = Selecting).

Inductive phase_event :=
| Elapse (d : Z)
| CheckTick
| Checked
| Request
| Reconnected
| AttemptTick.

#[export] Instance phase_event_eq_decision : EqDecision phase_event.
Proof. solve_decision. Defined.

Definition check_received (st : loop_state) : loop_state := {|
  now := now st; timerCheckConnections := timer_receive (timerCheckConnections st);
  timerBetweenReconnectAttempts := timerBetweenReconnectAttempts st; canReconnect := canReconnect st |}.

Definition check_reset (st : loop_state) : loop_state := {|
  now := now st;
  timerCheckConnections := timer_Reset (now st) durationCheckConnections (timerCheckConnections st);
  timerBetweenReconnectAttempts := timerBetweenReconnectAttempts st; canReconnect := canReconnect st |}.

Definition attempt_made (st : loop_state) : loop_state := {|
  now := now st; timerCheckConnections := timerCheckConnections st;
  timerBetweenReconnectAttempts :=
    timer_Reset (now st) durationBetweenReconnectAttempts (timerBetweenReconnectAttempts st);
  canReconnect := false |}.

Definition phase_step (s : loop_state * monitor_phase) (ev : phase_event) : option (loop_state * monitor_phase) :=
  let '(st, phase) := s in
  match ev, phase with
  | Elapse d, _ => if 0 <=? d then Some (time_passes d st, phase) else None
  | CheckTick, Selecting => if tick (timerCheckConnections st) then Some (check_received st, Checking) else None
  | Checked, Checking => Some (check_reset st, Selecting)
  | Request, _ => Some (st, if doReconn phase && canReconnect st then Reconnecting else phase)
  | Reconnected, Reconnecting => Some (attempt_made st, Selecting)
  | AttemptTick, Selecting =>
      match processLoop_step st ReconnectTimer with Some (st, _) => Some (st, Selecting) | None => None end
  | _, _ => None
  end.

Fixpoint phase_run (s : loop_state * monitor_phase) (l : list phase_event) : option (loop_state * monitor_phase) :=
  match l with
  | [] => Some s
  | ev :: l => s ← phase_step s ev; phase_run s l
  end.

(** Until the deadline, reconnecting is impossible and no tick is waiting. *)
Definition waits_until (d : Z) (st : loop_state) : Prop :=
  d <= now st
  \/ (canReconnect st = false
      /\ timerBetweenReconnectAttempts st = {| deadline := Some d; tick := false |}).

Lemma waits_time d e st : 0 <= e -> waits_until d st -> waits_until d (time_passes e st).
Proof.
  intros He [Hd|[Hc Ht]]; [left; simpl; lia|]. simpl. unfold waits_until. simpl. rewrite Ht.
  unfold timer_at. simpl. destruct (d <=? now st + e) eqn:E; bdestruct_all; [by left|by right].
Qed.

Lemma waits_step d st ev st' b :
  waits_until d st -> processLoop_step st ev = Some (st', b) -> waits_until d st'.
Proof.
  intros Hw. destruct ev as [e|e|e|]; unfold processLoop_step.
  - destruct (0 <=? e) eqn:E; [|done]. bdestruct_all. intros [= <- <-]. by apply waits_time.
  - destruct (_ && _) eqn:E; [|done]. bdestruct_all. intros [= <- <-].
    exact (waits_time d e {| now := now st;
      timerCheckConnections := timer_receive (timerCheckConnections st);
      timerBetweenReconnectAttempts := timerBetweenReconnectAttempts st;
      canReconnect := canReconnect st |} ltac:(done) Hw).
  - destruct (0 <=? e) eqn:E; [|done]. bdestruct_all. cbn [negb].
    destruct (canReconnect st) eqn:Hc; cbn [negb]; intros [= <- <-]; [|done].
    left. destruct Hw as [Hd|[Hc' _]]; [simpl; lia|congruence].
  - destruct (tick _) eqn:E; [|done]. intros [= <- <-].
    destruct Hw as [Hd|[_ Ht]]; [by left|]. by rewrite Ht in E.
Qed.

Lemma waits_run d l st st' :
  waits_until d st -> processLoop_run st l = Some st' -> waits_until d st'.
Proof.
  revert st. induction l as [|ev l IH]; intros st Hw; simpl; [by intros [= <-]|].
  destruct (processLoop_step st ev) as [[st1 b]|] eqn:Hs; simpl; [|done].
  intros Hr. eapply IH; [|exact Hr]. by eapply waits_step.
Qed.

(** C39: after the reconnecters were called, the loop calls them again only when
    five seconds have passed since they returned, provided that the timer
    between the attempts had no tick waiting in its channel when it was reset;
    if it had one (the timer fired while the reconnecters ran), the next
    attempt can follow at once. *)
Theorem reconnect_spacing st d st1 :
  processLoop_step st (DoReconnect d) = Some (st1, true) ->
  (tick (timerBetweenReconnectAttempts st1) = false ->
   forall l st2 d2 st3, processLoop_run st1 l = Some st2 ->
     processLoop_step st2 (DoReconnect d2) = Some (st3, true) ->
     now st1 + durationBetweenReconnectAttempts <= now st2)
  /\ (tick (timerBetweenReconnectAttempts st1) = true ->
      exists st2 st3, processLoop_run st1 [ReconnectTimer] = Some st2 /\ now st2 = now st1
        /\ processLoop_step st2 (DoReconnect 0) = Some (st3, true)).
Proof.
  unfold processLoop_step at 1. destruct (0 <=? d); [|done]. cbn [negb].
  destruct (canReconnect st); [|done]. cbn [negb]. intros [= <-]. split.
  - intros Htick l st2 d2 st3 Hrun Hrec.
    assert (Hw : waits_until (now st + d + durationBetweenReconnectAttempts) st2).
    { eapply waits_run; [|exact Hrun]. right. split; [done|]. simpl in *.
      unfold timer_Reset. by rewrite Htick. }
    unfold processLoop_step in Hrec. destruct (0 <=? d2); [|done]. cbn [negb] in Hrec.
    destruct Hw as [Hd|[Hc _]]; [exact Hd|]. by rewrite Hc in Hrec.
  - intros Htick. cbn [processLoop_run]. unfold processLoop_step at 1. simpl in *. rewrite Htick.
    cbn [mbind option_bind]. eexists _, _. split_and!; [done|done|].
    unfold processLoop_step. simpl. done.
Qed.

(** Time passes in one go or in two. *)
Lemma time_passes_add d e st : 0 <= e -> time_passes e (time_passes d st) = time_passes (d + e) st.
Proof.
  intros He. unfold time_passes. cbn [now timerCheckConnections timerBetweenReconnectAttempts canReconnect].
  assert (Ht : forall n t, timer_at (n + e) (timer_at n t) = timer_at (n + e) t).
  { intros n [[dl|] tk]; unfold timer_at; cbn [deadline tick]; [|done].
    destruct (dl <=? n) eqn:E1; bdestruct_all; cbn [deadline tick]; [|done].
    by rewrite (proj2 (Z.leb_le _ _)) by lia. }
  by rewrite !Ht, !Z.add_assoc.
Qed.

Lemma processLoop_run_app st l l' :
  processLoop_run st (l ++ l') = st' ← processLoop_run st l; processLoop_run st' l'.
Proof.
  revert st. induction l as [|ev l IH]; intros st; [done|]. simpl.
  destruct (processLoop_step st ev) as [[st' b]|]; [|done]. simpl. apply IH.
Qed.

(** No timer is late. *)
Definition on_time (st : loop_state) : Prop := time_passes 0 st = st.

Lemma timer_at_Reset n d t : 0 < d -> timer_at (n + 0) (timer_Reset n d t) = timer_Reset n d t.
Proof. intros Hd. unfold timer_at, timer_Reset. cbn [deadline]. by rewrite (proj2 (Z.leb_gt _ _)) by lia. Qed.

Lemma on_time_fields st :
  on_time st <-> timer_at (now st + 0) (timerCheckConnections st) = timerCheckConnections st
    /\ timer_at (now st + 0) (timerBetweenReconnectAttempts st) = timerBetweenReconnectAttempts st.
Proof.
  unfold on_time, time_passes. destruct st as [n t1 t2 c]. simpl. rewrite Z.add_0_r. split; [by intros [= -> ->]|].
  by intros [-> ->].
Qed.

Lemma timer_at_receive n t : timer_at n t = t -> timer_at n (timer_receive t) = timer_receive t.
Proof.
  destruct t as [[d|] tk]; unfold timer_at, timer_receive; simpl; [|done]. by destruct (d <=? n).
Qed.

Lemma on_time_passes d st : on_time (time_passes d st).
Proof. unfold on_time. by rewrite time_passes_add, Z.add_0_r. Qed.

Lemma on_time_steps st :
  on_time st -> on_time (check_received st) /\ on_time (check_reset st) /\ on_time (attempt_made st)
    /\ forall st' b, processLoop_step st ReconnectTimer = Some (st', b) -> on_time st'.
Proof.
  intros [H1 H2]%on_time_fields. split_and!; [..|intros st' b; unfold processLoop_step; destruct (tick _); [|done]; intros [= <- _]];
    apply on_time_fields; simpl; split; auto using timer_at_receive, timer_at_Reset.
  all: by apply timer_at_Reset.
Qed.

(** The coarse loop that the loop at work has followed, and what it will make of
    the work under way *)
Definition phase_sim (st0 : loop_state) (s : loop_state * monitor_phase) : Prop :=
  on_time s.1 /\ exists l st, processLoop_run st0 l = Some st
  /\ match s.2 with
     | Selecting => s.1 = st
     | Checking => tick (timerCheckConnections st) = true
                   /\ exists d, 0 <= d /\ s.1 = time_passes d (check_received st)
     | Reconnecting => canReconnect st = true /\ exists d, 0 <= d /\ s.1 = time_passes d st
     end.

Lemma phase_sim_extend st0 l st ev st1 b st' phase :
  processLoop_run st0 l = Some st -> processLoop_step st ev = Some (st1, b) -> on_time st' -> phase = Selecting ->
  st' = st1 -> phase_sim st0 (st', phase).
Proof.
  intros Hl Hs Hon -> ->. split; [done|]. exists (l ++ [ev]), st1. split; [|done].
  rewrite processLoop_run_app, Hl. simpl. by rewrite Hs.
Qed.

Lemma phase_sim_step st0 s ev s' : phase_sim st0 s -> phase_step s ev = Some s' -> phase_sim st0 s'.
Proof.
  intros [Hon (l & st & Hl & Hph)]. destruct s as [st1 phase]. cbn [fst snd] in *.
  destruct (on_time_steps _ Hon) as (O1 & O2 & O3 & O4).
  destruct ev as [d| | | | |], phase; simpl; try done.
  - destruct (0 <=? d) eqn:Hd; [|done]. intros [= <-]. subst st1.
    eapply (phase_sim_extend _ _ _ (Wait d)); eauto using on_time_passes. simpl. by rewrite Hd.
  - destruct (0 <=? d) eqn:Hd; [|done]. intros [= <-]. bdestruct_all. destruct Hph as (Ht & e & He & ->).
    split; [apply on_time_passes|]. exists l, st. cbn [fst snd]. split_and!; [done|done|]. exists (e + d).
    split; [lia|]. by apply time_passes_add.
  - destruct (0 <=? d) eqn:Hd; [|done]. intros [= <-]. bdestruct_all. destruct Hph as (Ht & e & He & ->).
    split; [apply on_time_passes|]. exists l, st. cbn [fst snd]. split_and!; [done|done|]. exists (e + d).
    split; [lia|]. by apply time_passes_add.
  - destruct (tick _) eqn:Ht; [|done]. intros [= <-]. subst st1. split; [done|]. exists l, st.
    cbn [fst snd]. split_and!; [done|done|]. exists 0. split; [done|]. by rewrite O1.
  - intros [= <-]. destruct Hph as (Ht & e & He & ->).
    eapply (phase_sim_extend _ _ _ (CheckConnections e)); [exact Hl| |done|done|].
    + unfold processLoop_step. by rewrite Ht, (proj2 (Z.leb_le 0 e)) by done.
    + done.
  - intros [= <-]. subst st1. destruct (canReconnect st) eqn:Hc; [|by split; [done|]; exists l, st].
    split; [done|]. exists l, st. cbn [fst snd]. split_and!; [done|done|]. exists 0. split; [done|]. by rewrite Hon.
  - intros [= <-]. split; [done|]. by exists l, st.
  - intros [= <-]. split; [done|]. by exists l, st.
  - intros [= <-]. destruct Hph as (Hc & e & He & ->).
    eapply (phase_sim_extend _ _ _ (DoReconnect e)); [exact Hl| |done|done|].
    + unfold processLoop_step. by rewrite Hc, (proj2 (Z.leb_le 0 e)) by done.
    + done.
  - assert (Hs : forall st2 b, processLoop_step st1 ReconnectTimer = Some (st2, b) -> phase_sim st0 (st2, Selecting)).
    { intros st2 b Hs. subst st1. eapply (phase_sim_extend _ _ _ ReconnectTimer); eauto. }
    unfold processLoop_step in Hs. destruct (tick _); [|done]. intros [= <-]. by eapply Hs.
Qed.

(** The loop at work refines the loop of [processLoop_step]: requests that find it
    at work leave no trace, and what it does between two selects is one of
    its steps. *)
Theorem phase_refines start l st' :
  phase_run (processLoop_init start, Selecting) l = Some (st', Selecting) ->
  exists l', processLoop_run (processLoop_init start) l' = Some st'.
Proof.
  set (st0 := processLoop_init start). assert (H0 : phase_sim st0 (st0, Selecting)).
  { split; [|by exists [], st0]. apply on_time_fields.
    by split; apply (timer_at_Reset start _ {| deadline := None; tick := false |}). }
  intros Hr. assert (Hs : phase_sim st0 (st', Selecting)).
  { revert H0 Hr. generalize (st0, Selecting) as s. induction l as [|ev l IH]; intros s Hs; simpl.
    - by intros [= ->].
    - destruct (phase_step s ev) as [s1|] eqn:Hst; [|done]. apply IH. by eapply phase_sim_step. }
  destruct Hs as [_ (l' & st & Hl & Hst)]. simpl in Hst. subst. by exists l'.
Qed.

(** A request that finds the loop at its checks is lost: no reconnection follows it
    until another request is made, however long the node waits. *)
Theorem lost_request st l s' :
  phase_run (st, Checking) (Request :: l) = Some s' -> Request ∉ l -> Reconnected ∉ l.
Proof.
  cbn [phase_run phase_step]. change (doReconn Checking) with false. cbn [andb mbind option_bind].
  assert (Hgen : forall l s s', s.2 <> Reconnecting -> phase_run s l = Some s' -> Request ∉ l -> Reconnected ∉ l);
    [|by apply (Hgen l (st, Checking))]. clear.
  induction l as [|ev l IH]; intros [st phase] s' Hp Hr Hn; [by intros ?%elem_of_nil|].
  apply not_elem_of_cons in Hn as [Hev Hn]. cbn [phase_run] in Hr.
  destruct (phase_step (st, phase) ev) as [s1|] eqn:Hst; [|done].
  assert (H1 : s1.2 <> Reconnecting /\ ev <> Reconnected).
  { destruct ev, phase; simpl in *; try done; try (destruct (_ <=? _)); try (destruct (tick _)); by simplify_eq. }
  destruct H1 as [H1 He]. apply not_elem_of_cons. split; [by intros <-|]. exact (IH s1 s' H1 Hr Hn).
Qed.

(** *** The end of the loop *)

(** The loop, whether its context is cancelled, and whether it has returned *)
Record running_loop := {
  rl_state : loop_state * monitor_phase;
  rl_cancelled : bool;
  rl_returned : bool;
}.

(** [Close] *)
Definition lcms_Close (rl : running_loop) : option error * running_loop :=
  (None, {| rl_state := rl_state rl; rl_cancelled := true; rl_returned := rl_returned rl |}).

(** The steps of the loop until it returns, which it can at its select when the context
    is cancelled; a request to a loop that has returned is dropped. *)
Inductive running_event := RlPhase (ev : phase_event) | RlClose | RlReturn.

Definition running_step (rl : running_loop) (ev : running_event) : option running_loop :=
  match ev with
  | RlPhase Request =>
      if rl_returned rl then Some rl
      else s ← phase_step (rl_state rl) Request;
           Some {| rl_state := s; rl_cancelled := rl_cancelled rl; rl_returned := false |}
  | RlPhase ev =>
      if rl_returned rl then None
      else s ← phase_step (rl_state rl) ev;
           Some {| rl_state := s; rl_cancelled := rl_cancelled rl; rl_returned := false |}
  | RlClose => Some (lcms_Close rl).2
  | RlReturn =>
      if rl_cancelled rl && negb (rl_returned rl) && bool_decide ((rl_state rl).2 = Selecting)
      then Some {| rl_state := rl_state rl; rl_cancelled := true; rl_returned := true |} else None
  end.

Fixpoint running_run (rl : running_loop) (l : list running_event) : option running_loop :=
  match l with
  | [] => Some rl
  | ev :: l => rl ← running_step rl ev; running_run rl l
  end.

(** A closed loop ends: when the work under way is done, it can return, and after that no
    event changes it, so that nobody is dialed or closed by it any more. *)
Theorem closed_loop_ends rl :
  rl_cancelled rl = true -> rl_returned rl = false ->
  (exists l rl', (length l <= 2)%nat /\ running_run rl l = Some rl' /\ rl_returned rl' = true)
  /\ forall rl1 l rl2, rl_returned rl1 = true -> rl_cancelled rl1 = true -> running_run rl1 l = Some rl2 -> rl2 = rl1.
Proof.
  intros Hc Hr. split.
  - assert (Hret : forall st, running_run {| rl_state := (st, Selecting); rl_cancelled := true; rl_returned := false |}
      [RlReturn] = Some {| rl_state := (st, Selecting); rl_cancelled := true; rl_returned := true |}) by done.
    destruct rl as [[st phase] c r]. simpl in Hc, Hr. subst. destruct phase.
    + exists [RlReturn]. eexists. split_and!; [simpl; lia|apply Hret|done].
    + exists [RlPhase Checked; RlReturn]. eexists. split_and!; [simpl; lia|apply (Hret (check_reset st))|done].
    + exists [RlPhase Reconnected; RlReturn]. eexists. split_and!; [simpl; lia|apply (Hret (attempt_made st))|done].
  - intros rl1 l. induction l as [|ev l IH]; intros rl2 Hr1 Hc1; cbn [running_run]; [by intros [= ->]|].
    assert (Hst : forall rl', running_step rl1 ev = Some rl' -> rl' = rl1).
    { intros rl'. destruct ev as [ev| |]; cbn [running_step]; rewrite ?Hr1.
      - destruct ev; try done; by intros [= <-].
      - intros [= <-]. destruct rl1. simpl in *. by subst.
      - by rewrite andb_false_r. }
    destruct (running_step rl1 ev) as [rl'|]; [|done]. rewrite (Hst rl' eq_refl). by apply IH.
Qed.

(** ** Examples *)

Definition demo_lcms : libp2pConnectionMonitorSimple disabledPeerDenialEvaluator := {|
  thresholdMinConnectedPeers := 3; lcms_sharder := SLists demo_ls;
  lcms_preferredPeersHolder := demo_full; peerDenialEvaluator := inl DisabledPeerDenialEvaluator |}.

Definition demo_netconn : NetConn := {|
  nc_ID := "conn-1"; nc_RemotePeer := "p1"; nc_RemoteMultiaddr := "/ip4/10.0.0.1/tcp/1" |}.

Lemma Connected_spec_witness :
  let '(lcms', effects) := Connected id (merge_sort dist_le) 99 demo_lcms demo_peers demo_netconn in
  len (filter (fun p => counted id demo_ls p = true) (after_closing demo_peers effects)) <= 6.
Proof.
  pose proof (Connected_spec id (merge_sort dist_le) 99 demo_lcms demo_ls demo_peers demo_netconn
    eq_refl demo_ls_wf ltac:(apply (bool_decide_unpack _); by vm_compute)) as H.
  destruct (Connected _ _ _ _ _ _) as [lcms' effects]. destruct H as [_ H].
  apply H. reflexivity.
Defined.

Lemma Disconnected_keeps_preferred_witness :
  exists lcms' effects, Disconnected demo_lcms ["p2"] (Some demo_netconn) = Some (lcms', effects)
    /\ DoReconn ∈ effects /\ Contains (lcms_preferredPeersHolder lcms') "p1" = true.
Proof.
  destruct (Disconnected demo_lcms ["p2"] (Some demo_netconn)) as [[lcms' effects]|] eqn:Hd;
    [|by vm_compute in Hd].
  destruct (Disconnected_keeps_preferred demo_lcms ["p2"] demo_netconn lcms' effects Hd) as [H1 H2].
  exists lcms', effects. split_and!; [done|apply H1; by vm_compute|].
  destruct H2 as [_ Hc]; [by vm_compute|]. rewrite Hc. by vm_compute.
Defined.

(** The reconnecters run from second 4 to second 6, so that the timer set at
    the start fires meanwhile. *)
Lemma reconnect_spacing_witness :
  exists st1 st2 st3,
    processLoop_step (time_passes (4 * time_Second) (processLoop_init 0)) (DoReconnect (2 * time_Second))
      = Some (st1, true)
    /\ processLoop_run st1 [ReconnectTimer] = Some st2 /\ now st2 = now st1
    /\ processLoop_step st2 (DoReconnect 0) = Some (st3, true).
Proof.
  destruct (processLoop_step (time_passes (4 * time_Second) (processLoop_init 0))
    (DoReconnect (2 * time_Second))) as [[st1 b]|] eqn:Hs; [|by vm_compute in Hs].
  assert (Hb : b = true) by (vm_compute in Hs; by injection Hs as _ <-). subst b.
  destruct (reconnect_spacing _ _ _ Hs) as [_ H].
  destruct H as (st2 & st3 & H1 & H2 & H3).
  - vm_compute in Hs. by injection Hs as <-.
  - by exists st1, st2, st3.
Defined.
