(* ===== verification/ConnectionsHandler.v ===== *)
(** * The connections handler

    p2p/libp2p/connectionsHandler.go: what the node knows of its peers. The
    host is a view of the network and the peerstore at the time of a call. *)

From S2P Require Import Prelude Errors Config Sharding PeersHolder Messages Topics ConnectionMonitor.
From stdpp Require Import list gmap pretty.
Open Scope Z_scope.

Definition timeBetweenPeerPrints : Z := time_Second * 20.
Definition kadProtocol : string := "/kad/1.0.0".

(** libp2p/netMessenger.go *)
Definition pollWaitForConnectionsInterval : Z := time_Second.

(** p2p/interface.go *)
Record ConnectedPeersInfo := {
  SelfShardID : Z;  (* uint32 *)
  UnknownPeers : list string;
  Seeders : list string;
  IntraShardValidators : gmap Z (list string);
  IntraShardObservers : gmap Z (list string);
  CrossShardValidators : gmap Z (list string);
  CrossShardObservers : gmap Z (list string);
  NumValidatorsOnShard : gmap Z Z;
  NumObserversOnShard : gmap Z Z;
  NumPreferredPeersOnShard : gmap Z Z;
  NumIntraShardValidators : Z;
  NumIntraShardObservers : Z;
  NumCrossShardValidators : Z;
  NumCrossShardObservers : Z;
}.

(** The network: the connected peers, the connections as pairs of the remote
    peer and address, the addresses of the connections to a peer, and the state
    [Connected] of a peer; the peerstore; the host's own addresses *)
Record HostView := {
  hv_Peers : list PeerID;
  hv_Conns : list (PeerID * string);
  hv_ConnsToPeer : PeerID -> list string;
  hv_Connectedness : PeerID -> bool;
  hv_StorePeers : list PeerID;
  hv_GetProtocols : PeerID -> result (list string);
  hv_StoreAddrs : PeerID -> list string;
  hv_AddressToPeerInfo : string -> result PeerID;
  hv_Addrs : list string;
  hv_ConnectToPeer : string -> option error;
}.

(** The arguments of the constructor; [None] and [false] are nil. *)
Record ArgConnectionsHandler (E : Type) := {
  ach_P2pHost : bool;
  ach_PeersOnChannel : option peersOnChannel;
  ach_PeerShardResolver : option PeerShardResolver;
  ach_Sharder : option Sharder;
  ach_PreferredPeersHolder : option peersHolder;
  ach_ConnMonitor : option (libp2pConnectionMonitorSimple E);
  ach_PeerDiscoverers : list bool;
  ach_PeerID : PeerID;
  ach_ConnectionsMetric : bool;
  ach_Logger : bool;
  ach_ProtocolIDs : list string;
}.
Arguments ach_P2pHost {E}.
Arguments ach_PeersOnChannel {E}.
Arguments ach_PeerShardResolver {E}.
Arguments ach_Sharder {E}.
Arguments ach_PreferredPeersHolder {E}.
Arguments ach_ConnMonitor {E}.
Arguments ach_PeerDiscoverers {E}.
Arguments ach_PeerID {E}.
Arguments ach_ConnectionsMetric {E}.
Arguments ach_Logger {E}.
Arguments ach_ProtocolIDs {E}.

Record connectionsHandler (E : Type) := {
  ch_peersOnChannel : peersOnChannel;
  ch_peerShardResolver : PeerShardResolver;
  ch_sharder : Sharder;
  ch_preferredPeersHolder : peersHolder;
  ch_connMonitor : libp2pConnectionMonitorSimple E;
  ch_peerID : PeerID;
  ch_protocolIDs : gset string;
}.
Arguments Build_connectionsHandler {E}.
Arguments ch_peersOnChannel {E}.
Arguments ch_peerShardResolver {E}.
Arguments ch_sharder {E}.
Arguments ch_preferredPeersHolder {E}.
Arguments ch_connMonitor {E}.
Arguments ch_peerID {E}.
Arguments ch_protocolIDs {E}.

Definition NewConnectionsHandler {E} (args : ArgConnectionsHandler E) : result (connectionsHandler E) :=
  guard_err (negb (ach_P2pHost args)) ErrNilHost $
  match ach_PeersOnChannel args, ach_PeerShardResolver args, ach_Sharder args,
        ach_PreferredPeersHolder args, ach_ConnMonitor args with
  | None, _, _, _, _ => Err ErrNilPeersOnChannel
  | _, None, _, _, _ => Err ErrNilPeerShardResolver
  | _, _, None, _, _ => Err ErrNilSharder
  | _, _, _, None, _ => Err ErrNilPreferredPeersHolder
  | _, _, _, _, None => Err ErrNilConnectionMonitor
  | Some poc, Some resolver, Some sharder, Some holder, Some monitor =>
      guard_err (existsb negb (ach_PeerDiscoverers args)) ErrNilPeerDiscoverer $
      guard_err (negb (ach_ConnectionsMetric args)) ErrNilConnectionsMetric $
      guard_err (negb (ach_Logger args)) ErrNilLogger $
      Ok {| ch_peersOnChannel := poc; ch_peerShardResolver := resolver; ch_sharder := sharder;
            ch_preferredPeersHolder := holder; ch_connMonitor := monitor;
            ch_peerID := ach_PeerID args;
            ch_protocolIDs := list_to_set ((fun id => id +:+ kadProtocol) <$> ach_ProtocolIDs args) |}
  end.

(** The discoverers' answers to [Bootstrap]; the last error is returned. *)
Definition Bootstrap (answers : list (option error)) : option error :=
  fold_left (fun lastError err => match err with Some _ => err | None => lastError end) answers None.

Section handler.
Context {E : Type}.
Context (Pretty : PeerID -> string).
Implicit Types (handler : connectionsHandler E) (host : HostView).

Definition Peers host : list PeerID := hv_StorePeers host.

Definition HasCompatibleProtocolID handler host (address : string) : bool :=
  match hv_AddressToPeerInfo host address with
  | Err _ => false
  | Ok id =>
      match hv_GetProtocols host id with
      | Err _ => false
      | Ok protocols => existsb (fun p => bool_decide (p ∈ ch_protocolIDs handler)) protocols
      end
  end.

Definition Addresses handler host : list string :=
  (fun address => address +:+ "/p2p/" +:+ Pretty (ch_peerID handler)) <$> hv_Addrs host.

Definition ConnectToPeer host (address : string) : option error := hv_ConnectToPeer host address.

Definition IsConnected host (peerID : PeerID) : bool := hv_Connectedness host peerID.

(** The loop of [ConnectedPeers], with the set of the peers already added *)
Fixpoint ConnectedPeers_loop host (connections : list (PeerID * string)) (result : list PeerID)
    (connectedPeersMap : gset PeerID) : list PeerID :=
  match connections with
  | [] => result
  | (p, _) :: connections =>
      if negb (IsConnected host p) then ConnectedPeers_loop host connections result connectedPeersMap
      else if bool_decide (p ∈ connectedPeersMap)
      then ConnectedPeers_loop host connections result connectedPeersMap
      else ConnectedPeers_loop host connections (result ++ [p]) ({[ p ]} ∪ connectedPeersMap)
  end.

Definition ConnectedPeers host : list PeerID := ConnectedPeers_loop host (hv_Conns host) [] ∅.

Definition ConnectedAddresses host : list string :=
  (fun c => c.2 +:+ "/p2p/" +:+ Pretty c.1) <$> hv_Conns host.

Definition PeerAddresses host (pid : PeerID) : list string :=
  match list_find (fun c => c.1 = pid) (hv_Conns host) with
  | Some (_, c) => [c.2]
  | None => []
  end ++ hv_StoreAddrs host pid.

Definition ConnectedPeersOnTopic (fetch : string -> list PeerID) (now : Z) handler (topic : string)
    : list PeerID * connectionsHandler E :=
  let '(peers, poc) := ConnectedPeersOnChannel fetch now (ch_peersOnChannel handler) topic in
  (peers, {| ch_peersOnChannel := poc; ch_peerShardResolver := ch_peerShardResolver handler;
             ch_sharder := ch_sharder handler; ch_preferredPeersHolder := ch_preferredPeersHolder handler;
             ch_connMonitor := ch_connMonitor handler; ch_peerID := ch_peerID handler;
             ch_protocolIDs := ch_protocolIDs handler |}).

Definition SetPeerShardResolver handler (peerShardResolver : option PeerShardResolver)
    : option error * connectionsHandler E :=
  match peerShardResolver with
  | None => (Some (ErrNilPeerShardResolver : error), handler)
  | Some resolver =>
      let '(sharder, err) := sh_SetPeerShardResolver (ch_sharder handler) peerShardResolver in
      let new resolver := {| ch_peersOnChannel := ch_peersOnChannel handler;
        ch_peerShardResolver := resolver; ch_sharder := sharder;
        ch_preferredPeersHolder := ch_preferredPeersHolder handler;
        ch_connMonitor := ch_connMonitor handler; ch_peerID := ch_peerID handler;
        ch_protocolIDs := ch_protocolIDs handler |} in
      match err with
      | Some err => (Some err, new (ch_peerShardResolver handler))
      | None => (None, new resolver)
      end
  end.

(** [m[k]++] and [m[k] = append(m[k], v)] *)
Definition incr (m : gmap Z Z) (k : Z) : gmap Z Z := <[k := default 0 (m !! k) + 1]> m.
Definition append_at (m : gmap Z (list string)) (k : Z) (v : string) : gmap Z (list string) :=
  <[k := map_get m k ++ [v]]> m.

Definition appendPeerInfo handler (peerInfo selfPeerInfo : P2PPeerInfo) (pid : PeerID)
    (i : ConnectedPeersInfo) (connString : string) : ConnectedPeersInfo :=
  let shard := ShardID peerInfo in
  let cross := negb (ShardID selfPeerInfo =? shard) in
  match PeerType peerInfo with
  | UnknownPeer =>
      let seeder := sh_IsSeeder Pretty (ch_sharder handler) pid in
      {| SelfShardID := SelfShardID i;
         UnknownPeers := if seeder then UnknownPeers i else UnknownPeers i ++ [connString];
         Seeders := if seeder then Seeders i ++ [connString] else Seeders i;
         IntraShardValidators := IntraShardValidators i; IntraShardObservers := IntraShardObservers i;
         CrossShardValidators := CrossShardValidators i; CrossShardObservers := CrossShardObservers i;
         NumValidatorsOnShard := NumValidatorsOnShard i; NumObserversOnShard := NumObserversOnShard i;
         NumPreferredPeersOnShard := NumPreferredPeersOnShard i;
         NumIntraShardValidators := NumIntraShardValidators i;
         NumIntraShardObservers := NumIntraShardObservers i;
         NumCrossShardValidators := NumCrossShardValidators i;
         NumCrossShardObservers := NumCrossShardObservers i |}
  | ValidatorPeer =>
      {| SelfShardID := SelfShardID i; UnknownPeers := UnknownPeers i; Seeders := Seeders i;
         IntraShardValidators := if cross then IntraShardValidators i
                                 else append_at (IntraShardValidators i) shard connString;
         IntraShardObservers := IntraShardObservers i;
         CrossShardValidators := if cross then append_at (CrossShardValidators i) shard connString
                                 else CrossShardValidators i;
         CrossShardObservers := CrossShardObservers i;
         NumValidatorsOnShard := incr (NumValidatorsOnShard i) shard;
         NumObserversOnShard := NumObserversOnShard i;
         NumPreferredPeersOnShard := NumPreferredPeersOnShard i;
         NumIntraShardValidators := if cross then NumIntraShardValidators i
                                    else NumIntraShardValidators i + 1;
         NumIntraShardObservers := NumIntraShardObservers i;
         NumCrossShardValidators := if cross then NumCrossShardValidators i + 1
                                    else NumCrossShardValidators i;
         NumCrossShardObservers := NumCrossShardObservers i |}
  | ObserverPeer =>
      {| SelfShardID := SelfShardID i; UnknownPeers := UnknownPeers i; Seeders := Seeders i;
         IntraShardValidators := IntraShardValidators i;
         IntraShardObservers := if cross then IntraShardObservers i
                                else append_at (IntraShardObservers i) shard connString;
         CrossShardValidators := CrossShardValidators i;
         CrossShardObservers := if cross then append_at (CrossShardObservers i) shard connString
                                else CrossShardObservers i;
         NumValidatorsOnShard := NumValidatorsOnShard i;
         NumObserversOnShard := incr (NumObserversOnShard i) shard;
         NumPreferredPeersOnShard := NumPreferredPeersOnShard i;
         NumIntraShardValidators := NumIntraShardValidators i;
         NumIntraShardObservers := if cross then NumIntraShardObservers i
                                   else NumIntraShardObservers i + 1;
         NumCrossShardValidators := NumCrossShardValidators i;
         NumCrossShardObservers := if cross then NumCrossShardObservers i + 1
                                   else NumCrossShardObservers i |}
  | OtherPeer _ => i
  end.

Definition count_preferred (i : ConnectedPeersInfo) (shard : Z) : ConnectedPeersInfo :=
  {| SelfShardID := SelfShardID i; UnknownPeers := UnknownPeers i; Seeders := Seeders i;
     IntraShardValidators := IntraShardValidators i; IntraShardObservers := IntraShardObservers i;
     CrossShardValidators := CrossShardValidators i; CrossShardObservers := CrossShardObservers i;
     NumValidatorsOnShard := NumValidatorsOnShard i; NumObserversOnShard := NumObserversOnShard i;
     NumPreferredPeersOnShard := incr (NumPreferredPeersOnShard i) shard;
     NumIntraShardValidators := NumIntraShardValidators i;
     NumIntraShardObservers := NumIntraShardObservers i;
     NumCrossShardValidators := NumCrossShardValidators i;
     NumCrossShardObservers := NumCrossShardObservers i |}.

Definition connString_of host (p : PeerID) : string :=
  match hv_ConnsToPeer host p with
  | [] => "[invalid connection string]"
  | addr :: _ => addr +:+ "/p2p/" +:+ Pretty p
  end.

(** The body of the loop of [GetConnectedPeersInfo] *)
Definition GetConnectedPeersInfo_step handler host (selfPeerInfo : P2PPeerInfo)
    (connPeerInfo : ConnectedPeersInfo) (p : PeerID) : ConnectedPeersInfo :=
  let connString := connString_of host p in
  let peerInfo := ch_peerShardResolver handler p in
  let connPeerInfo := appendPeerInfo handler peerInfo selfPeerInfo p connPeerInfo connString in
  if Contains (ch_preferredPeersHolder handler) p then count_preferred connPeerInfo (ShardID peerInfo)
  else connPeerInfo.

Definition GetConnectedPeersInfo handler host : ConnectedPeersInfo :=
  let selfPeerInfo := ch_peerShardResolver handler (ch_peerID handler) in
  fold_left (GetConnectedPeersInfo_step handler host selfPeerInfo) (hv_Peers host)
    {| SelfShardID := ShardID selfPeerInfo; UnknownPeers := []; Seeders := [];
       IntraShardValidators := ∅; IntraShardObservers := ∅; CrossShardValidators := ∅;
       CrossShardObservers := ∅; NumValidatorsOnShard := ∅; NumObserversOnShard := ∅;
       NumPreferredPeersOnShard := ∅; NumIntraShardValidators := 0; NumIntraShardObservers := 0;
       NumCrossShardValidators := 0; NumCrossShardObservers := 0 |}.

Definition IsConnectedToTheNetwork handler host : bool :=
  lcms_IsConnectedToTheNetwork (ch_connMonitor handler) (hv_Peers host).

Definition set_monitor handler m : connectionsHandler E := {|
  ch_peersOnChannel := ch_peersOnChannel handler; ch_peerShardResolver := ch_peerShardResolver handler;
  ch_sharder := ch_sharder handler; ch_preferredPeersHolder := ch_preferredPeersHolder handler;
  ch_connMonitor := m; ch_peerID := ch_peerID handler; ch_protocolIDs := ch_protocolIDs handler |}.

Definition SetThresholdMinConnectedPeers handler host (minConnectedPeers : Z)
    : option error * connectionsHandler E * list cm_effect :=
  if minConnectedPeers <? 0 then (Some (ErrInvalidValue : error), handler, [])
  else
    let '(m, effects) :=
      lcms_SetThresholdMinConnectedPeers (ch_connMonitor handler) minConnectedPeers (Some (hv_Peers host)) in
    (None, set_monitor handler m, effects).

Definition ch_ThresholdMinConnectedPeers handler : Z :=
  lcms_ThresholdMinConnectedPeers (ch_connMonitor handler).

Definition SetPeerDenialEvaluator handler (e : option E) : option error * connectionsHandler E :=
  let '(err, m) := lcms_SetPeerDenialEvaluator (ch_connMonitor handler) e in (err, set_monitor handler m).

(** What closing the peers on channel and the monitor return *)
Definition ch_Close (errPoc errConnMonitor : option error) : option error :=
  let err := errPoc in
  match errConnMonitor with Some _ => errConnMonitor | None => err end.

(** [WaitForConnections]: [connectedAt t] is the number of connected peers [t]
    after the start. One turn of the loop waits for the poll interval unless
    the waiting time is over before; when both end together Go chooses,
    [tie] being the choice. The answer is the time waited. *)
Fixpoint waitForConnections (connectedAt : Z -> Z) (tie : bool) (maxWaitingTime minNumOfPeers : Z)
    (fuel : nat) (elapsed : Z) : option Z :=
  match fuel with
  | O => None
  | S fuel =>
      let pollEnd := elapsed + pollWaitForConnectionsInterval in
      if (maxWaitingTime <? pollEnd) || ((maxWaitingTime =? pollEnd) && tie) then Some (Z.max elapsed maxWaitingTime)
      else if minNumOfPeers <=? connectedAt pollEnd then Some pollEnd
      else waitForConnections connectedAt tie maxWaitingTime minNumOfPeers fuel pollEnd
  end.

Definition WaitForConnections (connectedAt : Z -> Z) (tie : bool) (maxWaitingTime minNumOfPeers : Z)
    (fuel : nat) : option Z :=
  if minNumOfPeers =? 0 then Some (Z.max 0 maxWaitingTime)
  else waitForConnections connectedAt tie maxWaitingTime minNumOfPeers fuel 0.

(** [core.MetachainShardId] *)
Context (MetachainShardId : Z).

Definition mapHistogram (input : gmap Z Z) : string :=
  let keys := merge_sort Z.le (map_to_list input).*1 in
  let vals := (fun key =>
    let shard := if key =? MetachainShardId then "meta" else "shard " +:+ pretty key in
    shard +:+ ": " +:+ pretty (default 0 (input !! key))) <$> keys in
  String.concat ", " vals.

(** What [printConnectionsStatus] logs, from the two counters it resets:
    connections and disconnections per second and the three histograms *)
Definition printConnectionsStatus handler host (conns disconns : Z) : (Z * Z) * list string :=
  let peersInfo := GetConnectedPeersInfo handler host in
  ((conns / wrapu 32 (timeBetweenPeerPrints / time_Second),
    disconns / wrapu 32 (timeBetweenPeerPrints / time_Second)),
   [mapHistogram (NumValidatorsOnShard peersInfo);
    mapHistogram (NumObserversOnShard peersInfo);
    mapHistogram (NumPreferredPeersOnShard peersInfo)]).
End handler.

(** ** The connected peers *)

Section facts.
Context {E : Type}.
Context (Pretty : PeerID -> string).
Implicit Types (handler : connectionsHandler E) (host : HostView).

Lemma ConnectedPeers_loop_spec host connections result (seen : gset PeerID) :
  NoDup result -> (forall p, p ∈ seen <-> p ∈ result) ->
  (forall p, p ∈ result -> IsConnected host p = true) ->
  let r := ConnectedPeers_loop host connections result seen in
  NoDup r /\ (exists r', r = result ++ r')
  /\ forall p, p ∈ r <-> p ∈ result \/ (p ∈ connections.*1 /\ IsConnected host p = true).
Proof.
  revert result seen. induction connections as [|[q a] cs IH]; intros result seen Hnd Hseen Hc;
    cbn [ConnectedPeers_loop]; cbv zeta.
  { split_and!; [done|exists []; by rewrite app_nil_r|set_solver]. }
  destruct (IsConnected host q) eqn:Hq; cbn [negb].
  2: { destruct (IH result seen Hnd Hseen Hc) as (H1 & H2 & H3). split_and!; [done|done|].
       intros p. rewrite H3. rewrite fmap_cons, elem_of_cons. simpl. naive_solver congruence. }
  case_bool_decide as Hin.
  - destruct (IH result seen Hnd Hseen Hc) as (H1 & H2 & H3). split_and!; [done|done|].
    intros p. rewrite H3, fmap_cons, elem_of_cons. simpl. apply Hseen in Hin. naive_solver.
  - destruct (IH (result ++ [q]) ({[ q ]} ∪ seen)) as (H1 & (r' & H2) & H3).
    + apply NoDup_app. split_and!; [done| |apply NoDup_singleton].
      intros p Hp ->%list_elem_of_singleton. by apply Hin, Hseen.
    + intros p. rewrite elem_of_union, elem_of_singleton, Hseen, elem_of_app, list_elem_of_singleton. naive_solver.
    + intros p [Hp| ->%list_elem_of_singleton]%elem_of_app; [by apply Hc|done].
    + cbv zeta in *. split_and!; [done|exists (q :: r'); rewrite H2; by rewrite <- app_assoc|].
      intros p. rewrite H3, fmap_cons, elem_of_cons, elem_of_app, list_elem_of_singleton. simpl. naive_solver.
Qed.

(** The connected peers are the peers at the other end of a connection that
    are in the connected state, each listed once. *)
Theorem ConnectedPeers_spec host :
  NoDup (ConnectedPeers host)
  /\ forall p, p ∈ ConnectedPeers host
       <-> (exists addr, (p, addr) ∈ hv_Conns host) /\ IsConnected host p = true.
Proof.
  destruct (ConnectedPeers_loop_spec host (hv_Conns host) [] ∅) as (H1 & _ & H2);
    [apply NoDup_nil_2|set_solver|set_solver|].
  split; [done|]. intros p. unfold ConnectedPeers. rewrite H2, list_elem_of_fmap. split.
  - intros [?%elem_of_nil|[([q a] & -> & Hq) Hc]]; [done|]. eauto.
  - intros [[a Ha] Hc]. right. split; [|done]. by exists (p, a).
Qed.

(** ** The classification of the peers *)

Lemma filter_snoc {A} (P : A -> Prop) `{!forall x, Decision (P x)} l x :
  filter P (l ++ [x]) = filter P l ++ (if decide (P x) then [x] else []).
Proof. rewrite filter_app, filter_cons, filter_nil. by case_decide. Qed.

Lemma map_get_append_at m k v k' :
  map_get (append_at m k v) k' = map_get m k' ++ (if decide (k = k') then [v] else []).
Proof.
  unfold append_at. rewrite map_get_insert. case_decide; [by subst|by rewrite app_nil_r].
Qed.

Definition count_at (m : gmap Z Z) (k : Z) : Z := default 0 (m !! k).

Lemma count_at_incr m k k' : count_at (incr m k) k' = count_at m k' + (if decide (k = k') then 1 else 0).
Proof.
  unfold count_at, incr. rewrite lookup_insert. case_decide; [by subst|lia].
Qed.

Lemma len_if (P : Prop) `{!Decision P} {A} (x : A) :
  len (if decide P then [x] else []) = if decide P then 1 else 0.
Proof. by case_decide. Qed.

Section classification.
Context (handler : connectionsHandler E) (host : HostView) (self : P2PPeerInfo).

Abbreviation info p := (ch_peerShardResolver handler p).
Abbreviation conn := (connString_of Pretty host).
Abbreviation is_seeder p := (sh_IsSeeder Pretty (ch_sharder handler) p).

(** The peers of a kind, of a kind and shard *)
Definition of_kind (k : P2PPeerType) (peers : list PeerID) : list PeerID :=
  filter (fun p => PeerType (info p) = k) peers.
Definition on_shard (k : P2PPeerType) (s : Z) (peers : list PeerID) : list PeerID :=
  filter (fun p => PeerType (info p) = k /\ ShardID (info p) = s) peers.

(** What the structure says of a list of peers: [SelfShardID] apart, every list
    and counter is the list or number of the peers of its class. *)
Record info_spec (peers : list PeerID) (i : ConnectedPeersInfo) : Prop := {
  is_unknown : UnknownPeers i = conn <$> filter (fun p => PeerType (info p) = UnknownPeer /\ is_seeder p = false) peers;
  is_seeders : Seeders i = conn <$> filter (fun p => PeerType (info p) = UnknownPeer /\ is_seeder p = true) peers;
  is_intra_validators s : map_get (IntraShardValidators i) s
    = if decide (ShardID self = s) then conn <$> on_shard ValidatorPeer s peers else [];
  is_cross_validators s : map_get (CrossShardValidators i) s
    = if decide (ShardID self = s) then [] else conn <$> on_shard ValidatorPeer s peers;
  is_intra_observers s : map_get (IntraShardObservers i) s
    = if decide (ShardID self = s) then conn <$> on_shard ObserverPeer s peers else [];
  is_cross_observers s : map_get (CrossShardObservers i) s
    = if decide (ShardID self = s) then [] else conn <$> on_shard ObserverPeer s peers;
  is_num_validators s : count_at (NumValidatorsOnShard i) s = len (on_shard ValidatorPeer s peers);
  is_num_observers s : count_at (NumObserversOnShard i) s = len (on_shard ObserverPeer s peers);
  is_num_preferred s : count_at (NumPreferredPeersOnShard i) s
    = len (filter (fun p => Contains (ch_preferredPeersHolder handler) p = true /\ ShardID (info p) = s) peers);
  is_num_intra_validators : NumIntraShardValidators i = len (on_shard ValidatorPeer (ShardID self) peers);
  is_num_intra_observers : NumIntraShardObservers i = len (on_shard ObserverPeer (ShardID self) peers);
  is_num_cross_validators :
    NumCrossShardValidators i + NumIntraShardValidators i = len (of_kind ValidatorPeer peers);
  is_num_cross_observers :
    NumCrossShardObservers i + NumIntraShardObservers i = len (of_kind ObserverPeer peers);
}.

(** One more peer: the class of its kind gets it, the others do not. *)
Ltac classify H :=
  destruct H; split; intros; simpl in *;
  unfold on_shard, of_kind, GetConnectedPeersInfo_step, appendPeerInfo in *;
  rewrite ?filter_snoc, ?fmap_app, ?len_app, ?len_if;
  repeat (case_decide; destruct_and?; try congruence);
  repeat match goal with
  | H : forall s : Z, _ = _ |- _ => rewrite ?map_get_append_at, ?count_at_incr, ?H; clear H
  end;
  repeat (case_decide; try congruence);
  rewrite ?app_nil_r, ?Z.add_0_r; simpl;
  solve [done | congruence | lia | naive_solver (congruence || lia)].

Lemma GetConnectedPeersInfo_step_spec peers i p :
  info_spec peers i -> info_spec (peers ++ [p]) (GetConnectedPeersInfo_step Pretty handler host self i p).
Proof.
  intros H. unfold GetConnectedPeersInfo_step, appendPeerInfo.
  destruct (PeerType (info p)) eqn:Ht.
  - destruct (is_seeder p) eqn:Hs, (Contains (ch_preferredPeersHolder handler) p) eqn:Hc; classify H.
  - destruct (ShardID self =? ShardID (info p)) eqn:Hs, (Contains (ch_preferredPeersHolder handler) p) eqn:Hc;
      bdestruct_all; classify H.
  - destruct (ShardID self =? ShardID (info p)) eqn:Hs, (Contains (ch_preferredPeersHolder handler) p) eqn:Hc;
      bdestruct_all; classify H.
  - destruct (Contains (ch_preferredPeersHolder handler) p) eqn:Hc; classify H.
Qed.

Lemma GetConnectedPeersInfo_fold peers i0 :
  info_spec [] i0 ->
  info_spec peers (fold_left (GetConnectedPeersInfo_step Pretty handler host self) peers i0).
Proof.
  intros H0. induction peers as [|p peers IH] using rev_ind; [done|].
  rewrite fold_left_app. simpl. by apply GetConnectedPeersInfo_step_spec.
Qed.

(** Peers of the three kinds are counted once. *)
Lemma kinds_total peers :
  Forall (fun p => PeerType (info p) = UnknownPeer \/ PeerType (info p) = ValidatorPeer
                   \/ PeerType (info p) = ObserverPeer) peers ->
  len (filter (fun p => PeerType (info p) = UnknownPeer /\ is_seeder p = false) peers)
  + len (filter (fun p => PeerType (info p) = UnknownPeer /\ is_seeder p = true) peers)
  + len (of_kind ValidatorPeer peers) + len (of_kind ObserverPeer peers) = len peers.
Proof.
  induction 1 as [|p peers Hp _ IH]; [done|]. unfold of_kind in *. rewrite !filter_cons.
  rewrite len_cons, <- IH. destruct Hp as [Hp|[Hp|Hp]]; rewrite Hp; destruct (is_seeder p);
    repeat first [rewrite decide_True by (by split) | rewrite decide_True by done
                 | rewrite decide_False by (by intros [??]) | rewrite decide_False by done];
    rewrite ?len_cons; lia.
Qed.
End classification.

(** The connected peers are classified correctly: the unknown peers and the
    seeders among them, the validators and observers by shard, of the node's own
    shard or of another one, each list in the order of the network and each
    counter the number of the peers of its class, the preferred ones too; and
    when every peer has one of the three kinds, the classes add up to all peers. *)
Theorem GetConnectedPeersInfo_spec handler host :
  let i := GetConnectedPeersInfo Pretty handler host in
  let self := ch_peerShardResolver handler (ch_peerID handler) in
  SelfShardID i = ShardID self
  /\ info_spec handler host self (hv_Peers host) i
  /\ (Forall (fun p => PeerType (ch_peerShardResolver handler p) = UnknownPeer
                       \/ PeerType (ch_peerShardResolver handler p) = ValidatorPeer
                       \/ PeerType (ch_peerShardResolver handler p) = ObserverPeer) (hv_Peers host) ->
      len (UnknownPeers i) + len (Seeders i)
      + NumIntraShardValidators i + NumCrossShardValidators i
      + NumIntraShardObservers i + NumCrossShardObservers i = len (hv_Peers host)).
Proof.
  cbv zeta. set (self := ch_peerShardResolver handler (ch_peerID handler)).
  assert (Hspec : info_spec handler host self (hv_Peers host) (GetConnectedPeersInfo Pretty handler host)).
  { unfold GetConnectedPeersInfo. apply GetConnectedPeersInfo_fold.
    split; intros; simpl; unfold count_at; rewrite ?map_get_empty, ?lookup_empty; repeat case_decide; done. }
  split_and!; [|done|].
  - unfold GetConnectedPeersInfo. fold self. generalize (hv_Peers host).
    assert (Hself : forall peers i,
      SelfShardID (fold_left (GetConnectedPeersInfo_step Pretty handler host self) peers i) = SelfShardID i).
    { intros peers. induction peers as [|p peers IH]; intros i; [done|]. simpl. rewrite IH.
      unfold GetConnectedPeersInfo_step, appendPeerInfo.
      destruct (PeerType _), (Contains _ p); done. }
    intros peers. by rewrite Hself.
  - intros Hk. pose proof (kinds_total handler (hv_Peers host) Hk) as Ht. destruct Hspec.
    rewrite is_unknown0, is_seeders0. unfold len at 1 2. rewrite !length_fmap. unfold len in *. lia.
Qed.

(** ** Waiting *)

Lemma waitForConnections_spec connectedAt tie maxWait minNum fuel elapsed :
  0 <= elapsed <= maxWait ->
  maxWait - elapsed <= Z.of_nat fuel * pollWaitForConnectionsInterval ->
  exists t, waitForConnections connectedAt tie maxWait minNum (S fuel) elapsed = Some t
    /\ elapsed <= t <= maxWait
    /\ (t = maxWait \/ minNum <= connectedAt t)
    /\ (forall j, 0 < j -> elapsed + j * pollWaitForConnectionsInterval < t ->
          connectedAt (elapsed + j * pollWaitForConnectionsInterval) < minNum).
Proof.
  unfold pollWaitForConnectionsInterval, time_Second.
  revert elapsed. induction fuel as [|fuel IH]; intros elapsed He Hf; cbn [waitForConnections];
    unfold pollWaitForConnectionsInterval, time_Second.
  - rewrite (proj2 (Z.ltb_lt _ _)) by lia. exists maxWait. simpl.
    split_and!; [f_equal; lia|lia|lia|by left|]. intros j Hj Hlt. lia.
  - destruct (_ || _) eqn:Hm.
    + exists maxWait. split_and!; [f_equal; lia|lia|lia|by left|].
      intros j Hj Hlt. apply orb_true_iff in Hm as [Hm|Hm]; bdestruct_all; nia.
    + bdestruct_all. destruct (minNum <=? _) eqn:Hc; bdestruct_all.
      * exists (elapsed + 1000000000). split_and!; [done|lia|lia|by right|].
        intros j Hj Hlt. nia.
      * destruct (IH (elapsed + 1000000000)) as (t & Ht & Hb & Hor & Hall); [lia|lia|].
        exists t. split_and!; [exact Ht|lia|lia|done|]. intros j Hj Hlt.
        destruct (decide (j = 1)) as [->|Hj1]; [by rewrite Z.mul_1_l|].
        specialize (Hall (j - 1) ltac:(lia)).
        replace (elapsed + 1000000000 + (j - 1) * 1000000000) with (elapsed + j * 1000000000) in Hall by lia.
        by apply Hall.
Qed.

(** C38: waiting for connections ends: it never lasts longer than the maximum
    waiting time; when it ends before, enough peers were connected at a poll,
    and at every earlier poll there were too few; with no minimum it waits for
    the whole time. One unit of fuel per poll and one more are enough. *)
Theorem WaitForConnections_terminates connectedAt tie maxWait minNum fuel :
  0 <= maxWait -> maxWait <= Z.of_nat fuel * pollWaitForConnectionsInterval ->
  exists t, WaitForConnections connectedAt tie maxWait minNum (S fuel) = Some t
    /\ 0 <= t <= maxWait
    /\ (minNum = 0 -> t = maxWait)
    /\ (t = maxWait \/ minNum <= connectedAt t)
    /\ (minNum <> 0 -> forall j, 0 < j -> j * pollWaitForConnectionsInterval < t ->
          connectedAt (j * pollWaitForConnectionsInterval) < minNum).
Proof.
  intros Hm Hf. unfold WaitForConnections. destruct (minNum =? 0) eqn:E0; bdestruct_all.
  - exists maxWait. split_and!; [f_equal; lia|lia|lia|done|by left|done].
  - destruct (waitForConnections_spec connectedAt tie maxWait minNum fuel 0) as (t & Ht & Hb & Hor & Hall);
      [lia|lia|].
    exists t. split_and!; [done|lia|lia|done|done|]. intros _ j Hj Hlt. by apply (Hall j Hj).
Qed.
End facts.

(** Two peers arrive during the second second. *)
Lemma WaitForConnections_terminates_witness :
  let connectedAt t := if t <? 1500000000 then 0 else 2 in
  exists t, WaitForConnections connectedAt true 5000000000 2 6 = Some t
    /\ 0 <= t <= 5000000000
    /\ (2 = 0 -> t = 5000000000)
    /\ (t = 5000000000 \/ 2 <= connectedAt t)
    /\ (2 <> 0 -> forall j, 0 < j -> j * pollWaitForConnectionsInterval < t ->
          connectedAt (j * pollWaitForConnectionsInterval) < 2).
Proof.
  intros connectedAt. apply (WaitForConnections_terminates connectedAt true 5000000000 2 5);
    [lia|unfold pollWaitForConnectionsInterval, time_Second; lia].
Defined.
