(* ===== verification/Protobuf.v ===== *)
(** * The protocol buffers wire format

    The routines that protoc's gogo generator repeats, with the name of the
    message as a suffix, in websocket/data/wsMessage.pb.go,
    p2p/data/topicMessage.pb.go and p2p/message/peerShardMessage.pb.go:
    variable length integers, the writing of a field from the end of a buffer,
    the reading of a field, the skipping of an unknown one and the loop of
    [Unmarshal]. WireMessages.v instantiates them for the three messages. *)

From S2P Require Import Prelude Errors.
From stdpp Require Import list.
Open Scope Z_scope.

(** ** Errors *)

Definition ErrInvalidLength : error := EExternal "proto: negative length found during unmarshaling".
Definition ErrIntOverflow : error := EExternal "proto: integer overflow".
Definition ErrUnexpectedEndOfGroup : error := EExternal "proto: unexpected end of group".
Definition io_ErrUnexpectedEOF : error := EExternal "unexpected EOF".

(** ** Writing *)

(** [math/bits.Len64] *)
Definition Len64 (x : Z) : Z := if x =? 0 then 0 else Z.log2 x + 1.

Definition sov (x : Z) : Z := (Len64 (Z.lor x 1) + 6) / 7.

(** [dAtA[i] = b] and [copy(dAtA[i:], src)]; [None] is the panic of an index
    out of range. *)
Definition store (dAtA : bytes) (i : Z) (b : byte) : option bytes :=
  if (0 <=? i) && (i <? len dAtA) then Some (<[Z.to_nat i := b]> dAtA) else None.

Definition copy_at (dAtA : bytes) (i : Z) (src : bytes) : option bytes :=
  if (0 <=? i) && (i <=? len dAtA)
  then Some (take (Z.to_nat i) dAtA ++ take (Z.to_nat (len dAtA - i)) src
             ++ drop (Z.to_nat i + length src) dAtA)
  else None.

(** The loop of [encodeVarint]: a [uint64] takes at most ten turns. *)
Fixpoint encodeVarint_loop (fuel : nat) (dAtA : bytes) (offset v : Z) : option bytes :=
  match fuel with
  | O => None
  | S fuel =>
      if v >=? 2 ^ 7 then
        dAtA ← store dAtA offset (byte_of (Z.lor (Z.land v 0x7f) 0x80));
        encodeVarint_loop fuel dAtA (offset + 1) (Z.shiftr v 7)
      else store dAtA offset (byte_of v)
  end.

Definition encodeVarint (dAtA : bytes) (offset v : Z) : option (bytes * Z) :=
  let offset := offset - sov v in
  dAtA ← encodeVarint_loop 10 dAtA offset v;
  Some (dAtA, offset).

(** The buffer and the index [i] of [MarshalToSizedBuffer], and what it does for
    a field of each kind: the value, or the length and the bytes, and before
    them the tag *)
Definition buffer : Type := bytes * Z.

Definition put_tag (tag : byte) (b : buffer) : option buffer :=
  let '(dAtA, i) := b in
  let i := i - 1 in
  dAtA ← store dAtA i tag;
  Some (dAtA, i).

Definition put_varint (tag : byte) (v : Z) (b : buffer) : option buffer :=
  let '(dAtA, i) := b in
  b ← encodeVarint dAtA i v;
  put_tag tag b.

Definition put_bytes (tag : byte) (field : bytes) (b : buffer) : option buffer :=
  let '(dAtA, i) := b in
  let i := i - len field in
  dAtA ← copy_at dAtA i field;
  put_varint tag (len field) (dAtA, i).

(** [if cond { ... }] around the writing of a field *)
Definition when (cond : bool) (put : buffer -> option buffer) (b : buffer) : option buffer :=
  if cond then put b else Some b.

(** [Marshal]: [None] is a panic; [MarshalToSizedBuffer] never returns an
    error. *)
Definition marshal_with (Size : Z) (MarshalToSizedBuffer : bytes -> option (bytes * Z)) : option bytes :=
  '(dAtA, n) ← MarshalToSizedBuffer (replicate (Z.to_nat Size) Byte.x00);
  if (0 <=? n) && (n <=? len dAtA) then Some (take (Z.to_nat n) dAtA) else None.

(** ** Reading *)

(** The loops that read a variable length integer, from [shift] 0. [rest] is
    what follows the index [iNdEx]; [conv] is the conversion to the type of the
    variable the value is gathered in. *)
Fixpoint readVarint (conv : Z -> Z) (rest : bytes) (shift value : Z) : result (Z * bytes) :=
  if shift >=? 64 then Err ErrIntOverflow
  else
    match rest with
    | [] => Err io_ErrUnexpectedEOF
    | b :: rest =>
        let value := Z.lor value (conv (Z.shiftl (Z.land (byte_val b) 0x7F) shift)) in
        if byte_val b <? 0x80 then Ok (value, rest) else readVarint conv rest (shift + 7) value
    end.

(** [dAtA[iNdEx:postIndex]] in a buffer of [l] bytes, [rest] those from [iNdEx] on, and
    what follows it. [None] is the panic of a slice out of range: Go panics when the end is
    before the start or beyond the capacity; here the capacity counts as the length, so
    that bytes which were not received are never read either. *)
Definition slice_of (l iNdEx postIndex : Z) (rest : bytes) : option (bytes * bytes) :=
  if (postIndex <? iNdEx) || (l <? postIndex) then None
  else Some (take (Z.to_nat (postIndex - iNdEx)) rest, drop (Z.to_nat (postIndex - iNdEx)) rest).

(** The reading of the bytes of a field whose length was read, in a buffer of
    [l] bytes *)
Definition readSlice (l byteLen : Z) (rest : bytes) : option (result (bytes * bytes)) :=
  if byteLen <? 0 then Some (Err ErrInvalidLength)
  else
    let iNdEx := l - len rest in
    let postIndex := int_add iNdEx byteLen in
    if postIndex <? 0 then Some (Err ErrInvalidLength)
    else if postIndex >? l then Some (Err io_ErrUnexpectedEOF)
    else
      field ← slice_of l iNdEx postIndex rest;
      Some (Ok field).

Definition readBytes (l : Z) (rest : bytes) : option (result (bytes * bytes)) :=
  match readVarint (wraps 64) rest 0 0 with
  | Err err => Some (Err err)
  | Ok (byteLen, rest) => readSlice l byteLen rest
  end.

(** A string's length is read in a [uint64], and converted. *)
Definition readString (l : Z) (rest : bytes) : option (result (bytes * bytes)) :=
  match readVarint (wrapu 64) rest 0 0 with
  | Err err => Some (Err err)
  | Ok (stringLen, rest) => readSlice l (wraps 64 stringLen) rest
  end.

(** The [switch wireType] of [skip]: the index after the value, whose reading
    starts at [rest], and the depth of the groups *)
Definition skip_next (l wire : Z) (rest : bytes) (depth : Z) : result (Z * Z) :=
  let iNdEx := l - len rest in
  match Z.land wire 0x7 with
  | 0 => '(_, rest) ← readVarint (wrapu 64) rest 0 0; Ok (l - len rest, depth)
  | 1 => Ok (int_add iNdEx 8, depth)
  | 2 =>
      '(length, rest) ← readVarint (wraps 64) rest 0 0;
      if length <? 0 then Err ErrInvalidLength
      else Ok (int_add (l - len rest) length, depth)
  | 3 => Ok (iNdEx, int_add depth 1)
  | 4 => if depth =? 0 then Err ErrUnexpectedEndOfGroup else Ok (iNdEx, depth - 1)
  | 5 => Ok (int_add iNdEx 4, depth)
  | _ => Err (EExternal "proto: illegal wireType")
  end.

(** [skip]: the length of the field that [dAtA] starts with. Each turn of the
    loop advances. *)
Fixpoint skip_loop (fuel : nat) (dAtA : bytes) (iNdEx depth : Z) : option (result Z) :=
  let l := len dAtA in
  if negb (iNdEx <? l) then Some (Err io_ErrUnexpectedEOF)
  else
    match fuel with
    | O => None
    | S fuel =>
        match readVarint (wrapu 64) (drop (Z.to_nat iNdEx) dAtA) 0 0 with
        | Err err => Some (Err err)
        | Ok (wire, rest) =>
            match skip_next l wire rest depth with
            | Err err => Some (Err err)
            | Ok (iNdEx, depth) =>
                if iNdEx <? 0 then Some (Err ErrInvalidLength)
                else if depth =? 0 then Some (Ok iNdEx)
                else skip_loop fuel dAtA iNdEx depth
            end
        end
    end.

Definition skip (dAtA : bytes) : option (result Z) := skip_loop (length dAtA) dAtA 0 0.

(** What the [switch fieldNum] of a message does with a field: it reads it, it
    returns an error, or the field is not one of the message. *)
Inductive field_outcome (M : Type) :=
| FieldOk (m : M) (rest : bytes)
| FieldErr (err : error)
| FieldPanic
| FieldUnknown.

Arguments FieldOk {M} m rest.
Arguments FieldErr {M} err.
Arguments FieldPanic {M}.
Arguments FieldUnknown {M}.

(** A field of a message: its number, its wire type, the length of the buffer,
    what follows the tag, and the message read so far *)
Definition field_reader (M : Type) : Type := Z -> Z -> Z -> bytes -> M -> field_outcome M.

(** The cases of a varint, a bytes and a string field *)
Definition varint_case {M} (name : string) (conv : Z -> Z) (set : Z -> M) (wireType : Z) (rest : bytes)
    : field_outcome M :=
  if negb (wireType =? 0) then FieldErr (EExternal ("proto: wrong wireType for field " +:+ name))
  else match readVarint conv rest 0 0 with
       | Err err => FieldErr err
       | Ok (v, rest) => FieldOk (set v) rest
       end.

Definition slice_case {M} (name : string) (read : Z -> bytes -> option (result (bytes * bytes)))
    (set : bytes -> M) (wireType l : Z) (rest : bytes) : field_outcome M :=
  if negb (wireType =? 2) then FieldErr (EExternal ("proto: wrong wireType for field " +:+ name))
  else match read l rest with
       | None => FieldPanic
       | Some (Err err) => FieldErr err
       | Some (Ok (field, rest)) => FieldOk (set field) rest
       end.

(** A turn of the loop of [Unmarshal], on what follows [iNdEx]; [loop] is the
    rest of the loop, [None] a panic. *)
Definition unmarshal_step {M} (name : string) (field : field_reader M) (l : Z) (pre : bytes) (m : M)
    (loop : bytes -> M -> option (result M)) : option (result M) :=
  match readVarint (wrapu 64) pre 0 0 with
  | Err err => Some (Err err)
  | Ok (wire, rest) =>
      let fieldNum := wraps 32 (Z.shiftr wire 3) in
      let wireType := Z.land wire 0x7 in
      if wireType =? 4
      then Some (Err (EExternal ("proto: " +:+ name +:+ ": wiretype end group for non-group")))
      else if fieldNum <=? 0 then Some (Err (EExternal ("proto: " +:+ name +:+ ": illegal tag")))
      else
        match field fieldNum wireType l rest m with
        | FieldOk m rest => loop rest m
        | FieldErr err => Some (Err err)
        | FieldPanic => None
        | FieldUnknown =>
            match skip pre with
            | None => None
            | Some (Err err) => Some (Err err)
            | Some (Ok skippy) =>
                let iNdEx := l - len pre in
                if skippy <? 0 then Some (Err ErrInvalidLength)
                else if int_add iNdEx skippy <? 0 then Some (Err ErrInvalidLength)
                else if int_add iNdEx skippy >? l then Some (Err io_ErrUnexpectedEOF)
                else loop (drop (Z.to_nat skippy) pre) m
            end
        end
  end.

(** The loop; the check after it is [iNdEx > l], which [rest] cannot be beyond. *)
Fixpoint unmarshal_loop {M} (name : string) (field : field_reader M) (fuel : nat) (l : Z)
    (rest : bytes) (m : M) : option (result M) :=
  match rest, fuel with
  | [], _ => Some (Ok m)
  | _, O => None
  | _, S fuel => unmarshal_step name field l rest m (unmarshal_loop name field fuel l)
  end.

Definition unmarshal_with {M} (name : string) (field : field_reader M) (dAtA : bytes) (m : M)
    : option (result M) :=
  unmarshal_loop name field (length dAtA) (len dAtA) dAtA m.

(** ** Conversions and bits

    The conversions that the readers gather their bits with commute with [|]. *)

Class BitConv (conv : Z -> Z) : Prop := {
  conv_lor a b : conv (Z.lor a b) = Z.lor (conv a) (conv b);
  conv_0 : conv 0 = 0;
}.

Lemma wrapu_bits w : 0 <= w -> BitConv (wrapu w).
Proof.
  intros Hw. split; [|unfold wrapu; by rewrite Zmod_0_l].
  intros a b. unfold wrapu. rewrite <- !Z.land_ones by done. apply Z.land_lor_distr_l.
Qed.

(** The two's complement reading: the bits below the sign, and the sign *)
Lemma wraps_lor w z : 0 < w ->
  wraps w z = Z.lor (Z.land z (Z.ones (w - 1))) (if Z.testbit z (w - 1) then - 2 ^ (w - 1) else 0).
Proof.
  intros Hw. rewrite <- Z.add_nocarry_lor.
  - unfold wraps. rewrite Z.land_ones by lia. rewrite (pow2_split w Hw).
    assert (Hb : Z.testbit z (w - 1) = ((z / 2 ^ (w - 1)) mod 2 =? 1)).
    { rewrite <- Z.bit0_eqb, <- Z.shiftr_div_pow2 by lia. rewrite Z.shiftr_spec by lia. by f_equal. }
    rewrite Hb. set (h := 2 ^ (w - 1)). assert (Hh : 0 < h) by (apply Z.pow_pos_nonneg; lia).
    rewrite (Z.mul_comm 2 h), Z.rem_mul_r by lia.
    replace (z + h) with (z + 1 * h) by lia. rewrite Z.mod_add, Z.div_add by lia.
    pose proof (Z.mod_pos_bound (z / h) 2 ltac:(lia)).
    rewrite Z.add_mod by lia. change (1 mod 2) with 1.
    assert ((z / h) mod 2 = 0 \/ (z / h) mod 2 = 1) as [-> | ->] by lia.
    + change ((0 + 1) mod 2) with 1. change (0 =? 1) with false. cbv iota. lia.
    + change ((1 + 1) mod 2) with 0. change (1 =? 1) with true. cbv iota. lia.
  - destruct (Z.testbit z (w - 1)); [|by rewrite Z.land_0_r].
    replace (- 2 ^ (w - 1)) with (Z.shiftl (-1) (w - 1)) by (rewrite Z.shiftl_mul_pow2 by lia; lia).
    rewrite <- Z.land_assoc, (Z.land_comm (Z.ones _)), Z.land_ones by lia.
    rewrite Z.shiftl_mul_pow2 by lia. rewrite Z.mod_mul by (apply Z.pow_nonzero; lia). apply Z.land_0_r.
Qed.

Lemma wraps_bits w : 0 < w -> BitConv (wraps w).
Proof.
  intros Hw. split; [|rewrite wraps_lor, Z.testbit_0_l, Z.lor_0_r by done; apply Z.land_0_l].
  intros a b. rewrite !wraps_lor, Z.lor_spec, Z.land_lor_distr_l by done.
  set (x := Z.land a _). set (y := Z.land b _). set (s := - _).
  apply Z.bits_inj'. intros n _. destruct (Z.testbit a _), (Z.testbit b _); simpl;
    rewrite !Z.lor_spec, ?Z.testbit_0_l;
    destruct (Z.testbit x n), (Z.testbit y n), (Z.testbit s n); done.
Qed.

#[export] Instance u64_bits : BitConv (wrapu 64) := wrapu_bits 64 ltac:(done).
#[export] Instance u32_bits : BitConv (wrapu 32) := wrapu_bits 32 ltac:(done).
#[export] Instance s64_bits : BitConv (wraps 64) := wraps_bits 64 ltac:(done).
#[export] Instance s32_bits : BitConv (wraps 32) := wraps_bits 32 ltac:(done).

(** ** Variable length integers *)

Fixpoint varint_loop (fuel : nat) (v : Z) : bytes :=
  match fuel with
  | O => []
  | S fuel =>
      if v >=? 2 ^ 7 then byte_of (Z.lor (Z.land v 0x7f) 0x80) :: varint_loop fuel (Z.shiftr v 7)
      else [byte_of v]
  end.

(** The encoding of a [uint64] *)
Definition varint (v : Z) : bytes := varint_loop 10 v.

Lemma shiftr7_bound n v : 0 <= v < 2 ^ (n + 7) -> 0 <= n -> 0 <= Z.shiftr v 7 < 2 ^ n.
Proof.
  intros H Hn. rewrite Z.pow_add_r in H by lia. rewrite Z.shiftr_div_pow2 by lia.
  change (2 ^ 7) with 128 in *. split; [apply Z.div_pos; lia|apply Z.div_lt_upper_bound; lia].
Qed.

(** A byte with the continuation bit *)
Lemma cont_byte v :
  let b := byte_of (Z.lor (Z.land v 0x7f) 0x80) in
  128 <= byte_val b /\ Z.land (byte_val b) 0x7f = Z.land v 0x7f.
Proof.
  set (c := Z.land v 0x7f).
  assert (Hc : 0 <= c < 128).
  { unfold c. change 0x7f with (Z.ones 7). rewrite Z.land_ones by lia. by apply Z.mod_pos_bound. }
  assert (Hl : Z.land c 0x80 = 0).
  { unfold c. rewrite <- Z.land_assoc. change (Z.land 0x7f 0x80) with 0. apply Z.land_0_r. }
  simpl. rewrite <- (Z.add_nocarry_lor _ _ Hl), byte_val_of_small by lia. split; [lia|].
  rewrite (Z.add_nocarry_lor _ _ Hl), Z.land_lor_distr_l. change (Z.land 0x80 0x7f) with 0.
  rewrite Z.lor_0_r. unfold c. by rewrite <- Z.land_assoc.
Qed.

Lemma last_byte v : 0 <= v < 128 -> byte_val (byte_of v) = v /\ Z.land v 0x7f = v.
Proof.
  intros Hv. split; [apply byte_val_of_small; lia|]. change 0x7f with (Z.ones 7).
  rewrite Z.land_ones by lia. by apply Z.mod_small.
Qed.

Lemma split7 v : Z.lor (Z.land v 0x7f) (Z.shiftl (Z.shiftr v 7) 7) = v.
Proof.
  change 0x7f with (Z.ones 7). rewrite <- Z.ldiff_ones_r by lia.
  apply Z.bits_inj'. intros n _. rewrite Z.lor_spec, Z.land_spec, Z.ldiff_spec.
  by destruct (Z.testbit v n), (Z.testbit (Z.ones 7) n).
Qed.

Lemma fuel_left fuel v : v < 2 ^ (7 * Z.of_nat (S fuel)) -> 128 <= v -> (0 < fuel)%nat.
Proof. destruct fuel; [|lia]. change (2 ^ (7 * Z.of_nat 1)) with 128. lia. Qed.

(** Reading gives back what was written, converted, and leaves the rest. *)
Lemma readVarint_varint conv `{!BitConv conv} fuel v rest shift value :
  0 <= shift < 64 -> 0 <= v < 2 ^ (64 - shift) -> v < 2 ^ (7 * Z.of_nat fuel) -> (0 < fuel)%nat ->
  readVarint conv (varint_loop fuel v ++ rest) shift value
  = Ok (Z.lor value (conv (Z.shiftl v shift)), rest).
Proof.
  revert v shift value. induction fuel as [|fuel IH]; intros v shift value Hs Hv Hf Hfuel; [lia|].
  cbn [varint_loop]. change (2 ^ 7) with 128. destruct (v >=? 128) eqn:Hge; bdestruct_all.
  - assert (Hlong : 7 < 64 - shift).
    { destruct (Z.lt_ge_cases 7 (64 - shift)); [done|]. exfalso.
      assert (2 ^ (64 - shift) <= 2 ^ 7) by (apply Z.pow_le_mono_r; lia).
      change (2 ^ 7) with 128 in *. lia. }
    destruct (cont_byte v) as [Hb Hand]. cbn [app readVarint].
    replace (shift >=? 64) with false by lia.
    set (b := byte_of _) in *. rewrite Hand.
    replace (byte_val b <? 0x80) with false by (symmetry; apply Z.ltb_ge; lia).
    assert (Hsh : 0 <= Z.shiftr v 7 < 2 ^ (64 - (shift + 7))).
    { apply shiftr7_bound; [|lia]. by replace (64 - (shift + 7) + 7) with (64 - shift) by lia. }
    pose proof (fuel_left fuel v ltac:(lia) ltac:(lia)).
    rewrite IH; [|lia|done| |done].
    + rewrite <- Z.lor_assoc, <- conv_lor.
      by rewrite (Z.add_comm shift 7), <- Z.shiftl_shiftl, <- Z.shiftl_lor, split7 by lia.
    + apply shiftr7_bound; [|lia]. split; [lia|]. by replace (7 * Z.of_nat fuel + 7) with (7 * Z.of_nat (S fuel)) by lia.
  - destruct (last_byte v ltac:(lia)) as [Hb Hand]. cbn [app readVarint].
    replace (shift >=? 64) with false by lia. rewrite Hb, Hand.
    replace (v <? 0x80) with true by (symmetry; apply Z.ltb_lt; lia). done.
Qed.

Lemma read_varint conv `{!BitConv conv} v rest :
  in_u 64 v -> readVarint conv (varint v ++ rest) 0 0 = Ok (conv v, rest).
Proof.
  intros Hv. unfold varint. rewrite (readVarint_varint conv); [by rewrite Z.shiftl_0_r|lia| | |lia].
  - by rewrite Z.sub_0_r.
  - destruct Hv as [_ Hv]. eapply Z.lt_le_trans; [exact Hv|]. apply Z.pow_le_mono_r; lia.
Qed.

(** A tag is one byte. *)
Lemma read_tag t rest :
  byte_val t < 128 -> readVarint (wrapu 64) (t :: rest) 0 0 = Ok (byte_val t, rest).
Proof.
  intros Ht. pose proof (byte_val_range t).
  change (t :: rest) with ([t] ++ rest).
  assert (Hv : varint (byte_val t) = [t]).
  { unfold varint. cbn [varint_loop]. change (2 ^ 7) with 128.
    replace (byte_val t >=? 128) with false by lia. by rewrite byte_of_val. }
  rewrite <- Hv at 1. rewrite (read_varint (wrapu 64)).
  - by rewrite wrapu_small by (split; [lia|]; change (2 ^ 64) with 18446744073709551616; lia).
  - split; [lia|]; change (2 ^ 64) with 18446744073709551616; lia.
Qed.

(** What is left after a read is a proper suffix. *)
Lemma readVarint_suffix conv rest shift value v rest' :
  readVarint conv rest shift value = Ok (v, rest') ->
  exists used, rest = used ++ rest' /\ 0 < len used.
Proof.
  revert shift value. induction rest as [|b rest IH]; intros shift value; cbn [readVarint];
    destruct (shift >=? 64); [done..| |done|].
  - done.
  - destruct (byte_val b <? 0x80).
    + intros [= _ <-]. by exists [b].
    + intros (used & -> & Hu)%IH. exists (b :: used). rewrite len_cons. split; [done|lia].
Qed.

Lemma readVarint_len conv rest shift value v rest' :
  readVarint conv rest shift value = Ok (v, rest') -> len rest' < len rest.
Proof. intros (used & -> & ?)%readVarint_suffix. rewrite len_app. lia. Qed.

(** ** The size of a variable length integer *)

Lemma Len64_lor1 v : 0 <= v -> Len64 (Z.lor v 1) = Z.log2 (Z.max v 1) + 1.
Proof.
  intros Hv. unfold Len64. assert (Hne : Z.lor v 1 <> 0) by (intros [_ ?]%Z.lor_eq_0_iff; done).
  replace (Z.lor v 1 =? 0) with false by (symmetry; by apply Z.eqb_neq).
  rewrite Z.log2_lor by lia. f_equal. change (Z.log2 1) with 0.
  pose proof (Z.log2_nonneg v). rewrite Z.max_l by done.
  destruct (Z.eq_dec v 0) as [->|]; [done|]. by rewrite Z.max_l by lia.
Qed.

Lemma varint_loop_len fuel v :
  0 <= v < 2 ^ (7 * Z.of_nat fuel) -> (0 < fuel)%nat -> len (varint_loop fuel v) = sov v.
Proof.
  unfold sov. revert v. induction fuel as [|fuel IH]; intros v Hv Hfuel; [lia|].
  rewrite Len64_lor1 by lia. cbn [varint_loop]. change (2 ^ 7) with 128.
  destruct (v >=? 128) eqn:Hge; bdestruct_all.
  - assert (Hsh : 0 <= Z.shiftr v 7 < 2 ^ (7 * Z.of_nat fuel)).
    { apply shiftr7_bound; [|lia]. by replace (7 * Z.of_nat fuel + 7) with (7 * Z.of_nat (S fuel)) by lia. }
    pose proof (fuel_left fuel v ltac:(lia) ltac:(lia)) as Hleft.
    rewrite len_cons, (IH _ Hsh Hleft), Len64_lor1 by lia.
    assert (1 <= Z.shiftr v 7).
    { rewrite Z.shiftr_div_pow2 by lia. change (2 ^ 7) with 128. by apply Z.div_le_lower_bound. }
    rewrite !Z.max_l, Z.log2_shiftr by lia.
    assert (7 <= Z.log2 v) by (change 7 with (Z.log2 128); by apply Z.log2_le_mono).
    rewrite Z.max_r by lia.
    replace (Z.log2 v + 1 + 6) with (Z.log2 v - 7 + 1 + 6 + 1 * 7) by lia. rewrite Z.div_add by lia. lia.
  - rewrite len_cons, len_nil.
    assert (0 <= Z.log2 (Z.max v 1) <= 6).
    { split; [apply Z.log2_nonneg|]. change 6 with (Z.log2 127). apply Z.log2_le_mono. lia. }
    apply Z.div_unique with (r := Z.log2 (Z.max v 1)); lia.
Qed.

Lemma varint_fits v : in_u 64 v -> 0 <= v < 2 ^ (7 * Z.of_nat 10).
Proof.
  intros [? Hv]. split; [done|]. eapply Z.lt_le_trans; [exact Hv|]. apply Z.pow_le_mono_r; lia.
Qed.

Lemma varint_len v : in_u 64 v -> len (varint v) = sov v.
Proof. intros Hv. apply varint_loop_len; [apply varint_fits, Hv|lia]. Qed.

Lemma sov_le v : in_u 64 v -> sov v <= 10.
Proof.
  intros [? Hv]. unfold sov. rewrite Len64_lor1 by done. apply Z.div_le_upper_bound; [lia|].
  assert (Z.log2 (Z.max v 1) < 64); [|lia]. apply Z.log2_lt_pow2; [lia|].
  by apply Z.max_lub_lt; [done|reflexivity].
Qed.

(** ** Writing into a buffer

    [f] writes [enc] in the place just before the index. *)
Definition writes (f : buffer -> option buffer) (enc : bytes) : Prop :=
  forall pre mid suf, length mid = length enc ->
    f (pre ++ mid ++ suf, len pre + len enc) = Some (pre ++ enc ++ suf, len pre).

Lemma store_app pre x suf b : store (pre ++ x :: suf) (len pre) b = Some (pre ++ b :: suf).
Proof.
  unfold store. pose proof (len_nonneg pre). pose proof (len_nonneg suf). rewrite len_app, len_cons.
  replace ((0 <=? len pre) && (len pre <? len pre + (1 + len suf))) with true by lia.
  unfold len. by rewrite Nat2Z.id, insert_app_r_alt, Nat.sub_diag by lia.
Qed.

Lemma copy_at_app pre mid suf src :
  length mid = length src -> copy_at (pre ++ mid ++ suf) (len pre) src = Some (pre ++ src ++ suf).
Proof.
  intros Hlen. unfold copy_at. pose proof (len_nonneg pre). rewrite !len_app.
  pose proof (len_nonneg mid). pose proof (len_nonneg suf).
  replace ((0 <=? len pre) && (len pre <=? len pre + (len mid + len suf))) with true by lia.
  unfold len. rewrite Nat2Z.id, take_app_length. do 2 f_equal. f_equal.
  - apply take_ge. lia.
  - by rewrite <- Hlen, drop_app_add, drop_app_length.
Qed.

Lemma encodeVarint_loop_app fuel v pre mid suf :
  v < 2 ^ (7 * Z.of_nat fuel) -> 0 <= v -> (0 < fuel)%nat -> length mid = length (varint_loop fuel v) ->
  encodeVarint_loop fuel (pre ++ mid ++ suf) (len pre) v = Some (pre ++ varint_loop fuel v ++ suf).
Proof.
  revert v pre mid. induction fuel as [|fuel IH]; intros v pre mid Hv H0 Hfuel Hlen; [lia|].
  cbn [varint_loop encodeVarint_loop] in *. change (2 ^ 7) with 128 in *.
  destruct (v >=? 128) eqn:Hge; bdestruct_all.
  - pose proof (fuel_left fuel v ltac:(lia) ltac:(lia)).
    destruct mid as [|x mid]; [done|]. injection Hlen as Hlen. cbn [app]. rewrite store_app. cbn [mbind option_bind].
    set (b := byte_of _). assert (Hsh : 0 <= Z.shiftr v 7 < 2 ^ (7 * Z.of_nat fuel)).
    { apply shiftr7_bound; [|lia]. split; [lia|]. by replace (7 * Z.of_nat fuel + 7) with (7 * Z.of_nat (S fuel)) by lia. }
    replace (pre ++ b :: mid ++ suf) with ((pre ++ [b]) ++ mid ++ suf) by by rewrite <- app_assoc.
    replace (len pre + 1) with (len (pre ++ [b])) by by rewrite len_app.
    rewrite IH by (done || lia). by rewrite <- app_assoc.
  - destruct mid as [|x [|]]; [done| |done]. apply store_app.
Qed.

Lemma put_tag_writes tag : writes (put_tag tag) [tag].
Proof.
  intros pre mid suf Hlen. unfold put_tag. rewrite len_cons, len_nil.
  replace (len pre + (1 + 0) - 1) with (len pre) by lia.
  destruct mid as [|x [|]]; [done| |done]. cbn [app]. by rewrite store_app.
Qed.

Lemma writes_bind f g e1 e2 :
  writes f e1 -> writes g e2 -> writes (fun b => b ← f b; g b) (e2 ++ e1).
Proof.
  intros Hf Hg pre mid suf Hlen. rewrite length_app in Hlen.
  rewrite <- (take_drop (length e2) mid). set (m2 := take _ mid). set (m1 := drop _ mid).
  assert (Hm2 : length m2 = length e2) by (unfold m2; rewrite length_take; lia).
  assert (Hm1 : length m1 = length e1) by (unfold m1; rewrite length_drop; lia).
  rewrite <- app_assoc, (app_assoc pre m2 (m1 ++ suf)).
  replace (len pre + len (e2 ++ e1)) with (len (pre ++ m2) + len e1)
    by (rewrite !len_app; unfold len; lia).
  rewrite Hf by done. cbn [mbind option_bind]. rewrite <- app_assoc.
  replace (len (pre ++ m2)) with (len pre + len e2) by (rewrite len_app; unfold len; lia).
  rewrite Hg by done. by rewrite !app_assoc.
Qed.

Lemma writes_ext f g e : (forall b, f b = g b) -> writes f e -> writes g e.
Proof. intros Hfg Hf pre mid suf Hlen. rewrite <- Hfg. by apply Hf. Qed.

Lemma writes_when (c : bool) f e : writes f e -> writes (when c f) (if c then e else []).
Proof.
  intros Hf. destruct c; [exact Hf|]. intros pre mid suf Hlen. unfold when.
  destruct mid; [|done]. by rewrite len_nil, Z.add_0_r.
Qed.

Lemma encodeVarint_writes v :
  in_u 64 v -> writes (fun b => let '(dAtA, i) := b in encodeVarint dAtA i v) (varint v).
Proof.
  intros Hv pre mid suf Hlen. unfold encodeVarint. rewrite <- varint_len by done.
  replace (len pre + len (varint v) - len (varint v)) with (len pre) by lia.
  pose proof (varint_fits v Hv). by rewrite encodeVarint_loop_app by (done || lia).
Qed.

Lemma put_varint_writes tag v : in_u 64 v -> writes (put_varint tag v) (tag :: varint v).
Proof.
  intros Hv. eapply writes_ext; [|apply (writes_bind _ _ _ _ (encodeVarint_writes v Hv) (put_tag_writes tag))].
  by intros [dAtA i].
Qed.

Lemma copy_writes field :
  writes (fun b => let '(dAtA, i) := b in
                   let i := i - len field in dAtA ← copy_at dAtA i field; Some (dAtA, i)) field.
Proof.
  intros pre mid suf Hlen. cbv beta iota zeta.
  replace (len pre + len field - len field) with (len pre) by lia. by rewrite copy_at_app.
Qed.

Lemma put_bytes_writes tag field :
  in_u 64 (len field) -> writes (put_bytes tag field) (tag :: varint (len field) ++ field).
Proof.
  intros Hv. eapply writes_ext;
    [|apply (writes_bind _ _ _ _ (copy_writes field) (put_varint_writes tag _ Hv))].
  intros [dAtA i]. unfold put_bytes. by destruct (copy_at _ _ _).
Qed.

(** What a message that writes [enc] marshals into *)
Lemma writes_buffer f enc dAtA :
  writes f enc -> len enc <= len dAtA ->
  f (dAtA, len dAtA) = Some (take (Z.to_nat (len dAtA - len enc)) dAtA ++ enc, len dAtA - len enc).
Proof.
  intros Hf Hlen. set (n := Z.to_nat _).
  specialize (Hf (take n dAtA) (drop n dAtA) []). rewrite !app_nil_r, take_drop in Hf.
  assert (Hn : len (take n dAtA) = len dAtA - len enc)
    by (unfold len in *; rewrite length_take; unfold n; lia).
  rewrite <- Hn, <- Hf; [do 2 f_equal; lia|]. rewrite length_drop. unfold n, len in *. lia.
Qed.

(** [mtsb], a [MarshalToSizedBuffer], writes [enc] at the end of a buffer with the place. *)
Definition sized (mtsb : bytes -> option (bytes * Z)) (enc : bytes) : Prop :=
  forall dAtA, len enc <= len dAtA ->
    mtsb dAtA = Some (take (Z.to_nat (len dAtA - len enc)) dAtA ++ enc, len enc).

Lemma marshal_with_spec Size mtsb enc : sized mtsb enc -> Size = len enc -> marshal_with Size mtsb = Some enc.
Proof.
  intros Hm ->. unfold marshal_with. pose proof (len_nonneg enc).
  assert (Hr : len (replicate (Z.to_nat (len enc)) Byte.x00) = len enc)
    by (unfold len; rewrite length_replicate; lia).
  rewrite Hm, Hr, Z.sub_diag by lia. cbn [mbind option_bind].
  change (take (Z.to_nat 0) _) with (@nil byte). cbn [app].
  replace ((0 <=? len enc) && (len enc <=? len enc)) with true by lia.
  f_equal. apply take_ge. unfold len. lia.
Qed.

(** ** Reading a message back *)

Lemma readSlice_app l p rest :
  len (p ++ rest) <= l -> l < 2 ^ 63 -> readSlice l (len p) (p ++ rest) = Some (Ok (p, rest)).
Proof.
  intros Hl Hb. unfold readSlice. pose proof (len_nonneg p). pose proof (len_nonneg rest).
  rewrite len_app in *. replace (len p <? 0) with false by lia.
  rewrite int_add_small by (unfold in_s; change (2 ^ (64 - 1)) with (2 ^ 63); lia).
  set (i := l - _). replace (i + len p <? 0) with false by lia.
  replace (i + len p >? l) with false by lia. unfold slice_of.
  replace ((i + len p <? i) || (l <? i + len p)) with false by lia. cbn [mbind option_bind].
  replace (i + len p - i) with (len p) by lia. unfold len. rewrite Nat2Z.id.
  by rewrite take_app_length, drop_app_length.
Qed.

Lemma len_in_s {A} (p : list A) : len p < 2 ^ 63 -> in_s 64 (len p).
Proof. pose proof (len_nonneg p). unfold in_s. change (2 ^ (64 - 1)) with (2 ^ 63). lia. Qed.

Lemma len_in_u {A} (p : list A) : len p < 2 ^ 63 -> in_u 64 (len p).
Proof.
  pose proof (len_nonneg p). unfold in_u. change (2 ^ 64) with (2 * 2 ^ 63). lia.
Qed.

Lemma readBytes_app l p rest :
  len (varint (len p) ++ p ++ rest) <= l -> l < 2 ^ 63 ->
  readBytes l (varint (len p) ++ p ++ rest) = Some (Ok (p, rest)).
Proof.
  intros Hl Hb. unfold readBytes. rewrite len_app in Hl. pose proof (len_nonneg (varint (len p))).
  assert (len p < 2 ^ 63) by (rewrite len_app in Hl; pose proof (len_nonneg rest); lia).
  rewrite (read_varint _) by by apply len_in_u. rewrite wraps_small by (done || by apply len_in_s).
  apply readSlice_app; [lia|done].
Qed.

Lemma readString_app l p rest :
  len (varint (len p) ++ p ++ rest) <= l -> l < 2 ^ 63 ->
  readString l (varint (len p) ++ p ++ rest) = Some (Ok (p, rest)).
Proof.
  intros Hl Hb. unfold readString. rewrite len_app in Hl. pose proof (len_nonneg (varint (len p))).
  assert (len p < 2 ^ 63) by (rewrite len_app in Hl; pose proof (len_nonneg rest); lia).
  rewrite (read_varint _) by by apply len_in_u. rewrite wrapu_small by by apply len_in_u.
  rewrite wraps_small by (done || by apply len_in_s). apply readSlice_app; [lia|done].
Qed.

(** The tag of a field: the field number and the wire type *)
Record tag_of (tag : byte) (num wireType : Z) : Prop := {
  tag_val : byte_val tag = num * 8 + wireType;
  tag_num : 0 < num < 16;
  tag_wire : 0 <= wireType < 8;
}.

Lemma tag_split tag num wireType :
  tag_of tag num wireType ->
  byte_val tag < 128 /\ wraps 32 (Z.shiftr (byte_val tag) 3) = num /\ Z.land (byte_val tag) 0x7 = wireType.
Proof.
  intros [-> Hn Hw]. split_and!; [lia| |].
  - rewrite Z.shiftr_div_pow2 by lia. change (2 ^ 3) with 8. rewrite Z.div_add_l, Z.div_small by lia.
    rewrite Z.add_0_r. apply wraps_small; [done|]. unfold in_s. change (2 ^ (32 - 1)) with 2147483648. lia.
  - change 0x7 with (Z.ones 3). rewrite Z.land_ones by lia. change (2 ^ 3) with 8.
    rewrite Z.add_comm, Z.mod_add by lia. by apply Z.mod_small.
Qed.

Section reads.
Context {M : Type} (name : string) (field : field_reader M).

(** The loop of [Unmarshal] that finds [a] reads it, turning [m] into [m'], and
    goes on. *)
Definition reads (l : Z) (a : bytes) (m m' : M) : Prop :=
  forall rest fuel, len (a ++ rest) <= l -> (length (a ++ rest) <= fuel)%nat ->
    exists fuel', (length rest <= fuel')%nat
      /\ unmarshal_loop name field fuel l (a ++ rest) m = unmarshal_loop name field fuel' l rest m'.

Lemma reads_nil l m : reads l [] m m.
Proof. intros rest fuel _ Hf. by exists fuel. Qed.

Lemma reads_app l a b m m' m'' : reads l a m m' -> reads l b m' m'' -> reads l (a ++ b) m m''.
Proof.
  intros Ha Hb rest fuel Hl Hf. rewrite <- app_assoc in *.
  destruct (Ha _ _ Hl Hf) as (f1 & Hf1 & ->). apply Hb; [|done].
  rewrite len_app in Hl. pose proof (len_nonneg a). lia.
Qed.

Lemma reads_when l (c : bool) a m m' :
  (c = true -> reads l a m m') -> (c = false -> m' = m) -> reads l (if c then a else []) m m'.
Proof. destruct c; [by auto|]. intros _ ->; [apply reads_nil|done]. Qed.

Lemma reads_field l tag num wireType body m m' :
  tag_of tag num wireType -> wireType <> 4 ->
  (forall rest, len (body ++ rest) <= l -> field num wireType l (body ++ rest) m = FieldOk m' rest) ->
  reads l (tag :: body) m m'.
Proof.
  intros Ht Hw Hfield rest fuel Hl Hf. destruct (tag_split _ _ _ Ht) as (Hlt & Hnum & Hwt).
  destruct fuel as [|fuel]; [simpl in Hf; lia|]. exists fuel. split.
  { simpl in Hf. rewrite length_app in Hf. lia. }
  cbn [app unmarshal_loop]. unfold unmarshal_step. rewrite read_tag by done. cbv iota beta zeta. rewrite Hnum, Hwt.
  replace (wireType =? 4) with false by lia. pose proof (tag_num _ _ _ Ht).
  replace (num <=? 0) with false by lia. rewrite Hfield; [done|].
  cbn [app] in Hl. rewrite len_cons in Hl. lia.
Qed.

Lemma reads_varint l tag num fname conv `{!BitConv conv} v m set :
  tag_of tag num 0 -> in_u 64 v ->
  (forall rest, field num 0 l rest m = varint_case fname conv set 0 rest) ->
  reads l (tag :: varint v) m (set (conv v)).
Proof.
  intros Ht Hv Hfield. apply (reads_field _ _ num 0); [done|done|]. intros rest Hl. rewrite Hfield.
  unfold varint_case. change (negb (0 =? 0)) with false. cbv iota. by rewrite (read_varint conv).
Qed.

Lemma reads_slice l tag num fname read p m set :
  tag_of tag num 2 -> l < 2 ^ 63 ->
  (forall rest, len (varint (len p) ++ p ++ rest) <= l ->
     read l (varint (len p) ++ p ++ rest) = Some (Ok (p, rest))) ->
  (forall rest, field num 2 l rest m = slice_case fname read set 2 l rest) ->
  reads l (tag :: varint (len p) ++ p) m (set p).
Proof.
  intros Ht Hl Hread Hfield. apply (reads_field _ _ num 2); [done|done|]. intros rest Hr.
  rewrite <- app_assoc in *. rewrite Hfield. unfold slice_case. change (negb (2 =? 2)) with false.
  cbv iota. by rewrite Hread.
Qed.

Lemma unmarshal_reads a m m' :
  reads (len a) a m m' -> unmarshal_with name field a m = Some (Ok m').
Proof.
  intros Ha. unfold unmarshal_with. destruct (Ha [] (length a)) as (fuel' & _ & H).
  - by rewrite app_nil_r.
  - by rewrite app_nil_r.
  - rewrite app_nil_r in H. rewrite H. by destruct fuel'.
Qed.

End reads.

(** *** Unknown fields *)

Lemma int_add_pos a b :
  0 <= a < 2 ^ 63 -> 0 <= b < 2 ^ 63 -> 0 <= int_add a b -> int_add a b = a + b.
Proof.
  unfold int_add, wraps. change (2 ^ (64 - 1)) with (2 ^ 63). change (2 ^ 64) with (2 * 2 ^ 63).
  set (h := 2 ^ 63). intros Ha Hb H.
  assert (a + b < h \/ h <= a + b) as [Hlt|Hge] by lia.
  - rewrite Z.mod_small; lia.
  - replace (a + b + h) with (a + b - h + 1 * (2 * h)) in * by lia.
    rewrite Z.mod_add, Z.mod_small in * by lia. lia.
Qed.

(** A value that was gathered bit by bit is in the range of its type. *)
Lemma readVarint_conv conv `{!BitConv conv} rest shift x v rest' :
  readVarint conv rest shift (conv x) = Ok (v, rest') -> exists y, v = conv y.
Proof.
  revert shift x. induction rest as [|b rest IH]; intros shift x; cbn [readVarint];
    (destruct (shift >=? 64); [done|]); [done|].
  rewrite <- conv_lor. destruct (byte_val b <? 0x80); [|apply IH].
  intros [= <- _]. by eexists.
Qed.

Lemma readVarint_range rest v rest' : readVarint (wraps 64) rest 0 0 = Ok (v, rest') -> v < 2 ^ 63.
Proof.
  intros H. change 0 with (wraps 64 0) in H at 2. apply (readVarint_conv (wraps 64)) in H as [y ->].
  pose proof (wraps_range 64 y ltac:(done)) as Hr. unfold in_s in Hr.
  change (2 ^ (64 - 1)) with (2 ^ 63) in Hr. lia.
Qed.

Lemma skip_next_advances l wire rest depth n d :
  len rest <= l -> l < 2 ^ 63 -> skip_next l wire rest depth = Ok (n, d) -> 0 <= n -> l - len rest <= n.
Proof.
  intros Hr Hl. pose proof (len_nonneg rest). unfold skip_next.
  assert (Hadd : forall a b, 0 <= b < 2 ^ 63 -> l - len rest <= a < 2 ^ 63 -> 0 <= int_add a b ->
    l - len rest <= int_add a b) by (intros a b ?? Hp; rewrite int_add_pos by lia; lia).
  assert (H63 : 8 < 2 ^ 63) by done.
  destruct (Z.land wire 0x7) as [|[[[]|[]|]|[[]|[]|]|]|]; try done.
  - destruct (readVarint _ rest 0 0) as [[v rest']|] eqn:Hv; [|done]. intros [= <- _] _.
    apply readVarint_len in Hv. lia.
  - intros [= <- _]. apply Hadd; lia.
  - intros [= <- _] _. lia.
  - destruct (depth =? 0); [done|]. intros [= <- _] _. lia.
  - destruct (readVarint _ rest 0 0) as [[v rest']|] eqn:Hv; [|done]. cbn [mbind result_bind].
    pose proof (readVarint_range _ _ _ Hv). apply readVarint_len in Hv. pose proof (len_nonneg rest').
    destruct (v <? 0) eqn:Hneg; [done|]. bdestruct_all. intros [= <- _]. apply Hadd; lia.
  - intros [= <- _]. apply Hadd; lia.
Qed.

Lemma len_drop {A} (l : list A) n : 0 <= n <= len l -> len (drop (Z.to_nat n) l) = len l - n.
Proof. unfold len. rewrite length_drop. lia. Qed.

(** [skip] ends without a panic, and a field that it skips is not empty. *)
Lemma skip_loop_total fuel dAtA iNdEx depth :
  len dAtA < 2 ^ 63 -> 0 <= iNdEx -> len dAtA - iNdEx <= Z.of_nat fuel ->
  exists r, skip_loop fuel dAtA iNdEx depth = Some r /\ forall n, r = Ok n -> iNdEx < n.
Proof.
  intros Hb. revert iNdEx depth. induction fuel as [|fuel IH]; intros iNdEx depth H0 Hf; cbn [skip_loop];
    destruct (iNdEx <? len dAtA) eqn:Hi; bdestruct_all; cbn [negb].
  - lia.
  - eexists. split; [done|]. done.
  - destruct (readVarint _ _ 0 0) as [[wire rest]|] eqn:Hv; [|by eexists].
    apply readVarint_len in Hv. rewrite len_drop in Hv by lia.
    destruct (skip_next _ _ _ _) as [[n d]|] eqn:Hn; [|by eexists].
    destruct (n <? 0) eqn:Hn0; [by eexists|]. bdestruct_all.
    pose proof (skip_next_advances (len dAtA) wire rest depth n d ltac:(lia) Hb Hn Hn0).
    destruct (d =? 0).
    + eexists. split; [done|]. intros ? [= <-]. lia.
    + destruct (IH n d) as (r & -> & Hr); [lia..|]. eexists. split; [done|].
      intros k Hk. apply Hr in Hk. lia.
  - eexists. split; [done|]. done.
Qed.

Lemma skip_total dAtA :
  len dAtA < 2 ^ 63 -> exists r, skip dAtA = Some r /\ forall n, r = Ok n -> 0 < n.
Proof. intros Hb. apply skip_loop_total; unfold len in *; lia. Qed.

(** What the fields of a message promise to the loop: no panic, and nothing
    read beyond what is left *)
Class FieldReader {M} (field : field_reader M) : Prop := {
  field_reader_ok num wireType l rest m :
    len rest <= l -> l < 2 ^ 63 ->
    match field num wireType l rest m with
    | FieldOk _ rest' => len rest' <= len rest
    | FieldPanic => False
    | _ => True
    end;
}.

Lemma varint_case_ok {M} name conv (set : Z -> M) wireType rest :
  match varint_case name conv set wireType rest with
  | FieldOk _ rest' => len rest' <= len rest
  | FieldPanic => False
  | _ => True
  end.
Proof.
  unfold varint_case. destruct (negb _); [done|].
  destruct (readVarint _ _ _ _) as [[v rest']|] eqn:Hv; [|done]. apply readVarint_len in Hv. lia.
Qed.

Lemma readSlice_ok l n rest :
  len rest <= l -> l < 2 ^ 63 -> n < 2 ^ 63 ->
  match readSlice l n rest with
  | Some (Ok (_, rest')) => len rest' <= len rest
  | Some (Err _) => True
  | None => False
  end.
Proof.
  intros Hr Hl Hn. unfold readSlice. pose proof (len_nonneg rest).
  destruct (n <? 0) eqn:Hn0; [done|]. bdestruct_all.
  destruct (int_add _ n <? 0) eqn:Hp; [done|]. bdestruct_all. rewrite int_add_pos in * by lia.
  destruct (_ >? l) eqn:Hgt; [done|]. bdestruct_all.
  unfold slice_of. replace ((l - len rest + n <? l - len rest) || (l <? l - len rest + n)) with false by lia.
  cbn [mbind option_bind]. rewrite len_drop by lia. lia.
Qed.

Lemma slice_case_ok {M} name read (set : bytes -> M) wireType l rest :
  (match read l rest with
   | Some (Ok (_, rest')) => len rest' <= len rest
   | Some (Err _) => True
   | None => False
   end) ->
  match slice_case name read set wireType l rest with
  | FieldOk _ rest' => len rest' <= len rest
  | FieldPanic => False
  | _ => True
  end.
Proof. unfold slice_case. destruct (negb _); [done|]. by destruct (read l rest) as [[[]|]|]. Qed.

Lemma readBytes_ok l rest :
  len rest <= l -> l < 2 ^ 63 ->
  match readBytes l rest with
  | Some (Ok (_, rest')) => len rest' <= len rest
  | Some (Err _) => True
  | None => False
  end.
Proof.
  intros Hr Hl. unfold readBytes. destruct (readVarint _ _ _ _) as [[n rest']|] eqn:Hv; [|done].
  pose proof (readVarint_range _ _ _ Hv). apply readVarint_len in Hv.
  pose proof (readSlice_ok l n rest' ltac:(lia) Hl ltac:(done)) as Hs.
  destruct (readSlice _ _ _) as [[[]|]|]; [lia|done..].
Qed.

Lemma readString_ok l rest :
  len rest <= l -> l < 2 ^ 63 ->
  match readString l rest with
  | Some (Ok (_, rest')) => len rest' <= len rest
  | Some (Err _) => True
  | None => False
  end.
Proof.
  intros Hr Hl. unfold readString. destruct (readVarint _ _ _ _) as [[n rest']|] eqn:Hv; [|done].
  apply readVarint_len in Hv. pose proof (wraps_range 64 n ltac:(done)) as Hn. unfold in_s in Hn.
  pose proof (readSlice_ok l (wraps 64 n) rest' ltac:(lia) Hl
    ltac:(change (2 ^ (64 - 1)) with (2 ^ 63) in Hn; lia)) as Hs.
  destruct (readSlice _ _ _) as [[[]|]|]; [lia|done..].
Qed.

Lemma unmarshal_total {M} name (field : field_reader M) `{!FieldReader field} dAtA m :
  len dAtA < 2 ^ 63 -> exists r, unmarshal_with name field dAtA m = Some r.
Proof.
  intros Hb. unfold unmarshal_with. set (l := len dAtA) in *.
  assert (Hr : len dAtA <= l) by (unfold l; lia).
  assert (Hf : (length dAtA <= length dAtA)%nat) by lia. revert Hr Hf.
  generalize (length dAtA) at 2 3 as fuel. generalize dAtA as rest. clearbody l. clear dAtA.
  intros rest fuel. revert rest m. induction fuel as [|fuel IH]; intros rest m Hr Hf.
  { destruct rest; [by eexists|]. simpl in Hf. lia. }
  destruct (decide (rest = [])) as [->|Hne]; [by eexists|].
  assert (Hrec : forall rest' m', len rest' < len rest ->
    exists r, unmarshal_loop name field fuel l rest' m' = Some r)
    by (intros rest' m' Hlt; apply IH; unfold len in *; lia).
  assert (Hpos : 0 < len rest) by (pose proof (len_nonneg rest); destruct (Z.eq_dec (len rest) 0);
    [by apply len_0 in e|lia]).
  assert (Hstep : forall f, unmarshal_loop name field (S f) l rest m = unmarshal_step name field l rest m
    (unmarshal_loop name field f l)) by (by destruct rest). rewrite Hstep. clear Hstep.
  unfold unmarshal_step.
  destruct (readVarint _ rest 0 0) as [[wire rest1]|] eqn:Hv; [|by eexists].
  apply readVarint_len in Hv. destruct (_ =? 4); [by eexists|]. destruct (_ <=? 0); [by eexists|].
  pose proof (field_reader_ok (wraps 32 (Z.shiftr wire 3)) (Z.land wire 7) l rest1 m ltac:(lia) Hb) as Hok.
  destruct (field _ _ _ _ _) as [m' rest2|err| |]; [apply Hrec; lia|by eexists|done|].
  destruct (skip_total rest ltac:(lia)) as (r & -> & Hskip). destruct r as [n|]; [|by eexists].
  specialize (Hskip n eq_refl). destruct (n <? 0); [by eexists|].
  destruct (int_add _ n <? 0) eqn:Hneg; [by eexists|]. bdestruct_all.
  destruct (int_add _ n >? l); [by eexists|]. apply Hrec.
  unfold len in *. rewrite length_drop. lia.
Qed.

(** A field that a message does not know, of a varint or of bytes *)
Inductive unknown_field : byte -> bytes -> Prop :=
| unknown_varint tag num v : tag_of tag num 0 -> in_u 64 v -> unknown_field tag (varint v)
| unknown_bytes tag num p : tag_of tag num 2 -> len p < 2 ^ 63 -> unknown_field tag (varint (len p) ++ p).

Lemma skip_field tag body rest :
  unknown_field tag body -> len (tag :: body ++ rest) < 2 ^ 63 ->
  skip (tag :: body ++ rest) = Some (Ok (1 + len body)).
Proof.
  intros Hu Hb. unfold skip. set (dAtA := tag :: body ++ rest) in *.
  assert (Hl : len dAtA = 1 + len body + len rest) by (unfold dAtA; rewrite len_cons, len_app; lia).
  pose proof (len_nonneg body). pose proof (len_nonneg rest).
  assert (Hnext : exists wire, readVarint (wrapu 64) dAtA 0 0 = Ok (wire, body ++ rest)
    /\ skip_next (len dAtA) wire (body ++ rest) 0 = Ok (1 + len body, 0)).
  { destruct Hu as [tag num v Ht Hv|tag num p Ht Hp]; destruct (tag_split _ _ _ Ht) as (Hlt & _ & Hw);
      exists (byte_val tag); (split; [by apply read_tag|]); unfold skip_next; rewrite Hw.
    - rewrite (read_varint _) by done. cbn [mbind result_bind]. do 2 f_equal. lia.
    - rewrite <- app_assoc, (read_varint _) by by apply len_in_u. cbn [mbind result_bind].
      rewrite wraps_small by (done || by apply len_in_s). pose proof (len_nonneg p).
      replace (len p <? 0) with false by lia. rewrite !len_app in *.
      rewrite int_add_small by (unfold in_s; change (2 ^ (64 - 1)) with (2 ^ 63); lia). do 2 f_equal. lia. }
  destruct Hnext as (wire & Hr & Hn).
  change (length dAtA) with (S (length (body ++ rest))). cbn [skip_loop].
  replace (0 <? len dAtA) with true by lia. cbn [negb]. rewrite drop_0, Hr, Hn.
  replace (1 + len body <? 0) with false by lia. done.
Qed.

Lemma reads_unknown {M} name (field : field_reader M) l tag body m :
  unknown_field tag body -> l < 2 ^ 63 ->
  (forall rest, field (byte_val tag / 8) (byte_val tag mod 8) l rest m = FieldUnknown) ->
  reads name field l (tag :: body) m m.
Proof.
  intros Hu Hb Hfield rest fuel Hl Hf. destruct fuel as [|fuel]; [simpl in Hf; lia|].
  exists fuel. split; [simpl in Hf; rewrite length_app in Hf; lia|].
  cbn [app] in *. pose proof (len_nonneg body). pose proof (len_nonneg rest).
  assert (Htag : exists num wt, tag_of tag num wt /\ wt <> 4) by (destruct Hu; by do 2 eexists).
  destruct Htag as (num & wt & Ht & Hne). destruct (tag_split _ _ _ Ht) as (Hlt & Hnum & Hw).
  assert (Hdm : byte_val tag / 8 = num /\ byte_val tag mod 8 = wt).
  { destruct Ht as [-> ? ?]. rewrite Z.div_add_l, Z.div_small by lia.
    rewrite (Z.add_comm _ wt), Z.mod_add by lia. split; [lia|by apply Z.mod_small]. }
  destruct Hdm as [Hd Hm]. rewrite Hd, Hm in Hfield.
  cbn [unmarshal_loop]. unfold unmarshal_step. rewrite read_tag by done. cbv zeta. rewrite Hnum, Hw, Hfield.
  replace (wt =? 4) with false by lia. pose proof (tag_num _ _ _ Ht).
  replace (num <=? 0) with false by lia. rewrite skip_field by (done || lia).
  rewrite len_cons, len_app in *. replace (1 + len body <? 0) with false by lia.
  rewrite int_add_small by (unfold in_s; change (2 ^ (64 - 1)) with (2 ^ 63); lia).
  replace (l - _ + _ <? 0) with false by lia. replace (l - _ + _ >? l) with false by lia.
  unfold len. replace (Z.to_nat (1 + Z.of_nat (length body))) with (S (length body)) by lia.
  cbn [drop]. by rewrite drop_app_length.
Qed.

(** [MarshalToSizedBuffer] from what the fields write. *)
Lemma sized_writes mtsb f enc :
  writes f enc -> (forall dAtA, mtsb dAtA = ('(dAtA, i) ← f (dAtA, len dAtA); Some (dAtA, len dAtA - i))) ->
  sized mtsb enc.
Proof.
  intros Hf Hm dAtA Hl.
  rewrite Hm, (writes_buffer f enc) by done. cbn [mbind option_bind]. do 2 f_equal.
  pose proof (len_nonneg enc). pose proof (len_nonneg dAtA). unfold len in *.
  rewrite length_app, length_take. lia.
Qed.
