(* ===== verification/WireMessages.v ===== *)
(** * The messages on the wire

    The three protocol buffers messages: [WsMessage] of
    websocket/data/wsMessage.pb.go, [TopicMessage] of p2p/data/topicMessage.pb.go
    and [PeerShard] of p2p/message/peerShardMessage.pb.go, each with its [Size],
    its marshalling into a buffer and its [Unmarshal]. *)

From S2P Require Import Prelude Errors Config Messages Protobuf.
From stdpp Require Import list.
Open Scope Z_scope.

(** ** WsMessage *)

Record WsMessage := {
  WithAcknowledge : bool;
  Counter : Z;       (* uint64 *)
  ws_Type : Z;       (* int32 *)
  ws_Payload : slice;
  ws_Topic : string;
  ws_Version : Z;    (* uint32 *)
}.

#[export] Instance WsMessage_eq_decision : EqDecision WsMessage.
Proof. solve_decision. Defined.

(** The struct of which all fields are zero *)
Definition WsMessage_zero : WsMessage := {|
  WithAcknowledge := false; Counter := 0; ws_Type := 0; ws_Payload := None; ws_Topic := "";
  ws_Version := 0 |}.

Definition WsMessage_Size (m : WsMessage) : Z :=
  let n := if WithAcknowledge m then 2 else 0 in
  let n := if negb (Counter m =? 0) then n + (1 + sov (Counter m)) else n in
  let n := if negb (ws_Type m =? 0) then n + (1 + sov (wrapu 64 (ws_Type m))) else n in
  let l := len (sl (ws_Payload m)) in
  let n := if l >? 0 then n + (1 + l + sov l) else n in
  let l := len (to_bytes (ws_Topic m)) in
  let n := if l >? 0 then n + (1 + l + sov l) else n in
  if negb (ws_Version m =? 0) then n + (1 + sov (ws_Version m)) else n.

(** [dAtA[i] = 1] under the field's condition, then the tag *)
Definition put_true (b : buffer) : option buffer := b ← put_tag Byte.x01 b; put_tag Byte.x08 b.

Definition WsMessage_MarshalToSizedBuffer (m : WsMessage) (dAtA : bytes) : option (bytes * Z) :=
  b ← when (negb (ws_Version m =? 0)) (put_varint Byte.x30 (ws_Version m)) (dAtA, len dAtA);
  b ← when (len (to_bytes (ws_Topic m)) >? 0) (put_bytes Byte.x2a (to_bytes (ws_Topic m))) b;
  b ← when (len (sl (ws_Payload m)) >? 0) (put_bytes Byte.x22 (sl (ws_Payload m))) b;
  b ← when (negb (ws_Type m =? 0)) (put_varint Byte.x18 (wrapu 64 (ws_Type m))) b;
  b ← when (negb (Counter m =? 0)) (put_varint Byte.x10 (Counter m)) b;
  '(dAtA, i) ← when (WithAcknowledge m) put_true b;
  Some (dAtA, len dAtA - i).

Definition WsMessage_Marshal (m : WsMessage) : option bytes :=
  marshal_with (WsMessage_Size m) (WsMessage_MarshalToSizedBuffer m).

Definition ws_set_ack (m : WsMessage) (v : bool) : WsMessage := {|
  WithAcknowledge := v; Counter := Counter m; ws_Type := ws_Type m; ws_Payload := ws_Payload m;
  ws_Topic := ws_Topic m; ws_Version := ws_Version m |}.
Definition ws_set_counter (m : WsMessage) (v : Z) : WsMessage := {|
  WithAcknowledge := WithAcknowledge m; Counter := v; ws_Type := ws_Type m; ws_Payload := ws_Payload m;
  ws_Topic := ws_Topic m; ws_Version := ws_Version m |}.
Definition ws_set_type (m : WsMessage) (v : Z) : WsMessage := {|
  WithAcknowledge := WithAcknowledge m; Counter := Counter m; ws_Type := v; ws_Payload := ws_Payload m;
  ws_Topic := ws_Topic m; ws_Version := ws_Version m |}.
Definition ws_set_payload (m : WsMessage) (v : slice) : WsMessage := {|
  WithAcknowledge := WithAcknowledge m; Counter := Counter m; ws_Type := ws_Type m; ws_Payload := v;
  ws_Topic := ws_Topic m; ws_Version := ws_Version m |}.
Definition ws_set_topic (m : WsMessage) (v : string) : WsMessage := {|
  WithAcknowledge := WithAcknowledge m; Counter := Counter m; ws_Type := ws_Type m;
  ws_Payload := ws_Payload m; ws_Topic := v; ws_Version := ws_Version m |}.
Definition ws_set_version (m : WsMessage) (v : Z) : WsMessage := {|
  WithAcknowledge := WithAcknowledge m; Counter := Counter m; ws_Type := ws_Type m;
  ws_Payload := ws_Payload m; ws_Topic := ws_Topic m; ws_Version := v |}.

Definition WsMessage_field : field_reader WsMessage := fun fieldNum wireType l rest m =>
  match fieldNum with
  | 1 => varint_case "WithAcknowledge" (wraps 64) (fun v => ws_set_ack m (negb (v =? 0))) wireType rest
  | 2 => varint_case "Counter" (wrapu 64) (ws_set_counter m) wireType rest
  | 3 => varint_case "Type" (wraps 32) (ws_set_type m) wireType rest
  | 4 => slice_case "Payload" readBytes (fun p => ws_set_payload m (Some p)) wireType l rest
  | 5 => slice_case "Topic" readString (fun p => ws_set_topic m (of_bytes p)) wireType l rest
  | 6 => varint_case "Version" (wrapu 32) (ws_set_version m) wireType rest
  | _ => FieldUnknown
  end.

Definition WsMessage_Unmarshal (dAtA : bytes) (m : WsMessage) : option (result WsMessage) :=
  unmarshal_with "WsMessage" WsMessage_field dAtA m.

(** ** TopicMessage *)

Definition TopicMessage_zero : TopicMessage := {|
  Version := 0; Payload := None; Timestamp := 0; Pk := None; SignatureOnPid := None |}.

Definition TopicMessage_Size (m : TopicMessage) : Z :=
  let n := if negb (Version m =? 0) then 1 + sov (Version m) else 0 in
  let l := len (sl (Payload m)) in
  let n := if l >? 0 then n + (1 + l + sov l) else n in
  let n := if negb (Timestamp m =? 0) then n + (1 + sov (wrapu 64 (Timestamp m))) else n in
  let l := len (sl (Pk m)) in
  let n := if l >? 0 then n + (1 + l + sov l) else n in
  let l := len (sl (SignatureOnPid m)) in
  if l >? 0 then n + (1 + l + sov l) else n.

Definition TopicMessage_MarshalToSizedBuffer (m : TopicMessage) (dAtA : bytes) : option (bytes * Z) :=
  b ← when (len (sl (SignatureOnPid m)) >? 0) (put_bytes Byte.x2a (sl (SignatureOnPid m))) (dAtA, len dAtA);
  b ← when (len (sl (Pk m)) >? 0) (put_bytes Byte.x22 (sl (Pk m))) b;
  b ← when (negb (Timestamp m =? 0)) (put_varint Byte.x18 (wrapu 64 (Timestamp m))) b;
  b ← when (len (sl (Payload m)) >? 0) (put_bytes Byte.x12 (sl (Payload m))) b;
  '(dAtA, i) ← when (negb (Version m =? 0)) (put_varint Byte.x08 (Version m)) b;
  Some (dAtA, len dAtA - i).

Definition TopicMessage_Marshal (m : TopicMessage) : option bytes :=
  marshal_with (TopicMessage_Size m) (TopicMessage_MarshalToSizedBuffer m).

Definition tm_set_version (m : TopicMessage) (v : Z) : TopicMessage := {|
  Version := v; Payload := Payload m; Timestamp := Timestamp m; Pk := Pk m;
  SignatureOnPid := SignatureOnPid m |}.
Definition tm_set_payload (m : TopicMessage) (v : slice) : TopicMessage := {|
  Version := Version m; Payload := v; Timestamp := Timestamp m; Pk := Pk m;
  SignatureOnPid := SignatureOnPid m |}.
Definition tm_set_timestamp (m : TopicMessage) (v : Z) : TopicMessage := {|
  Version := Version m; Payload := Payload m; Timestamp := v; Pk := Pk m;
  SignatureOnPid := SignatureOnPid m |}.
Definition tm_set_pk (m : TopicMessage) (v : slice) : TopicMessage := {|
  Version := Version m; Payload := Payload m; Timestamp := Timestamp m; Pk := v;
  SignatureOnPid := SignatureOnPid m |}.
Definition tm_set_sig (m : TopicMessage) (v : slice) : TopicMessage := {|
  Version := Version m; Payload := Payload m; Timestamp := Timestamp m; Pk := Pk m;
  SignatureOnPid := v |}.

Definition TopicMessage_field : field_reader TopicMessage := fun fieldNum wireType l rest m =>
  match fieldNum with
  | 1 => varint_case "Version" (wrapu 32) (tm_set_version m) wireType rest
  | 2 => slice_case "Payload" readBytes (fun p => tm_set_payload m (Some p)) wireType l rest
  | 3 => varint_case "Timestamp" (wraps 64) (tm_set_timestamp m) wireType rest
  | 4 => slice_case "Pk" readBytes (fun p => tm_set_pk m (Some p)) wireType l rest
  | 5 => slice_case "SignatureOnPid" readBytes (fun p => tm_set_sig m (Some p)) wireType l rest
  | _ => FieldUnknown
  end.

Definition TopicMessage_Unmarshal (dAtA : bytes) (m : TopicMessage) : option (result TopicMessage) :=
  unmarshal_with "TopicMessage" TopicMessage_field dAtA m.

(** ** PeerShard *)

Record PeerShard := { ShardId : string }.

Definition PeerShard_zero : PeerShard := {| ShardId := "" |}.

Definition PeerShard_Size (m : PeerShard) : Z :=
  let l := len (to_bytes (ShardId m)) in
  if l >? 0 then 1 + l + sov l else 0.

Definition PeerShard_MarshalToSizedBuffer (m : PeerShard) (dAtA : bytes) : option (bytes * Z) :=
  '(dAtA, i) ← when (len (to_bytes (ShardId m)) >? 0) (put_bytes Byte.x0a (to_bytes (ShardId m)))
    (dAtA, len dAtA);
  Some (dAtA, len dAtA - i).

Definition PeerShard_Marshal (m : PeerShard) : option bytes :=
  marshal_with (PeerShard_Size m) (PeerShard_MarshalToSizedBuffer m).

Definition PeerShard_field : field_reader PeerShard := fun fieldNum wireType l rest m =>
  match fieldNum with
  | 1 => slice_case "ShardId" readString (fun p => {| ShardId := of_bytes p |}) wireType l rest
  | _ => FieldUnknown
  end.

Definition PeerShard_Unmarshal (dAtA : bytes) (m : PeerShard) : option (result PeerShard) :=
  unmarshal_with "PeerShard" PeerShard_field dAtA m.

(** ** What the messages marshal into *)

Definition bool_part (c : bool) (tag : byte) : bytes := if c then [tag; Byte.x01] else [].
Definition varint_part (c : bool) (tag : byte) (v : Z) : bytes := if c then tag :: varint v else [].
Definition bytes_part (c : bool) (tag : byte) (p : bytes) : bytes :=
  if c then tag :: varint (len p) ++ p else [].

Lemma bool_part_len c tag : len (bool_part c tag) = if c then 2 else 0.
Proof. by destruct c. Qed.

Lemma varint_part_len c tag v : in_u 64 v -> len (varint_part c tag v) = if c then 1 + sov v else 0.
Proof. intros Hv. destruct c; [|done]. cbn [varint_part]. by rewrite len_cons, varint_len. Qed.

Lemma bytes_part_len c tag p :
  len p < 2 ^ 63 -> len (bytes_part c tag p) = if c then 1 + len p + sov (len p) else 0.
Proof.
  intros Hp. destruct c; [|done]. cbn [bytes_part]. rewrite len_cons, len_app, varint_len by by apply len_in_u.
  lia.
Qed.

Lemma put_true_writes c : writes (when c put_true) (bool_part c Byte.x08).
Proof.
  apply (writes_when c put_true [Byte.x08; Byte.x01]).
  apply (writes_bind _ _ [Byte.x01] [Byte.x08]); apply put_tag_writes.
Qed.

Lemma varint_writes c tag v : in_u 64 v -> writes (when c (put_varint tag v)) (varint_part c tag v).
Proof. intros Hv. apply writes_when, put_varint_writes, Hv. Qed.

Lemma bytes_writes c tag p : len p < 2 ^ 63 -> writes (when c (put_bytes tag p)) (bytes_part c tag p).
Proof. intros Hp. apply writes_when, put_bytes_writes, len_in_u, Hp. Qed.

(** A message whose fields are in the range of their types, and that a buffer
    can hold *)
Record ws_wf (m : WsMessage) : Prop := {
  ws_wf_counter : in_u 64 (Counter m);
  ws_wf_type : in_s 32 (ws_Type m);
  ws_wf_version : in_u 32 (ws_Version m);
  ws_wf_size : WsMessage_Size m < 2 ^ 63;
}.

Definition WsMessage_encoding (m : WsMessage) : bytes :=
  bool_part (WithAcknowledge m) Byte.x08
  ++ varint_part (negb (Counter m =? 0)) Byte.x10 (Counter m)
  ++ varint_part (negb (ws_Type m =? 0)) Byte.x18 (wrapu 64 (ws_Type m))
  ++ bytes_part (len (sl (ws_Payload m)) >? 0) Byte.x22 (sl (ws_Payload m))
  ++ bytes_part (len (to_bytes (ws_Topic m)) >? 0) Byte.x2a (to_bytes (ws_Topic m))
  ++ varint_part (negb (ws_Version m =? 0)) Byte.x30 (ws_Version m).

Lemma in_u_mono w v : 0 <= w -> w <= 64 -> in_u w v -> in_u 64 v.
Proof.
  intros ? Hw [? Hv]. split; [done|]. eapply Z.lt_le_trans; [exact Hv|]. by apply Z.pow_le_mono_r.
Qed.

Lemma sov_nonneg v : 0 <= sov v.
Proof.
  unfold sov, Len64. apply Z.div_pos; [|lia]. destruct (_ =? 0); [lia|].
  pose proof (Z.log2_nonneg (Z.lor v 1)). lia.
Qed.

(** Splits the conditions of a size, each summand being positive. *)
Ltac size_cases :=
  repeat match goal with
  | |- context [sov ?v] =>
      lazymatch goal with H : 0 <= sov v |- _ => fail | _ => pose proof (sov_nonneg v) end
  | H : context [sov ?v] |- _ =>
      lazymatch goal with H : 0 <= sov v |- _ => fail | _ => pose proof (sov_nonneg v) end
  | |- context [if ?c then _ else _] => destruct c eqn:?
  | H : context [if ?c then _ else _] |- _ => destruct c eqn:?
  end; bdestruct_all; lia.

Lemma ws_wf_bounds m :
  ws_wf m -> len (sl (ws_Payload m)) < 2 ^ 63 /\ len (to_bytes (ws_Topic m)) < 2 ^ 63.
Proof.
  intros [_ _ _ H]. unfold WsMessage_Size in H. cbv zeta in H.
  assert (0 < 2 ^ 63) by done.
  split; size_cases.
Qed.

Lemma ws_encoding_len m : ws_wf m -> len (WsMessage_encoding m) = WsMessage_Size m.
Proof.
  intros Hwf. destruct (ws_wf_bounds m Hwf) as [Hp Ht]. destruct Hwf as [Hc Hty Hv _].
  unfold WsMessage_encoding, WsMessage_Size. rewrite !len_app, bool_part_len.
  rewrite !varint_part_len by (done || by apply wrapu_range || by apply (in_u_mono 32)).
  rewrite !bytes_part_len by done. cbv zeta. size_cases.
Qed.

Lemma WsMessage_sized m : ws_wf m -> sized (WsMessage_MarshalToSizedBuffer m) (WsMessage_encoding m).
Proof.
  intros Hwf. destruct (ws_wf_bounds m Hwf) as [Hp Ht]. eapply sized_writes.
  - unfold WsMessage_encoding. rewrite !app_assoc. destruct Hwf as [Hc Hty Hv _].
    apply writes_bind; [by apply varint_writes, (in_u_mono 32)|].
    apply writes_bind; [by apply bytes_writes|].
    apply writes_bind; [by apply bytes_writes|].
    apply writes_bind; [by apply varint_writes, wrapu_range|].
    apply writes_bind; [by apply varint_writes|]. apply put_true_writes.
  - intros dAtA. unfold WsMessage_MarshalToSizedBuffer.
    repeat (destruct (when _ _ _); cbn [mbind option_bind]; [|done]). done.
Qed.

Lemma WsMessage_Marshal_encoding m : ws_wf m -> WsMessage_Marshal m = Some (WsMessage_encoding m).
Proof. intros Hwf. apply marshal_with_spec; [by apply WsMessage_sized|by rewrite ws_encoding_len]. Qed.

(** ** Reading them back *)

(** An [int32] is written sign extended to 64 bits. *)
Lemma wraps32_wrapu64 v : in_s 32 v -> wraps 32 (wrapu 64 v) = v.
Proof.
  intros Hv. rewrite <- (wraps_wrapu 32 v) at 2 by done. unfold wrapu, wraps.
  change (2 ^ 64) with (2 ^ 32 * 2 ^ 32). rewrite Z.rem_mul_r by done.
  rewrite (Z.mul_comm (2 ^ 32)), Z.add_shuffle0, Z.mod_add by done. done.
Qed.

Lemma reads_varint_part {M} name (field : field_reader M) l c tag num fname conv `{!BitConv conv} v m set m' :
  tag_of tag num 0 -> in_u 64 v ->
  (forall rest, field num 0 l rest m = varint_case fname conv set 0 rest) ->
  (c = true -> m' = set (conv v)) -> (c = false -> m' = m) ->
  reads name field l (varint_part c tag v) m m'.
Proof.
  intros Ht Hv Hf Ht' Hf'. apply reads_when; [|done]. intros Hc. rewrite (Ht' Hc).
  by apply (reads_varint name field l tag num fname).
Qed.

Lemma reads_bytes_part {M} name (field : field_reader M) l c tag num fname p m set m' :
  tag_of tag num 2 -> l < 2 ^ 63 ->
  (forall rest, field num 2 l rest m = slice_case fname readBytes set 2 l rest) ->
  (c = true -> m' = set p) -> (c = false -> m' = m) ->
  reads name field l (bytes_part c tag p) m m'.
Proof.
  intros Ht Hl Hf Ht' Hf'. apply reads_when; [|done]. intros Hc. rewrite (Ht' Hc).
  apply (reads_slice name field l tag num fname readBytes); [done|done| |done].
  intros rest Hr. by apply readBytes_app.
Qed.

Lemma reads_string_part {M} name (field : field_reader M) l c tag num fname p m set m' :
  tag_of tag num 2 -> l < 2 ^ 63 ->
  (forall rest, field num 2 l rest m = slice_case fname readString set 2 l rest) ->
  (c = true -> m' = set p) -> (c = false -> m' = m) ->
  reads name field l (bytes_part c tag p) m m'.
Proof.
  intros Ht Hl Hf Ht' Hf'. apply reads_when; [|done]. intros Hc. rewrite (Ht' Hc).
  apply (reads_slice name field l tag num fname readString); [done|done| |done].
  intros rest Hr. by apply readString_app.
Qed.

(** Fields of numbers from [first] on, which a message does not know *)
Definition unknown_fields (first : Z) (extra : list (byte * bytes)) : Prop :=
  Forall (fun f => unknown_field f.1 f.2 /\ first <= byte_val f.1 / 8) extra.

Definition fields_bytes (extra : list (byte * bytes)) : bytes := concat ((fun f => f.1 :: f.2) <$> extra).

Lemma reads_unknown_fields {M} name (field : field_reader M) first l extra m :
  unknown_fields first extra -> l < 2 ^ 63 ->
  (forall num wt rest, first <= num -> field num wt l rest m = FieldUnknown) ->
  reads name field l (fields_bytes extra) m m.
Proof.
  intros Hu Hl Hf. induction Hu as [|[tag body] extra [Hu Hnum] _ IH]; [apply reads_nil|].
  apply (reads_app name field l (tag :: body)) with m; [|done].
  apply reads_unknown; [done|done|]. intros rest. by apply Hf.
Qed.

(** A bytes field that is empty is not written, and reads back as nil. *)
Definition canon (s : slice) : slice := match s with Some (_ :: _) => s | _ => None end.

Lemma canon_sl s : sl (canon s) = sl s.
Proof. by destruct s as [[]|]. Qed.

Lemma canon_nonempty s : (len (sl s) >? 0) = true -> canon s = Some (sl s).
Proof. by destruct s as [[]|]. Qed.

Lemma canon_empty s : (len (sl s) >? 0) = false -> canon s = None.
Proof. by destruct s as [[|b s]|]. Qed.

Lemma string_empty s : (len (to_bytes s) >? 0) = false -> s = "".
Proof. by destruct s. Qed.

Definition ws_canon (m : WsMessage) : WsMessage := ws_set_payload m (canon (ws_Payload m)).

Ltac solve_tag := split; done.

(** The fields of the message read back into the message, whatever unknown
    fields follow. *)
Lemma WsMessage_reads l m :
  ws_wf m -> l < 2 ^ 63 ->
  reads "WsMessage" WsMessage_field l (WsMessage_encoding m) WsMessage_zero (ws_canon m).
Proof.
  intros Hwf Hl. destruct Hwf as [Hc Ht Hv _].
  set (m1 := ws_set_ack WsMessage_zero (WithAcknowledge m)). set (m2 := ws_set_counter m1 (Counter m)).
  set (m3 := ws_set_type m2 (ws_Type m)). set (m4 := ws_set_payload m3 (canon (ws_Payload m))).
  set (m5 := ws_set_topic m4 (ws_Topic m)).
  unfold WsMessage_encoding. apply reads_app with m1.
  { apply (reads_varint_part _ _ _ _ Byte.x08 1 "WithAcknowledge" (wraps 64) 1
      _ (fun v => ws_set_ack WsMessage_zero (negb (v =? 0)))); [solve_tag|done|done| |];
      intros H; unfold m1; by rewrite H. }
  apply reads_app with m2.
  { apply (reads_varint_part _ _ _ _ _ 2 "Counter" (wrapu 64) _ m1 (ws_set_counter m1));
      [solve_tag|done|done| |]; intros H; bdestruct_all.
    - unfold m2. by rewrite wrapu_small.
    - unfold m2. by rewrite H. }
  apply reads_app with m3.
  { apply (reads_varint_part _ _ _ _ _ 3 "Type" (wraps 32) _ m2 (ws_set_type m2));
      [solve_tag|by apply wrapu_range|done| |]; intros H; bdestruct_all; unfold m3; [|by rewrite H].
    f_equal. symmetry. by apply wraps32_wrapu64. }
  apply reads_app with m4.
  { apply (reads_bytes_part _ _ _ _ _ 4 "Payload" _ m3 (fun p => ws_set_payload m3 (Some p)));
      [solve_tag|done|done| |]; intros H; unfold m4; [by rewrite (canon_nonempty _ H)|by rewrite (canon_empty _ H)]. }
  apply reads_app with m5.
  { apply (reads_string_part _ _ _ _ _ 5 "Topic" _ m4 (fun p => ws_set_topic m4 (of_bytes p)));
      [solve_tag|done|done| |]; intros H; unfold m5; [by rewrite of_to_bytes|by rewrite (string_empty _ H)]. }
  apply (reads_varint_part _ _ _ _ _ 6 "Version" (wrapu 32) _ m5 (ws_set_version m5));
    [solve_tag|by apply (in_u_mono 32)|done| |]; intros H; bdestruct_all; unfold ws_canon, ws_set_payload.
  - unfold ws_set_version. by rewrite wrapu_small.
  - by rewrite H.
Qed.

(** *** TopicMessage *)

Record tm_wf (m : TopicMessage) : Prop := {
  tm_wf_version : in_u 32 (Version m);
  tm_wf_timestamp : in_s 64 (Timestamp m);
  tm_wf_size : TopicMessage_Size m < 2 ^ 63;
}.

Definition TopicMessage_encoding (m : TopicMessage) : bytes :=
  varint_part (negb (Version m =? 0)) Byte.x08 (Version m)
  ++ bytes_part (len (sl (Payload m)) >? 0) Byte.x12 (sl (Payload m))
  ++ varint_part (negb (Timestamp m =? 0)) Byte.x18 (wrapu 64 (Timestamp m))
  ++ bytes_part (len (sl (Pk m)) >? 0) Byte.x22 (sl (Pk m))
  ++ bytes_part (len (sl (SignatureOnPid m)) >? 0) Byte.x2a (sl (SignatureOnPid m)).

Lemma tm_wf_bounds m :
  tm_wf m ->
  len (sl (Payload m)) < 2 ^ 63 /\ len (sl (Pk m)) < 2 ^ 63 /\ len (sl (SignatureOnPid m)) < 2 ^ 63.
Proof.
  intros [_ _ H]. unfold TopicMessage_Size in H. cbv zeta in H.
  assert (0 < 2 ^ 63) by done. split_and!; size_cases.
Qed.

Lemma tm_encoding_len m : tm_wf m -> len (TopicMessage_encoding m) = TopicMessage_Size m.
Proof.
  intros Hwf. destruct (tm_wf_bounds m Hwf) as (Hp & Hk & Hs). destruct Hwf as [Hv Ht _].
  unfold TopicMessage_encoding, TopicMessage_Size. rewrite !len_app.
  rewrite !varint_part_len by (by apply wrapu_range || by apply (in_u_mono 32)).
  rewrite !bytes_part_len by done. cbv zeta. size_cases.
Qed.

Lemma TopicMessage_sized m : tm_wf m -> sized (TopicMessage_MarshalToSizedBuffer m) (TopicMessage_encoding m).
Proof.
  intros Hwf. destruct (tm_wf_bounds m Hwf) as (Hp & Hk & Hs). eapply sized_writes.
  - unfold TopicMessage_encoding. rewrite !app_assoc. destruct Hwf as [Hv Ht _].
    apply writes_bind; [by apply bytes_writes|].
    apply writes_bind; [by apply bytes_writes|].
    apply writes_bind; [by apply varint_writes, wrapu_range|].
    apply writes_bind; [by apply bytes_writes|]. by apply varint_writes, (in_u_mono 32).
  - intros dAtA. unfold TopicMessage_MarshalToSizedBuffer.
    repeat (destruct (when _ _ _); cbn [mbind option_bind]; [|done]). done.
Qed.

Lemma TopicMessage_Marshal_encoding m :
  tm_wf m -> TopicMessage_Marshal m = Some (TopicMessage_encoding m).
Proof. intros Hwf. apply marshal_with_spec; [by apply TopicMessage_sized|by rewrite tm_encoding_len]. Qed.

Definition tm_canon (m : TopicMessage) : TopicMessage := {|
  Version := Version m; Payload := canon (Payload m); Timestamp := Timestamp m; Pk := canon (Pk m);
  SignatureOnPid := canon (SignatureOnPid m) |}.

Lemma TopicMessage_reads l m :
  tm_wf m -> l < 2 ^ 63 ->
  reads "TopicMessage" TopicMessage_field l (TopicMessage_encoding m) TopicMessage_zero (tm_canon m).
Proof.
  intros [Hv Ht _] Hl.
  set (m1 := tm_set_version TopicMessage_zero (Version m)).
  set (m2 := tm_set_payload m1 (canon (Payload m))). set (m3 := tm_set_timestamp m2 (Timestamp m)).
  set (m4 := tm_set_pk m3 (canon (Pk m))).
  unfold TopicMessage_encoding. apply reads_app with m1.
  { apply (reads_varint_part _ _ _ _ _ 1 "Version" (wrapu 32) _ _ (tm_set_version TopicMessage_zero));
      [solve_tag|by apply (in_u_mono 32)|done| |]; intros H; bdestruct_all; unfold m1;
      [by rewrite wrapu_small|by rewrite H]. }
  apply reads_app with m2.
  { apply (reads_bytes_part _ _ _ _ _ 2 "Payload" _ m1 (fun p => tm_set_payload m1 (Some p)));
      [solve_tag|done|done| |]; intros H; unfold m2;
      [by rewrite (canon_nonempty _ H)|by rewrite (canon_empty _ H)]. }
  apply reads_app with m3.
  { apply (reads_varint_part _ _ _ _ _ 3 "Timestamp" (wraps 64) _ m2 (tm_set_timestamp m2));
      [solve_tag|by apply wrapu_range|done| |]; intros H; bdestruct_all; unfold m3;
      [by rewrite wraps_wrapu|by rewrite H]. }
  apply reads_app with m4.
  { apply (reads_bytes_part _ _ _ _ _ 4 "Pk" _ m3 (fun p => tm_set_pk m3 (Some p)));
      [solve_tag|done|done| |]; intros H; unfold m4;
      [by rewrite (canon_nonempty _ H)|by rewrite (canon_empty _ H)]. }
  apply (reads_bytes_part _ _ _ _ _ 5 "SignatureOnPid" _ m4 (fun p => tm_set_sig m4 (Some p)));
    [solve_tag|done|done| |]; intros H; unfold tm_canon;
    [by rewrite (canon_nonempty _ H)|by rewrite (canon_empty (SignatureOnPid m) H)].
Qed.

(** The marshaller that calls the generated methods of the message; a panic, which
    never happens, would be one of its errors. *)
Definition generated_marshaller : Marshaller := {|
  MarshalTopic tm :=
    match TopicMessage_Marshal tm with Some b => Ok b | None => Err (EExternal "panic") end;
  UnmarshalTopic b :=
    match TopicMessage_Unmarshal (sl b) TopicMessage_zero with Some r => r | None => Err (EExternal "panic") end;
|}.

Lemma sent_topic_wf buff timestamp : len buff < 2 ^ 62 -> in_s 64 timestamp -> tm_wf (sent_topic buff timestamp).
Proof.
  intros Hl Ht. split; [done|done|]. unfold TopicMessage_Size, sent_topic. cbn [Version Payload Timestamp Pk SignatureOnPid sl default].
  change (2 ^ 62) with 4611686018427387904 in *. change (2 ^ 63) with 9223372036854775808.
  pose proof (len_nonneg buff). cbv zeta.
  assert (sov (len buff) <= 10).
  { apply sov_le. split; [done|]. change (2 ^ 64) with 18446744073709551616. lia. }
  pose proof (sov_le (wrapu 64 timestamp) (wrapu_range 64 _ ltac:(lia))).
  change (sov currentTopicMessageVersion) with 1.
  repeat case_match; bdestruct_all; unfold id in *; change (@len byte []) with 0 in *; lia.
Qed.

#[export] Instance generated_marshaller_laws : TopicMarshallerLaws generated_marshaller.
Proof.
  split. intros buff timestamp b Hne Hlen Ht. pose proof (sent_topic_wf buff timestamp Hlen Ht) as Hwf.
  cbn [generated_marshaller MarshalTopic UnmarshalTopic sl default]. rewrite TopicMessage_Marshal_encoding by done.
  intros Hb. apply (inj Ok) in Hb as <-. pose proof (tm_encoding_len _ Hwf) as Hl. destruct Hwf as [_ _ Hs].
  unfold TopicMessage_Unmarshal. rewrite (unmarshal_reads _ _ _ _ (tm_canon (sent_topic buff timestamp))).
  - split; [|done]. f_equal. unfold tm_canon, sent_topic. cbn [Version Payload Timestamp Pk SignatureOnPid]. by destruct buff.
  - apply TopicMessage_reads; [by apply sent_topic_wf|]. unfold id. by rewrite Hl.
Qed.

(** *** PeerShard *)

Definition PeerShard_encoding (m : PeerShard) : bytes :=
  bytes_part (len (to_bytes (ShardId m)) >? 0) Byte.x0a (to_bytes (ShardId m)).

Lemma ps_bounds m : PeerShard_Size m < 2 ^ 63 -> len (to_bytes (ShardId m)) < 2 ^ 63.
Proof. unfold PeerShard_Size. cbv zeta. assert (H0 : 0 < 2 ^ 63) by done. intros Hsize. size_cases. Qed.

Lemma ps_encoding_len m : PeerShard_Size m < 2 ^ 63 -> len (PeerShard_encoding m) = PeerShard_Size m.
Proof.
  intros Hs%ps_bounds. unfold PeerShard_Size, PeerShard_encoding. rewrite bytes_part_len by done. cbv zeta. size_cases.
Qed.

Lemma PeerShard_sized m :
  PeerShard_Size m < 2 ^ 63 -> sized (PeerShard_MarshalToSizedBuffer m) (PeerShard_encoding m).
Proof. intros Hs%ps_bounds. eapply sized_writes; [by apply bytes_writes|by intros dAtA]. Qed.

Lemma PeerShard_Marshal_encoding m :
  PeerShard_Size m < 2 ^ 63 -> PeerShard_Marshal m = Some (PeerShard_encoding m).
Proof. intros Hs. apply marshal_with_spec; [by apply PeerShard_sized|by rewrite ps_encoding_len]. Qed.

Lemma PeerShard_reads l m :
  l < 2 ^ 63 -> reads "PeerShard" PeerShard_field l (PeerShard_encoding m) PeerShard_zero m.
Proof.
  intros Hl. apply (reads_string_part _ _ _ _ _ 1 "ShardId" _ _ (fun p => {| ShardId := of_bytes p |}));
    [solve_tag|done|done| |]; intros H; destruct m as [s].
  - simpl. by rewrite of_to_bytes.
  - by rewrite (string_empty s H).
Qed.

(** *** The fields never read beyond the buffer. *)

Ltac field_reader :=
  split; intros num wt l rest m Hr Hl;
  destruct num as [|[[[]|[]|]|[[]|[]|]|]|];
  cbv beta iota delta [WsMessage_field TopicMessage_field PeerShard_field]; try done;
  first [apply varint_case_ok | apply slice_case_ok; first [by apply readBytes_ok | by apply readString_ok]].

#[export] Instance WsMessage_FieldReader : FieldReader WsMessage_field.
Proof. field_reader. Qed.
#[export] Instance TopicMessage_FieldReader : FieldReader TopicMessage_field.
Proof. field_reader. Qed.
#[export] Instance PeerShard_FieldReader : FieldReader PeerShard_field.
Proof. field_reader. Qed.

(** ** Properties *)

Lemma unmarshal_with_unknown {M} name (field : field_reader M) first a extra m m' :
  reads name field (len (a ++ fields_bytes extra)) a m m' -> unknown_fields first extra ->
  len (a ++ fields_bytes extra) < 2 ^ 63 ->
  (forall m num wt l rest, first <= num -> field num wt l rest m = FieldUnknown) ->
  unmarshal_with name field (a ++ fields_bytes extra) m = Some (Ok m').
Proof.
  intros Ha Hu Hl Hf. apply unmarshal_reads. eapply reads_app; [exact Ha|].
  apply (reads_unknown_fields _ _ first); [done|done|]. intros num wt rest Hnum. by apply Hf.
Qed.

Ltac unknown_number :=
  intros m' num wt l rest Hnum;
  destruct num as [|[[[]|[]|]|[[]|[]|]|]|]; try done; exfalso; lia.

(** C19: the round trip of a websocket message: marshalling never runs out of the
    buffer, whose size is exactly the one computed, and what it writes is read
    back as the same message, an empty payload becoming nil; fields that a
    later version may add after it are skipped. *)
Theorem WsMessage_roundtrip m extra :
  ws_wf m -> unknown_fields 7 extra -> WsMessage_Size m + len (fields_bytes extra) < 2 ^ 63 ->
  exists dAtA, WsMessage_Marshal m = Some dAtA /\ len dAtA = WsMessage_Size m
    /\ WsMessage_Unmarshal (dAtA ++ fields_bytes extra) WsMessage_zero = Some (Ok (ws_canon m)).
Proof.
  intros Hwf Hu Hl. exists (WsMessage_encoding m). rewrite <- ws_encoding_len, <- len_app in Hl by done.
  split_and!; [by apply WsMessage_Marshal_encoding|by apply ws_encoding_len|].
  apply (unmarshal_with_unknown _ _ 7); [by apply WsMessage_reads|done|done|unknown_number].
Qed.

Definition demo_ws : WsMessage := {|
  WithAcknowledge := true; Counter := 300; ws_Type := -1; ws_Payload := Some [Byte.x01; Byte.x02];
  ws_Topic := "topic"; ws_Version := 1 |}.

Lemma WsMessage_roundtrip_witness :
  exists dAtA, WsMessage_Marshal demo_ws = Some dAtA /\ len dAtA = WsMessage_Size demo_ws
    /\ WsMessage_Unmarshal (dAtA ++ fields_bytes [(Byte.x38, [Byte.xac; Byte.x02])]) WsMessage_zero
       = Some (Ok demo_ws).
Proof.
  apply (WsMessage_roundtrip demo_ws [(Byte.x38, varint 300)]).
  - split; split; done.
  - constructor; [|constructor]. split; [|done]. apply (unknown_varint _ 7); [split; done|split; done].
  - done.
Defined.

(** The round trip of a topic message, the payload of every broadcast and
    direct message of the network, with the same tolerance of unknown fields. *)
Theorem TopicMessage_roundtrip m extra :
  tm_wf m -> unknown_fields 6 extra -> TopicMessage_Size m + len (fields_bytes extra) < 2 ^ 63 ->
  exists dAtA, TopicMessage_Marshal m = Some dAtA /\ len dAtA = TopicMessage_Size m
    /\ TopicMessage_Unmarshal (dAtA ++ fields_bytes extra) TopicMessage_zero = Some (Ok (tm_canon m)).
Proof.
  intros Hwf Hu Hl. exists (TopicMessage_encoding m). rewrite <- tm_encoding_len, <- len_app in Hl by done.
  split_and!; [by apply TopicMessage_Marshal_encoding|by apply tm_encoding_len|].
  apply (unmarshal_with_unknown _ _ 6); [by apply TopicMessage_reads|done|done|unknown_number].
Qed.

Lemma TopicMessage_roundtrip_witness :
  let m := {| Version := 1; Payload := Some [Byte.x00]; Timestamp := -5; Pk := None;
              SignatureOnPid := None |} in
  exists dAtA, TopicMessage_Marshal m = Some dAtA /\ len dAtA = TopicMessage_Size m
    /\ TopicMessage_Unmarshal (dAtA ++ fields_bytes []) TopicMessage_zero = Some (Ok m).
Proof. intros m. apply (TopicMessage_roundtrip m []); [split; split; done|constructor|done]. Defined.

(** The round trip of a peer shard message. *)
Theorem PeerShard_roundtrip m extra :
  unknown_fields 2 extra -> PeerShard_Size m + len (fields_bytes extra) < 2 ^ 63 ->
  exists dAtA, PeerShard_Marshal m = Some dAtA
    /\ PeerShard_Unmarshal (dAtA ++ fields_bytes extra) PeerShard_zero = Some (Ok m).
Proof.
  intros Hu Hl. pose proof (len_nonneg (fields_bytes extra)). exists (PeerShard_encoding m).
  split; [apply PeerShard_Marshal_encoding; lia|].
  rewrite <- ps_encoding_len, <- len_app in Hl by lia.
  apply (unmarshal_with_unknown _ _ 2); [by apply PeerShard_reads|done|done|unknown_number].
Qed.

Lemma PeerShard_roundtrip_witness :
  exists dAtA, PeerShard_Marshal {| ShardId := "7" |} = Some dAtA
    /\ PeerShard_Unmarshal (dAtA ++ fields_bytes []) PeerShard_zero = Some (Ok {| ShardId := "7" |}).
Proof. apply (PeerShard_roundtrip {| ShardId := "7" |} []); [constructor|done]. Defined.

(** C30: whatever bytes arrive from the network, reading a message ends: with the
    message or with an error, never with an index or a slice out of range, and
    after at most one turn of the loop per byte. *)
Theorem Unmarshal_never_panics dAtA :
  len dAtA < 2 ^ 63 ->
  (forall m, exists r, WsMessage_Unmarshal dAtA m = Some r)
  /\ (forall m, exists r, TopicMessage_Unmarshal dAtA m = Some r)
  /\ (forall m, exists r, PeerShard_Unmarshal dAtA m = Some r).
Proof. intros Hl. split_and!; intros m; by apply (unmarshal_total _ _). Qed.

(** A length that overflows the index is refused. *)
Lemma Unmarshal_never_panics_witness :
  let dAtA := [Byte.x22; Byte.xff; Byte.xff; Byte.xff; Byte.xff; Byte.xff; Byte.xff; Byte.xff; Byte.xff;
               Byte.x7f] in
  (exists r, WsMessage_Unmarshal dAtA WsMessage_zero = Some r)
  /\ WsMessage_Unmarshal dAtA WsMessage_zero = Some (Err ErrInvalidLength).
Proof.
  intros dAtA. split; [|vm_compute; reflexivity].
  by apply (Unmarshal_never_panics dAtA ltac:(done)).
Defined.
