(* ===== verification/WireValues.v ===== *)
(** * The generated messages as values

    What the generated types offer besides [Size], [Marshal] and [Unmarshal], in the
    same words in websocket/data/wsMessage.pb.go, p2p/data/topicMessage.pb.go and
    p2p/message/peerShardMessage.pb.go: the comparison, the marshalling into a
    buffer of the caller, the methods for the protobuf library and the getters.
    They are defined once over an interface that the three messages implement. *)

From S2P Require Import Prelude Errors Config Messages Protobuf WireMessages.
From stdpp Require Import list.
Open Scope Z_scope.

(** ** The interface *)

(** The methods of a message that differ from type to type; [fields_equal] is the
    sequence of comparisons at the end of [Equal]. *)
Class GeneratedMessage (M : Type) := {
  Reset : M;
  Size : M -> Z;
  MarshalToSizedBuffer : M -> bytes -> option (bytes * Z);
  Marshal : M -> option bytes;
  Unmarshal : bytes -> M -> option (result M);
  fields_equal : M -> M -> bool;
}.

(** What the messages promise: the bytes that represent a message, which do not tell
    an empty bytes field from a nil one, are written and read back. *)
Class GeneratedMessageLaws (M : Type) `{GeneratedMessage M} := {
  message_wf : M -> Prop;
  encoding : M -> bytes;
  canonical : M -> M;
  encoding_len m : message_wf m -> len (encoding m) = Size m;
  marshal_sized m : message_wf m -> sized (MarshalToSizedBuffer m) (encoding m);
  marshal_encoding m : message_wf m -> Marshal m = Some (encoding m);
  unmarshal_encoding m : message_wf m -> Unmarshal (encoding m) Reset = Some (Ok (canonical m));
  fields_equal_spec t m : fields_equal t m = true <-> canonical t = canonical m;
  encoding_canonical m : encoding (canonical m) = encoding m;
}.

(** ** The methods *)

(** The dynamic value of an [interface{}]: nil, a pointer to a message, which may be
    nil, a message, or something of another type *)
Inductive any (M : Type) := NilInterface | Pointer (m : option M) | Value (m : M) | OtherType.
Arguments NilInterface {M}.
Arguments Pointer {M} m.
Arguments Value {M} m.
Arguments OtherType {M}.

Section methods.
Context {M : Type} `{GeneratedMessage M}.

Definition is_nil (m : option M) : bool := match m with None => true | Some _ => false end.

(** A nil receiver is [None]. *)
Definition Equal (this : option M) (that : any M) : bool :=
  match that with
  | NilInterface => is_nil this
  | OtherType => false
  | Pointer None => is_nil this
  | Pointer (Some that1) | Value that1 =>
      match this with
      | None => false
      | Some this => fields_equal this that1
      end
  end.

(** [dAtA] holds the buffer up to its capacity, which is what [dAtA[:size]] can be
    cut from; [None] is the panic of the cut. The result is the buffer afterwards
    and the number of bytes. *)
Definition MarshalTo (m : M) (dAtA : bytes) : option (bytes * Z) :=
  let size := Size m in
  if (size <? 0) || (len dAtA <? size) then None
  else
    '(written, n) ← MarshalToSizedBuffer m (take (Z.to_nat size) dAtA);
    Some (written ++ drop (Z.to_nat size) dAtA, n).

(** [b] up to its capacity *)
Definition XXX_Marshal (m : M) (b : bytes) : option bytes :=
  '(b, n) ← MarshalToSizedBuffer m b;
  if (0 <=? n) && (n <=? len b) then Some (take (Z.to_nat n) b) else None.

Definition XXX_Unmarshal (m : M) (b : bytes) : option (result M) := Unmarshal b m.

Definition XXX_Size (m : M) : Z := Size m.

(** A getter of a field with the zero value [zero] *)
Definition getter {A} (field : M -> A) (zero : A) (m : option M) : A :=
  match m with
  | Some m => field m
  | None => zero
  end.

End methods.

(** ** The messages *)

(** [bytes.Equal] *)
Definition bytes_Equal (a b : slice) : bool := bool_decide (sl a = sl b).

Definition WsMessage_fields_equal (this that1 : WsMessage) : bool :=
  if negb (Bool.eqb (WithAcknowledge this) (WithAcknowledge that1)) then false
  else if negb (Counter this =? Counter that1) then false
  else if negb (ws_Type this =? ws_Type that1) then false
  else if negb (bytes_Equal (ws_Payload this) (ws_Payload that1)) then false
  else if negb (bool_decide (ws_Topic this = ws_Topic that1)) then false
  else if negb (ws_Version this =? ws_Version that1) then false
  else true.

Definition TopicMessage_fields_equal (this that1 : TopicMessage) : bool :=
  if negb (Version this =? Version that1) then false
  else if negb (bytes_Equal (Payload this) (Payload that1)) then false
  else if negb (Timestamp this =? Timestamp that1) then false
  else if negb (bytes_Equal (Pk this) (Pk that1)) then false
  else if negb (bytes_Equal (SignatureOnPid this) (SignatureOnPid that1)) then false
  else true.

Definition PeerShard_fields_equal (this that1 : PeerShard) : bool :=
  if negb (bool_decide (ShardId this = ShardId that1)) then false else true.

#[export] Instance WsMessage_generated : GeneratedMessage WsMessage := {
  Reset := WsMessage_zero; Size := WsMessage_Size; MarshalToSizedBuffer := WsMessage_MarshalToSizedBuffer;
  Marshal := WsMessage_Marshal; Unmarshal := WsMessage_Unmarshal; fields_equal := WsMessage_fields_equal }.

#[export] Instance TopicMessage_generated : GeneratedMessage TopicMessage := {
  Reset := TopicMessage_zero; Size := TopicMessage_Size; MarshalToSizedBuffer := TopicMessage_MarshalToSizedBuffer;
  Marshal := TopicMessage_Marshal; Unmarshal := TopicMessage_Unmarshal; fields_equal := TopicMessage_fields_equal }.

#[export] Instance PeerShard_generated : GeneratedMessage PeerShard := {
  Reset := PeerShard_zero; Size := PeerShard_Size; MarshalToSizedBuffer := PeerShard_MarshalToSizedBuffer;
  Marshal := PeerShard_Marshal; Unmarshal := PeerShard_Unmarshal; fields_equal := PeerShard_fields_equal }.

Definition GetWithAcknowledge : option WsMessage -> bool := getter WithAcknowledge false.
Definition GetCounter : option WsMessage -> Z := getter Counter 0.
Definition GetType : option WsMessage -> Z := getter ws_Type 0.
Definition ws_GetPayload : option WsMessage -> slice := getter ws_Payload None.
Definition GetTopic : option WsMessage -> string := getter ws_Topic "".
Definition ws_GetVersion : option WsMessage -> Z := getter ws_Version 0.
Definition tm_GetVersion : option TopicMessage -> Z := getter Version 0.
Definition tm_GetPayload : option TopicMessage -> slice := getter Payload None.
Definition GetTimestamp : option TopicMessage -> Z := getter Timestamp 0.
Definition GetPk : option TopicMessage -> slice := getter Pk None.
Definition GetSignatureOnPid : option TopicMessage -> slice := getter SignatureOnPid None.
Definition GetShardId : option PeerShard -> string := getter ShardId "".

(** *** The laws *)

Lemma bytes_Equal_canon a b : bytes_Equal a b = true <-> canon a = canon b.
Proof.
  unfold bytes_Equal. rewrite bool_decide_eq_true. destruct a as [[|]|], b as [[|]|]; simpl; split; congruence.
Qed.

Lemma else_true (c : bool) b : (if negb c then false else b) = true <-> c = true /\ b = true.
Proof. destruct c; simpl; naive_solver. Qed.

Ltac field_comparisons := rewrite !else_true, ?bytes_Equal_canon, ?Z.eqb_eq, ?bool_decide_eq_true, ?eqb_true_iff.

#[export] Program Instance WsMessage_laws : GeneratedMessageLaws WsMessage := {
  message_wf := ws_wf; encoding := WsMessage_encoding; canonical := ws_canon }.
Next Obligation. apply ws_encoding_len. Qed.
Next Obligation. apply WsMessage_sized. Qed.
Next Obligation. apply WsMessage_Marshal_encoding. Qed.
Next Obligation.
  intros m Hwf. apply unmarshal_reads, WsMessage_reads; [done|]. rewrite ws_encoding_len by done. apply Hwf.
Qed.
Next Obligation.
  intros [] []. simpl. unfold WsMessage_fields_equal, ws_canon, ws_set_payload. simpl. field_comparisons.
  split; [naive_solver congruence|intros Heq; injection Heq; naive_solver].
Qed.
Next Obligation.
  intros m. unfold WsMessage_encoding, ws_canon, ws_set_payload. cbn [WithAcknowledge Counter ws_Type ws_Payload ws_Topic ws_Version].
  by rewrite canon_sl.
Qed.

#[export] Program Instance TopicMessage_laws : GeneratedMessageLaws TopicMessage := {
  message_wf := tm_wf; encoding := TopicMessage_encoding; canonical := tm_canon }.
Next Obligation. apply tm_encoding_len. Qed.
Next Obligation. apply TopicMessage_sized. Qed.
Next Obligation. apply TopicMessage_Marshal_encoding. Qed.
Next Obligation.
  intros m Hwf. apply unmarshal_reads, TopicMessage_reads; [done|]. rewrite tm_encoding_len by done. apply Hwf.
Qed.
Next Obligation.
  intros [] []. simpl. unfold TopicMessage_fields_equal, tm_canon. simpl. field_comparisons.
  split; [naive_solver congruence|intros Heq; injection Heq; naive_solver].
Qed.
Next Obligation.
  intros m. unfold TopicMessage_encoding, tm_canon. cbn [Version Payload Timestamp Pk SignatureOnPid].
  by rewrite !canon_sl.
Qed.

#[export] Program Instance PeerShard_laws : GeneratedMessageLaws PeerShard := {
  message_wf := fun m => PeerShard_Size m < 2 ^ 63; encoding := PeerShard_encoding; canonical := id }.
Next Obligation. apply ps_encoding_len. Qed.
Next Obligation. apply PeerShard_sized. Qed.
Next Obligation. apply PeerShard_Marshal_encoding. Qed.
Next Obligation.
  intros m Hwf. apply unmarshal_reads, PeerShard_reads. by rewrite ps_encoding_len.
Qed.
Next Obligation.
  intros [] []. simpl. unfold PeerShard_fields_equal, id. simpl. field_comparisons. naive_solver congruence.
Qed.
Next Obligation. done. Qed.

(** ** Properties *)

Section laws.
Context {M : Type} `{GeneratedMessageLaws M}.
Implicit Types m : M.

(** Two messages are marshalled into the same bytes when they have the same
    canonical form, and only then. *)
Lemma encoding_inj t m : message_wf t -> message_wf m -> encoding t = encoding m -> canonical t = canonical m.
Proof.
  intros Ht Hm Heq. pose proof (unmarshal_encoding t Ht) as Ut. rewrite Heq, (unmarshal_encoding m Hm) in Ut.
  by injection Ut.
Qed.

(** C37: [Equal] is equality on the wire: it holds of two messages exactly when they
    marshal into the same bytes, whether the second is given by value or by
    pointer; it is false against a value of another type, and a nil pointer
    is equal to the nil pointer and to the nil interface only. *)
Theorem Equal_on_the_wire t m :
  message_wf t -> message_wf m ->
  (Equal (Some t) (Pointer (Some m)) = true <-> Marshal t = Marshal m)
  /\ Equal (Some t) (Value m) = Equal (Some t) (Pointer (Some m))
  /\ Equal (Some t) OtherType = false /\ Equal (Some t) NilInterface = false /\ Equal (Some t) (Pointer None) = false
  /\ forall that, Equal (M := M) None that = true <-> that = NilInterface \/ that = Pointer None.
Proof.
  intros Ht Hm. split_and!; [|done..|intros [|[]| |]; simpl; naive_solver].
  simpl. rewrite fields_equal_spec, !marshal_encoding by done. split.
  - intros Heq. by rewrite <- (encoding_canonical t), Heq, encoding_canonical.
  - intros Heq%(inj Some). by apply encoding_inj.
Qed.

(** Marshalling into a buffer writes what [Marshal] returns in its first bytes and
    keeps the others, and panics exactly when the capacity is too small. *)
Theorem MarshalTo_spec m dAtA :
  message_wf m ->
  exists enc, Marshal m = Some enc
  /\ MarshalTo m dAtA = if len dAtA <? len enc then None else Some (enc ++ drop (length enc) dAtA, len enc).
Proof.
  intros Hwf. exists (encoding m). split; [by apply marshal_encoding|]. unfold MarshalTo.
  rewrite <- encoding_len by done. pose proof (len_nonneg (encoding m)) as Hpos.
  replace (len (encoding m) <? 0) with false by lia. cbn [orb]. destruct (_ <? _) eqn:Hl; bdestruct_all; [done|].
  assert (Htake : len (take (Z.to_nat (len (encoding m))) dAtA) = len (encoding m)).
  { unfold len in *. rewrite length_take. lia. }
  rewrite (marshal_sized m Hwf) by lia. cbn [mbind option_bind]. rewrite Htake, Z.sub_diag.
  unfold len. rewrite Nat2Z.id. done.
Qed.

(** [XXX_Marshal] returns the message when the capacity of the buffer is the one
    that [XXX_Size] asks for; with a larger one it returns the first bytes of the
    buffer, while the message is at its end. *)
Theorem XXX_Marshal_spec m b :
  message_wf m -> XXX_Size m <= len b ->
  exists enc, Marshal m = Some enc /\ len enc = XXX_Size m
  /\ XXX_Marshal m b = Some (take (length enc) (take (length b - length enc) b ++ enc))
  /\ (len b = XXX_Size m -> XXX_Marshal m b = Some enc).
Proof.
  intros Hwf. unfold XXX_Size. rewrite <- encoding_len by done. intros Hb.
  exists (encoding m). split; [by apply marshal_encoding|]. split; [done|].
  assert (Hx : XXX_Marshal m b = Some (take (length (encoding m)) (take (length b - length (encoding m)) b ++ encoding m))).
  { unfold XXX_Marshal. rewrite (marshal_sized m Hwf) by done. cbn [mbind option_bind].
    pose proof (len_nonneg (encoding m)). unfold len in *. rewrite length_app, length_take.
    rewrite (proj2 (andb_true_iff _ _)) by (split; apply Z.leb_le; lia). rewrite Nat2Z.id. do 4 f_equal. lia. }
  split; [exact Hx|]. intros Heq. rewrite Hx. f_equal. unfold len in Heq.
  replace (length b - length (encoding m))%nat with 0%nat by lia. rewrite take_0. cbn [app]. by apply take_ge.
Qed.

(** Equal messages on the same side of the wire are an equivalence. *)
#[export] Instance Equal_equivalence : Equivalence (fun t m : option M => Equal t (Pointer m) = true).
Proof.
  split; repeat intros [|]; simpl; rewrite ?fields_equal_spec; congruence || done.
Qed.

End laws.

(** ** Examples *)

(** An empty payload is a nil one on the wire. *)
Definition demo_empty_payload (p : slice) : TopicMessage :=
  {| Version := 1; Payload := p; Timestamp := 7; Pk := None; SignatureOnPid := None |}.

Lemma Equal_on_the_wire_witness :
  demo_empty_payload (Some []) <> demo_empty_payload None
  /\ Equal (Some (demo_empty_payload (Some []))) (Pointer (Some (demo_empty_payload None))) = true.
Proof.
  split; [done|].
  apply (Equal_on_the_wire (demo_empty_payload (Some [])) (demo_empty_payload None)); [split; split; done..|].
  vm_compute. reflexivity.
Defined.
