(* ===== verification/Transceiver.v ===== *)
(** * The websocket transceiver

    websocket/transceiver/transceiver.go, the acknowledged sending of payloads
    over a connection, with websocket/payloadConverter.go,
    websocket/nilPayloadHandler.go. The message is that of WireMessages.v. *)

From S2P Require Import Prelude Errors Config Messages Protobuf WireMessages.
From stdpp Require Import list gmap sets.
Open Scope Z_scope.

(** ** websocket/data *)

Definition AckMessage : Z := 1.
Definition PayloadMessage : Z := 2.

(** ** payloadConverter.go *)

(** The marshaller: [Marshal] of a message and [Unmarshal] into one *)
Record webSocketsPayloadConverter := {
  wpc_Marshal : WsMessage -> result bytes;
  wpc_Unmarshal : bytes -> result WsMessage;
}.

Definition NewWebSocketPayloadConverter
    (marshaller : option ((WsMessage -> result bytes) * (bytes -> result WsMessage)))
    : result webSocketsPayloadConverter :=
  match marshaller with
  | None => Err WsErrNilMarshaller
  | Some (m, u) => Ok {| wpc_Marshal := m; wpc_Unmarshal := u |}
  end.

Definition ExtractWsMessage (wpc : webSocketsPayloadConverter) (payload : bytes) : result WsMessage :=
  wsMessage ← wpc_Unmarshal wpc payload; Ok wsMessage.

Definition ConstructPayload (wpc : webSocketsPayloadConverter) (wsMessage : WsMessage) : result bytes :=
  wpc_Marshal wpc wsMessage.

(** ** Payload handlers *)

Record PayloadHandler := {
  ProcessPayload : slice -> string -> Z -> option error;
  ph_Close : option error;
}.

Definition NewNilPayloadHandler : PayloadHandler := {|
  ProcessPayload := fun _ _ _ => None;
  ph_Close := None;
|}.

(** ** transceiver.go *)

Record ArgsTransceiver := {
  at_PayloadConverter : option webSocketsPayloadConverter;
  at_Log : bool;  (* not nil *)
  at_RetryDurationInSec : Z;
  at_AckTimeoutInSec : Z;
  at_BlockingAckOnError : bool;
  at_WithAcknowledge : bool;
  at_PayloadVersion : Z;
}.

(** The channels of [mapAck] are named by the order they are made in; [closedAcks]
    are the closed ones, and [safeCloser] tells whether [Close] was called. *)
Record wsTransceiver := {
  payloadParser : webSocketsPayloadConverter;
  payloadHandler : PayloadHandler;
  safeCloser : bool;
  retryDuration : Z;
  ackTimeout : Z;
  mapAck : gmap Z nat;
  wt_counter : Z;  (* uint64 *)
  madeAcks : nat;
  closedAcks : gset nat;
  blockingAckOnError : bool;
  withAcknowledge : bool;
  payloadVersion : Z;
}.

(** [core.ErrNilLogger] comes from drt-go-chain-core. *)
Definition NewTransceiver (core_ErrNilLogger : error) (args : ArgsTransceiver) : result wsTransceiver :=
  guard_err (negb (at_Log args)) core_ErrNilLogger $
  match at_PayloadConverter args with
  | None => Err ErrNilPayloadConverter
  | Some converter =>
      guard_err (at_RetryDurationInSec args =? 0) ErrZeroValueRetryDuration $
      guard_err (at_WithAcknowledge args && (at_AckTimeoutInSec args =? 0)) ErrZeroValueAckTimeout $
      Ok {| payloadParser := converter; payloadHandler := NewNilPayloadHandler; safeCloser := false;
            retryDuration := wraps 64 (at_RetryDurationInSec args * time_Second);
            ackTimeout := wraps 64 (at_AckTimeoutInSec args * time_Second);
            mapAck := ∅; wt_counter := 0; madeAcks := 0; closedAcks := ∅;
            blockingAckOnError := at_BlockingAckOnError args;
            withAcknowledge := at_WithAcknowledge args;
            payloadVersion := at_PayloadVersion args |}
  end.

Definition wt_set_handler (wt : wsTransceiver) (h : PayloadHandler) : wsTransceiver := {|
  payloadParser := payloadParser wt; payloadHandler := h; safeCloser := safeCloser wt;
  retryDuration := retryDuration wt; ackTimeout := ackTimeout wt; mapAck := mapAck wt;
  wt_counter := wt_counter wt; madeAcks := madeAcks wt; closedAcks := closedAcks wt;
  blockingAckOnError := blockingAckOnError wt; withAcknowledge := withAcknowledge wt;
  payloadVersion := payloadVersion wt |}.

Definition wt_set_acks (wt : wsTransceiver) (m : gmap Z nat) (counter : Z) (n : nat) (c : gset nat)
    : wsTransceiver := {|
  payloadParser := payloadParser wt; payloadHandler := payloadHandler wt; safeCloser := safeCloser wt;
  retryDuration := retryDuration wt; ackTimeout := ackTimeout wt; mapAck := m;
  wt_counter := counter; madeAcks := n; closedAcks := c;
  blockingAckOnError := blockingAckOnError wt; withAcknowledge := withAcknowledge wt;
  payloadVersion := payloadVersion wt |}.

Definition wt_SetPayloadHandler (wt : wsTransceiver) (handler : option PayloadHandler)
    : option error * wsTransceiver :=
  match handler with
  | None => (Some (ErrNilPayloadProcessor : error), wt)
  | Some handler => (None, wt_set_handler wt handler)
  end.

(** *** Sending *)

Definition prepareChanAndCounter (wt : wsTransceiver) : nat * Z * wsTransceiver :=
  let localCounter := wrapu 64 (wt_counter wt + 1) in
  let ch := madeAcks wt in
  let mapAck' := if withAcknowledge wt then <[localCounter := ch]> (mapAck wt) else mapAck wt in
  (ch, localCounter, wt_set_acks wt mapAck' localCounter (S ch) (closedAcks wt)).

Definition payload_message (wt : wsTransceiver) (localCounter : Z) (payload : slice) (topic : string)
    : WsMessage := {|
  WithAcknowledge := withAcknowledge wt; Counter := localCounter; ws_Type := PayloadMessage;
  ws_Payload := payload; ws_Topic := topic; ws_Version := payloadVersion wt |}.

(** [Send] until it returns or waits: the error it returns, or the channel it
    waits on; [written] is what it wrote. [WriteMessage] is the connection's. *)
Inductive send_outcome := Returned (err : option error) | WaitsForAck (ch : nat).

Definition wt_Send (WriteMessage : bytes -> option error) (wt : wsTransceiver) (payload : slice)
    (topic : string) : send_outcome * wsTransceiver * list bytes :=
  let '(ch, localCounter, wt) := prepareChanAndCounter wt in
  match ConstructPayload (payloadParser wt) (payload_message wt localCounter payload topic) with
  | Err err => (Returned (Some err), wt, [])
  | Ok newPayload =>
      match WriteMessage newPayload with
      | Some errSend => (Returned (Some errSend), wt, [newPayload])
      | None =>
          if negb (withAcknowledge wt) then (Returned None, wt, [newPayload])
          else (WaitsForAck ch, wt, [newPayload])
      end
  end.

(** The branches of the select in [waitForAck] that are ready, [timeout] telling
    whether the timer fired: Go takes any of them. *)
Definition waitForAck (wt : wsTransceiver) (ch : nat) (timeout : bool) (err : option error) : Prop :=
  (ch ∈ closedAcks wt /\ err = None)
  \/ (timeout = true /\ err = Some (ErrAckTimeout : error))
  \/ (safeCloser wt = true /\ err = Some (ErrExpectedAckWasNotReceivedOnClose : error)).

(** *** Receiving *)

Definition handleAckMessage (wt : wsTransceiver) (counter : Z) : wsTransceiver :=
  match mapAck wt !! counter with
  | None => wt
  | Some ch =>
      wt_set_acks wt (delete counter (mapAck wt)) (wt_counter wt) (madeAcks wt)
        ({[ ch ]} ∪ closedAcks wt)
  end.

(** The loop of [sendAckIfNeeded]: [attempts] gives, for each attempt, what the
    write returns and whether the transceiver is closed while it waits for the
    next one. The result is the writes done, and how the loop ended; [None] is
    a loop that is still waiting. *)
Fixpoint sendAck_loop (bytes : bytes) (attempts : list (option error * bool))
    : list Prelude.bytes * option bool :=
  match attempts with
  | [] => ([], None)
  | (None, _) :: _ => ([bytes], Some true)
  | (Some _, true) :: _ => ([bytes], Some false)
  | (Some _, false) :: attempts =>
      let '(writes, ended) := sendAck_loop bytes attempts in (bytes :: writes, ended)
  end.

Definition ack_message (wsMessage : WsMessage) : WsMessage := {|
  WithAcknowledge := false; Counter := Counter wsMessage; ws_Type := AckMessage;
  ws_Payload := None; ws_Topic := ""; ws_Version := 0 |}.

Definition sendAckIfNeeded (wt : wsTransceiver) (wsMessage : WsMessage)
    (attempts : list (option error * bool)) : list bytes * option bool :=
  if negb (WithAcknowledge wsMessage) then ([], Some false)
  else match ConstructPayload (payloadParser wt) (ack_message wsMessage) with
       | Err _ => ([], Some false)
       | Ok wsMessageBytes => sendAck_loop wsMessageBytes attempts
       end.

(** What a received message makes the transceiver do *)
Inductive wt_effect :=
| DoProcessPayload (payload : slice) (topic : string) (version : Z)
| DoWriteMessage (message : bytes).

Definition verifyPayloadAndSendAckIfNeeded (wt : wsTransceiver) (payload : bytes)
    (attempts : list (option error * bool)) : wsTransceiver * list wt_effect :=
  if len payload =? 0 then (wt, [])
  else
    match ExtractWsMessage (payloadParser wt) payload with
    | Err _ => (wt, [])
    | Ok wsMessage =>
        if ws_Type wsMessage =? AckMessage then (handleAckMessage wt (Counter wsMessage), [])
        else if negb (ws_Type wsMessage =? PayloadMessage) then (wt, [])
        else
          let err := ProcessPayload (payloadHandler wt) (ws_Payload wsMessage) (ws_Topic wsMessage)
            (ws_Version wsMessage) in
          let call := DoProcessPayload (ws_Payload wsMessage) (ws_Topic wsMessage) (ws_Version wsMessage) in
          if bool_decide (err <> None) && blockingAckOnError wt then (wt, [call])
          else (wt, call :: (DoWriteMessage <$> (sendAckIfNeeded wt wsMessage attempts).1))
    end.

(** [Listen]: what the connection's [ReadMessage] returns, until an error; the
    messages are processed one after the other, and each may need attempts to
    acknowledge it. The answer is [true] unless the transceiver was closed;
    [None] while the read blocks. *)
Inductive read := Read (message : bytes) (attempts : list (option error * bool)) | ReadError (closing : bool).

Fixpoint Listen (wt : wsTransceiver) (reads : list read) : option bool * wsTransceiver * list wt_effect :=
  match reads with
  | [] => (None, wt, [])
  | Read message attempts :: reads =>
      let '(wt, effects) := verifyPayloadAndSendAckIfNeeded wt message attempts in
      let '(answer, wt, rest) := Listen wt reads in
      (answer, wt, effects ++ rest)
  | ReadError closing :: _ => (Some (negb closing), wt, [])
  end.

Definition wt_Close (wt : wsTransceiver) : option error * wsTransceiver :=
  (ph_Close (payloadHandler wt), {|
    payloadParser := payloadParser wt; payloadHandler := payloadHandler wt; safeCloser := true;
    retryDuration := retryDuration wt; ackTimeout := ackTimeout wt; mapAck := mapAck wt;
    wt_counter := wt_counter wt; madeAcks := madeAcks wt; closedAcks := closedAcks wt;
    blockingAckOnError := blockingAckOnError wt; withAcknowledge := withAcknowledge wt;
    payloadVersion := payloadVersion wt |}).

(** ** The acknowledgement protocol *)

(** What happens to a transceiver, in order *)
Inductive wt_event :=
| EvSend (WriteMessage : bytes -> option error) (payload : slice) (topic : string)
| EvReceived (message : bytes) (attempts : list (option error * bool))
| EvSetPayloadHandler (handler : option PayloadHandler)
| EvClose.

Definition wt_next (wt : wsTransceiver) (ev : wt_event) : wsTransceiver :=
  match ev with
  | EvSend w payload topic => (wt_Send w wt payload topic).1.2
  | EvReceived message attempts => (verifyPayloadAndSendAckIfNeeded wt message attempts).1
  | EvSetPayloadHandler handler => (wt_SetPayloadHandler wt handler).2
  | EvClose => (wt_Close wt).2
  end.

Definition wt_run (wt : wsTransceiver) (l : list wt_event) : wsTransceiver := fold_left wt_next l wt.

(** A transceiver counts its sends and channels alike; the channels that wait
    for an acknowledgement are open, and each is stored under its counter. *)
Record wt_inv (wt : wsTransceiver) : Prop := {
  wt_inv_counter : wt_counter wt = wrapu 64 (Z.of_nat (madeAcks wt));
  wt_inv_stored c ch : mapAck wt !! c = Some ch -> c = wrapu 64 (Z.of_nat ch + 1);
  wt_inv_made c ch : mapAck wt !! c = Some ch -> (ch < madeAcks wt)%nat;
  wt_inv_open c ch : mapAck wt !! c = Some ch -> ch ∉ closedAcks wt;
  wt_inv_closed ch : ch ∈ closedAcks wt -> (ch < madeAcks wt)%nat;
}.

Lemma wt_Send_state w wt payload topic :
  (wt_Send w wt payload topic).1.2 = (prepareChanAndCounter wt).2.
Proof.
  unfold wt_Send. destruct (prepareChanAndCounter wt) as [[ch c] wt'].
  destruct (ConstructPayload _ _) as [b|]; [|done]. destruct (w b); [done|].
  by destruct (negb _).
Qed.

Lemma prepare_inv wt : wt_inv wt -> wt_inv (prepareChanAndCounter wt).2.
Proof.
  intros [Hc Hs Hm Ho Hcl]. unfold prepareChanAndCounter. simpl.
  assert (Hnext : wrapu 64 (wt_counter wt + 1) = wrapu 64 (Z.of_nat (madeAcks wt) + 1))
    by by rewrite Hc, wrapu_add_l.
  split; simpl.
  - rewrite Hnext. f_equal. lia.
  - intros c ch. destruct (withAcknowledge wt); [|apply Hs].
    intros [[<- <-]|[_ ?]]%lookup_insert_Some; [done|by apply Hs].
  - intros c ch. destruct (withAcknowledge wt); [|intros H%Hm; lia].
    intros [[_ <-]|[_ H]]%lookup_insert_Some; [lia|]. apply Hm in H. lia.
  - intros c ch. destruct (withAcknowledge wt); [|apply Ho].
    intros [[_ <-]|[_ ?]]%lookup_insert_Some; [|by eapply Ho]. intros H%Hcl. lia.
  - intros ch H%Hcl. lia.
Qed.

Lemma handleAck_inv wt c : wt_inv wt -> wt_inv (handleAckMessage wt c).
Proof.
  intros Hinv. unfold handleAckMessage. destruct (mapAck wt !! c) as [ch|] eqn:Hch; [|done].
  destruct Hinv as [Hc Hs Hm Ho Hcl]. split; simpl.
  - done.
  - intros c' ch' [_ H]%lookup_delete_Some. by apply Hs.
  - intros c' ch' [_ H]%lookup_delete_Some. by eapply Hm.
  - intros c' ch' [Hne H]%lookup_delete_Some [->%elem_of_singleton|Hin]%elem_of_union.
    + apply Hs in H, Hch. congruence.
    + by apply (Ho c' ch').
  - intros ch' [->%elem_of_singleton|Hin]%elem_of_union; [by eapply Hm|by apply Hcl].
Qed.

(** The acknowledgement a received message is, if it is one *)
Definition acknowledged (wt : wsTransceiver) (message : bytes) : option Z :=
  if len message =? 0 then None
  else match ExtractWsMessage (payloadParser wt) message with
       | Ok m => if ws_Type m =? AckMessage then Some (Counter m) else None
       | Err _ => None
       end.

Lemma verify_state wt message attempts :
  (verifyPayloadAndSendAckIfNeeded wt message attempts).1
  = match acknowledged wt message with Some c => handleAckMessage wt c | None => wt end.
Proof.
  unfold verifyPayloadAndSendAckIfNeeded, acknowledged. destruct (len message =? 0); [done|].
  destruct (ExtractWsMessage _ _) as [m|]; [|done]. destruct (ws_Type m =? AckMessage); [done|].
  destruct (negb _); [done|]. by destruct (_ && _).
Qed.

Lemma verify_acknowledged wt message attempts c :
  acknowledged wt message = Some c ->
  verifyPayloadAndSendAckIfNeeded wt message attempts = (handleAckMessage wt c, []).
Proof.
  unfold verifyPayloadAndSendAckIfNeeded, acknowledged. destruct (len message =? 0); [done|].
  destruct (ExtractWsMessage _ _) as [m|]; [|done]. destruct (ws_Type m =? AckMessage); [|done].
  by intros [= ->].
Qed.

Lemma wt_next_inv wt ev : wt_inv wt -> wt_inv (wt_next wt ev).
Proof.
  intros Hinv. destruct ev as [w p t|m a|h|]; simpl.
  - rewrite wt_Send_state. by apply prepare_inv.
  - rewrite verify_state. case_match; [by apply handleAck_inv|done].
  - destruct h; simpl; [|done]. by destruct Hinv; split.
  - by destruct Hinv; split.
Qed.

Lemma wt_next_parser wt ev : payloadParser (wt_next wt ev) = payloadParser wt.
Proof.
  destruct ev as [w p t|m a|h|]; simpl; [by rewrite wt_Send_state| |by destruct h|done].
  rewrite verify_state. case_match; [|done]. unfold handleAckMessage. by case_match.
Qed.

Lemma wt_run_snoc wt l ev : wt_run wt (l ++ [ev]) = wt_next (wt_run wt l) ev.
Proof. unfold wt_run. by rewrite fold_left_app. Qed.

Lemma wt_run_inv wt l : wt_inv wt -> wt_inv (wt_run wt l).
Proof.
  intros H. induction l as [|ev l IH] using rev_ind; [done|]. rewrite wt_run_snoc. by apply wt_next_inv.
Qed.

Lemma wt_run_parser wt l : payloadParser (wt_run wt l) = payloadParser wt.
Proof.
  induction l as [|ev l IH] using rev_ind; [done|]. by rewrite wt_run_snoc, wt_next_parser.
Qed.

Lemma NewTransceiver_inv nilLogger args wt : NewTransceiver nilLogger args = Ok wt -> wt_inv wt.
Proof.
  unfold NewTransceiver. rewrite guard_err_Ok. intros [_ H].
  destruct (at_PayloadConverter args); [|done]. rewrite !guard_err_Ok in H.
  destruct H as (_ & _ & H). apply (inj Ok) in H as <-.
  split; simpl; intros *; rewrite ?lookup_empty; done.
Qed.

(** A send returns without error only when its own acknowledgement arrived:
    the channel it waits on can be closed in a run only by a received
    acknowledgement that carries exactly the counter this send was given,
    received after the send took it. Otherwise it ends by the timeout or by
    the closing. *)
Theorem ack_sound nilLogger args wt0 l ch timeout :
  NewTransceiver nilLogger args = Ok wt0 -> waitForAck (wt_run wt0 l) ch timeout None ->
  exists l1 message attempts l2,
    l = l1 ++ EvReceived message attempts :: l2
    /\ acknowledged wt0 message = Some (wrapu 64 (Z.of_nat ch + 1))
    /\ (ch < madeAcks (wt_run wt0 l1))%nat.
Proof.
  intros Hn Hw. pose proof (NewTransceiver_inv _ _ _ Hn) as Hinv0.
  assert (Hc : ch ∈ closedAcks (wt_run wt0 l))
    by (destruct Hw as [[? _]|[[_ ?]|[_ ?]]]; done). clear Hw.
  induction l as [|ev l IH] using rev_ind.
  - unfold wt_run in Hc. simpl in Hc. exfalso. unfold NewTransceiver in Hn.
    rewrite guard_err_Ok in Hn. destruct Hn as [_ Hn]. destruct (at_PayloadConverter args); [|done].
    rewrite !guard_err_Ok in Hn. destruct Hn as (_ & _ & Hn). apply (inj Ok) in Hn as <-.
    simpl in Hc. set_solver.
  - rewrite wt_run_snoc in Hc. destruct (decide (ch ∈ closedAcks (wt_run wt0 l))) as [Hin|Hin].
    { destruct (IH Hin) as (l1 & m & a & l2 & -> & H1 & H2).
      exists l1, m, a, (l2 ++ [ev]). split_and!; [by rewrite <- app_assoc|done|done]. }
    clear IH. destruct ev as [w p t|m a|h|]; simpl in Hc.
    + rewrite wt_Send_state in Hc. done.
    + rewrite verify_state in Hc. unfold acknowledged in Hc.
      rewrite (wt_run_parser wt0 l) in Hc. fold (acknowledged wt0 m) in Hc.
      destruct (acknowledged wt0 m) as [c|] eqn:Ha; [|done].
      unfold handleAckMessage in Hc. destruct (mapAck (wt_run wt0 l) !! c) as [ch'|] eqn:Hch; [|done].
      simpl in Hc. apply elem_of_union in Hc as [->%elem_of_singleton|Hc]; [|done].
      pose proof (wt_run_inv wt0 l Hinv0) as Hinv.
      exists l, m, a, []. split_and!; [done| |by eapply wt_inv_made].
      by rewrite Ha, (wt_inv_stored _ Hinv _ _ Hch).
    + destruct h; done.
    + done.
Qed.

(** An event that does not concern the counter [c]: a send is given another
    counter, a received message does not acknowledge it. *)
Lemma entry_stays wt ev c ch :
  wrapu 64 (wt_counter wt + 1) <> c ->
  (forall message attempts, ev = EvReceived message attempts -> acknowledged wt message <> Some c) ->
  mapAck wt !! c = Some ch -> mapAck (wt_next wt ev) !! c = Some ch.
Proof.
  intros Hne Hno Hc. destruct ev as [w p t|m a|h|]; simpl.
  - rewrite wt_Send_state. unfold prepareChanAndCounter. simpl.
    destruct (withAcknowledge wt); [|done]. by rewrite lookup_insert_ne.
  - rewrite verify_state. destruct (acknowledged wt m) as [c'|] eqn:Ha; [|done].
    unfold handleAckMessage. destruct (mapAck wt !! c'); [|done]. simpl.
    rewrite lookup_delete_ne; [done|]. intros ->. by apply (Hno m a).
  - by destruct h.
  - done.
Qed.

Definition is_send (ev : wt_event) : bool := match ev with EvSend _ _ _ => true | _ => false end.

Lemma wt_next_counter wt ev :
  wt_counter (wt_next wt ev) = if is_send ev then wrapu 64 (wt_counter wt + 1) else wt_counter wt.
Proof.
  destruct ev as [w p t|m a|h|]; simpl; [by rewrite wt_Send_state| |by destruct h|done].
  rewrite verify_state. case_match; [|done]. unfold handleAckMessage. by case_match.
Qed.

(** A send that is not acknowledged leaves its entry behind: whatever
    happens afterwards, a timeout of the send included, the entry of its
    counter is in the map until an acknowledgement with this counter arrives,
    as long as the counter has not gone around. *)
Theorem unacknowledged_entry_stays wt l ch c :
  (prepareChanAndCounter wt).1 = (ch, c) -> withAcknowledge wt = true -> in_u 64 (wt_counter wt) ->
  Z.of_nat (length (filter (fun ev => is_send ev = true) l)) < 2 ^ 64 - 1 ->
  (forall message attempts, EvReceived message attempts ∈ l -> acknowledged wt message <> Some c) ->
  mapAck (wt_run (prepareChanAndCounter wt).2 l) !! c = Some ch.
Proof.
  intros Hp Hw Hu Hlen Hno. unfold prepareChanAndCounter in *. simpl in Hp. injection Hp as <- <-.
  set (c := wrapu 64 (wt_counter wt + 1)). set (wt1 := wt_set_acks wt _ _ _ _).
  assert (Hgoal : mapAck (wt_run wt1 l) !! c = Some (madeAcks wt)
    /\ wt_counter (wt_run wt1 l)
       = wrapu 64 (c + Z.of_nat (length (filter (fun ev => is_send ev = true) l)))); [|apply Hgoal].
  induction l as [|ev l IH] using rev_ind.
  - split; [unfold wt1; simpl; rewrite Hw; apply lookup_insert_eq|].
    simpl. rewrite Z.add_0_r. symmetry. apply wrapu_small, wrapu_range. lia.
  - rewrite filter_app, length_app, Nat2Z.inj_add in *. destruct IH as [Hm Hcnt].
    { lia. }
    { intros m a Hin. apply (Hno m a). set_solver. }
    rewrite wt_run_snoc. set (n := Z.of_nat (length (filter _ l))) in *.
    assert (Hn : 0 <= n) by lia. split.
    + apply entry_stays; [|intros m a ->|done].
      * rewrite Hcnt, wrapu_add_l by done.
        intros Heq. assert (Hcc : wrapu 64 (c + (n + 1)) = wrapu 64 (c + 0)).
        { rewrite Z.add_assoc, Heq, Z.add_0_r. symmetry. apply wrapu_small, wrapu_range. lia. }
        apply wrapu_add_inj in Hcc; lia.
      * unfold acknowledged. rewrite (wt_run_parser wt1 l). apply (Hno m a). set_solver.
    + rewrite wt_next_counter, Hcnt, filter_cons, filter_nil.
      destruct (is_send ev); [rewrite decide_True by done|rewrite decide_False by done]; simpl.
      * rewrite wrapu_add_l by done. f_equal. lia.
      * f_equal. lia.
Qed.

(** ** From the sender to the receiver and back

    What the transceivers rely on: a message that is in range marshals, not into
    nothing when it has a type, and is read back. *)
Class ConverterLaws (c : webSocketsPayloadConverter) : Prop := {
  converter_roundtrip m : ws_wf m -> exists b, ConstructPayload c m = Ok b
    /\ (ws_Type m <> 0 -> len b <> 0) /\ ExtractWsMessage c b = Ok (ws_canon m);
}.

(** The converter over the generated methods, which the proto marshaller calls *)
Definition proto_converter : webSocketsPayloadConverter := {|
  wpc_Marshal m := match WsMessage_Marshal m with Some b => Ok b | None => Err (EExternal "panic") end;
  wpc_Unmarshal b := match WsMessage_Unmarshal b WsMessage_zero with
                     | Some r => r | None => Err (EExternal "panic") end;
|}.

#[export] Instance proto_laws : ConverterLaws proto_converter.
Proof.
  split. intros m Hwf. exists (WsMessage_encoding m). unfold ConstructPayload, ExtractWsMessage. simpl.
  rewrite WsMessage_Marshal_encoding by done. split_and!; [done| |].
  - intros Ht. unfold WsMessage_encoding. rewrite !len_app.
    replace (negb (ws_Type m =? 0)) with true by lia. unfold varint_part at 2. rewrite len_cons.
    repeat match goal with |- context [len ?l] => lazymatch goal with
      H : 0 <= len l |- _ => fail | _ => pose proof (len_nonneg l) end end. lia.
  - assert (Hl : len (WsMessage_encoding m) < 2 ^ 63) by (rewrite ws_encoding_len by done; apply Hwf).
    pose proof (WsMessage_reads _ m Hwf Hl) as Hr.
    unfold WsMessage_Unmarshal. by rewrite (unmarshal_reads _ _ _ _ _ Hr).
Qed.

Lemma sendAck_loop_spec b errs closed :
  sendAck_loop b (((fun e => (Some e, false)) <$> errs) ++ [(None, closed)])
  = (replicate (S (length errs)) b, Some true).
Proof. induction errs as [|e errs IH]; [done|]. rewrite fmap_cons. cbn [app sendAck_loop]. by rewrite IH. Qed.

Lemma ack_wf c : in_u 64 c -> ws_wf {| WithAcknowledge := false; Counter := c; ws_Type := AckMessage;
  ws_Payload := None; ws_Topic := ""; ws_Version := 0 |}.
Proof.
  intros Hc. split; [done|done|done|]. unfold WsMessage_Size.
  cbn [WithAcknowledge Counter ws_Type ws_Payload ws_Topic ws_Version]. cbv zeta.
  pose proof (sov_le c Hc) as Hs.
  change (sov (wrapu 64 AckMessage)) with 1. assert (100 < 2 ^ 63) by done.
  change (len (sl None) >? 0) with false. change (len (to_bytes "") >? 0) with false.
  change (negb (AckMessage =? 0)) with true. change (negb (0 =? 0)) with false.
  cbv iota. destruct (negb (c =? 0)); lia.
Qed.

(** The acknowledged delivery: when the write of a payload succeeds, the
    receiver hands it to its handler with its topic and version, once, and
    writes the same acknowledgement until a write succeeds; when one of these
    arrives, the channel of the send is the one that is closed, its entry is
    gone, and the send returns without error. *)
Theorem send_ack_roundtrip (conv : webSocketsPayloadConverter) `{!ConverterLaws conv}
    (s r : wsTransceiver) payload topic errs closed attempts :
  payloadParser s = conv -> payloadParser r = conv -> withAcknowledge s = true ->
  safeCloser s = false -> ws_wf (payload_message s (wrapu 64 (wt_counter s + 1)) payload topic) ->
  (ProcessPayload (payloadHandler r) (canon payload) topic (payloadVersion s) = None
   \/ blockingAckOnError r = false) ->
  exists message ack s' ,
    wt_Send (fun _ => None) s payload topic = (WaitsForAck (madeAcks s), s', [message])
    /\ verifyPayloadAndSendAckIfNeeded r message (((fun e => (Some e, false)) <$> errs) ++ [(None, closed)])
       = (r, DoProcessPayload (canon payload) topic (payloadVersion s)
             :: replicate (S (length errs)) (DoWriteMessage ack))
    /\ let '(s'', effects) := verifyPayloadAndSendAckIfNeeded s' ack attempts in
       effects = [] /\ mapAck s'' = delete (wrapu 64 (wt_counter s + 1)) (mapAck s)
       /\ forall err, waitForAck s'' (madeAcks s) false err <-> err = None.
Proof.
  intros Hps Hpr Hack Hsc Hwf Hproc. set (c := wrapu 64 (wt_counter s + 1)) in *.
  destruct (converter_roundtrip _ Hwf) as (message & Hm & Hne & Hx).
  destruct (converter_roundtrip _ (ack_wf c (wrapu_range 64 _ ltac:(done)))) as (ack & Ha & Hane & Hax).
  exists message, ack, (prepareChanAndCounter s).2. split_and!.
  - unfold wt_Send, prepareChanAndCounter. cbn [wt_set_acks payloadParser withAcknowledge snd].
    rewrite Hps. fold c. change (payload_message (wt_set_acks _ _ _ _ _) c payload topic)
      with (payload_message s c payload topic). by rewrite Hm, Hack.
  - unfold verifyPayloadAndSendAckIfNeeded. rewrite Hpr, Hx.
    specialize (Hne ltac:(done)). replace (len message =? 0) with false by lia.
    cbn [ws_canon ws_set_payload payload_message ws_Type ws_Payload ws_Topic ws_Version].
    change (PayloadMessage =? AckMessage) with false. change (negb (PayloadMessage =? PayloadMessage)) with false.
    cbv iota zeta.
    replace (bool_decide (_ <> None) && blockingAckOnError r) with false by
      (destruct Hproc as [-> | ->]; [done|by rewrite andb_false_r]).
    unfold sendAckIfNeeded.
    change (WithAcknowledge _) with (withAcknowledge s). rewrite Hack, Hpr. cbn [negb].
    change (ack_message _) with {| WithAcknowledge := false; Counter := c; ws_Type := AckMessage;
      ws_Payload := None; ws_Topic := ""; ws_Version := 0 |}. rewrite Ha, sendAck_loop_spec. simpl. do 3 f_equal.
    by rewrite fmap_replicate.
  - assert (Hacked : acknowledged (prepareChanAndCounter s).2 ack = Some c).
    { unfold acknowledged. specialize (Hane ltac:(done)). replace (len ack =? 0) with false by lia.
      cbn [prepareChanAndCounter snd wt_set_acks payloadParser]. by rewrite Hps, Hax. }
    rewrite (verify_acknowledged _ _ _ c Hacked). split_and!; [done| |].
    + unfold handleAckMessage, prepareChanAndCounter. cbn [snd wt_set_acks mapAck]. fold c.
      rewrite Hack, lookup_insert_eq. cbn [wt_set_acks mapAck]. by rewrite delete_insert_eq.
    + intros err. unfold waitForAck, handleAckMessage, prepareChanAndCounter.
      cbn [snd wt_set_acks mapAck]. fold c. rewrite Hack, lookup_insert_eq.
      cbn [wt_set_acks closedAcks safeCloser]. rewrite Hsc. split; [naive_solver|].
      intros ->. left. split; [set_solver|done].
Qed.

(** ** The theorems at concrete transceivers *)

Definition demo_args : ArgsTransceiver := {|
  at_PayloadConverter := Some proto_converter; at_Log := true; at_RetryDurationInSec := 1;
  at_AckTimeoutInSec := 2; at_BlockingAckOnError := true; at_WithAcknowledge := true;
  at_PayloadVersion := 1 |}.

Definition demo_wt : wsTransceiver := {|
  payloadParser := proto_converter; payloadHandler := NewNilPayloadHandler; safeCloser := false;
  retryDuration := 1000000000; ackTimeout := 2000000000; mapAck := ∅; wt_counter := 0; madeAcks := 0;
  closedAcks := ∅; blockingAckOnError := true; withAcknowledge := true; payloadVersion := 1 |}.

Definition demo_ack : bytes := [Byte.x10; Byte.x01; Byte.x18; Byte.x01].

Definition demo_events : list wt_event :=
  [EvSend (fun _ => None) (Some [Byte.x07]) "topic"; EvReceived demo_ack []].

Lemma ack_sound_witness :
  exists l1 message attempts l2,
    demo_events = l1 ++ EvReceived message attempts :: l2
    /\ acknowledged demo_wt message = Some 1 /\ (0 < madeAcks (wt_run demo_wt l1))%nat.
Proof.
  apply (ack_sound (EExternal "nil logger") demo_args demo_wt demo_events 0 false); [reflexivity|].
  left. split; [|reflexivity]. apply (bool_decide_eq_true_1 (0%nat ∈ _)). vm_compute. reflexivity.
Defined.

Lemma unacknowledged_entry_stays_witness :
  mapAck (wt_run (prepareChanAndCounter demo_wt).2 [EvSend (fun _ => None) None "topic"; EvClose]) !! 1
  = Some 0%nat.
Proof.
  apply (unacknowledged_entry_stays demo_wt [EvSend (fun _ => None) None "topic"; EvClose] 0 1);
    [reflexivity|reflexivity|split; done|done|].
  intros message attempts Hin. exfalso.
  apply list_elem_of_In in Hin. destruct Hin as [H|[H|[]]]; discriminate H.
Defined.

Lemma send_ack_roundtrip_witness :
  exists message ack s',
    wt_Send (fun _ => None) demo_wt (Some [Byte.x07]) "topic" = (WaitsForAck 0, s', [message])
    /\ verifyPayloadAndSendAckIfNeeded demo_wt message
         [(Some (ErrConnectionNotOpen : error), false); (None, false)]
       = (demo_wt, [DoProcessPayload (Some [Byte.x07]) "topic" 1; DoWriteMessage ack; DoWriteMessage ack])
    /\ let '(s'', effects) := verifyPayloadAndSendAckIfNeeded s' ack [] in
       effects = [] /\ mapAck s'' = delete 1 ∅
       /\ forall err, waitForAck s'' 0 false err <-> err = None.
Proof.
  apply (send_ack_roundtrip proto_converter demo_wt demo_wt (Some [Byte.x07]) "topic"
    [ErrConnectionNotOpen : error] false []);
    [reflexivity|reflexivity|reflexivity|reflexivity|split; split; done|by left].
Defined.
