(* ===== verification/Link.v ===== *)
(** * Two transceivers over a connection

    The acknowledgement protocol of websocket/transceiver end to end: the two
    transceivers of a client and a server, the bytes on their way between them,
    and every order in which sends, receptions, failing writes, losses of the
    connection, new transceivers and closings can happen. A send takes its counter and writes
    in one step here; sends that overlap, and several connections, are those of HostLink.v. *)

From S2P Require Import Prelude Errors Config Messages Protobuf WireMessages Transceiver.
From stdpp Require Import list gmap sets.
Open Scope Z_scope.

(** ** The state *)

(** A call of the handler of a transceiver: the message that was being received, what
    the handler was given of it, what it answered, and whether an error would have kept back
    the acknowledgement *)
Record handled := {
  h_msg : WsMessage;
  h_payload : slice;
  h_topic : string;
  h_version : Z;
  h_err : option error;
  h_blocking : bool;
}.

(** One end: its transceiver, the bytes on their way to it, the messages that
    its present transceiver was asked to send, and what it has handled of the present
    transceiver of the other end *)
Record endpoint := {
  ep_wt : wsTransceiver;
  ep_inbox : list bytes;
  ep_sent : list WsMessage;
  ep_handled : list handled;
}.

Definition payload_of (conv : webSocketsPayloadConverter) (message : bytes) : option WsMessage :=
  if len message =? 0 then None
  else match ExtractWsMessage conv message with
       | Ok m => if ws_Type m =? PayloadMessage then Some m else None
       | Err _ => None
       end.

(** The calls of the handler among the effects of a reception: one for each that the code
    makes, with the arguments it makes it with *)
Definition call_of (wt : wsTransceiver) (message : bytes) (effect : wt_effect) : option handled :=
  match effect with
  | DoProcessPayload payload topic version =>
      Some {| h_msg := match ExtractWsMessage (payloadParser wt) message with Ok m => m | Err _ => WsMessage_zero end;
              h_payload := payload; h_topic := topic; h_version := version;
              h_err := ProcessPayload (payloadHandler wt) payload topic version;
              h_blocking := blockingAckOnError wt |}
  | DoWriteMessage _ => None
  end.

Definition handles (wt : wsTransceiver) (message : bytes) (effects : list wt_effect) : list handled :=
  omap (call_of wt message) effects.

(** The handler was given what message [m] carries, while [m] was being received. *)
Definition given (h : handled) (m : WsMessage) : Prop :=
  h_msg h = m /\ h_payload h = ws_Payload m /\ h_topic h = ws_Topic m /\ h_version h = ws_Version m.

(** The writes of a reception that succeed, given the answers of the attempts *)
Definition written (effects : list wt_effect) : list bytes :=
  omap (fun e => match e with DoWriteMessage b => Some b | _ => None end) effects.

Definition transmitted (effects : list wt_effect) (attempts : list (option error * bool)) : list bytes :=
  omap (fun e : bytes * (option error * bool) => match e.2.1 with None => Some e.1 | Some _ => None end)
    (zip (written effects) attempts).

(** Sends and receptions, computed *)
Definition ep_send (w : bytes -> option error) (me peer : endpoint) (payload : slice) (topic : string)
    : endpoint * endpoint :=
  let '(_, wt, messages) := wt_Send w (ep_wt me) payload topic in
  ({| ep_wt := wt; ep_inbox := ep_inbox me;
      ep_sent := ep_sent me ++ [payload_message (ep_wt me) (wrapu 64 (wt_counter (ep_wt me) + 1)) payload topic];
      ep_handled := ep_handled me |},
   {| ep_wt := ep_wt peer; ep_inbox := ep_inbox peer ++ filter (fun b => w b = None) messages;
      ep_sent := ep_sent peer; ep_handled := ep_handled peer |}).

Definition ep_receive (me peer : endpoint) (attempts : list (option error * bool)) : option (endpoint * endpoint) :=
  match ep_inbox me with
  | [] => None
  | message :: inbox =>
      let '(wt, effects) := verifyPayloadAndSendAckIfNeeded (ep_wt me) message attempts in
      Some ({| ep_wt := wt; ep_inbox := inbox; ep_sent := ep_sent me;
               ep_handled := ep_handled me ++ handles (ep_wt me) message effects |},
            {| ep_wt := ep_wt peer; ep_inbox := ep_inbox peer ++ transmitted effects attempts;
               ep_sent := ep_sent peer; ep_handled := ep_handled peer |})
  end.

Section link.
Context (conv : webSocketsPayloadConverter) (nilLogger : error).
Implicit Types me peer : endpoint.

(** A step of one end, and what it does to the other *)
Inductive ep_step me peer : endpoint -> endpoint -> Prop :=
| StepSend w payload topic outcome wt messages :
    let m := payload_message (ep_wt me) (wrapu 64 (wt_counter (ep_wt me) + 1)) payload topic in
    ws_wf m -> wt_Send w (ep_wt me) payload topic = (outcome, wt, messages) ->
    ep_step me peer
      {| ep_wt := wt; ep_inbox := ep_inbox me; ep_sent := ep_sent me ++ [m]; ep_handled := ep_handled me |}
      {| ep_wt := ep_wt peer; ep_inbox := ep_inbox peer ++ filter (fun b => w b = None) messages;
         ep_sent := ep_sent peer; ep_handled := ep_handled peer |}
| StepReceive message inbox attempts wt effects :
    ep_inbox me = message :: inbox ->
    verifyPayloadAndSendAckIfNeeded (ep_wt me) message attempts = (wt, effects) ->
    ep_step me peer
      {| ep_wt := wt; ep_inbox := inbox; ep_sent := ep_sent me;
         ep_handled := ep_handled me ++ handles (ep_wt me) message effects |}
      {| ep_wt := ep_wt peer; ep_inbox := ep_inbox peer ++ transmitted effects attempts;
         ep_sent := ep_sent peer; ep_handled := ep_handled peer |}
| StepSetHandler handler :
    ep_step me peer
      {| ep_wt := (wt_SetPayloadHandler (ep_wt me) handler).2; ep_inbox := ep_inbox me;
         ep_sent := ep_sent me; ep_handled := ep_handled me |} peer
| StepClose :
    ep_step me peer
      {| ep_wt := (wt_Close (ep_wt me)).2; ep_inbox := ep_inbox me;
         ep_sent := ep_sent me; ep_handled := ep_handled me |} peer
| StepLost :
    ep_step me peer
      {| ep_wt := ep_wt me; ep_inbox := []; ep_sent := ep_sent me; ep_handled := ep_handled me |}
      {| ep_wt := ep_wt peer; ep_inbox := []; ep_sent := ep_sent peer; ep_handled := ep_handled peer |}
| StepRenew args wt :
    NewTransceiver nilLogger args = Ok wt -> at_PayloadConverter args = Some conv ->
    ep_step me peer
      {| ep_wt := wt; ep_inbox := []; ep_sent := []; ep_handled := ep_handled me |}
      {| ep_wt := ep_wt peer; ep_inbox := []; ep_sent := ep_sent peer; ep_handled := [] |}.

(** A step of either end *)
Definition link : Type := endpoint * endpoint.

Inductive link_step : link -> link -> Prop :=
| LeftStep a b a' b' : ep_step a b a' b' -> link_step (a, b) (a', b')
| RightStep a b a' b' : ep_step b a b' a' -> link_step (a, b) (a', b').

Definition new_endpoint (wt : wsTransceiver) : endpoint := {|
  ep_wt := wt; ep_inbox := []; ep_sent := []; ep_handled := [] |}.

(** The links of two new transceivers, and what becomes of them *)
Inductive link_reachable : link -> Prop :=
| LinkNew args1 wt1 args2 wt2 :
    NewTransceiver nilLogger args1 = Ok wt1 -> at_PayloadConverter args1 = Some conv ->
    NewTransceiver nilLogger args2 = Ok wt2 -> at_PayloadConverter args2 = Some conv ->
    link_reachable (new_endpoint wt1, new_endpoint wt2)
| LinkStep l l' : link_reachable l -> link_step l l' -> link_reachable l'.

(** ** The invariant, in the direction from [s] to [r] *)

Definition may_ack (h : handled) : Prop := h_err h = None \/ h_blocking h = false.

(** The counters that the bytes on their way acknowledge *)
Definition ack_of (message : bytes) : option Z :=
  if len message =? 0 then None
  else match ExtractWsMessage conv message with
       | Ok m => if ws_Type m =? AckMessage then Some (Counter m) else None
       | Err _ => None
       end.

(** One end as a sender: its transceiver, what it was asked to send, and what is
    known to be handled ([H]) *)
Record sender_inv (wt : wsTransceiver) (sent : list WsMessage) (H : handled -> Prop) : Prop := {
  snd_parser : payloadParser wt = conv;
  snd_wt : wt_inv wt;
  snd_made : length sent = madeAcks wt;
  snd_counter ch m : sent !! ch = Some m -> Counter m = wrapu 64 (Z.of_nat ch + 1);
  snd_closed ch : ch ∈ closedAcks wt ->
    exists h, H h /\ Counter (h_msg h) = wrapu 64 (Z.of_nat ch + 1) /\ may_ack h;
}.

(** A connection, from a sender to its receiver: what was sent over it, the bytes
    on their way back and forth, and what was handled *)
Record lane_inv (sent : list WsMessage) (back forth : list bytes) (hs : list handled) : Prop := {
  lane_order : (h_msg <$> hs) ++ omap (payload_of conv) forth `sublist_of` (ws_canon <$> sent);
  lane_acks message c : message ∈ back -> ack_of message = Some c ->
    exists h, h ∈ hs /\ Counter (h_msg h) = c /\ may_ack h;
  lane_given h : h ∈ hs -> given h (h_msg h);
}.

Record dir_inv (s r : endpoint) : Prop := {
  d_sender : sender_inv (ep_wt s) (ep_sent s) (fun h => h ∈ ep_handled r);
  d_lane : lane_inv (ep_sent s) (ep_inbox s) (ep_inbox r) (ep_handled r);
}.

Lemma new_parser args wt :
  NewTransceiver nilLogger args = Ok wt -> at_PayloadConverter args = Some conv ->
  payloadParser wt = conv /\ madeAcks wt = 0%nat /\ closedAcks wt = ∅.
Proof.
  unfold NewTransceiver. intros [_ Hn]%guard_err_Ok Hc. rewrite Hc in Hn. rewrite !guard_err_Ok in Hn.
  destruct Hn as (_ & _ & Hn). by apply (inj Ok) in Hn as <-.
Qed.

Lemma ack_of_payload message m : payload_of conv message = Some m -> ack_of message = None.
Proof.
  unfold payload_of, ack_of. destruct (len message =? 0); [done|].
  destruct (ExtractWsMessage conv message) as [m'|]; [|done].
  destruct (ws_Type m' =? PayloadMessage) eqn:E; [|done]. bdestruct_all. by rewrite E.
Qed.

Lemma acknowledged_ack_of wt message : payloadParser wt = conv -> acknowledged wt message = ack_of message.
Proof. intros Hp. unfold acknowledged, ack_of. by rewrite Hp. Qed.

Context `{!ConverterLaws conv}.

(** *** Sending *)

Lemma Send_written w wt payload topic outcome wt' messages :
  let m := payload_message wt (wrapu 64 (wt_counter wt + 1)) payload topic in
  payloadParser wt = conv -> ws_wf m -> wt_Send w wt payload topic = (outcome, wt', messages) ->
  wt' = (prepareChanAndCounter wt).2
  /\ (forall b, b ∈ messages -> ack_of b = None)
  /\ omap (payload_of conv) (filter (fun b => w b = None) messages) `sublist_of` [ws_canon m].
Proof.
  intros m Hp Hwf Hs. destruct (converter_roundtrip m Hwf) as (b & Hm & Hne & Hx).
  assert (Hpay : payload_of conv b = Some (ws_canon m)).
  { unfold payload_of. specialize (Hne ltac:(done)). replace (len b =? 0) with false by lia. by rewrite Hx. }
  assert (Hcase : wt' = (prepareChanAndCounter wt).2 /\ messages = [b]).
  { unfold wt_Send, prepareChanAndCounter in *. cbn [wt_set_acks payloadParser snd] in *. rewrite Hp in Hs.
    change (payload_message (wt_set_acks _ _ _ _ _) _ payload topic) with m in Hs. rewrite Hm in Hs.
    destruct (w b); [by injection Hs as _ <- <-|]. by destruct (negb _); injection Hs as _ <- <-. }
  destruct Hcase as [-> ->]. split_and!; [done| |].
  - intros b' ->%list_elem_of_singleton. by eapply ack_of_payload.
  - rewrite filter_cons, filter_nil. case_decide; simpl; [by rewrite Hpay|apply sublist_nil_l].
Qed.

(** *** Receiving *)

Lemma transmitted_elem effects attempts b : b ∈ transmitted effects attempts -> DoWriteMessage b ∈ effects.
Proof.
  unfold transmitted. rewrite list_elem_of_omap. intros ([b' [e closed]] & Hin & Hb). simpl in Hb.
  destruct e; [done|]. injection Hb as ->. apply elem_of_zip_l in Hin. unfold written in Hin.
  apply list_elem_of_omap in Hin as ([?|b'] & Hin & Heq); [done|]. by injection Heq as ->.
Qed.

Lemma sendAck_loop_elem b attempts b' : b' ∈ (sendAck_loop b attempts).1 -> b' = b.
Proof.
  induction attempts as [|[[e|] [|]] attempts IH]; cbn [sendAck_loop]; [by intros ?%elem_of_nil| | | |];
    try (by intros ->%list_elem_of_singleton).
  destruct (sendAck_loop b attempts) as [writes ended]. simpl. intros [->|Hin]%elem_of_cons; [done|by apply IH].
Qed.

(** A received payload is handed to the handler, once; nothing else is. *)
Definition handling_of (wt : wsTransceiver) (message : bytes) : list handled :=
  (fun m => {| h_msg := m; h_payload := ws_Payload m; h_topic := ws_Topic m; h_version := ws_Version m;
               h_err := ProcessPayload (payloadHandler wt) (ws_Payload m) (ws_Topic m) (ws_Version m);
               h_blocking := blockingAckOnError wt |}) <$> option_list (payload_of (payloadParser wt) message).

Lemma no_calls wt message (writes : list bytes) : handles wt message (DoWriteMessage <$> writes) = [].
Proof. by induction writes. Qed.

Lemma handles_calls wt message attempts wt' effects :
  verifyPayloadAndSendAckIfNeeded wt message attempts = (wt', effects) ->
  handles wt message effects = handling_of wt message.
Proof.
  unfold verifyPayloadAndSendAckIfNeeded, handling_of, payload_of.
  destruct (len message =? 0); [by intros [= _ <-]|].
  destruct (ExtractWsMessage _ message) as [m|] eqn:Hx; [|by intros [= _ <-]].
  destruct (ws_Type m =? AckMessage) eqn:Ha; bdestruct_all; [rewrite Ha; by intros [= _ <-]|].
  destruct (ws_Type m =? PayloadMessage) eqn:Ht; cbn [negb]; [|by intros [= _ <-]]. cbv zeta.
  destruct (_ && _); intros [= _ <-]; unfold handles; cbn [omap list_omap call_of]; rewrite Hx;
    fold (handles wt message (DoWriteMessage <$> (sendAckIfNeeded wt m attempts).1)); by rewrite ?no_calls.
Qed.

(** What is written while a message is received acknowledges the counter of that
    message, which was handled, and is nothing else. *)
Lemma received_writes wt message attempts wt' effects b :
  payloadParser wt = conv -> (forall m, payload_of conv message = Some m -> in_u 64 (Counter m)) ->
  verifyPayloadAndSendAckIfNeeded wt message attempts = (wt', effects) -> DoWriteMessage b ∈ effects ->
  payload_of conv b = None
  /\ exists h, h ∈ handles wt message effects /\ may_ack h /\ ack_of b = Some (Counter (h_msg h)).
Proof.
  intros Hp Hu Hv Hb. rewrite (handles_calls _ _ _ _ _ Hv).
  unfold verifyPayloadAndSendAckIfNeeded, handling_of, payload_of in *. rewrite Hp in *.
  destruct (len message =? 0); [injection Hv as _ <-; by apply elem_of_nil in Hb|].
  destruct (ExtractWsMessage conv message) as [m|err] eqn:Hx; [|injection Hv as _ <-; by apply elem_of_nil in Hb].
  destruct (ws_Type m =? AckMessage) eqn:Hack; [injection Hv as _ <-; by apply elem_of_nil in Hb|].
  destruct (ws_Type m =? PayloadMessage) eqn:Hpay; cbn [negb] in Hv; [|injection Hv as _ <-; by apply elem_of_nil in Hb].
  cbv zeta in Hv. destruct (_ && _) eqn:Hblock; injection Hv as _ <-.
  { by apply list_elem_of_singleton in Hb. }
  apply elem_of_cons in Hb as [|Hb]; [done|]. apply list_elem_of_fmap in Hb as (b' & [= <-] & Hb).
  unfold sendAckIfNeeded in Hb. destruct (negb (WithAcknowledge m)); [by apply elem_of_nil in Hb|]. rewrite Hp in Hb.
  destruct (converter_roundtrip _ (ack_wf (Counter m) (Hu m eq_refl))) as (ack & Ha & Hne & Hax).
  change (ack_message m) with {| WithAcknowledge := false; Counter := Counter m; ws_Type := AckMessage;
    ws_Payload := None; ws_Topic := ""; ws_Version := 0 |} in Hb. rewrite Ha in Hb.
  apply sendAck_loop_elem in Hb as ->. specialize (Hne ltac:(done)). unfold ack_of.
  replace (len ack =? 0) with false by lia. rewrite Hax. split; [done|].
  eexists. split; [apply list_elem_of_here|]. split; [|done]. unfold may_ack. simpl.
  apply andb_false_iff in Hblock as [Hn|Hn]; [left|by right].
  apply bool_decide_eq_false in Hn. by destruct (ProcessPayload _ _ _ _); [destruct Hn|].
Qed.

Lemma handles_msgs wt message attempts wt' effects :
  payloadParser wt = conv -> verifyPayloadAndSendAckIfNeeded wt message attempts = (wt', effects) ->
  h_msg <$> handles wt message effects = option_list (payload_of conv message).
Proof.
  intros Hp Hv. rewrite (handles_calls _ _ _ _ _ Hv). unfold handling_of. rewrite Hp.
  by destruct (payload_of conv message).
Qed.

Lemma handles_given wt message attempts wt' effects h :
  verifyPayloadAndSendAckIfNeeded wt message attempts = (wt', effects) ->
  h ∈ handles wt message effects -> given h (h_msg h).
Proof.
  intros Hv. rewrite (handles_calls _ _ _ _ _ Hv). intros (m & -> & _)%list_elem_of_fmap. by split_and!.
Qed.

(** The counters of the messages on their way *)
Lemma lane_counter sent back forth hs message m :
  lane_inv sent back forth hs -> (forall m, m ∈ sent -> in_u 64 (Counter m)) ->
  message ∈ forth -> payload_of conv message = Some m -> in_u 64 (Counter m).
Proof.
  intros Hl Hu Hin Hm. assert (Hs : m ∈ ws_canon <$> sent).
  { eapply elem_of_sublist; [|apply (lane_order _ _ _ _ Hl)]. apply elem_of_app. right.
    apply list_elem_of_omap. eauto. }
  apply list_elem_of_fmap in Hs as (m' & -> & Hs). by apply (Hu m').
Qed.

Lemma sender_counter wt sent H m : sender_inv wt sent H -> m ∈ sent -> in_u 64 (Counter m).
Proof.
  intros Hs [ch Hch]%list_elem_of_lookup. rewrite (snd_counter _ _ _ Hs _ _ Hch). apply wrapu_range. lia.
Qed.

(** *** The steps keep the invariant *)

Lemma omap_transmitted wt message attempts wt' effects :
  payloadParser wt = conv -> (forall m, payload_of conv message = Some m -> in_u 64 (Counter m)) ->
  verifyPayloadAndSendAckIfNeeded wt message attempts = (wt', effects) ->
  omap (payload_of conv) (transmitted effects attempts) = [].
Proof.
  intros Hp Hu Hv. assert (Hnone : forall b, b ∈ transmitted effects attempts -> payload_of conv b = None).
  { intros b Hb%transmitted_elem. by apply (received_writes wt message attempts wt' effects b Hp Hu Hv Hb). }
  induction (transmitted effects attempts) as [|b l IH]; [done|]. simpl.
  rewrite (Hnone b) by apply list_elem_of_here. apply IH. intros b' Hb'. apply Hnone. by apply elem_of_cons; right.
Qed.

(** *** What keeps a sender *)

Lemma sender_new args wt H :
  NewTransceiver nilLogger args = Ok wt -> at_PayloadConverter args = Some conv -> sender_inv wt [] H.
Proof.
  intros Hn Hc. destruct (new_parser _ _ Hn Hc) as (H1 & H2 & H3). split.
  - done.
  - by eapply NewTransceiver_inv.
  - by rewrite H2.
  - done.
  - intros ch. rewrite H3. by intros ?%elem_of_empty.
Qed.

Lemma sender_mono wt sent (H H' : handled -> Prop) :
  (forall h, H h -> H' h) -> sender_inv wt sent H -> sender_inv wt sent H'.
Proof. intros Hm [H1 H2 H3 H4 H5]. split; try done. intros ch (h & Hh & ?)%H5. eauto. Qed.

Lemma sender_handler wt sent H handler :
  sender_inv wt sent H -> sender_inv (wt_SetPayloadHandler wt handler).2 sent H.
Proof.
  intros [H1 H2 H3 H4 H5]. destruct handler as [p|]; [|by split].
  split; try done. apply (wt_next_inv wt (EvSetPayloadHandler (Some p))), H2.
Qed.

Lemma sender_close wt sent H : sender_inv wt sent H -> sender_inv (wt_Close wt).2 sent H.
Proof. intros [H1 H2 H3 H4 H5]. split; try done. apply (wt_next_inv wt EvClose), H2. Qed.

Lemma sender_send wt sent H payload topic :
  sender_inv wt sent H ->
  sender_inv (prepareChanAndCounter wt).2
    (sent ++ [payload_message wt (wrapu 64 (wt_counter wt + 1)) payload topic]) H.
Proof.
  intros [H1 H2 H3 H4 H5]. split; try done; simpl.
  - by apply prepare_inv.
  - rewrite length_app, H3. simpl. lia.
  - intros ch m' [Hch|[Hge Hch]]%lookup_app_Some; [by apply H4|].
    apply list_lookup_singleton_Some in Hch as [Hch <-]. simpl. rewrite (wt_inv_counter _ H2), wrapu_add_l by lia.
    f_equal. rewrite <- H3. lia.
Qed.

Lemma sender_receive wt sent (H : handled -> Prop) message attempts wt' effects :
  sender_inv wt sent H -> verifyPayloadAndSendAckIfNeeded wt message attempts = (wt', effects) ->
  (forall c, ack_of message = Some c -> exists h, H h /\ Counter (h_msg h) = c /\ may_ack h) ->
  sender_inv wt' sent H.
Proof.
  intros [H1 H2 H3 H4 H5] Hv Hack.
  assert (Hwt : wt' = match ack_of message with Some c => handleAckMessage wt c | None => wt end).
  { rewrite <- (acknowledged_ack_of _ _ H1), <- (verify_state wt message attempts). by rewrite Hv. }
  clear Hv. subst wt'. destruct (ack_of message) as [c|]; [|by split]. split.
  - unfold handleAckMessage. by case_match.
  - by apply handleAck_inv.
  - rewrite H3. unfold handleAckMessage. by case_match.
  - done.
  - unfold handleAckMessage. destruct (mapAck wt !! c) as [ch'|] eqn:Hch; [|apply H5].
    simpl. intros ch [->%elem_of_singleton|Hcl]%elem_of_union; [|by apply H5].
    rewrite <- (wt_inv_stored _ H2 _ _ Hch). by apply Hack.
Qed.

(** *** What keeps a connection *)

Lemma lane_new sent : lane_inv sent [] [] [].
Proof. split; [apply sublist_nil_l|by intros message c ?%elem_of_nil|by intros h ?%elem_of_nil]. Qed.

Lemma omap_payload_sublist (l l' : list bytes) :
  l `sublist_of` l' -> omap (payload_of conv) l `sublist_of` omap (payload_of conv) l'.
Proof.
  induction 1 as [|b l l' _ IH|b l l' _ IH]; simpl; [done|..]; destruct (payload_of conv b);
    try done; by constructor.
Qed.

(** Bytes are lost. *)
Lemma lane_lost sent back forth back' forth' hs :
  back' `sublist_of` back -> forth' `sublist_of` forth ->
  lane_inv sent back forth hs -> lane_inv sent back' forth' hs.
Proof.
  intros Hb Hf [Ho Ha Hg]. split; [| |exact Hg].
  - etrans; [|exact Ho]. apply sublist_app; [done|]. by apply omap_payload_sublist.
  - intros message c Hin. apply Ha. by eapply elem_of_sublist.
Qed.

(** Messages are sent over it, and those that were written are on their way. *)
Lemma lane_forth sent back forth hs more new :
  omap (payload_of conv) new `sublist_of` (ws_canon <$> more) ->
  lane_inv sent back forth hs -> lane_inv (sent ++ more) back (forth ++ new) hs.
Proof.
  intros Hn [Ho Ha Hg]. split; [|done|done]. rewrite omap_app, fmap_app, app_assoc. by apply sublist_app.
Qed.

(** Something else than acknowledgements goes back. *)
Lemma lane_back sent back forth hs new :
  (forall b, b ∈ new -> ack_of b = None) ->
  lane_inv sent back forth hs -> lane_inv sent (back ++ new) forth hs.
Proof.
  intros Hn [Ho Ha Hg]. split; [done| |done]. intros b c [Hb|Hb]%elem_of_app Hack; [by apply (Ha b)|].
  by rewrite (Hn b Hb) in Hack.
Qed.

(** The next message is received, and acknowledged perhaps. *)
Lemma lane_receive sent back message forth hs wt attempts wt' effects :
  payloadParser wt = conv -> (forall m, payload_of conv message = Some m -> in_u 64 (Counter m)) ->
  verifyPayloadAndSendAckIfNeeded wt message attempts = (wt', effects) ->
  lane_inv sent back (message :: forth) hs ->
  lane_inv sent (back ++ transmitted effects attempts) forth (hs ++ handles wt message effects).
Proof.
  intros Hp Hu Hv [Ho Ha Hg]. split; [| |intros h [Hh|Hh]%elem_of_app; [by apply Hg|by eapply handles_given]].
  - rewrite fmap_app, (handles_msgs _ _ _ _ _ Hp Hv), <- app_assoc. cbn [omap list_omap] in Ho.
    by destruct (payload_of conv message).
  - intros b c [Hb|Hb%transmitted_elem]%elem_of_app Hack.
    + destruct (Ha b c Hb Hack) as (h & Hh & ?). exists h. split; [apply elem_of_app; by left|done].
    + destruct (received_writes _ _ _ _ _ _ Hp Hu Hv Hb) as (_ & h & Hh & Hmay & Hc).
      exists h. split; [apply elem_of_app; by right|]. split; [congruence|done].
Qed.

(** *** What the ends keep of each other *)

Lemma d_parser s r : dir_inv s r -> payloadParser (ep_wt s) = conv.
Proof. intros Hd. apply (snd_parser _ _ _ (d_sender _ _ Hd)). Qed.

Lemma d_wt s r : dir_inv s r -> wt_inv (ep_wt s).
Proof. intros Hd. apply (snd_wt _ _ _ (d_sender _ _ Hd)). Qed.

Lemma d_made s r : dir_inv s r -> length (ep_sent s) = madeAcks (ep_wt s).
Proof. intros Hd. apply (snd_made _ _ _ (d_sender _ _ Hd)). Qed.

Lemma inbox_counter s r message m :
  dir_inv s r -> message ∈ ep_inbox r -> payload_of conv message = Some m -> in_u 64 (Counter m).
Proof.
  intros [Hs Hl] Hin Hm. apply (lane_counter _ _ _ _ _ _ Hl (fun m => sender_counter _ _ _ m Hs) Hin Hm).
Qed.

Lemma step_as_sender me peer me' peer' :
  ep_step me peer me' peer' -> dir_inv me peer -> dir_inv peer me -> dir_inv me' peer'.
Proof.
  intros Hst Hd Hdp. pose proof Hd as [Hs Hl]. pose proof (snd_parser _ _ _ Hs) as Hp.
  destruct Hst as [w payload topic outcome wt messages m Hwf Hw
    |message inbox attempts wt effects Hin Hv|handler| | |args wt Hn Hc]; split; simpl.
  - destruct (Send_written _ _ _ _ _ _ _ Hp Hwf Hw) as (-> & _). by apply sender_send.
  - destruct (Send_written _ _ _ _ _ _ _ Hp Hwf Hw) as (_ & _ & Hsub). by apply lane_forth.
  - eapply sender_receive; [exact Hs|exact Hv|]. intros c. apply (lane_acks _ _ _ _ Hl).
    rewrite Hin. apply list_elem_of_here.
  - rewrite <- (app_nil_r (ep_sent me)). apply lane_forth.
    + rewrite (omap_transmitted _ _ _ _ _ Hp) with (2 := Hv); [done|].
      intros m. apply (inbox_counter peer me _ _ Hdp). rewrite Hin. apply list_elem_of_here.
    + eapply lane_lost; [|done|exact Hl]. rewrite Hin. by constructor.
  - by apply sender_handler.
  - done.
  - by apply sender_close.
  - done.
  - done.
  - eapply lane_lost; [apply sublist_nil_l..|exact Hl].
  - by eapply sender_new.
  - apply lane_new.
Qed.

Lemma step_as_receiver me peer me' peer' :
  ep_step me peer me' peer' -> dir_inv me peer -> dir_inv peer me -> dir_inv peer' me'.
Proof.
  intros Hst Hd Hdp. pose proof Hdp as [Hs Hl]. pose proof (d_parser _ _ Hd) as Hp.
  destruct Hst as [w payload topic outcome wt messages m Hwf Hw
    |message inbox attempts wt effects Hin Hv|handler| | |args wt Hn Hc]; split; simpl; try done.
  - destruct (Send_written _ _ _ _ _ _ _ Hp Hwf Hw) as (_ & Hna & _). apply lane_back; [|done].
    intros b [_ Hb]%list_elem_of_filter. by apply Hna.
  - eapply sender_mono; [|exact Hs]. intros h Hh. apply elem_of_app. by left.
  - rewrite Hin in Hl. apply (lane_receive _ _ _ _ _ _ _ _ _ Hp) with (2 := Hv); [|done].
    intros m. apply (inbox_counter peer me _ _ Hdp). rewrite Hin. apply list_elem_of_here.
  - eapply lane_lost; [apply sublist_nil_l..|exact Hl].
  - eapply lane_lost; [apply sublist_nil_l..|exact Hl].
Qed.

(** ** The protocol *)

Lemma new_dir_inv args1 wt1 wt2 :
  NewTransceiver nilLogger args1 = Ok wt1 -> at_PayloadConverter args1 = Some conv ->
  dir_inv (new_endpoint wt1) (new_endpoint wt2).
Proof. intros Hn Hc. split; [by eapply sender_new|apply lane_new]. Qed.

Lemma link_inv l : link_reachable l -> dir_inv l.1 l.2 /\ dir_inv l.2 l.1.
Proof.
  induction 1 as [args1 wt1 args2 wt2 H1 H2 H3 H4|l l' _ [Ha Hb] Hst].
  - by split; eapply new_dir_inv.
  - destruct Hst as [a b a' b' Hst|a b a' b' Hst]; simpl in *; split.
    + by apply (step_as_sender a b).
    + by apply (step_as_receiver a b).
    + by apply (step_as_receiver b a).
    + by apply (step_as_sender b a).
Qed.

Lemma sent_counter_inj wt sent H ch ch' m m' :
  sender_inv wt sent H -> Z.of_nat (length sent) <= 2 ^ 64 -> sent !! ch = Some m -> sent !! ch' = Some m' ->
  Counter m = Counter m' -> ch = ch'.
Proof.
  intros Hs Hlen Hm Hm'. rewrite (snd_counter _ _ _ Hs _ _ Hm), (snd_counter _ _ _ Hs _ _ Hm').
  apply lookup_lt_Some in Hm, Hm'. rewrite !(Z.add_comm _ 1). intros Heq. apply wrapu_add_inj in Heq; lia.
Qed.

(** The sent messages have distinct counters. *)
Lemma sent_NoDup wt sent H :
  sender_inv wt sent H -> Z.of_nat (length sent) <= 2 ^ 64 -> NoDup (ws_canon <$> sent).
Proof.
  intros Hs Hlen. apply NoDup_alt. intros i j x Hi Hj. rewrite list_lookup_fmap in Hi, Hj.
  destruct (sent !! i) as [mi|] eqn:Hmi; [|done]. destruct (sent !! j) as [mj|] eqn:Hmj; [|done].
  assert (Heq : ws_canon mi = ws_canon mj) by (simpl in Hi, Hj; congruence).
  eapply sent_counter_inj; [done..|]. exact (f_equal Counter Heq).
Qed.

(** What was handled was sent. *)
Lemma lane_handled sent back forth hs :
  lane_inv sent back forth hs -> (h_msg <$> hs) `sublist_of` (ws_canon <$> sent).
Proof. intros Hl. etrans; [|apply (lane_order _ _ _ _ Hl)]. by apply sublist_inserts_r. Qed.

(** A channel that was closed acknowledges the message it was made for. *)
Lemma closed_handled wt sent (H : handled -> Prop) ch :
  sender_inv wt sent H -> (forall h, H h -> h_msg h ∈ ws_canon <$> sent /\ given h (h_msg h)) ->
  Z.of_nat (length sent) <= 2 ^ 64 -> ch ∈ closedAcks wt ->
  exists m h, sent !! ch = Some m /\ H h /\ given h (ws_canon m) /\ may_ack h.
Proof.
  intros Hs HH Hlen Hcl. destruct (snd_closed _ _ _ Hs ch Hcl) as (h & Hh & Hc & Hmay).
  pose proof (wt_inv_closed _ (snd_wt _ _ _ Hs) ch Hcl) as Hlt. rewrite <- (snd_made _ _ _ Hs) in Hlt.
  destruct (lookup_lt_is_Some_2 _ _ Hlt) as [m Hm]. exists m, h. split_and!; [done|done| |done].
  destruct (HH h Hh) as [(m' & Heq & Hm')%list_elem_of_fmap Hg]. apply list_elem_of_lookup in Hm' as [ch' Hm'].
  rewrite Heq in *. change (Counter (ws_canon m')) with (Counter m') in Hc.
  assert (ch' = ch) as ->; [|by simplify_eq].
  eapply sent_counter_inj; [exact Hs|exact Hlen|exact Hm'|exact Hm|]. by rewrite Hc, (snd_counter _ _ _ Hs _ _ Hm).
Qed.

Lemma dir_closed_handled s r ch :
  dir_inv s r -> Z.of_nat (length (ep_sent s)) <= 2 ^ 64 -> ch ∈ closedAcks (ep_wt s) ->
  exists m h, ep_sent s !! ch = Some m /\ h ∈ ep_handled r /\ given h (ws_canon m) /\ may_ack h.
Proof.
  intros [Hs Hl]. apply (closed_handled _ _ _ _ Hs). intros h Hh. split; [|by apply (lane_given _ _ _ _ Hl)].
  eapply elem_of_sublist; [|by eapply lane_handled]. by apply list_elem_of_fmap_2.
Qed.

(** C4: the acknowledgements of the websocket protocol can be trusted, whatever is
    sent, lost, closed and renewed on either side, in any order. What the handler of one end is
    given, by the calls that its transceiver makes, is the payload, the topic and the version of
    the messages it receives, in the order of the sends and each at most once, among what the present
    transceiver of the other end was asked to send; and when a send of this transceiver
    returns without error for its acknowledgement, its own payload was given to that handler,
    which accepted it, unless it was not to block the acknowledgements. *)
Theorem acknowledged_was_handled l me peer :
  link_reachable l -> l = (me, peer) \/ l = (peer, me) ->
  length (ep_sent me) = madeAcks (ep_wt me)
  /\ (h_msg <$> ep_handled peer) `sublist_of` (ws_canon <$> ep_sent me)
  /\ (forall h, h ∈ ep_handled peer -> given h (h_msg h))
  /\ (Z.of_nat (length (ep_sent me)) <= 2 ^ 64 ->
      NoDup (h_msg <$> ep_handled peer)
      /\ forall ch timeout, waitForAck (ep_wt me) ch timeout None ->
         exists m h, ep_sent me !! ch = Some m /\ h ∈ ep_handled peer /\ given h (ws_canon m)
           /\ (h_err h = None \/ h_blocking h = false)).
Proof.
  intros Hr Hl. assert (Hd : dir_inv me peer) by (destruct (link_inv l Hr); destruct Hl as [-> | ->]; done).
  pose proof (lane_handled _ _ _ _ (d_lane _ _ Hd)) as Hsub.
  split_and!; [apply (d_made _ _ Hd)|exact Hsub|apply (lane_given _ _ _ _ (d_lane _ _ Hd))|]. intros Hlen. split.
  - eapply sublist_NoDup; [|exact Hsub]. by eapply sent_NoDup; [apply Hd|].
  - intros ch timeout Hwait. apply dir_closed_handled; [done|done|]. by destruct Hwait as [[? _]|[[_ ?]|[_ ?]]].
Qed.
End link.

Lemma ep_send_step conv nilLogger w me peer payload topic me' peer' :
  ws_wf (payload_message (ep_wt me) (wrapu 64 (wt_counter (ep_wt me) + 1)) payload topic) ->
  ep_send w me peer payload topic = (me', peer') -> ep_step conv nilLogger me peer me' peer'.
Proof.
  intros Hwf. unfold ep_send. destruct (wt_Send w (ep_wt me) payload topic) as [[o wt] messages] eqn:Hs.
  intros [= <- <-]. by econstructor.
Qed.

Lemma ep_receive_step conv nilLogger me peer attempts me' peer' :
  ep_receive me peer attempts = Some (me', peer') -> ep_step conv nilLogger me peer me' peer'.
Proof.
  unfold ep_receive. destruct (ep_inbox me) as [|message inbox] eqn:Hi; [done|].
  destruct (verifyPayloadAndSendAckIfNeeded _ _ _) as [wt effects] eqn:Hv. intros [= <- <-]. by econstructor.
Qed.

(** ** Nothing is left waiting *)

Section lossless.
Context (conv : webSocketsPayloadConverter) `{!ConverterLaws conv} (nilLogger : error).
Implicit Types (me peer s r : endpoint) (m : WsMessage).

(** The steps over a connection that holds: writes of payloads succeed, and those of
    acknowledgements do after some errors. *)
Inductive good_step me peer me' peer' : Prop :=
| GoodSend payload topic :
    ws_wf (payload_message (ep_wt me) (wrapu 64 (wt_counter (ep_wt me) + 1)) payload topic) ->
    ep_send (fun _ => None) me peer payload topic = (me', peer') -> good_step me peer me' peer'
| GoodReceive (errs : list error) closed :
    ep_receive me peer (((fun e => (Some e, false)) <$> errs) ++ [(None, closed)]) = Some (me', peer') ->
    good_step me peer me' peer'
| GoodSetHandler handler :
    me' = {| ep_wt := (wt_SetPayloadHandler (ep_wt me) handler).2; ep_inbox := ep_inbox me;
             ep_sent := ep_sent me; ep_handled := ep_handled me |} ->
    peer' = peer -> good_step me peer me' peer'.

Inductive good_link : link -> Prop :=
| GoodNew args1 wt1 args2 wt2 :
    NewTransceiver nilLogger args1 = Ok wt1 -> at_PayloadConverter args1 = Some conv ->
    NewTransceiver nilLogger args2 = Ok wt2 -> at_PayloadConverter args2 = Some conv ->
    good_link (new_endpoint wt1, new_endpoint wt2)
| GoodLeft a b a' b' : good_link (a, b) -> good_step a b a' b' -> good_link (a', b')
| GoodRight a b a' b' : good_link (a, b) -> good_step b a b' a' -> good_link (a', b').

Lemma good_step_step me peer me' peer' : good_step me peer me' peer' -> ep_step conv nilLogger me peer me' peer'.
Proof.
  intros [payload topic Hwf Hs|errs closed Hr|handler -> ->].
  - by eapply ep_send_step.
  - by eapply ep_receive_step.
  - constructor.
Qed.

Lemma good_link_reachable l : good_link l -> link_reachable conv nilLogger l.
Proof.
  induction 1 as [args1 wt1 args2 wt2|a b a' b' _ IH Hst|a b a' b' _ IH Hst]; [by econstructor| |];
    apply (LinkStep _ _ _ _ IH); [apply LeftStep|apply RightStep]; by apply good_step_step.
Qed.

(** Where a message that is not acknowledged yet is: on its way, refused, or its
    acknowledgement is on its way *)
Definition underway s r m : Prop :=
  ws_canon m ∈ omap (payload_of conv) (ep_inbox r)
  \/ (exists b, b ∈ ep_inbox s /\ ack_of conv b = Some (Counter m))
  \/ (exists h, h ∈ ep_handled r /\ given h (ws_canon m) /\ ~ may_ack h).

Definition complete s r : Prop :=
  Z.of_nat (length (ep_sent s)) <= 2 ^ 64 ->
  forall ch m, ep_sent s !! ch = Some m -> WithAcknowledge m = true ->
  ch ∈ closedAcks (ep_wt s) \/ (mapAck (ep_wt s) !! Counter m = Some ch /\ underway s r m).

(** An accepted payload that is to be acknowledged is, once. *)
Lemma received_ack wt message errs closed m wt' effects :
  payloadParser wt = conv -> payload_of conv message = Some m -> in_u 64 (Counter m) -> WithAcknowledge m = true ->
  verifyPayloadAndSendAckIfNeeded wt message (((fun e => (Some e, false)) <$> errs) ++ [(None, closed)])
    = (wt', effects) ->
  (exists h, h ∈ handles wt message effects /\ given h m /\ ~ may_ack h)
  \/ (exists ack, ack ∈ transmitted effects (((fun e => (Some e, false)) <$> errs) ++ [(None, closed)])
       /\ ack_of conv ack = Some (Counter m)).
Proof.
  intros Hp Hm Hu Hw Hv. rewrite (handles_calls _ _ _ _ _ Hv). unfold verifyPayloadAndSendAckIfNeeded, handling_of in *.
  rewrite Hp, Hm in *.
  unfold payload_of in Hm. destruct (len message =? 0); [done|].
  destruct (ExtractWsMessage conv message) as [m'|err]; [|done].
  destruct (ws_Type m' =? PayloadMessage) eqn:Ht; [|done]. injection Hm as ->. bdestruct_all. rewrite Ht in Hv.
  change (PayloadMessage =? AckMessage) with false in Hv. change (negb (PayloadMessage =? PayloadMessage)) with false in Hv.
  cbv iota zeta in Hv. destruct (_ && _) eqn:Hb.
  - left. eexists. split; [apply list_elem_of_here|]. split; [by split_and!|]. unfold may_ack. simpl. bdestruct_all.
    apply bool_decide_eq_true in H. intros [?|?]; congruence.
  - right. destruct (converter_roundtrip _ (ack_wf (Counter m) Hu)) as (ack & Ha & Hne & Hax). exists ack.
    unfold sendAckIfNeeded in Hv. rewrite Hw, Hp in Hv. cbn [negb] in Hv.
    change (ack_message m) with {| WithAcknowledge := false; Counter := Counter m; ws_Type := AckMessage;
      ws_Payload := None; ws_Topic := ""; ws_Version := 0 |} in Hv. rewrite Ha, sendAck_loop_spec in Hv.
    injection Hv as _ <-. split.
    + clear. unfold transmitted. apply list_elem_of_omap. exists (ack, (None, closed)). split; [|done].
      apply list_elem_of_lookup. exists (length errs). apply lookup_zip_Some. split.
      * unfold written. simpl. change (ack :: omap _ (DoWriteMessage <$> replicate (length errs) ack))
          with (omap (fun e => match e with DoWriteMessage b => Some b | _ => None end)
                  (DoWriteMessage <$> replicate (S (length errs)) ack)).
        rewrite fmap_replicate. generalize (length errs). induction n as [|n IH]; [done|]. exact IH.
      * rewrite lookup_app_r, length_fmap, Nat.sub_diag by (rewrite length_fmap; lia). done.
    + unfold ack_of. specialize (Hne ltac:(done)). replace (len ack =? 0) with false by lia. by rewrite Hax.
Qed.

Lemma underway_mono s r s' r' m :
  (forall x, x ∈ omap (payload_of conv) (ep_inbox r) -> x ∈ omap (payload_of conv) (ep_inbox r')) ->
  (forall b, b ∈ ep_inbox s -> b ∈ ep_inbox s') -> (forall h, h ∈ ep_handled r -> h ∈ ep_handled r') ->
  underway s r m -> underway s' r' m.
Proof. unfold underway. naive_solver. Qed.

Lemma omap_app_elem (l k : list bytes) x :
  x ∈ omap (payload_of conv) l -> x ∈ omap (payload_of conv) (l ++ k).
Proof. rewrite omap_app. set_solver. Qed.

Lemma receive_parts me peer attempts me' peer' :
  ep_receive me peer attempts = Some (me', peer') ->
  exists message inbox wt effects, ep_inbox me = message :: inbox
    /\ verifyPayloadAndSendAckIfNeeded (ep_wt me) message attempts = (wt, effects)
    /\ me' = {| ep_wt := wt; ep_inbox := inbox; ep_sent := ep_sent me;
                ep_handled := ep_handled me ++ handles (ep_wt me) message effects |}
    /\ peer' = {| ep_wt := ep_wt peer; ep_inbox := ep_inbox peer ++ transmitted effects attempts;
                  ep_sent := ep_sent peer; ep_handled := ep_handled peer |}.
Proof.
  unfold ep_receive. destruct (ep_inbox me) as [|message inbox]; [done|].
  destruct (verifyPayloadAndSendAckIfNeeded _ _ _) as [wt effects] eqn:Hv. intros [= <- <-].
  exists message, inbox, wt, effects. by split_and!.
Qed.

Lemma send_complete me peer payload topic me' peer' :
  ws_wf (payload_message (ep_wt me) (wrapu 64 (wt_counter (ep_wt me) + 1)) payload topic) ->
  ep_send (fun _ => None) me peer payload topic = (me', peer') -> dir_inv conv me peer ->
  complete me peer -> complete me' peer'.
Proof.
  intros Hwf Hs Hd Hc. pose proof (d_wt _ _ _ Hd) as Hw.
  set (m1 := payload_message (ep_wt me) (wrapu 64 (wt_counter (ep_wt me) + 1)) payload topic) in *.
  destruct (converter_roundtrip m1 Hwf) as (b & Hb & Hne & Hx).
  assert (Hpay : payload_of conv b = Some (ws_canon m1)).
  { unfold payload_of. specialize (Hne ltac:(done)). replace (len b =? 0) with false by lia. by rewrite Hx. }
  unfold ep_send in Hs. fold m1 in Hs.
  assert (Hwr : exists o, wt_Send (fun _ => None) (ep_wt me) payload topic = (o, (prepareChanAndCounter (ep_wt me)).2, [b])).
  { unfold wt_Send, prepareChanAndCounter. cbn [wt_set_acks payloadParser snd]. rewrite (d_parser _ _ _ Hd).
    change (payload_message (wt_set_acks _ _ _ _ _) _ payload topic) with m1. rewrite Hb.
    destruct (negb _); eauto. }
  destruct Hwr as [o Hwr]. rewrite Hwr in Hs. injection Hs as <- <-.
  assert (Hctr : wrapu 64 (wt_counter (ep_wt me) + 1) = wrapu 64 (Z.of_nat (madeAcks (ep_wt me)) + 1))
    by by rewrite (wt_inv_counter _ Hw), wrapu_add_l.
  intros Hlen ch m. simpl in Hlen. rewrite length_app in Hlen. simpl in Hlen. intros Hm Hack. simpl in Hm.
  apply lookup_app_Some in Hm as [Hm|[Hge Hm]].
  - destruct (Hc ltac:(lia) ch m Hm Hack) as [Hcl|[Hmap Hu]]; [by left|]. right. split.
    + simpl. destruct (withAcknowledge (ep_wt me)); [|done]. rewrite lookup_insert_ne; [done|].
      rewrite (snd_counter _ _ _ _ (d_sender _ _ _ Hd) _ _ Hm), Hctr, !(Z.add_comm _ 1). intros Heq.
      apply lookup_lt_Some in Hm. rewrite (d_made _ _ _ Hd) in *. apply wrapu_add_inj in Heq; lia.
    + eapply underway_mono; [| | |exact Hu]; simpl; [|done|done]. intros x. apply omap_app_elem.
  - apply list_lookup_singleton_Some in Hm as [Hm <-]. right. split.
    + simpl. change (WithAcknowledge m1) with (withAcknowledge (ep_wt me)) in Hack. rewrite Hack.
      change (Counter m1) with (wrapu 64 (wt_counter (ep_wt me) + 1)). rewrite lookup_insert_eq.
      rewrite (d_made _ _ _ Hd) in *. f_equal. lia.
    + left. simpl. rewrite filter_cons, decide_True, omap_app by done. apply elem_of_app. right. simpl.
      rewrite Hpay. apply list_elem_of_here.
Qed.

(** The end that sent receives. *)
Lemma receive_complete_sender me peer attempts me' peer' :
  ep_receive me peer attempts = Some (me', peer') -> dir_inv conv me peer ->
  complete me peer -> complete me' peer'.
Proof.
  intros (message & inbox & wt & effects & Hin & Hv & -> & ->)%receive_parts Hd Hc.
  pose proof (d_wt _ _ _ Hd) as Hw. pose proof (d_parser _ _ _ Hd) as Hp.
  assert (Hwt : wt = match ack_of conv message with Some c => handleAckMessage (ep_wt me) c | None => ep_wt me end).
  { rewrite <- (acknowledged_ack_of _ _ _ Hp), <- (verify_state (ep_wt me) message attempts). by rewrite Hv. }
  intros Hlen ch m Hm Hack. simpl in *. destruct (Hc Hlen ch m Hm Hack) as [Hcl|[Hmap Hu]].
  - left. rewrite Hwt. case_match; [|done]. unfold handleAckMessage. case_match; [|done]. simpl. set_solver.
  - destruct (ack_of conv message) as [c|] eqn:Ha.
    + destruct (decide (c = Counter m)) as [->|Hne].
      * left. rewrite Hwt. unfold handleAckMessage. rewrite Hmap. simpl. set_solver.
      * right. split.
        { rewrite Hwt. unfold handleAckMessage. case_match; [|done]. simpl. by rewrite lookup_delete_ne. }
        destruct Hu as [Hu|[(b & Hb & Hbc)|Hu]]; [left; by apply omap_app_elem| |by right; right].
        right; left. exists b. split; [|done]. simpl. rewrite Hin in Hb.
        apply elem_of_cons in Hb as [->|Hb]; [congruence|done].
    + right. rewrite Hwt. split; [done|]. destruct Hu as [Hu|[(b & Hb & Hbc)|Hu]];
        [left; by apply omap_app_elem| |by right; right].
      right; left. exists b. split; [|done]. simpl. rewrite Hin in Hb.
      apply elem_of_cons in Hb as [->|Hb]; [congruence|done].
Qed.

(** The other end receives. *)
Lemma receive_complete_receiver me peer errs closed me' peer' :
  ep_receive me peer (((fun e => (Some e, false)) <$> errs) ++ [(None, closed)]) = Some (me', peer') ->
  dir_inv conv me peer -> dir_inv conv peer me -> complete peer me -> complete peer' me'.
Proof.
  intros (message & inbox & wt & effects & Hin & Hv & -> & ->)%receive_parts Hd Hdp Hc.
  intros Hlen ch m Hm Hack. simpl in *. destruct (Hc Hlen ch m Hm Hack) as [Hcl|[Hmap Hu]]; [by left|].
  right. split; [done|]. destruct Hu as [Hu|[(b & Hb & Hbc)|(h & Hh & Hhm & Hno)]].
  - rewrite Hin in Hu. simpl in Hu. destruct (payload_of conv message) as [m0|] eqn:Hm0; [|by left].
    apply elem_of_cons in Hu as [<-|Hu]; [|by left].
    assert (Hc64 : in_u 64 (Counter (ws_canon m))).
    { eapply inbox_counter; [exact Hdp| |exact Hm0]. rewrite Hin. apply list_elem_of_here. }
    destruct (received_ack _ _ _ _ _ _ _ (d_parser _ _ _ Hd) Hm0 Hc64 Hack Hv) as [(h & Hh & Hhm & Hno)|(ack & Ht & Ha)].
    + right; right. exists h. split; [simpl; apply elem_of_app; by right|by split].
    + right; left. exists ack. split; [simpl; apply elem_of_app; by right|]. exact Ha.
  - right; left. exists b. split; [simpl; apply elem_of_app; by left|done].
  - right; right. exists h. split; [simpl; apply elem_of_app; by left|by split].
Qed.

Lemma good_step_complete me peer me' peer' :
  good_step me peer me' peer' -> dir_inv conv me peer -> dir_inv conv peer me ->
  complete me peer /\ complete peer me -> complete me' peer' /\ complete peer' me'.
Proof.
  intros [payload topic Hwf Hs|errs closed Hr|handler -> ->] Hd Hdp [Hc Hcp].
  - split; [by eapply send_complete|]. unfold ep_send in Hs.
    destruct (wt_Send _ _ _ _) as [[o wt] messages]. injection Hs as <- <-.
    intros Hlen ch m Hm Hack. destruct (Hcp Hlen ch m Hm Hack) as [?|[? Hu]]; [by left|right]. split; [done|].
    eapply underway_mono; [| | |exact Hu]; simpl; [done| |done]. set_solver.
  - split; [by eapply receive_complete_sender|by eapply receive_complete_receiver].
  - destruct handler; done.
Qed.

Lemma good_link_complete l : good_link l -> complete l.1 l.2 /\ complete l.2 l.1.
Proof.
  induction 1 as [args1 wt1 args2 wt2|a b a' b' Hg IH Hst|a b a' b' Hg IH Hst].
  - by split; intros Hlen ch m Hm.
  - destruct (link_inv _ _ _ (good_link_reachable _ Hg)) as [Ha Hb]. by eapply (good_step_complete a b).
  - destruct (link_inv _ _ _ (good_link_reachable _ Hg)) as [Ha Hb].
    apply and_comm. apply (good_step_complete b a _ _ Hst); [done|done|]. by apply and_comm.
Qed.

(** C7: over a connection that holds, nothing stays unanswered. When the writes of
    payloads succeed and those of acknowledgements do in the end, then, in every order
    of sends and receptions on both sides, as soon as nothing is on its way any more, each
    message that a transceiver sent with acknowledgement was handled by the other, and its
    send returns without error, unless the handler of the other refused it and that
    blocks the acknowledgements. *)
Theorem every_send_answered l me peer ch m :
  good_link l -> l = (me, peer) \/ l = (peer, me) ->
  ep_inbox me = [] -> ep_inbox peer = [] -> Z.of_nat (length (ep_sent me)) <= 2 ^ 64 ->
  ep_sent me !! ch = Some m -> WithAcknowledge m = true ->
  exists h, h ∈ ep_handled peer /\ given h (ws_canon m)
  /\ (waitForAck (ep_wt me) ch false None \/ (h_err h <> None /\ h_blocking h = true)).
Proof.
  intros Hg Hl Hme Hpeer Hlen Hm Hack.
  assert (Hboth : dir_inv conv me peer /\ complete me peer).
  { destruct (link_inv _ _ _ (good_link_reachable _ Hg)), (good_link_complete _ Hg).
    by destruct Hl as [-> | ->]. }
  destruct Hboth as [Hd Hc]. destruct (Hc Hlen ch m Hm Hack) as [Hcl|[_ Hu]].
  - destruct (dir_closed_handled conv me peer ch Hd Hlen Hcl) as (m' & h & Hm' & Hh & Heq & _).
    exists h. assert (m' = m) as -> by congruence. split_and!; [done|done|]. left. by left.
  - destruct Hu as [Hu|[(b & Hb & _)|(h & Hh & Hhm & Hno)]].
    + rewrite Hpeer in Hu. by apply elem_of_nil in Hu.
    + rewrite Hme in Hb. by apply elem_of_nil in Hb.
    + exists h. split_and!; [done|done|]. right. unfold may_ack in Hno.
      destruct (h_err h), (h_blocking h); naive_solver.
Qed.
End lossless.

(** ** A run *)

Definition demo_nil : error := EExternal "nil logger".

(** The left end sends a payload, the right end handles it and its first write of the
    acknowledgement fails, the left end receives the acknowledgement. *)
Definition demo_exchange : option (endpoint * endpoint) :=
  let '(a, b) := ep_send (fun _ => None) (new_endpoint demo_wt) (new_endpoint demo_wt) (Some [Byte.x07]) "topic" in
  '(b, a) ← ep_receive b a [(Some (ErrConnectionNotOpen : error), false); (None, false)];
  ep_receive a b [(None, false)].

Lemma demo_good_link : exists me peer,
  good_link proto_converter demo_nil (me, peer)
  /\ closedAcks (ep_wt me) = {[ 0%nat ]} /\ length (ep_sent me) = 1%nat /\ ep_inbox me = [] /\ ep_inbox peer = []
  /\ WithAcknowledge <$> ep_sent me !! 0%nat = Some true.
Proof.
  assert (Hsum : (fun l => (closedAcks (ep_wt l.1), length (ep_sent l.1), ep_inbox l.1, ep_inbox l.2,
      WithAcknowledge <$> ep_sent l.1 !! 0%nat)) <$> demo_exchange
    = Some ({[ 0%nat ]}, 1%nat, [], [], Some true)) by (vm_compute; reflexivity).
  unfold demo_exchange in Hsum.
  destruct (ep_send _ _ _ _ _) as [a b] eqn:H1.
  destruct (ep_receive b a _) as [[b1 a1]|] eqn:H2; [|done]. cbn [mbind option_bind] in Hsum.
  destruct (ep_receive a1 b1 _) as [[a2 b2]|] eqn:H3; [|done]. cbn [fmap option_fmap option_map fst snd] in Hsum.
  apply (inj Some) in Hsum. injection Hsum as Hc Hl Hia Hib Hack. exists a2, b2. split; [|by split_and!].
  apply (GoodLeft _ _ a1 b1); [|exact (GoodReceive _ _ _ _ [] false H3)].
  apply (GoodRight _ _ a b); [|exact (GoodReceive _ _ _ _ [ErrConnectionNotOpen : error] false H2)].
  apply (GoodLeft _ _ (new_endpoint demo_wt) (new_endpoint demo_wt)).
  - by apply (GoodNew _ _ demo_args demo_wt demo_args demo_wt).
  - refine (GoodSend _ _ _ _ _ _ _ H1). split; split; done.
Qed.

Lemma acknowledged_was_handled_witness :
  exists me peer m h, link_reachable proto_converter demo_nil (me, peer)
    /\ ep_sent me !! 0%nat = Some m /\ h ∈ ep_handled peer /\ given h (ws_canon m)
    /\ (h_err h = None \/ h_blocking h = false).
Proof.
  destruct demo_good_link as (me & peer & Hg & Hc & Hl & _).
  pose proof (good_link_reachable _ _ _ Hg) as Hr.
  destruct (acknowledged_was_handled proto_converter demo_nil (me, peer) me peer Hr (or_introl eq_refl))
    as (_ & _ & _ & H).
  destruct H as [_ H]; [rewrite Hl; vm_compute; discriminate|].
  destruct (H 0%nat false) as (m & h & H1 & H2 & H3 & H4).
  - left. split; [rewrite Hc; apply elem_of_singleton_2|]; reflexivity.
  - exists me, peer, m, h. split_and!; assumption.
Defined.

Lemma every_send_answered_witness :
  exists me peer m h, good_link proto_converter demo_nil (me, peer)
    /\ ep_sent me !! 0%nat = Some m /\ h ∈ ep_handled peer /\ given h (ws_canon m)
    /\ (waitForAck (ep_wt me) 0 false None \/ (h_err h <> None /\ h_blocking h = true)).
Proof.
  destruct demo_good_link as (me & peer & Hg & _ & Hl & Hia & Hib & Hack).
  destruct (ep_sent me !! 0%nat) as [m|] eqn:Hm; [|discriminate Hack].
  apply (inj Some) in Hack.
  destruct (every_send_answered proto_converter demo_nil (me, peer) me peer 0 m Hg (or_introl eq_refl) Hia Hib)
    as (h & H1 & H2 & H3).
  - rewrite Hl. vm_compute. discriminate.
  - exact Hm.
  - exact Hack.
  - exists me, peer, m, h. split_and!; assumption.
Defined.
