(* ===== verification/WebSocketHost.v ===== *)
(** * The websocket hosts

    websocket/connection/wsConnClient.go (the wrapper of a connection),
    websocket/server (the server and its holder of clients),
    websocket/client/client.go and websocket/factory/factoryHost.go, over the
    transceivers of Transceiver.v. *)

From S2P Require Import Prelude Errors Config Messages Protobuf WireMessages Transceiver.
From stdpp Require Import list gmap.
Open Scope Z_scope.

(** ** websocket/data/operations.go *)

Definition WSRoute : string := "/save".
Definition ModeServer : string := "server".
Definition ModeClient : string := "client".

Record WebSocketConfig := {
  wsc_URL : string;
  Mode : string;
  RetryDurationInSec : Z;       (* int *)
  wsc_WithAcknowledge : bool;
  AcknowledgeTimeoutInSec : Z;  (* int *)
  BlockingAckOnError : bool;
  DropMessagesIfNoConnection : bool;
  wsc_Version : Z;              (* uint32 *)
}.

(** ** connection/wsConnClient.go *)

(** The wrapper; the connections of gorilla/websocket are named by numbers. *)
Record wsConnClient := {
  wc_conn : option nat;
  clientID : string;
}.

(** What gorilla/websocket answers: the dialing of an address, and the reading,
    writing and closing of a connection *)
Record gorilla := {
  Dial : string -> result nat;
  conn_ReadMessage : nat -> result (Z * bytes);
  conn_WriteMessage : nat -> Z -> bytes -> option error;
  conn_Close : nat -> option error;
}.

Definition NewWSConnClient : wsConnClient := {| wc_conn := None; clientID := "" |}.

(** [pointer] is the text of the wrapper's address, [%p]. *)
Definition NewWSConnClientWithConn (conn : nat) (pointer : string) : wsConnClient :=
  {| wc_conn := Some conn; clientID := pointer |}.

Definition wc_set_conn (wsc : wsConnClient) (c : option nat) : wsConnClient :=
  {| wc_conn := c; clientID := clientID wsc |}.

Definition OpenConnection (net : gorilla) (wsc : wsConnClient) (url : string)
    : option error * wsConnClient :=
  match wc_conn wsc with
  | Some _ => (Some (ErrConnectionAlreadyOpen : error), wsc)
  | None =>
      match Dial net url with
      | Err err => (Some err, wc_set_conn wsc None)
      | Ok conn => (None, wc_set_conn wsc (Some conn))
      end
  end.

Definition getConn (wsc : wsConnClient) : result nat :=
  match wc_conn wsc with
  | None => Err ErrConnectionNotOpen
  | Some conn => Ok conn
  end.

Definition ReadMessage (net : gorilla) (wsc : wsConnClient) : result (Z * bytes) :=
  conn ← getConn wsc; conn_ReadMessage net conn.

Definition WriteMessage (net : gorilla) (wsc : wsConnClient) (messageType : Z) (payload : bytes)
    : option error :=
  match wc_conn wsc with
  | None => Some (ErrConnectionNotOpen : error)
  | Some conn => conn_WriteMessage net conn messageType payload
  end.

Definition IsOpen (wsc : wsConnClient) : bool := bool_decide (wc_conn wsc <> None).

Definition GetID (wsc : wsConnClient) : string := clientID wsc.

Section hosts.
(** [websocket.BinaryMessage], [websocket.CloseMessage] and the frame
    [websocket.FormatCloseMessage(websocket.CloseNormalClosure, "")] *)
Context (BinaryMessage CloseMessage : Z) (closeFrame : bytes).

(** [Close]: what it returns, the wrapper, and what it writes; an error of the
    writing is only logged. [conn.CloseHandler()] returns a function, which is
    not called. *)
Definition wc_Close (net : gorilla) (wsc : wsConnClient) : option error * wsConnClient * list (Z * bytes) :=
  match wc_conn wsc with
  | None => (Some (ErrConnectionNotOpen : error), wsc, [])
  | Some conn =>
      match conn_Close net conn with
      | Some err => (Some err, wsc, [(CloseMessage, closeFrame)])
      | None => (None, wc_set_conn wsc None, [(CloseMessage, closeFrame)])
      end
  end.

(** ** server/server.go and server/transceiversAndConnHolder.go *)

Record ArgsWebSocketServer := {
  as_RetryDurationInSeconds : Z;
  as_AckTimeoutInSeconds : Z;
  as_BlockingAckOnError : bool;
  as_WithAcknowledge : bool;
  as_DropMessagesIfNoConnection : bool;
  as_URL : string;
  as_PayloadConverter : option webSocketsPayloadConverter;
  as_Log : bool;
  as_PayloadVersion : Z;
}.

(** The goroutine of a connection: it adds the transceiver to the holder,
    listens, and removes it. *)
Inductive phase := Adding | Listening | Removed.

#[export] Instance phase_eq_decision : EqDecision phase.
Proof. solve_decision. Defined.

(** The transceiver and the connection of a tuple are objects; they are made
    together, so a tuple is named by the order of its connection. *)
Record tupleTransceiverAndConn := {
  t_transceiver : wsTransceiver;
  t_conn : wsConnClient;
  t_phase : phase;
}.

Record server := {
  s_blockingAckOnError : bool;
  s_withAcknowledge : bool;
  s_dropMessagesIfNoConnection : bool;
  s_ackTimeoutInSec : Z;
  s_payloadConverter : webSocketsPayloadConverter;
  s_retryDuration : Z;
  s_payloadHandler : option PayloadHandler;
  s_payloadVersion : Z;
  tuples : list tupleTransceiverAndConn;
  transceiverAndConn : gmap string nat;
}.

Definition s_set (s : server) (ts : list tupleTransceiverAndConn) (m : gmap string nat) : server := {|
  s_blockingAckOnError := s_blockingAckOnError s; s_withAcknowledge := s_withAcknowledge s;
  s_dropMessagesIfNoConnection := s_dropMessagesIfNoConnection s; s_ackTimeoutInSec := s_ackTimeoutInSec s;
  s_payloadConverter := s_payloadConverter s; s_retryDuration := s_retryDuration s;
  s_payloadHandler := s_payloadHandler s; s_payloadVersion := s_payloadVersion s;
  tuples := ts; transceiverAndConn := m |}.

(** [core.ErrNilLogger] *)
Context (core_ErrNilLogger : error).

Definition NewWebSocketServer (args : ArgsWebSocketServer) : result server :=
  guard_err (negb (as_Log args)) core_ErrNilLogger $
  match as_PayloadConverter args with
  | None => Err ErrNilPayloadConverter
  | Some converter =>
      guard_err (bool_decide (as_URL args = "")) ErrEmptyUrl $
      guard_err (as_RetryDurationInSeconds args =? 0) ErrZeroValueRetryDuration $
      Ok {| s_blockingAckOnError := as_BlockingAckOnError args; s_withAcknowledge := as_WithAcknowledge args;
            s_dropMessagesIfNoConnection := as_DropMessagesIfNoConnection args;
            s_ackTimeoutInSec := as_AckTimeoutInSeconds args; s_payloadConverter := converter;
            s_retryDuration := wraps 64 (as_RetryDurationInSeconds args * time_Second);
            s_payloadHandler := Some NewNilPayloadHandler; s_payloadVersion := as_PayloadVersion args;
            tuples := []; transceiverAndConn := ∅ |}
  end.

(** The holder: [addTransceiverAndConn], [remove], [getAll] *)
Definition addTransceiverAndConn (m : gmap string nat) (id : string) (tuple : nat) : gmap string nat :=
  <[id := tuple]> m.
Definition th_remove (m : gmap string nat) (id : string) : gmap string nat := delete id m.
Definition getAll (m : gmap string nat) : gmap string nat := m.

(** [int(d.Seconds())] for a duration of whole seconds *)
Definition Seconds (d : Z) : Z := Z.quot d time_Second.

Definition connectionHandler (s : server) (connection : wsConnClient) : server :=
  match NewTransceiver core_ErrNilLogger {|
          at_PayloadConverter := Some (s_payloadConverter s); at_Log := true;
          at_RetryDurationInSec := Seconds (s_retryDuration s); at_AckTimeoutInSec := s_ackTimeoutInSec s;
          at_BlockingAckOnError := s_blockingAckOnError s; at_WithAcknowledge := s_withAcknowledge s;
          at_PayloadVersion := s_payloadVersion s |} with
  | Err _ => s
  | Ok wt =>
      let wt := (wt_SetPayloadHandler wt (s_payloadHandler s)).2 in
      s_set s (tuples s ++ [{| t_transceiver := wt; t_conn := connection; t_phase := Adding |}])
        (transceiverAndConn s)
  end.

(** The steps of the goroutine of a connection *)
Definition t_set (t : tupleTransceiverAndConn) (wt : wsTransceiver) (p : phase) : tupleTransceiverAndConn :=
  {| t_transceiver := wt; t_conn := t_conn t; t_phase := p |}.

Definition goroutine_adds (s : server) (k : nat) (t : tupleTransceiverAndConn) : server :=
  s_set s (<[k := t_set t (t_transceiver t) Listening]> (tuples s))
    (addTransceiverAndConn (transceiverAndConn s) (GetID (t_conn t)) k).

Definition goroutine_receives (s : server) (k : nat) (t : tupleTransceiverAndConn) (message : bytes)
    (attempts : list (option error * bool)) : server * list wt_effect :=
  let '(wt, effects) := verifyPayloadAndSendAckIfNeeded (t_transceiver t) message attempts in
  (s_set s (<[k := t_set t wt Listening]> (tuples s)) (transceiverAndConn s), effects).

(** The end of [Listen] and the removal from the holder that follows it, in one step: the
    moment between them, in which the holder still has a connection that nobody listens
    to, is not a state of the model. *)
Definition goroutine_ends (s : server) (k : nat) (t : tupleTransceiverAndConn) : server :=
  s_set s (<[k := t_set t (t_transceiver t) Removed]> (tuples s))
    (th_remove (transceiverAndConn s) (GetID (t_conn t))).

(** [initializeServer]'s handler, for an upgraded connection and the address of
    its wrapper *)
Definition addClientFunc (s : server) (ws : result nat) (pointer : string) : server :=
  match ws with
  | Err _ => s
  | Ok ws => connectionHandler s (NewWSConnClientWithConn ws pointer)
  end.

(** [Send] to the clients in the order Go ranges over the copied map: what each
    [Send] of a transceiver does until it returns or waits; what it returns in
    the end is only logged. *)
Fixpoint server_Send_loop (net : gorilla) (s : server) (order : list nat) (payload : slice) (topic : string)
    : server * list (nat * send_outcome * list bytes) :=
  match order with
  | [] => (s, [])
  | k :: order =>
      match tuples s !! k with
      | None => server_Send_loop net s order payload topic
      | Some t =>
          let '(outcome, wt, written) :=
            wt_Send (WriteMessage net (t_conn t) BinaryMessage) (t_transceiver t) payload topic in
          let s := s_set s (<[k := t_set t wt (t_phase t)]> (tuples s)) (transceiverAndConn s) in
          let '(s, rest) := server_Send_loop net s order payload topic in
          (s, (k, outcome, written) :: rest)
      end
  end.

Definition server_Send (net : gorilla) (s : server) (order : list nat) (payload : slice) (topic : string)
    : option error * server * list (nat * send_outcome * list bytes) :=
  let noClients := bool_decide (getAll (transceiverAndConn s) = ∅) in
  if noClients && negb (s_dropMessagesIfNoConnection s)
  then (Some (ErrNoClientsConnected : error), s, [])
  else let '(s, sent) := server_Send_loop net s order payload topic in (None, s, sent).

Definition server_SetPayloadHandler (s : server) (handler : option PayloadHandler) : option error * server :=
  (None, {|
    s_blockingAckOnError := s_blockingAckOnError s; s_withAcknowledge := s_withAcknowledge s;
    s_dropMessagesIfNoConnection := s_dropMessagesIfNoConnection s; s_ackTimeoutInSec := s_ackTimeoutInSec s;
    s_payloadConverter := s_payloadConverter s; s_retryDuration := s_retryDuration s;
    s_payloadHandler := handler; s_payloadVersion := s_payloadVersion s;
    tuples := tuples s; transceiverAndConn := transceiverAndConn s |}).

(** [Close] after the shutdown of the http server: each transceiver and each
    connection is closed; the last error is returned. *)
Fixpoint server_Close_loop (net : gorilla) (s : server) (order : list nat) (lastError : option error)
    : option error * server :=
  match order with
  | [] => (lastError, s)
  | k :: order =>
      match tuples s !! k with
      | None => server_Close_loop net s order lastError
      | Some t =>
          let '(err, wt) := wt_Close (t_transceiver t) in
          let lastError := match err with Some _ => err | None => lastError end in
          let '(err, conn, _) := wc_Close net (t_conn t) in
          let lastError := match err with Some _ => err | None => lastError end in
          let t := {| t_transceiver := wt; t_conn := conn; t_phase := t_phase t |} in
          server_Close_loop net (s_set s (<[k := t]> (tuples s)) (transceiverAndConn s)) order lastError
      end
  end.

Definition server_Close (net : gorilla) (s : server) (order : list nat) (errShutdown : option error)
    : option error * server :=
  server_Close_loop net s order errShutdown.

(** ** client/client.go *)

Record ArgsWebSocketClient := {
  ac_RetryDurationInSeconds : Z;
  ac_AckTimeoutInSeconds : Z;
  ac_WithAcknowledge : bool;
  ac_BlockingAckOnError : bool;
  ac_DropMessagesIfNoConnection : bool;
  ac_URL : string;
  ac_PayloadConverter : option webSocketsPayloadConverter;
  ac_Log : bool;
  ac_PayloadVersion : Z;
}.

Record client := {
  c_url : string;
  c_retryDuration : Z;
  c_closed : bool;
  c_wsConn : wsConnClient;
  c_transceiver : wsTransceiver;
  c_dropMessagesIfNoConnection : bool;
}.

Definition c_set (c : client) (conn : wsConnClient) (wt : wsTransceiver) (closed : bool) : client := {|
  c_url := c_url c; c_retryDuration := c_retryDuration c; c_closed := closed; c_wsConn := conn;
  c_transceiver := wt; c_dropMessagesIfNoConnection := c_dropMessagesIfNoConnection c |}.

(** [net/url]: [url.Parse] gives the scheme, and the text of the address with
    another path. *)
Context (url_Parse : string -> result (string * (string -> string))).

Definition NewWebSocketClient (args : ArgsWebSocketClient) : result client :=
  guard_err (negb (ac_Log args)) core_ErrNilLogger $
  match ac_PayloadConverter args with
  | None => Err ErrNilPayloadConverter
  | Some converter =>
      guard_err (bool_decide (ac_URL args = "")) ErrEmptyUrl $
      guard_err (ac_RetryDurationInSeconds args =? 0) ErrZeroValueRetryDuration $
      wsTransceiver ← NewTransceiver core_ErrNilLogger {|
        at_PayloadConverter := Some converter; at_Log := ac_Log args;
        at_RetryDurationInSec := ac_RetryDurationInSeconds args;
        at_AckTimeoutInSec := ac_AckTimeoutInSeconds args;
        at_BlockingAckOnError := ac_BlockingAckOnError args;
        at_WithAcknowledge := ac_WithAcknowledge args; at_PayloadVersion := ac_PayloadVersion args |};
      match url_Parse (ac_URL args) with
      | Err _ => Err (EExternal "invalid WebSocket URL")
      | Ok (Scheme, withPath) =>
          guard_err (bool_decide (Scheme <> "ws") && bool_decide (Scheme <> "wss"))
            (EExternal "invalid WebSocket URL") $
          Ok {| c_url := withPath WSRoute; c_retryDuration := wraps 64 (ac_RetryDurationInSeconds args * time_Second);
                c_closed := false; c_wsConn := NewWSConnClient; c_transceiver := wsTransceiver;
                c_dropMessagesIfNoConnection := ac_DropMessagesIfNoConnection args |}
      end
  end.

(** A turn of the first loop of [start]: the connection is opened; the error is
    only logged. *)
Definition client_open (net : gorilla) (c : client) : client :=
  c_set c (OpenConnection net (c_wsConn c) (c_url c)).2 (c_transceiver c) (c_closed c).

(** A turn of the second loop: the transceiver listens until a read fails; the
    connection is closed then, unless the transceiver was closed. [None] is a
    turn whose read blocks. *)
Definition client_listen (net : gorilla) (c : client) (reads : list read) : client * list wt_effect :=
  let '(closed, wt, effects) := Listen (c_transceiver c) reads in
  match closed with
  | Some true => (c_set c (wc_Close net (c_wsConn c)).1.2 wt (c_closed c), effects)
  | _ => (c_set c (c_wsConn c) wt (c_closed c), effects)
  end.

Definition client_Send (net : gorilla) (c : client) (payload : slice) (topic : string)
    : send_outcome * client * list bytes :=
  let dropMessage := c_dropMessagesIfNoConnection c && negb (IsOpen (c_wsConn c)) in
  if dropMessage then (Returned None, c, [])
  else
    let '(outcome, wt, written) :=
      wt_Send (WriteMessage net (c_wsConn c) BinaryMessage) (c_transceiver c) payload topic in
    (outcome, c_set c (c_wsConn c) wt (c_closed c), written).

Definition client_SetPayloadHandler (c : client) (handler : option PayloadHandler) : option error * client :=
  let '(err, wt) := wt_SetPayloadHandler (c_transceiver c) handler in
  (err, c_set c (c_wsConn c) wt (c_closed c)).

Definition client_Close (net : gorilla) (c : client) : option error * client :=
  let '(err, wt) := wt_Close (c_transceiver c) in
  let lastErr := err in
  let '(err, conn, _) := wc_Close net (c_wsConn c) in
  let lastErr := match err with Some _ => err | None => lastErr end in
  (lastErr, c_set c conn wt true).

(** ** factory/factoryHost.go *)

Inductive FullDuplexHost := HostServer (s : server) | HostClient (c : client).

(** The marshaller, or nil *)
Definition Marshalizer : Type := option ((WsMessage -> result bytes) * (bytes -> result WsMessage)).

Record ArgsWebSocketHost := {
  ah_WebSocketConfig : WebSocketConfig;
  ah_Marshaller : Marshalizer;
  ah_Log : bool;
}.

Definition createWebSocketClient (args : ArgsWebSocketHost) : result FullDuplexHost :=
  payloadConverter ← NewWebSocketPayloadConverter (ah_Marshaller args);
  let cfg := ah_WebSocketConfig args in
  c ← NewWebSocketClient {|
    ac_RetryDurationInSeconds := RetryDurationInSec cfg; ac_WithAcknowledge := wsc_WithAcknowledge cfg;
    ac_URL := wsc_URL cfg; ac_PayloadConverter := Some payloadConverter; ac_Log := ah_Log args;
    ac_BlockingAckOnError := BlockingAckOnError cfg;
    ac_DropMessagesIfNoConnection := DropMessagesIfNoConnection cfg;
    ac_AckTimeoutInSeconds := AcknowledgeTimeoutInSec cfg; ac_PayloadVersion := wsc_Version cfg |};
  Ok (HostClient c).

Definition createWebSocketServer (args : ArgsWebSocketHost) : result FullDuplexHost :=
  payloadConverter ← NewWebSocketPayloadConverter (ah_Marshaller args);
  let cfg := ah_WebSocketConfig args in
  s ← NewWebSocketServer {|
    as_RetryDurationInSeconds := RetryDurationInSec cfg; as_WithAcknowledge := wsc_WithAcknowledge cfg;
    as_URL := wsc_URL cfg; as_PayloadConverter := Some payloadConverter; as_Log := ah_Log args;
    as_BlockingAckOnError := BlockingAckOnError cfg;
    as_DropMessagesIfNoConnection := DropMessagesIfNoConnection cfg;
    as_AckTimeoutInSeconds := AcknowledgeTimeoutInSec cfg; as_PayloadVersion := wsc_Version cfg |};
  Ok (HostServer s).

Definition CreateWebSocketHost (args : ArgsWebSocketHost) : result FullDuplexHost :=
  let mode := Mode (ah_WebSocketConfig args) in
  if bool_decide (mode = ModeServer) then createWebSocketServer args
  else if bool_decide (mode = ModeClient) then createWebSocketClient args
  else Err ErrInvalidWebSocketHostMode.

End hosts.

(** ** The server over time *)

Section server_runs.
Context (BinaryMessage CloseMessage : Z) (closeFrame : bytes) (core_ErrNilLogger : error).

(** What may happen to a server. The address of the wrapper of a new connection
    is not that of a wrapper that is still in use; a goroutine takes its steps
    in order. *)
Inductive server_step (s : server) : server -> Prop :=
| StConnect ws pointer :
    (forall k t, tuples s !! k = Some t -> t_phase t <> Removed -> GetID (t_conn t) <> pointer) ->
    server_step s (addClientFunc core_ErrNilLogger s ws pointer)
| StAdd k t :
    tuples s !! k = Some t -> t_phase t = Adding -> server_step s (goroutine_adds s k t)
| StReceive k t message attempts :
    tuples s !! k = Some t -> t_phase t = Listening ->
    server_step s (goroutine_receives s k t message attempts).1
| StEnd k t :
    tuples s !! k = Some t -> t_phase t = Listening -> server_step s (goroutine_ends s k t)
| StSend net order payload topic :
    server_step s (server_Send BinaryMessage net s order payload topic).1.2
| StSetPayloadHandler handler : server_step s (server_SetPayloadHandler s handler).2
| StClose net order errShutdown :
    server_step s (server_Close CloseMessage closeFrame net s order errShutdown).2.

(** What the holder depends on: the phase and the identifier of each tuple *)
Definition view (s : server) (k : nat) : option (phase * string) :=
  (fun t => (t_phase t, GetID (t_conn t))) <$> tuples s !! k.

Record server_inv (s : server) : Prop := {
  inv_holder id k : transceiverAndConn s !! id = Some k <-> view s k = Some (Listening, id);
  inv_ids k1 k2 p1 p2 id :
    view s k1 = Some (p1, id) -> view s k2 = Some (p2, id) -> p1 <> Removed -> p2 <> Removed -> k1 = k2;
}.

Lemma inv_same_view s s' :
  transceiverAndConn s' = transceiverAndConn s -> (forall k, view s' k = view s k) ->
  server_inv s -> server_inv s'.
Proof.
  intros Hm Hv [Hh Hi]. split.
  - intros id k. rewrite Hm, Hv. apply Hh.
  - intros k1 k2 p1 p2 id. rewrite !Hv. apply Hi.
Qed.

Lemma view_insert s k t t' m j :
  tuples s !! k = Some t ->
  view (s_set s (<[k := t']> (tuples s)) m) j
  = if decide (j = k) then Some (t_phase t', GetID (t_conn t')) else view s j.
Proof.
  intros Hk. unfold view. simpl. case_decide as Hj.
  - subst j. rewrite list_lookup_insert_eq by by eapply lookup_lt_Some. done.
  - by rewrite list_lookup_insert_ne.
Qed.

Lemma view_same_insert s k t t' m j :
  tuples s !! k = Some t -> t_phase t' = t_phase t -> GetID (t_conn t') = GetID (t_conn t) ->
  view (s_set s (<[k := t']> (tuples s)) m) j = view s j.
Proof.
  intros Hk Hp Hi. rewrite (view_insert _ _ t) by done. case_decide as Hj; [|done].
  subst j. unfold view. by rewrite Hk, Hp, Hi.
Qed.

Lemma wc_Close_ID net conn : GetID (wc_Close CloseMessage closeFrame net conn).1.2 = GetID conn.
Proof. unfold wc_Close. destruct (wc_conn conn) as [c|]; [|done]. by destruct (conn_Close net c). Qed.

(** What a send leaves as it is *)
Lemma server_Send_loop_frame net s order payload topic :
  let s' := (server_Send_loop BinaryMessage net s order payload topic).1 in
  transceiverAndConn s' = transceiverAndConn s /\ forall k, view s' k = view s k.
Proof.
  revert s. induction order as [|k order IH]; intros s; simpl; [done|].
  destruct (tuples s !! k) as [t|] eqn:Hk; [|apply IH].
  destruct (wt_Send _ _ _ _) as [[outcome wt] written].
  set (s1 := s_set _ _ _). specialize (IH s1).
  destruct (server_Send_loop _ _ s1 _ _ _) as [s2 rest]. simpl in *. destruct IH as [-> Hv].
  split; [done|]. intros j. rewrite Hv. by apply (view_same_insert _ _ t).
Qed.

Lemma server_Close_loop_frame net s order err :
  let s' := (server_Close_loop CloseMessage closeFrame net s order err).2 in
  transceiverAndConn s' = transceiverAndConn s /\ forall k, view s' k = view s k.
Proof.
  revert s err. induction order as [|k order IH]; intros s err; simpl; [done|].
  destruct (tuples s !! k) as [t|] eqn:Hk; [|apply IH].
  pose proof (wc_Close_ID net (t_conn t)) as Hid. unfold wt_Close.
  destruct (wc_Close _ _ _ _) as [[err' conn] written]. simpl in Hid.
  set (s1 := s_set _ _ _). destruct (IH s1
    (match err' with Some _ => err' | None => match ph_Close (payloadHandler (t_transceiver t)) with
       Some _ => ph_Close (payloadHandler (t_transceiver t)) | None => err end end)) as [-> Hv].
  split; [done|]. intros j. rewrite Hv. by apply (view_same_insert _ _ t).
Qed.

Lemma connectionHandler_tuples s conn :
  connectionHandler core_ErrNilLogger s conn = s
  \/ exists wt, connectionHandler core_ErrNilLogger s conn
       = s_set s (tuples s ++ [{| t_transceiver := wt; t_conn := conn; t_phase := Adding |}])
           (transceiverAndConn s).
Proof.
  unfold connectionHandler. destruct (NewTransceiver _ _) as [wt|]; [right|by left]. by eexists.
Qed.

Lemma view_snoc s t m j :
  view (s_set s (tuples s ++ [t]) m) j
  = if decide (j = length (tuples s)) then Some (t_phase t, GetID (t_conn t)) else view s j.
Proof.
  unfold view. simpl. case_decide as Hj; [subst j; by rewrite list_lookup_middle|].
  destruct (decide (j < length (tuples s))%nat); [by rewrite lookup_app_l|].
  rewrite !lookup_ge_None_2; [done|lia|]. rewrite length_app. simpl. lia.
Qed.

Lemma addClientFunc_inv s ws pointer :
  (forall k t, tuples s !! k = Some t -> t_phase t <> Removed -> GetID (t_conn t) <> pointer) ->
  server_inv s -> server_inv (addClientFunc core_ErrNilLogger s ws pointer).
Proof.
  intros Hfresh [Hh Hi]. unfold addClientFunc. destruct ws as [ws|]; [|done].
  destruct (connectionHandler_tuples s (NewWSConnClientWithConn ws pointer)) as [->|[wt ->]]; [done|].
  set (t := {| t_transceiver := wt |}).
  assert (Hnone : view s (length (tuples s)) = None) by (unfold view; by rewrite lookup_ge_None_2).
  assert (Hold : forall j p, view s j = Some (p, pointer) -> p = Removed).
  { intros j p Hj. unfold view in Hj. destruct (tuples s !! j) as [t'|] eqn:Ht; [|done].
    injection Hj as <- Hid. destruct (decide (t_phase t' = Removed)) as [|Hne]; [done|].
    by destruct (Hfresh j t' Ht Hne). }
  split.
  - intros id j. rewrite view_snoc. simpl. case_decide; [subst j|apply Hh].
    split; [intros H%Hh; congruence|done].
  - intros k1 k2 p1 p2 id. rewrite !view_snoc. simpl.
    repeat case_decide; subst; [done|..|apply Hi]; intros H1 H2 Hp1 Hp2; simplify_eq; exfalso; naive_solver.
Qed.

(** A tuple that is still in use goes on to another phase. *)
Lemma advance_ids s k t t' m :
  tuples s !! k = Some t -> t_phase t <> Removed -> GetID (t_conn t') = GetID (t_conn t) -> server_inv s ->
  forall k1 k2 p1 p2 id,
    view (s_set s (<[k := t']> (tuples s)) m) k1 = Some (p1, id) ->
    view (s_set s (<[k := t']> (tuples s)) m) k2 = Some (p2, id) -> p1 <> Removed -> p2 <> Removed -> k1 = k2.
Proof.
  intros Hk Hp Hid [_ Hi] k1 k2 p1 p2 id. rewrite !(view_insert _ _ t), Hid by done.
  assert (Hvk : view s k = Some (t_phase t, GetID (t_conn t))) by (unfold view; by rewrite Hk).
  intros H1 H2 Hp1 Hp2. repeat case_decide; simplify_eq; [done|..|by eapply Hi]; by eapply Hi.
Qed.

Lemma goroutine_adds_inv s k t :
  tuples s !! k = Some t -> t_phase t = Adding -> server_inv s -> server_inv (goroutine_adds s k t).
Proof.
  intros Hk Hp Hinv. assert (Hvk : view s k = Some (Adding, GetID (t_conn t)))
    by (unfold view; by rewrite Hk, <- Hp).
  split; [|apply (advance_ids s k t); [done|by rewrite Hp|done|done]].
  destruct Hinv as [Hh Hi]. intros id j. unfold goroutine_adds. rewrite (view_insert _ _ t) by done.
  simpl. unfold addTransceiverAndConn. rewrite lookup_insert_Some. case_decide as Hj; [subst j|].
  - split; [intros [[<- _]|[_ H%Hh]]; [done|congruence]|]. intros [= <-]. by left.
  - rewrite Hh. split; [intros [[_ ?]|[_ ?]]; [congruence|done]|]. intros H. right. split; [|done].
    intros <-. apply Hj. by eapply Hi.
Qed.

Lemma goroutine_ends_inv s k t :
  tuples s !! k = Some t -> t_phase t = Listening -> server_inv s -> server_inv (goroutine_ends s k t).
Proof.
  intros Hk Hp Hinv. assert (Hvk : view s k = Some (Listening, GetID (t_conn t)))
    by (unfold view; by rewrite Hk, <- Hp).
  split; [|apply (advance_ids s k t); [done|by rewrite Hp|done|done]].
  destruct Hinv as [Hh Hi]. intros id j. unfold goroutine_ends. rewrite (view_insert _ _ t) by done.
  simpl. unfold th_remove. rewrite lookup_delete_Some, Hh. case_decide as Hj; [subst j|].
  - split; [intros [? H]; congruence|done].
  - split; [by intros [_ ?]|]. intros H. split; [|done]. intros <-. apply Hj. by eapply Hi.
Qed.

Lemma server_step_inv s s' : server_step s s' -> server_inv s -> server_inv s'.
Proof.
  intros Hstep Hinv. destruct Hstep as [ws ptr Hfresh|k t Hk Hp|k t m a Hk Hp|k t Hk Hp
    |net order payload topic|h|net order err].
  - by apply addClientFunc_inv.
  - by apply goroutine_adds_inv.
  - unfold goroutine_receives. destruct (verifyPayloadAndSendAckIfNeeded _ _ _) as [wt eff]. simpl.
    apply (inv_same_view s); [done| |done]. intros j. by apply (view_same_insert _ _ t).
  - by apply goroutine_ends_inv.
  - unfold server_Send. destruct (_ && _); [done|].
    pose proof (server_Send_loop_frame net s order payload topic) as Hf.
    destruct (server_Send_loop _ _ _ _ _ _) as [s' sent]. destruct Hf as [Hm Hv]. by apply (inv_same_view s).
  - by apply (inv_same_view s).
  - destruct (server_Close_loop_frame net s order err) as [Hm Hv]. by apply (inv_same_view s).
Qed.

Lemma NewWebSocketServer_inv args s : NewWebSocketServer core_ErrNilLogger args = Ok s -> server_inv s.
Proof.
  unfold NewWebSocketServer. rewrite guard_err_Ok. intros [_ H].
  destruct (as_PayloadConverter args); [|done]. rewrite !guard_err_Ok in H.
  destruct H as (_ & _ & H). apply (inj Ok) in H as <-. split; unfold view; simpl; intros *.
  - by rewrite lookup_empty.
  - done.
Qed.

Lemma server_run_inv s s' : server_inv s -> rtc server_step s s' -> server_inv s'.
Proof. intros Hi Hr. induction Hr as [|s1 s2 s3 H1 _ IH]; [done|]. apply IH. by eapply server_step_inv. Qed.

(** C27: the holder of the server's clients is exactly the set of the connections
    whose goroutine listens, each under its own identifier: in every reachable
    state no connection is missing, none stays after its goroutine ended, and no
    two share an entry. *)
Theorem holder_is_listening args s0 s id k :
  NewWebSocketServer core_ErrNilLogger args = Ok s0 -> rtc server_step s0 s ->
  transceiverAndConn s !! id = Some k
  <-> exists t, tuples s !! k = Some t /\ t_phase t = Listening /\ GetID (t_conn t) = id.
Proof.
  intros Hn Hr. pose proof (server_run_inv _ _ (NewWebSocketServer_inv _ _ Hn) Hr) as [Hh _].
  rewrite Hh. unfold view. destruct (tuples s !! k) as [t|]; simpl; [|naive_solver].
  split; [intros [= <- <-]; by exists t|]. intros (t' & [= <-] & -> & ->). done.
Qed.

(** *** Sending to all the clients *)

Lemma server_Send_loop_spec net s order payload topic :
  NoDup order ->
  let '(s', sent) := server_Send_loop BinaryMessage net s order payload topic in
  (forall k t, k ∈ order -> tuples s !! k = Some t ->
     exists outcome wt written,
       wt_Send (WriteMessage net (t_conn t) BinaryMessage) (t_transceiver t) payload topic
         = (outcome, wt, written)
       /\ (k, outcome, written) ∈ sent /\ tuples s' !! k = Some (t_set t wt (t_phase t)))
  /\ (forall k, k ∉ order -> tuples s' !! k = tuples s !! k)
  /\ (Forall (fun k => is_Some (tuples s !! k)) order -> sent.*1.*1 = order).
Proof.
  intros Hnd. revert s. induction Hnd as [|k order Hk Hnd IH]; intros s.
  { simpl. split_and!; [set_solver|done|done]. }
  cbn [server_Send_loop]. destruct (tuples s !! k) as [t|] eqn:Ht.
  - destruct (wt_Send _ (t_transceiver t) payload topic) as [[outcome wt] written] eqn:Hw.
    set (s1 := s_set _ _ _). specialize (IH s1).
    destruct (server_Send_loop _ _ s1 _ _ _) as [s2 sent] eqn:Hl. destruct IH as (Hin & Hout & Hall).
    assert (Hne : forall j, j <> k -> tuples s1 !! j = tuples s !! j)
      by (intros j Hj; unfold s1; simpl; by rewrite list_lookup_insert_ne).
    split_and!.
    + intros j tj [->|Hj]%elem_of_cons Htj.
      * assert (tj = t) as -> by congruence. exists outcome, wt, written. split_and!; [done|set_solver|].
        rewrite Hout by done. unfold s1. simpl. rewrite list_lookup_insert_eq; [done|by eapply lookup_lt_Some].
      * destruct (Hin j tj Hj) as (o & w & wr & H1 & H2 & H3); [rewrite Hne; [done|by intros ->]|].
        exists o, w, wr. split_and!; [done|set_solver|done].
    + intros j Hj. rewrite Hout, Hne by set_solver. done.
    + intros [_ Hf]%Forall_cons. simpl. f_equal. apply Hall. rewrite Forall_forall in *.
      intros j Hj. rewrite Hne; [by apply Hf|]. by intros ->.
  - specialize (IH s). destruct (server_Send_loop _ _ s _ _ _) as [s2 sent].
    destruct IH as (Hin & Hout & Hall). split_and!.
    + intros j tj [->|Hj]%elem_of_cons Htj; [congruence|by apply Hin].
    + intros j Hj. apply Hout. set_solver.
    + intros [[? H] _]%Forall_cons. congruence.
Qed.

(** The clients in some order of the map *)
Definition clients_in_order (s : server) (order : list nat) : Prop :=
  order ≡ₚ (map_to_list (getAll (transceiverAndConn s))).*2.

Lemma clients_elem s order k :
  server_inv s -> clients_in_order s order ->
  k ∈ order <-> exists t, tuples s !! k = Some t /\ t_phase t = Listening.
Proof.
  intros [Hh _] Ho. rewrite Ho, list_elem_of_fmap. unfold getAll. split.
  - intros ([id j] & -> & H%elem_of_map_to_list%Hh). unfold view in H. simpl.
    destruct (tuples s !! j) as [t|]; [|done]. exists t. by injection H as -> _.
  - intros (t & Ht & Hp). exists (GetID (t_conn t), k). split; [done|].
    apply elem_of_map_to_list, Hh. unfold view. by rewrite Ht, <- Hp.
Qed.

Lemma clients_NoDup s order : server_inv s -> clients_in_order s order -> NoDup order.
Proof.
  intros [Hh _] Ho. unfold clients_in_order in Ho. rewrite Ho.
  apply NoDup_fmap_2_strong; [|apply NoDup_map_to_list].
  intros [id1 k1] [id2 k2] H1%elem_of_map_to_list%Hh H2%elem_of_map_to_list%Hh Hk. simpl in Hk. subst k2.
  congruence.
Qed.

(** A send of the server goes to every client that is connected, to each
    once, whatever the order of the map and whatever fails for the others: each
    transceiver does exactly its own [Send] on its own connection. The server
    reports an error only when there is no client and the messages are not to be
    dropped, and then nothing is written; failures of the clients are not
    reported. *)
Theorem server_Send_spec args s0 s net order payload topic :
  NewWebSocketServer core_ErrNilLogger args = Ok s0 -> rtc server_step s0 s -> clients_in_order s order ->
  let '(err, s', sent) := server_Send BinaryMessage net s order payload topic in
  (err = None \/ err = Some (ErrNoClientsConnected : error) /\ sent = [] /\ s' = s)
  /\ (err <> None <-> order = [] /\ s_dropMessagesIfNoConnection s = false)
  /\ sent.*1.*1 = order
  /\ (forall k t, tuples s !! k = Some t -> t_phase t = Listening ->
       exists outcome wt written,
         wt_Send (WriteMessage net (t_conn t) BinaryMessage) (t_transceiver t) payload topic
           = (outcome, wt, written)
         /\ (k, outcome, written) ∈ sent /\ tuples s' !! k = Some (t_set t wt Listening)).
Proof.
  intros Hn Hr Ho. pose proof (server_run_inv _ _ (NewWebSocketServer_inv _ _ Hn) Hr) as Hinv.
  pose proof (clients_NoDup s order Hinv Ho) as Hnd.
  pose proof (server_Send_loop_spec net s order payload topic Hnd) as Hs.
  assert (Hempty : transceiverAndConn s = ∅ <-> order = []).
  { unfold clients_in_order, getAll in Ho. split.
    - intros He. rewrite He, map_to_list_empty in Ho. by apply Permutation_nil_r in Ho.
    - intros ->. symmetry in Ho. apply Permutation_nil_r, fmap_nil_inv in Ho. by apply map_to_list_empty_iff. }
  unfold server_Send, getAll.
  destruct (decide (transceiverAndConn s = ∅)) as [He|He];
    [rewrite bool_decide_true by done|rewrite bool_decide_false by done].
  - rewrite (proj1 Hempty He) in *. destruct (s_dropMessagesIfNoConnection s); simpl.
    + split_and!; [by left|naive_solver|done|]. intros k t Hk Hp.
      exfalso. apply (not_elem_of_nil k), (clients_elem s [] k Hinv Ho). by exists t.
    + split_and!; [by right|naive_solver|done|]. intros k t Hk Hp.
      exfalso. apply (not_elem_of_nil k), (clients_elem s [] k Hinv Ho). by exists t.
  - cbn [andb]. destruct (server_Send_loop _ _ _ _ _ _) as [s' sent]. destruct Hs as (Hin & _ & Hall).
    split_and!; [by left| |apply Hall|].
    + split; [done|]. intros [Hnil _]. by apply Hempty in Hnil.
    + apply Forall_forall. intros k Hk. apply (clients_elem s order k Hinv Ho) in Hk as (t & -> & _). done.
    + intros k t Hk Hp. destruct (Hin k t) as (o & wt & w & H1 & H2 & H3);
        [apply (clients_elem s order k Hinv Ho); by exists t|done|].
      exists o, wt, w. rewrite <- Hp. done.
Qed.

(** *** What a connection keeps *)

Lemma wt_Send_handler w wt payload topic :
  payloadHandler (wt_Send w wt payload topic).1.2 = payloadHandler wt.
Proof. by rewrite wt_Send_state. Qed.

Lemma verify_handler wt message attempts :
  payloadHandler (verifyPayloadAndSendAckIfNeeded wt message attempts).1 = payloadHandler wt.
Proof. rewrite verify_state. case_match; [|done]. unfold handleAckMessage. by case_match. Qed.

(** The payload handler of a tuple *)
Definition handler_of (s : server) (k : nat) : option PayloadHandler :=
  (fun t => payloadHandler (t_transceiver t)) <$> tuples s !! k.

Lemma handler_of_insert s k t t' m j :
  tuples s !! k = Some t -> payloadHandler (t_transceiver t') = payloadHandler (t_transceiver t) ->
  handler_of (s_set s (<[k := t']> (tuples s)) m) j = handler_of s j.
Proof.
  intros Hk Hh. unfold handler_of. simpl. destruct (decide (j = k)) as [->|Hj].
  - rewrite list_lookup_insert_eq by by eapply lookup_lt_Some. rewrite Hk. simpl. by rewrite Hh.
  - by rewrite list_lookup_insert_ne.
Qed.

Lemma Send_loop_handler net s order payload topic k :
  handler_of (server_Send_loop BinaryMessage net s order payload topic).1 k = handler_of s k.
Proof.
  revert s. induction order as [|j order IH]; intros s; simpl; [done|].
  destruct (tuples s !! j) as [t|] eqn:Ht; [|apply IH].
  pose proof (wt_Send_handler (WriteMessage net (t_conn t) BinaryMessage) (t_transceiver t) payload topic) as Hw.
  destruct (wt_Send _ _ _ _) as [[outcome wt] written]. simpl in Hw.
  set (s1 := s_set _ _ _). specialize (IH s1).
  destruct (server_Send_loop _ _ s1 _ _ _) as [s2 rest]. simpl in *. rewrite IH.
  by apply (handler_of_insert _ _ t).
Qed.

Lemma Close_loop_handler net s order err k :
  handler_of (server_Close_loop CloseMessage closeFrame net s order err).2 k = handler_of s k.
Proof.
  revert s err. induction order as [|j order IH]; intros s err; simpl; [done|].
  destruct (tuples s !! j) as [t|] eqn:Ht; [|apply IH].
  destruct (wc_Close _ _ _ _) as [[err' conn] written]. rewrite IH. by apply (handler_of_insert _ _ t).
Qed.

Lemma server_step_handler s s' k :
  server_step s s' -> is_Some (handler_of s k) -> handler_of s' k = handler_of s k.
Proof.
  intros Hstep Hsome. destruct Hstep as [ws ptr Hfresh|j t Hj Hp|j t m a Hj Hp|j t Hj Hp
    |net order payload topic|h|net order err].
  - unfold addClientFunc. destruct ws as [ws|]; [|done].
    destruct (connectionHandler_tuples s (NewWSConnClientWithConn ws ptr)) as [->|[wt ->]]; [done|].
    unfold handler_of in *. simpl. rewrite lookup_app_l; [done|].
    apply lookup_lt_is_Some. by destruct (tuples s !! k); [|destruct Hsome].
  - by apply (handler_of_insert _ _ t).
  - unfold goroutine_receives. pose proof (verify_handler (t_transceiver t) m a) as Hw.
    destruct (verifyPayloadAndSendAckIfNeeded _ _ _) as [wt eff]. by apply (handler_of_insert _ _ t).
  - by apply (handler_of_insert _ _ t).
  - unfold server_Send. destruct (_ && _); [done|].
    pose proof (Send_loop_handler net s order payload topic k) as Hh.
    by destruct (server_Send_loop _ _ _ _ _ _).
  - done.
  - apply Close_loop_handler.
Qed.

(** A connection keeps for ever the payload handler that the server had when
    the connection was accepted: a handler that is set later is not given to the
    clients that are connected. *)
Theorem handler_of_connection s ws pointer s1 s2 k t :
  addClientFunc core_ErrNilLogger s (Ok ws) pointer = s1 -> tuples s !! k = None ->
  tuples s1 !! k = Some t -> rtc server_step s1 s2 ->
  exists t2, tuples s2 !! k = Some t2
    /\ payloadHandler (t_transceiver t2) = default NewNilPayloadHandler (s_payloadHandler s).
Proof.
  intros Hadd Hnone Hk Hrun.
  assert (Hh : handler_of s1 k = Some (default NewNilPayloadHandler (s_payloadHandler s))).
  { unfold handler_of. rewrite Hk. simpl. f_equal. subst s1. unfold addClientFunc, connectionHandler in Hk.
    destruct (NewTransceiver _ _) as [wt|] eqn:Hwt; [|congruence]. simpl in Hk.
    apply lookup_snoc_Some in Hk as [[_ Hk]|[_ <-]]; [congruence|]. simpl.
    destruct (s_payloadHandler s); [done|]. simpl. unfold NewTransceiver in Hwt.
    rewrite !guard_err_Ok in Hwt. simpl in Hwt. rewrite !guard_err_Ok in Hwt.
    destruct Hwt as (_ & _ & _ & Hwt). by apply (inj Ok) in Hwt as <-. }
  assert (Hh2 : handler_of s2 k = Some (default NewNilPayloadHandler (s_payloadHandler s))).
  { clear Hadd Hk. induction Hrun as [|s1 s1' s2 Hstep _ IH]; [done|]. apply IH.
    rewrite (server_step_handler s1 s1' k Hstep); [done|by rewrite Hh]. }
  unfold handler_of in Hh2. destruct (tuples s2 !! k) as [t2|]; [|done]. exists t2. split; [done|].
  by injection Hh2.
Qed.

(** *** The configuration *)

Definition config (s : server) : bool * Z * webSocketsPayloadConverter :=
  (s_withAcknowledge s, s_ackTimeoutInSec s, s_payloadConverter s).

Lemma Send_loop_no_tuples net s order payload topic :
  tuples s = [] -> (server_Send_loop BinaryMessage net s order payload topic).1 = s.
Proof. intros Hs. induction order as [|k order IH]; [done|]. simpl. by rewrite Hs. Qed.

Lemma Close_loop_no_tuples net s order err :
  tuples s = [] -> (server_Close_loop CloseMessage closeFrame net s order err).2 = s.
Proof. intros Hs. revert err. induction order as [|k order IH]; intros err; [done|]. simpl. rewrite Hs. apply IH. Qed.

(** A server that acknowledges with no timeout never has a transceiver. *)
Lemma server_step_zero_ack s s' c :
  server_step s s' -> config s = (true, 0, c) -> tuples s = [] -> config s' = (true, 0, c) /\ tuples s' = [].
Proof.
  intros Hstep Hc Ht. destruct Hstep as [ws ptr Hfresh|j t Hj Hp|j t m a Hj Hp|j t Hj Hp
    |net order payload topic|h|net order err]; try (rewrite Ht in Hj; done).
  - unfold addClientFunc, connectionHandler. destruct ws as [ws|]; [|done].
    injection Hc as Ha Hz Hcv. rewrite Ha, Hz, Hcv. unfold NewTransceiver. simpl.
    destruct (Seconds (s_retryDuration s) =? 0); simpl; unfold config; by rewrite Ha, Hz, Hcv.
  - unfold server_Send. destruct (_ && _); [done|].
    pose proof (Send_loop_no_tuples net s order payload topic Ht) as He.
    destruct (server_Send_loop _ _ _ _ _ _) as [s' sent]. simpl in He |- *. by rewrite He.
  - done.
  - unfold server_Close. by rewrite Close_loop_no_tuples.
Qed.

Lemma createWebSocketServer_Ok args s0 :
  createWebSocketServer core_ErrNilLogger args = Ok (HostServer s0) ->
  exists m u, ah_Marshaller args = Some (m, u) /\ ah_Log args = true
    /\ wsc_URL (ah_WebSocketConfig args) <> "" /\ RetryDurationInSec (ah_WebSocketConfig args) <> 0
    /\ config s0 = (wsc_WithAcknowledge (ah_WebSocketConfig args),
                    AcknowledgeTimeoutInSec (ah_WebSocketConfig args),
                    {| wpc_Marshal := m; wpc_Unmarshal := u |})
    /\ tuples s0 = [] /\ transceiverAndConn s0 = ∅.
Proof.
  unfold createWebSocketServer, NewWebSocketPayloadConverter.
  destruct (ah_Marshaller args) as [[m u]|]; [|done]. cbn [mbind result_bind].
  destruct (NewWebSocketServer _ _) as [s|] eqn:Hs; [|done]. intros [= <-]. exists m, u.
  unfold NewWebSocketServer in Hs. simpl in Hs. rewrite !guard_err_Ok in Hs.
  destruct Hs as (Hl & Hu & Hr & Hs). apply (inj Ok) in Hs as <-. bdestruct_all.
  apply bool_decide_eq_false in Hu. done.
Qed.

(** Acknowledgements without a timeout: a configuration that the client
    refuses is accepted by the server, which then drops every connection without
    ever having a client. *)
Theorem zero_ack_timeout url_Parse args s0 s :
  createWebSocketServer core_ErrNilLogger args = Ok (HostServer s0) ->
  wsc_WithAcknowledge (ah_WebSocketConfig args) = true ->
  AcknowledgeTimeoutInSec (ah_WebSocketConfig args) = 0 ->
  rtc server_step s0 s ->
  tuples s = []
  /\ createWebSocketClient core_ErrNilLogger url_Parse args = Err ErrZeroValueAckTimeout.
Proof.
  intros Hs Ha Hz Hr. destruct (createWebSocketServer_Ok _ _ Hs) as (m & u & Hm & Hl & Hu & Hrt & Hc & Ht & _).
  rewrite Ha, Hz in Hc. split.
  - assert (Hall : config s = (true, 0, {| wpc_Marshal := m; wpc_Unmarshal := u |}) /\ tuples s = []); [|apply Hall].
    clear Hs. induction Hr as [|s0 s1 s2 Hstep _ IH]; [done|].
    destruct (server_step_zero_ack s0 s1 _ Hstep Hc Ht). by apply IH.
  - unfold createWebSocketClient, NewWebSocketPayloadConverter. rewrite Hm. cbn [mbind result_bind].
    unfold NewWebSocketClient. simpl. rewrite Hl, Ha, Hz. cbn [negb guard_err].
    rewrite (bool_decide_false (wsc_URL _ = "")) by done.
    replace (RetryDurationInSec (ah_WebSocketConfig args) =? 0) with false by lia. cbn [guard_err].
    unfold NewTransceiver. simpl. replace (RetryDurationInSec (ah_WebSocketConfig args) =? 0) with false by lia.
    done.
Qed.
End server_runs.

(** ** The client over time *)

Section client_runs.
Context (BinaryMessage CloseMessage : Z) (closeFrame : bytes).

(** A turn of one of the two loops, or a send *)
Inductive client_turn :=
| TurnOpen (net : gorilla)
| TurnListen (net : gorilla) (reads : list read)
| TurnSend (net : gorilla) (payload : slice) (topic : string).

Definition turn_net (turn : client_turn) : gorilla :=
  match turn with TurnOpen net | TurnListen net _ | TurnSend net _ _ => net end.

Definition do_turn (c : client) (turn : client_turn) : client :=
  match turn with
  | TurnOpen net => client_open net c
  | TurnListen net reads => (client_listen CloseMessage closeFrame net c reads).1
  | TurnSend net payload topic => (client_Send BinaryMessage net c payload topic).1.2
  end.

Lemma client_listen_conn net c reads :
  wc_conn (c_wsConn (client_listen CloseMessage closeFrame net c reads).1)
  = match (Listen (c_transceiver c) reads).1.1, wc_conn (c_wsConn c) with
    | Some true, Some n => if conn_Close net n then Some n else None
    | _, conn => conn
    end.
Proof.
  unfold client_listen. destruct (Listen _ _) as [[closed wt] eff]. simpl.
  destruct closed as [[]|]; [|done..]. simpl. unfold wc_Close.
  destruct (wc_conn (c_wsConn c)) as [n|] eqn:Hn; [|by try rewrite Hn]. by destruct (conn_Close net n).
Qed.

Lemma do_turn_sticks c n turn :
  wc_conn (c_wsConn c) = Some n -> conn_Close (turn_net turn) n <> None ->
  wc_conn (c_wsConn (do_turn c turn)) = Some n.
Proof.
  intros Hn Hc. destruct turn as [net|net reads|net p t]; simpl in *.
  - unfold OpenConnection. by rewrite Hn.
  - rewrite client_listen_conn, Hn. destruct (Listen _ _) as [[[[]|] ?] ?]; [|done..]. simpl.
    by destruct (conn_Close net n).
  - unfold client_Send. destruct (_ && _); [done|]. by destruct (wt_Send _ _ _ _) as [[o w] wr].
Qed.

(** When a read fails the client closes the connection; if that succeeds, the
    next turn of the opening loop connects again to the same address. If the
    closing fails, the wrapper keeps the dead connection, and no turn of the
    loops or send ever replaces it as long as the closing goes on failing, as it
    does for a connection that is already closed. *)
Theorem client_reconnection net c reads n :
  wc_conn (c_wsConn c) = Some n -> (Listen (c_transceiver c) reads).1.1 = Some true ->
  let c1 := (client_listen CloseMessage closeFrame net c reads).1 in
  (conn_Close net n = None ->
   IsOpen (c_wsConn c1) = false
   /\ forall net' n', Dial net' (c_url c) = Ok n' -> wc_conn (c_wsConn (client_open net' c1)) = Some n')
  /\ (conn_Close net n <> None ->
      forall turns, Forall (fun turn => conn_Close (turn_net turn) n <> None) turns ->
      wc_conn (c_wsConn (fold_left do_turn turns c1)) = Some n).
Proof.
  intros Hn Hl c1. pose proof (client_listen_conn net c reads) as Hc. fold c1 in Hc. rewrite Hl, Hn in Hc.
  assert (Hurl : c_url c1 = c_url c).
  { unfold c1, client_listen. by destruct (Listen _ _) as [[[[]|] wt] eff]. }
  split.
  - intros Hclose. rewrite Hclose in Hc. split; [unfold IsOpen; by rewrite Hc|].
    intros net' n' Hd. unfold client_open, OpenConnection. by rewrite Hc, Hurl, Hd.
  - intros Hclose turns Hall. destruct (conn_Close net n); [|done]. clear Hl Hn Hurl Hclose. revert Hc.
    generalize c1. induction Hall as [|turn turns Ht _ IH]; intros c' Hc; [done|].
    simpl. apply IH. by apply do_turn_sticks.
Qed.

(** ** From the client to the server *)

(** A payload that the client sends over an open connection is handed to the
    handler that the server gave to that connection, with its topic and
    version, and the acknowledgement of the server, however often its writing is
    tried again, ends the send of the client without error. *)
Theorem client_to_server (conv : webSocketsPayloadConverter) `{!ConverterLaws conv}
    net (c : client) (s : server) k t n payload topic errs closed attempts :
  tuples s !! k = Some t -> t_phase t = Listening -> payloadParser (t_transceiver t) = conv ->
  payloadParser (c_transceiver c) = conv -> withAcknowledge (c_transceiver c) = true ->
  safeCloser (c_transceiver c) = false ->
  ws_wf (payload_message (c_transceiver c) (wrapu 64 (wt_counter (c_transceiver c) + 1)) payload topic) ->
  wc_conn (c_wsConn c) = Some n -> (forall b, conn_WriteMessage net n BinaryMessage b = None) ->
  (ProcessPayload (payloadHandler (t_transceiver t)) (canon payload) topic (payloadVersion (c_transceiver c)) = None
   \/ blockingAckOnError (t_transceiver t) = false) ->
  exists message ack c1,
    client_Send BinaryMessage net c payload topic
      = (WaitsForAck (madeAcks (c_transceiver c)), c1, [message])
    /\ (goroutine_receives s k t message (((fun e => (Some e, false)) <$> errs) ++ [(None, closed)])).2
       = DoProcessPayload (canon payload) topic (payloadVersion (c_transceiver c))
         :: replicate (S (length errs)) (DoWriteMessage ack)
    /\ let '(c2, effects) := client_listen CloseMessage closeFrame net c1 [Read ack attempts] in
       effects = [] /\ wc_conn (c_wsConn c2) = Some n
       /\ forall err, waitForAck (c_transceiver c2) (madeAcks (c_transceiver c)) false err <-> err = None.
Proof.
  intros Hk Hp Hpt Hpc Ha Hs Hwf Hn Hw Hproc.
  destruct (send_ack_roundtrip conv (c_transceiver c) (t_transceiver t) payload topic errs closed attempts
    Hpc Hpt Ha Hs Hwf Hproc) as (message & ack & wt1 & Hsend & Hrecv & Hack).
  exists message, ack, (c_set c (c_wsConn c) wt1 (c_closed c)). split_and!.
  - unfold client_Send, IsOpen. rewrite Hn. rewrite bool_decide_true by done. rewrite andb_false_r.
    assert (Hext : forall w, (forall b, w b = None) ->
      wt_Send w (c_transceiver c) payload topic = wt_Send (fun _ => None) (c_transceiver c) payload topic).
    { intros w Hnone. unfold wt_Send. destruct (prepareChanAndCounter _) as [[ch lc] wt].
      destruct (ConstructPayload _ _); [|done]. by rewrite Hnone. }
    rewrite Hext, Hsend; [done|]. intros b. unfold WriteMessage. by rewrite Hn.
  - unfold goroutine_receives. by rewrite Hrecv.
  - unfold client_listen. simpl.
    destruct (verifyPayloadAndSendAckIfNeeded wt1 ack attempts) as [wt2 eff].
    destruct Hack as (-> & _ & Hwait). simpl. done.
Qed.
End client_runs.

(** ** The theorems at concrete hosts *)

Definition demo_nilLogger : error := EExternal "nil logger".

Definition demo_host (timeout : Z) : ArgsWebSocketHost := {|
  ah_WebSocketConfig := {| wsc_URL := "localhost:9090"; Mode := ModeServer; RetryDurationInSec := 1;
    wsc_WithAcknowledge := true; AcknowledgeTimeoutInSec := timeout; BlockingAckOnError := true;
    DropMessagesIfNoConnection := false; wsc_Version := 1 |};
  ah_Marshaller := Some (wpc_Marshal proto_converter, wpc_Unmarshal proto_converter);
  ah_Log := true |}.

Definition demo_server_args (timeout : Z) : ArgsWebSocketServer := {|
  as_RetryDurationInSeconds := 1; as_AckTimeoutInSeconds := timeout; as_BlockingAckOnError := true;
  as_WithAcknowledge := true; as_DropMessagesIfNoConnection := false; as_URL := "localhost:9090";
  as_PayloadConverter := Some proto_converter; as_Log := true; as_PayloadVersion := 1 |}.

Definition demo_server0 (timeout : Z) : server := {|
  s_blockingAckOnError := true; s_withAcknowledge := true; s_dropMessagesIfNoConnection := false;
  s_ackTimeoutInSec := timeout; s_payloadConverter := proto_converter; s_retryDuration := time_Second;
  s_payloadHandler := Some NewNilPayloadHandler; s_payloadVersion := 1; tuples := [];
  transceiverAndConn := ∅ |}.

(** A client connects, and its goroutine starts to listen. *)
Definition demo_server1 : server := addClientFunc demo_nilLogger (demo_server0 2) (Ok 1%nat) "0xc01".

Definition demo_tuple : tupleTransceiverAndConn := {|
  t_transceiver := demo_wt; t_conn := NewWSConnClientWithConn 1 "0xc01"; t_phase := Adding |}.

Definition demo_server2 : server := goroutine_adds demo_server1 0 demo_tuple.

Lemma demo_server_run : rtc (server_step 2 8 [] demo_nilLogger) (demo_server0 2) demo_server2.
Proof.
  apply (rtc_l _ _ demo_server1).
  - apply (StConnect 2 8 [] demo_nilLogger (demo_server0 2) (Ok 1%nat) "0xc01").
    intros k t Hk. by destruct k.
  - apply rtc_once. apply (StAdd 2 8 [] demo_nilLogger demo_server1 0 demo_tuple); reflexivity.
Qed.

Lemma holder_is_listening_witness :
  transceiverAndConn demo_server2 !! "0xc01" = Some 0%nat
  <-> exists t, tuples demo_server2 !! 0%nat = Some t /\ t_phase t = Listening /\ GetID (t_conn t) = "0xc01".
Proof.
  apply (holder_is_listening 2 8 [] demo_nilLogger (demo_server_args 2) (demo_server0 2));
    [reflexivity|apply demo_server_run].
Defined.

Definition demo_net : gorilla := {|
  Dial _ := Ok 2%nat; conn_ReadMessage _ := Err (EExternal "EOF"); conn_WriteMessage _ _ _ := None;
  conn_Close _ := None |}.

Lemma server_Send_spec_witness :
  let '(err, s', sent) := server_Send 2 demo_net demo_server2 [0%nat] (Some [Byte.x07]) "topic" in
  (err = None \/ err = Some (ErrNoClientsConnected : error) /\ sent = [] /\ s' = demo_server2)
  /\ (err <> None <-> [0%nat] = [] /\ s_dropMessagesIfNoConnection demo_server2 = false)
  /\ sent.*1.*1 = [0%nat]
  /\ (forall k t, tuples demo_server2 !! k = Some t -> t_phase t = Listening ->
       exists outcome wt written,
         wt_Send (WriteMessage demo_net (t_conn t) 2) (t_transceiver t) (Some [Byte.x07]) "topic"
           = (outcome, wt, written)
         /\ (k, outcome, written) ∈ sent /\ tuples s' !! k = Some (t_set t wt Listening)).
Proof.
  apply (server_Send_spec 2 8 [] demo_nilLogger (demo_server_args 2) (demo_server0 2) demo_server2 demo_net);
    [reflexivity|apply demo_server_run|].
  unfold clients_in_order. vm_compute. reflexivity.
Defined.

Definition demo_handler : PayloadHandler := {|
  ProcessPayload _ _ _ := Some (EExternal "refused"); ph_Close := None |}.

(** A handler that is set after the client connected *)
Lemma handler_of_connection_witness :
  exists t2, tuples (server_SetPayloadHandler demo_server1 (Some demo_handler)).2 !! 0%nat = Some t2
    /\ payloadHandler (t_transceiver t2) = NewNilPayloadHandler.
Proof.
  apply (handler_of_connection 2 8 [] demo_nilLogger (demo_server0 2) 1%nat "0xc01" demo_server1
    (server_SetPayloadHandler demo_server1 (Some demo_handler)).2 0%nat demo_tuple);
    [reflexivity|reflexivity|reflexivity|].
  apply rtc_once, StSetPayloadHandler.
Defined.

Definition demo_url_Parse (url : string) : result (string * (string -> string)) :=
  Ok ("ws", fun path => "ws://" +:+ url +:+ path).

Lemma zero_ack_timeout_witness :
  tuples (addClientFunc demo_nilLogger (demo_server0 0) (Ok 1%nat) "0xc01") = []
  /\ createWebSocketClient demo_nilLogger demo_url_Parse (demo_host 0) = Err ErrZeroValueAckTimeout.
Proof.
  apply (zero_ack_timeout 2 8 [] demo_nilLogger demo_url_Parse (demo_host 0) (demo_server0 0));
    [reflexivity|reflexivity|reflexivity|].
  apply rtc_once, StConnect. intros k t Hk. destruct k; discriminate Hk.
Defined.

Definition demo_client : client := {|
  c_url := "ws://localhost:9090/save"; c_retryDuration := time_Second; c_closed := false;
  c_wsConn := {| wc_conn := Some 1%nat; clientID := "" |}; c_transceiver := demo_wt;
  c_dropMessagesIfNoConnection := false |}.

Lemma client_reconnection_witness :
  let c1 := (client_listen 8 [] demo_net demo_client [ReadError false]).1 in
  (conn_Close demo_net 1 = None ->
   IsOpen (c_wsConn c1) = false
   /\ forall net' n', Dial net' "ws://localhost:9090/save" = Ok n' ->
        wc_conn (c_wsConn (client_open net' c1)) = Some n')
  /\ (conn_Close demo_net 1 <> None ->
      forall turns, Forall (fun turn => conn_Close (turn_net turn) 1%nat <> None) turns ->
      wc_conn (c_wsConn (fold_left (do_turn 2 8 []) turns c1)) = Some 1%nat).
Proof. apply (client_reconnection 2 8 [] demo_net demo_client [ReadError false] 1%nat); reflexivity. Defined.

Lemma client_to_server_witness :
  let t := t_set demo_tuple demo_wt Listening in
  exists message ack c1,
    client_Send 2 demo_net demo_client (Some [Byte.x07]) "topic" = (WaitsForAck 0, c1, [message])
    /\ (goroutine_receives demo_server2 0 t message [(Some (ErrConnectionNotOpen : error), false); (None, false)]).2
       = [DoProcessPayload (Some [Byte.x07]) "topic" 1; DoWriteMessage ack; DoWriteMessage ack]
    /\ let '(c2, effects) := client_listen 8 [] demo_net c1 [Read ack []] in
       effects = [] /\ wc_conn (c_wsConn c2) = Some 1%nat
       /\ forall err, waitForAck (c_transceiver c2) 0 false err <-> err = None.
Proof.
  intros t. apply (client_to_server 2 8 [] proto_converter demo_net demo_client demo_server2 0 t 1
    (Some [Byte.x07]) "topic" [ErrConnectionNotOpen : error] false []);
    [reflexivity|reflexivity|reflexivity|reflexivity|reflexivity|reflexivity|split; split; done|reflexivity
    |reflexivity|by left].
Defined.
