(* ===== verification/HostLink.v ===== *)
(** * The websocket hosts over their connections

    The client of websocket/client/client.go and the server of
    websocket/server/server.go together, over every connection that the client opens
    one after the other: the client keeps one transceiver for all of them, the server makes
    a new one for each, and goes on with what is left of an old connection while
    the client already uses the next. Sends may overlap: another can take its counter
    and be written between the two halves of one. *)

From S2P Require Import Prelude Errors Config Messages Protobuf WireMessages Transceiver Link WebSocketHost.
From stdpp Require Import list gmap sets.
Open Scope Z_scope.

(** ** The state *)

(** What a transceiver was asked to send, by channel, and what it did not write yet *)
Record outbox := {
  ob_asked : list WsMessage;
  ob_pending : list (WsMessage * bytes);
}.

(** One direction of a connection: the bytes on their way, the messages whose
    writing was tried, in this order, and what the handler at its end was given *)
Record lane := {
  l_bytes : list bytes;
  l_put : list WsMessage;
  l_handled : list handled;
}.

(** A connection that the server accepted, by this client or by another, with its
    directions to the server and to the client, and the outbox of the server's
    transceiver of it *)
Record socket := {
  sk_mine : bool;
  sk_up : lane;
  sk_down : lane;
  sk_out : outbox;
}.

(** The [n]th connection is that of the [n]th tuple of the server. *)
Record world := {
  w_client : client;
  w_out : outbox;
  w_server : server;
  w_sockets : list socket;
}.

Definition new_outbox : outbox := {| ob_asked := []; ob_pending := [] |}.
Definition new_lane : lane := {| l_bytes := []; l_put := []; l_handled := [] |}.
Definition new_socket (mine : bool) : socket := {|
  sk_mine := mine; sk_up := new_lane; sk_down := new_lane; sk_out := new_outbox |}.

Definition l_write (l : lane) (m : WsMessage) (bs : list bytes) : lane := {|
  l_bytes := l_bytes l ++ bs; l_put := l_put l ++ [m]; l_handled := l_handled l |}.
Definition l_reply (l : lane) (bs : list bytes) : lane := {|
  l_bytes := l_bytes l ++ bs; l_put := l_put l; l_handled := l_handled l |}.
Definition l_read (l : lane) (rest : list bytes) (hs : list handled) : lane := {|
  l_bytes := rest; l_put := l_put l; l_handled := l_handled l ++ hs |}.

Definition sk_set (sk : socket) (up down : lane) (out : outbox) : socket := {|
  sk_mine := sk_mine sk; sk_up := up; sk_down := down; sk_out := out |}.

Definition w_set (w : world) (c : client) (out : outbox) : world := {|
  w_client := c; w_out := out; w_server := w_server w; w_sockets := w_sockets w |}.
Definition w_set_server (w : world) (s : server) : world := {|
  w_client := w_client w; w_out := w_out w; w_server := s; w_sockets := w_sockets w |}.
Definition w_set_socket (w : world) (n : nat) (sk : socket) : world := {|
  w_client := w_client w; w_out := w_out w; w_server := w_server w;
  w_sockets := <[n := sk]> (w_sockets w) |}.

(** ** The two halves of a send *)

Definition asked_message (wt : wsTransceiver) (payload : slice) (topic : string) : WsMessage :=
  payload_message wt (wrapu 64 (wt_counter wt + 1)) payload topic.

(** The half of [Send] that takes the counter and makes the bytes *)
Definition Send_prepares (wt : wsTransceiver) (out : outbox) (payload : slice) (topic : string)
    : wsTransceiver * outbox :=
  let '(_, localCounter, wt') := prepareChanAndCounter wt in
  let m := payload_message wt' localCounter payload topic in
  (wt', {| ob_asked := ob_asked out ++ [m];
           ob_pending := ob_pending out ++
             match ConstructPayload (payloadParser wt') m with Ok b => [(m, b)] | Err _ => [] end |}).

(** The half that writes them: the [i]th of those that are prepared *)
Definition Send_written_out (out : outbox) (i : nat) : outbox := {|
  ob_asked := ob_asked out; ob_pending := delete i (ob_pending out) |}.

(** The writes that succeed *)
Definition passed (write : bytes -> option error) (messages : list bytes) : list bytes :=
  filter (fun b => write b = None) messages.

(** One after the other, the halves are [Send]. *)
Lemma Send_halves w wt out payload topic :
  let '(_, wt', messages) := wt_Send w wt payload topic in
  let '(wt1, out1) := Send_prepares wt out payload topic in
  wt' = wt1 /\ ob_asked out1 = ob_asked out ++ [asked_message wt payload topic]
  /\ match ob_pending out1 !! length (ob_pending out) with
     | Some (m, b) => messages = [b] /\ Send_written_out out1 (length (ob_pending out))
         = {| ob_asked := ob_asked out1; ob_pending := ob_pending out |}
     | None => messages = [] /\ ob_pending out1 = ob_pending out
     end.
Proof.
  unfold wt_Send, Send_prepares, prepareChanAndCounter. cbn [wt_set_acks payloadParser ob_pending ob_asked].
  change (payload_message (wt_set_acks _ _ _ _ _) _ payload topic) with (asked_message wt payload topic).
  destruct (ConstructPayload _ _) as [b|].
  - assert (Hd : delete (length (ob_pending out)) (ob_pending out ++ [(asked_message wt payload topic, b)])
      = ob_pending out) by (rewrite delete_take_drop, take_app_length, drop_ge, app_nil_r; [done|];
          rewrite length_app; simpl; lia).
    unfold Send_written_out. cbn [ob_pending ob_asked].
    rewrite list_lookup_middle, Hd by done.
    by destruct (w b); [|destruct (negb _)].
  - rewrite app_nil_r. split; [done|]. split; [done|]. by rewrite lookup_ge_None_2.
Qed.

(** ** What can happen *)

Section hosts.
Context (BinaryMessage CloseMessage : Z) (closeFrame : bytes) (nilLogger : error).

(** The turns of the loops of the client's two goroutines, and the calls of its methods;
    the accepting of a connection by the server, the steps of the goroutine of each, the
    turns of the loop of its [Send] and the calls of its other methods; and what is
    lost of a connection, and what other clients do on theirs *)
Inductive host_event :=
| ClientOpens (net : gorilla)
| ClientReads (net : gorilla) (attempts : list (option error * bool))
| ClientReadFails (net : gorilla) (closing : bool)
| ClientPrepares (payload : slice) (topic : string)
| ClientWrites (net : gorilla) (i : nat)
| ClientSetsHandler (handler : option PayloadHandler)
| ClientCloses (net : gorilla)
| ServerAccepts (mine : bool) (pointer : string)
| ServerAdds (n : nat)
| ServerReads (n : nat) (attempts : list (option error * bool))
| ServerReadFails (n : nat)
| ServerPrepares (n : nat) (payload : slice) (topic : string)
| ServerWrites (net : gorilla) (n i : nat)
| ServerSetsHandler (handler : option PayloadHandler)
| ServerCloses (net : gorilla) (order : list nat) (errShutdown : option error)
| BytesLost (n up down : nat)
| OtherClient (n : nat) (up down : list bytes).

(** The connection of the client's wrapper, if any, is one of its own. *)
Definition own_connection (w : world) (conn : option nat) : bool :=
  match conn with
  | None => true
  | Some n => match w_sockets w !! n with Some sk => sk_mine sk | None => false end
  end.

Definition client_reads (w : world) (net : gorilla) (attempts : list (option error * bool)) : option world :=
  n ← wc_conn (c_wsConn (w_client w));
  sk ← w_sockets w !! n;
  match l_bytes (sk_down sk) with
  | [] => None
  | message :: rest =>
      let '(c, effects) := client_listen CloseMessage closeFrame net (w_client w) [Read message attempts] in
      Some (w_set_socket (w_set w c (w_out w)) n
        (sk_set sk (l_reply (sk_up sk) (transmitted effects attempts))
          (l_read (sk_down sk) rest (handles (c_transceiver (w_client w)) message effects)) (sk_out sk)))
  end.

(** [Send] of client.go up to the writing *)
Definition client_prepares (w : world) (payload : slice) (topic : string) : world :=
  let c := w_client w in
  let dropMessage := c_dropMessagesIfNoConnection c && negb (IsOpen (c_wsConn c)) in
  if dropMessage then w
  else let '(wt, out) := Send_prepares (c_transceiver c) (w_out w) payload topic in
       w_set w (c_set c (c_wsConn c) wt (c_closed c)) out.

Definition client_writes (w : world) (net : gorilla) (i : nat) : option world :=
  '(m, b) ← ob_pending (w_out w) !! i;
  let w1 := w_set w (w_client w) (Send_written_out (w_out w) i) in
  match wc_conn (c_wsConn (w_client w)) with
  | None => Some w1
  | Some n =>
      sk ← w_sockets w !! n;
      let write := WriteMessage net (c_wsConn (w_client w)) BinaryMessage in
      Some (w_set_socket w1 n (sk_set sk (l_write (sk_up sk) m (passed write [b])) (sk_down sk) (sk_out sk)))
  end.

(** A connection for which the server can make no transceiver is read by nobody; it
    is left out. *)
Definition server_accepts (w : world) (mine : bool) (pointer : string) : option world :=
  let n := length (tuples (w_server w)) in
  let s := addClientFunc nilLogger (w_server w) (Ok n) pointer in
  if bool_decide (length (tuples s) = S n)
  then Some {| w_client := w_client w; w_out := w_out w; w_server := s;
               w_sockets := w_sockets w ++ [new_socket mine] |}
  else None.

Definition server_reads (w : world) (n : nat) (attempts : list (option error * bool)) : option world :=
  t ← tuples (w_server w) !! n;
  sk ← w_sockets w !! n;
  match t_phase t, l_bytes (sk_up sk) with
  | Listening, message :: rest =>
      let '(s, effects) := goroutine_receives (w_server w) n t message attempts in
      Some (w_set_socket (w_set_server w s) n
        (sk_set sk (l_read (sk_up sk) rest (handles (t_transceiver t) message effects))
          (l_reply (sk_down sk) (transmitted effects attempts)) (sk_out sk)))
  | _, _ => None
  end.

(** A turn of the loop of [Send] of server.go, for a tuple that is or was in the holder *)
Definition server_prepares (w : world) (n : nat) (payload : slice) (topic : string) : option world :=
  t ← tuples (w_server w) !! n;
  sk ← w_sockets w !! n;
  let s := w_server w in
  let '(wt, out) := Send_prepares (t_transceiver t) (sk_out sk) payload topic in
  if decide (t_phase t = Adding) then None
  else Some (w_set_socket (w_set_server w (s_set s (<[n := t_set t wt (t_phase t)]> (tuples s)) (transceiverAndConn s)))
    n (sk_set sk (sk_up sk) (sk_down sk) out)).

Definition server_writes (w : world) (net : gorilla) (n i : nat) : option world :=
  t ← tuples (w_server w) !! n;
  sk ← w_sockets w !! n;
  '(m, b) ← ob_pending (sk_out sk) !! i;
  let write := WriteMessage net (t_conn t) BinaryMessage in
  Some (w_set_socket w n
    (sk_set sk (sk_up sk) (l_write (sk_down sk) m (passed write [b])) (Send_written_out (sk_out sk) i))).

Definition goroutine_turn (w : world) (n : nat) (p : phase)
    (turn : server -> nat -> tupleTransceiverAndConn -> server) : option world :=
  t ← tuples (w_server w) !! n;
  if decide (t_phase t = p) then Some (w_set_server w (turn (w_server w) n t)) else None.

Definition host_next (w : world) (ev : host_event) : option world :=
  match ev with
  | ClientOpens net =>
      let c := client_open net (w_client w) in
      if negb (c_closed (w_client w)) && own_connection w (wc_conn (c_wsConn c))
      then Some (w_set w c (w_out w)) else None
  | ClientReads net attempts => client_reads w net attempts
  | ClientReadFails net closing =>
      Some (w_set w (client_listen CloseMessage closeFrame net (w_client w) [ReadError closing]).1 (w_out w))
  | ClientPrepares payload topic => Some (client_prepares w payload topic)
  | ClientWrites net i => client_writes w net i
  | ClientSetsHandler handler => Some (w_set w (client_SetPayloadHandler (w_client w) handler).2 (w_out w))
  | ClientCloses net => Some (w_set w (client_Close CloseMessage closeFrame net (w_client w)).2 (w_out w))
  | ServerAccepts mine pointer => server_accepts w mine pointer
  | ServerAdds n => goroutine_turn w n Adding goroutine_adds
  | ServerReads n attempts => server_reads w n attempts
  | ServerReadFails n => goroutine_turn w n Listening goroutine_ends
  | ServerPrepares n payload topic => server_prepares w n payload topic
  | ServerWrites net n i => server_writes w net n i
  | ServerSetsHandler handler => Some (w_set_server w (server_SetPayloadHandler (w_server w) handler).2)
  | ServerCloses net order errShutdown =>
      Some (w_set_server w (server_Close CloseMessage closeFrame net (w_server w) order errShutdown).2)
  | BytesLost n up down =>
      sk ← w_sockets w !! n;
      Some (w_set_socket w n
        (sk_set sk (l_read (sk_up sk) (take up (l_bytes (sk_up sk))) [])
          (l_read (sk_down sk) (take down (l_bytes (sk_down sk))) []) (sk_out sk)))
  | OtherClient n up down =>
      sk ← w_sockets w !! n;
      if sk_mine sk then None
      else Some (w_set_socket w n (sk_set sk (l_read (sk_up sk) up []) (l_read (sk_down sk) down []) (sk_out sk)))
  end.

(** The messages that are sent are in the range of the marshaller. *)
Definition in_range (w : world) (ev : host_event) : Prop :=
  match ev with
  | ClientPrepares payload topic => ws_wf (asked_message (c_transceiver (w_client w)) payload topic)
  | ServerPrepares n payload topic =>
      forall t, tuples (w_server w) !! n = Some t -> ws_wf (asked_message (t_transceiver t) payload topic)
  | _ => True
  end.

Context (url_Parse : string -> result (string * (string -> string))).

Definition host_step (w w' : world) : Prop := exists ev, in_range w ev /\ host_next w ev = Some w'.

Inductive world_reachable (conv : webSocketsPayloadConverter) : world -> Prop :=
| WorldNew ac c args s :
    NewWebSocketClient nilLogger url_Parse ac = Ok c -> ac_PayloadConverter ac = Some conv ->
    NewWebSocketServer nilLogger args = Ok s -> as_PayloadConverter args = Some conv ->
    world_reachable conv {| w_client := c; w_out := new_outbox; w_server := s; w_sockets := [] |}
| WorldStep w w' : world_reachable conv w -> host_step w w' -> world_reachable conv w'.
End hosts.

(** ** The invariant *)

Section invariant.
Context (conv : webSocketsPayloadConverter) `{!ConverterLaws conv}.

(** A message that is asked for is pending or was put on one connection, once. *)
Record outbox_inv (out : outbox) (put : list WsMessage) : Prop := {
  out_sub : (ob_pending out).*1 ++ put ⊆+ ob_asked out;
  out_bytes m b : (m, b) ∈ ob_pending out -> payload_of conv b = Some (ws_canon m);
}.

#[export] Instance outbox_inv_proper out : Proper ((≡ₚ) ==> iff) (outbox_inv out).
Proof. intros p p' Hp. split; intros [H1 H2]; split; try done; [by rewrite <- Hp|by rewrite Hp]. Qed.

Lemma prepares_inv wt out put H payload topic wt' out' :
  Send_prepares wt out payload topic = (wt', out') -> ws_wf (asked_message wt payload topic) ->
  sender_inv conv wt (ob_asked out) H -> outbox_inv out put ->
  sender_inv conv wt' (ob_asked out') H /\ outbox_inv out' put.
Proof.
  unfold Send_prepares, prepareChanAndCounter. intros [= <- <-] Hwf Hs [Ho Hb]. split; [exact (sender_send conv wt _ H payload topic Hs)|].
  change (payload_message (wt_set_acks _ _ _ _ _) _ payload topic) with (asked_message wt payload topic).
  cbn [wt_set_acks payloadParser]. rewrite (snd_parser _ _ _ _ Hs).
  destruct (converter_roundtrip _ Hwf) as (b & Hm & Hne & Hx). rewrite Hm. split; cbn [ob_pending ob_asked].
  - rewrite fmap_app, <- app_assoc, (Permutation_app_comm _ put), app_assoc. by apply submseteq_app.
  - intros m' b' [Hin|Hin%list_elem_of_singleton]%elem_of_app; [by apply Hb|]. injection Hin as -> ->.
    unfold payload_of. specialize (Hne ltac:(done)). replace (len b =? 0) with false by lia. by rewrite Hx.
Qed.

(** The last of the prepared messages *)
Lemma prepares_last wt out payload topic wt' out' m b :
  Send_prepares wt out payload topic = (wt', out') -> ob_pending out' !! length (ob_pending out) = Some (m, b) ->
  m = asked_message wt payload topic.
Proof.
  unfold Send_prepares, prepareChanAndCounter. intros [= <- <-]. cbn [ob_pending].
  rewrite lookup_app_r, Nat.sub_diag by done. destruct (ConstructPayload _ _); [|done]. by intros [= <- _].
Qed.

Lemma writes_inv out put i m b :
  ob_pending out !! i = Some (m, b) -> outbox_inv out put ->
  outbox_inv (Send_written_out out i) put /\ outbox_inv (Send_written_out out i) (put ++ [m]).
Proof.
  intros Hi [Ho Hb]. pose proof (delete_Permutation _ _ _ Hi) as Hd.
  assert (Hin : forall m b, (m, b) ∈ delete i (ob_pending out) -> payload_of conv b = Some (ws_canon m)).
  { intros m' b' H. apply Hb. rewrite Hd. by apply elem_of_cons; right. }
  rewrite Hd in Ho. cbn [fmap list_fmap fst] in Ho.
  assert (Hmore : (delete i (ob_pending out)).*1 ++ put ++ [m] ⊆+ ob_asked out).
  { etrans; [|exact Ho]. rewrite app_assoc, Permutation_app_comm. done. }
  split; (split; [|exact Hin]); [|exact Hmore].
  etrans; [|exact Hmore]. rewrite app_assoc. by apply submseteq_inserts_r.
Qed.

(** *** A direction of a connection *)

Definition way (l back : lane) : Prop := lane_inv conv (l_put l) (l_bytes back) (l_bytes l) (l_handled l).

Lemma way_write l back m b w :
  payload_of conv b = Some (ws_canon m) -> way l back /\ way back l ->
  way (l_write l m (passed w [b])) back /\ way back (l_write l m (passed w [b])).
Proof.
  intros Hb [Hl Hk]. unfold passed. split.
  - apply lane_forth; [|done]. rewrite filter_cons, filter_nil.
    case_decide; cbn [omap list_omap]; [by rewrite Hb|apply sublist_nil_l].
  - apply lane_back; [|done]. intros b' [_ ->%list_elem_of_singleton]%list_elem_of_filter.
    by eapply ack_of_payload.
Qed.

Lemma way_read l back message rest wt attempts wt' effects :
  payloadParser wt = conv -> (forall m, m ∈ l_put l -> in_u 64 (Counter m)) -> l_bytes l = message :: rest ->
  verifyPayloadAndSendAckIfNeeded wt message attempts = (wt', effects) -> way l back /\ way back l ->
  way (l_read l rest (handles wt message effects)) (l_reply back (transmitted effects attempts))
  /\ way (l_reply back (transmitted effects attempts)) (l_read l rest (handles wt message effects)).
Proof.
  intros Hp Hu Hl Hv [Hw Hk].
  assert (Hm : forall m, payload_of conv message = Some m -> in_u 64 (Counter m)).
  { intros m. apply (lane_counter _ _ _ _ _ _ _ Hw Hu). rewrite Hl. apply list_elem_of_here. }
  unfold way in *. rewrite Hl in *. split.
  - by apply (lane_receive conv _ _ _ _ _ _ _ _ _ Hp Hm Hv).
  - simpl. rewrite <- (app_nil_r (l_put back)). apply lane_forth.
    + by rewrite (omap_transmitted conv _ _ _ _ _ Hp Hm Hv).
    + eapply lane_lost; [|done|exact Hk]. by constructor.
Qed.

Lemma way_lost l back i j :
  way l back /\ way back l ->
  way (l_read l (take i (l_bytes l)) []) (l_read back (take j (l_bytes back)) [])
  /\ way (l_read back (take j (l_bytes back)) []) (l_read l (take i (l_bytes l)) []).
Proof.
  unfold way, l_read. simpl. rewrite !app_nil_r.
  intros [Hl Hk]. split; (eapply lane_lost; [apply sublist_take..|done]).
Qed.

(** What an end receives does not harm it as a sender. *)
Lemma reads_sender wt sent (H : handled -> Prop) l back message rest attempts wt' effects :
  sender_inv conv wt sent H -> way back l -> l_bytes l = message :: rest -> (forall h, h ∈ l_handled back -> H h) ->
  verifyPayloadAndSendAckIfNeeded wt message attempts = (wt', effects) -> sender_inv conv wt' sent H.
Proof.
  intros Hs Hw Hl HH Hv. eapply sender_receive; [exact Hs|exact Hv|]. intros c Hc.
  destruct (lane_acks _ _ _ _ _ Hw message c) as (h & Hh & ?); [rewrite Hl; apply list_elem_of_here|done|].
  exists h. split; [by apply HH|done].
Qed.

(** *** The hosts *)

Record sock_inv (sk : socket) (wt : wsTransceiver) : Prop := {
  sk_ways : way (sk_up sk) (sk_down sk) /\ way (sk_down sk) (sk_up sk);
  sk_sender : sender_inv conv wt (ob_asked (sk_out sk)) (fun h => h ∈ l_handled (sk_down sk));
  sk_outbox : outbox_inv (sk_out sk) (l_put (sk_down sk));
}.

(** What the handlers of the server were given of the client's connections *)
Definition handled_of (sks : list socket) (h : handled) : Prop :=
  exists n sk, sks !! n = Some sk /\ sk_mine sk = true /\ h ∈ l_handled (sk_up sk).

Definition puts (sks : list socket) : list WsMessage := sks ≫= (fun sk => l_put (sk_up sk)).

Record world_inv (w : world) : Prop := {
  wi_conv : s_payloadConverter (w_server w) = conv;
  wi_len : length (tuples (w_server w)) = length (w_sockets w);
  wi_conn : own_connection w (wc_conn (c_wsConn (w_client w))) = true;
  wi_client : sender_inv conv (c_transceiver (w_client w)) (ob_asked (w_out w)) (handled_of (w_sockets w));
  wi_out : outbox_inv (w_out w) (puts (w_sockets w));
  wi_socks n sk t : w_sockets w !! n = Some sk -> tuples (w_server w) !! n = Some t -> sk_mine sk = true ->
    sock_inv sk (t_transceiver t);
}.

(** *** Changes of one side *)

Lemma client_change w c out :
  world_inv w -> own_connection w (wc_conn (c_wsConn c)) = true ->
  sender_inv conv (c_transceiver c) (ob_asked out) (handled_of (w_sockets w)) ->
  outbox_inv out (puts (w_sockets w)) -> world_inv (w_set w c out).
Proof. intros [H1 H2 H3 H4 H5 H6] Hc Hs Ho. by split. Qed.

(** The client changes without sending or receiving. *)
Lemma client_keeps w c :
  world_inv w -> own_connection w (wc_conn (c_wsConn c)) = true ->
  (forall sent H, sender_inv conv (c_transceiver (w_client w)) sent H -> sender_inv conv (c_transceiver c) sent H) ->
  world_inv (w_set w c (w_out w)).
Proof. intros Hw Hc Hs. apply client_change; [done|done|apply Hs, Hw|apply Hw]. Qed.

(** No tuple of the server sends or receives. *)
Lemma server_keeps w s :
  world_inv w -> s_payloadConverter s = conv -> length (tuples s) = length (tuples (w_server w)) ->
  (forall n t', tuples s !! n = Some t' -> exists t, tuples (w_server w) !! n = Some t /\ forall sent H,
     sender_inv conv (t_transceiver t) sent H -> sender_inv conv (t_transceiver t') sent H) ->
  world_inv (w_set_server w s).
Proof.
  intros [H1 H2 H3 H4 H5 H6] Hc Hl Ht. split; try done; simpl; [by rewrite Hl|].
  intros n sk t' Hsk Ht' Hm. destruct (Ht n t' Ht') as (t & Ht0 & Hs).
  destruct (H6 n sk t Hsk Ht0 Hm) as [Hw Hse Ho]. split; [done|by apply Hs|done].
Qed.

Lemma tuple_keeps w n t t' m :
  world_inv w -> tuples (w_server w) !! n = Some t -> t_transceiver t' = t_transceiver t ->
  world_inv (w_set_server w (s_set (w_server w) (<[n := t']> (tuples (w_server w))) m)).
Proof.
  intros Hw Ht Heq. apply server_keeps; [done|apply (wi_conv _ Hw)|apply length_insert|]. simpl.
  intros k t1 Hk. apply list_lookup_insert_Some in Hk as [(-> & <- & _)|[_ Hk]]; [|by exists t1].
  exists t. split; [done|]. by rewrite Heq.
Qed.

(** *** Changes of one connection *)

Lemma puts_insert sks n sk sk' more :
  sks !! n = Some sk -> l_put (sk_up sk') = l_put (sk_up sk) ++ more ->
  puts (<[n := sk']> sks) ≡ₚ puts sks ++ more.
Proof.
  intros Hn Hp. rewrite insert_take_drop by by eapply lookup_lt_Some.
  rewrite <- (take_drop_middle sks n sk Hn) at 3. unfold puts. rewrite !bind_app, !bind_cons, Hp.
  rewrite <- !app_assoc. do 2 f_equiv. apply Permutation_app_comm.
Qed.

Lemma handled_insert sks n sk sk' h :
  sks !! n = Some sk -> sk_mine sk' = sk_mine sk -> l_handled (sk_up sk) `sublist_of` l_handled (sk_up sk') ->
  handled_of sks h -> handled_of (<[n := sk']> sks) h.
Proof.
  intros Hn Hm Hh (k & ska & Hk & Hma & Hin). destruct (decide (k = n)) as [->|Hne].
  - exists n, sk'. rewrite list_lookup_insert_eq by by eapply lookup_lt_Some. simplify_eq. split_and!; [done|congruence|].
    by eapply elem_of_sublist.
  - exists k, ska. by rewrite list_lookup_insert_ne.
Qed.

Lemma own_insert w n sk sk' c out s conn :
  w_sockets w !! n = Some sk -> sk_mine sk' = sk_mine sk -> own_connection w conn = true ->
  own_connection {| w_client := c; w_out := out; w_server := s; w_sockets := <[n := sk']> (w_sockets w) |} conn = true.
Proof.
  intros Hn Hm. destruct conn as [k|]; [|done]. simpl. destruct (decide (k = n)) as [->|Hne].
  - rewrite Hn, list_lookup_insert_eq by by eapply lookup_lt_Some. by rewrite Hm.
  - by rewrite list_lookup_insert_ne.
Qed.

Lemma socket_change w n sk sk' t c out s t' :
  world_inv w -> w_sockets w !! n = Some sk -> tuples (w_server w) !! n = Some t ->
  sk_mine sk' = sk_mine sk -> l_handled (sk_up sk) `sublist_of` l_handled (sk_up sk') ->
  wc_conn (c_wsConn c) = wc_conn (c_wsConn (w_client w)) ->
  sender_inv conv (c_transceiver c) (ob_asked out) (handled_of (w_sockets w)) ->
  outbox_inv out (puts (<[n := sk']> (w_sockets w))) ->
  s_payloadConverter s = conv -> tuples s = <[n := t']> (tuples (w_server w)) ->
  (sk_mine sk = true -> sock_inv sk (t_transceiver t) -> sock_inv sk' (t_transceiver t')) ->
  world_inv {| w_client := c; w_out := out; w_server := s; w_sockets := <[n := sk']> (w_sockets w) |}.
Proof.
  intros [H1 H2 H3 H4 H5 H6] Hsk Ht Hm Hh Hc Hs Ho Hcv Hts Hsock. split; simpl; [done| | | |done|].
  - by rewrite Hts, !length_insert.
  - eapply own_insert; [done|done|by rewrite Hc].
  - eapply sender_mono; [|exact Hs]. intros h. by eapply handled_insert.
  - intros k ska ta Hk Hta Hma. rewrite Hts in Hta. destruct (decide (k = n)) as [->|Hne].
    + rewrite list_lookup_insert_eq in Hk by by eapply lookup_lt_Some.
      rewrite list_lookup_insert_eq in Hta by by eapply lookup_lt_Some.
      injection Hk as <-. injection Hta as <-. rewrite Hm in Hma. apply Hsock; [done|]. by apply (H6 n).
    + rewrite list_lookup_insert_ne in Hk by done. rewrite list_lookup_insert_ne in Hta by done. by apply (H6 k).
Qed.

Lemma put_counter w n sk m :
  world_inv w -> w_sockets w !! n = Some sk -> m ∈ l_put (sk_up sk) -> in_u 64 (Counter m).
Proof.
  intros Hw Hn Hm. apply (sender_counter _ _ _ _ _ (wi_client _ Hw)).
  eapply elem_of_submseteq; [|apply (out_sub _ _ (wi_out _ Hw))]. apply elem_of_app. right.
  unfold puts. apply list_elem_of_bind. exists sk. split; [done|by eapply list_elem_of_lookup_2].
Qed.

Lemma down_counter sk wt m :
  sock_inv sk wt -> m ∈ l_put (sk_down sk) -> in_u 64 (Counter m).
Proof.
  intros Hs Hm. apply (sender_counter _ _ _ _ _ (sk_sender _ _ Hs)).
  eapply elem_of_submseteq; [|apply (out_sub _ _ (sk_outbox _ _ Hs))]. apply elem_of_app. by right.
Qed.

Lemma socket_tuple w n sk : world_inv w -> w_sockets w !! n = Some sk -> is_Some (tuples (w_server w) !! n).
Proof. intros Hw Hn. apply lookup_lt_is_Some. rewrite (wi_len _ Hw). by eapply lookup_lt_Some. Qed.

(** *** The events *)

Section events.
Context (BinaryMessage CloseMessage : Z) (closeFrame : bytes) (nilLogger : error).

Lemma client_reads_inv w net attempts w' :
  world_inv w -> client_reads CloseMessage closeFrame w net attempts = Some w' -> world_inv w'.
Proof.
  intros Hw. unfold client_reads. destruct (wc_conn (c_wsConn (w_client w))) as [n|] eqn:Hn; [|done].
  cbn [mbind option_bind]. destruct (w_sockets w !! n) as [sk|] eqn:Hsk; [|done]. cbn [mbind option_bind].
  destruct (l_bytes (sk_down sk)) as [|message rest] eqn:Hl; [done|]. unfold client_listen. simpl.
  destruct (verifyPayloadAndSendAckIfNeeded _ message attempts) as [wt effects] eqn:Hv. cbn [app]. rewrite app_nil_r.
  intros [= <-]. destruct (socket_tuple w n sk Hw Hsk) as [t Ht].
  assert (Hm : sk_mine sk = true).
  { pose proof (wi_conn _ Hw) as Ho. unfold own_connection in Ho. by rewrite Hn, Hsk in Ho. }
  pose proof (wi_socks _ Hw n sk t Hsk Ht Hm) as Hsock. pose proof (sk_ways _ _ Hsock) as [Hup Hdown].
  pose proof (snd_parser _ _ _ _ (wi_client _ Hw)) as Hp.
  eapply (socket_change w n sk _ t _ _ _ t); try done; simpl.
  - eapply reads_sender; [apply (wi_client _ Hw)|exact Hup|exact Hl| |exact Hv]. intros h Hh. by exists n, sk.
  - rewrite (puts_insert _ _ _ _ [] Hsk), app_nil_r by (by rewrite app_nil_r). apply (wi_out _ Hw).
  - apply (wi_conv _ Hw).
  - by rewrite list_insert_id.
  - intros _ [_ Hs Ho]. split; simpl; [|eapply sender_mono; [|exact Hs]; set_solver|done].
    apply and_comm, (way_read _ _ _ _ _ _ _ _ Hp) with (3 := Hv); [|done|done].
    intros m. by apply (down_counter sk _ m Hsock).
Qed.

Lemma client_prepares_inv w payload topic :
  world_inv w -> ws_wf (asked_message (c_transceiver (w_client w)) payload topic) ->
  world_inv (client_prepares w payload topic).
Proof.
  intros Hw Hwf. unfold client_prepares. destruct (_ && _); [done|].
  destruct (Send_prepares _ _ _ _) as [wt out] eqn:Hs.
  destruct (prepares_inv _ _ _ _ _ _ _ _ Hs Hwf (wi_client _ Hw) (wi_out _ Hw)) as [H1 H2].
  apply client_change; [done|apply (wi_conn _ Hw)|done|done].
Qed.

Lemma client_writes_inv w net i w' :
  world_inv w -> client_writes BinaryMessage w net i = Some w' -> world_inv w'.
Proof.
  intros Hw. unfold client_writes. destruct (ob_pending (w_out w) !! i) as [[m b]|] eqn:Hi; [|done].
  cbn [mbind option_bind]. destruct (writes_inv _ _ _ _ _ Hi (wi_out _ Hw)) as [Ho1 Ho2].
  pose proof (out_bytes _ _ (wi_out _ Hw) m b ltac:(by eapply list_elem_of_lookup_2)) as Hb.
  destruct (wc_conn (c_wsConn (w_client w))) as [n|] eqn:Hn.
  - destruct (w_sockets w !! n) as [sk|] eqn:Hsk; [|done]. cbn [mbind option_bind]. intros [= <-].
    destruct (socket_tuple w n sk Hw Hsk) as [t Ht].
    eapply (socket_change w n sk _ t _ _ _ t); try done; simpl.
    + apply (wi_client _ Hw).
    + by rewrite (puts_insert _ _ _ _ [m] Hsk).
    + apply (wi_conv _ Hw).
    + by rewrite list_insert_id.
    + intros _ [Hways Hs Ho]. split; [|done|done]. by apply way_write.
  - intros [= <-]. apply client_change; [done| |apply (wi_client _ Hw)|done]. apply (wi_conn _ Hw).
Qed.

Lemma connectionHandler_new s conn :
  length (tuples (connectionHandler nilLogger s conn)) = S (length (tuples s)) ->
  exists t, tuples (connectionHandler nilLogger s conn) = tuples s ++ [t]
    /\ s_payloadConverter (connectionHandler nilLogger s conn) = s_payloadConverter s
    /\ (s_payloadConverter s = conv -> forall H, sender_inv conv (t_transceiver t) [] H).
Proof.
  unfold connectionHandler. destruct (NewTransceiver _ _) as [wt|] eqn:Hn; [|lia]. intros _. eexists.
  split; [done|]. split; [done|]. intros Hc H. simpl. apply sender_handler. eapply sender_new; [exact Hn|].
  simpl. by rewrite Hc.
Qed.

Lemma server_accepts_inv w mine pointer w' :
  world_inv w -> server_accepts nilLogger w mine pointer = Some w' -> world_inv w'.
Proof.
  intros [H1 H2 H3 H4 H5 H6]. unfold server_accepts. cbn [addClientFunc]. case_bool_decide as Hl; [|done]. intros [= <-].
  destruct (connectionHandler_new _ _ Hl) as (t & Ht & Hc & Hs). split; simpl.
  - by rewrite Hc.
  - rewrite Ht, !length_app, H2. done.
  - unfold own_connection in *. destruct (wc_conn _) as [n|]; [|done]. cbn [w_sockets].
    destruct (w_sockets w !! n) eqn:Hn; [|done]. by rewrite (lookup_app_l_Some _ _ _ _ Hn).
  - eapply sender_mono; [|exact H4]. intros h (n & sk & Hn & ?). exists n, sk. split; [|done].
    by apply lookup_app_l_Some.
  - unfold puts. by rewrite bind_app, app_nil_r.
  - intros n sk t' Hsk Ht' Hm. rewrite Ht in Ht'. apply lookup_snoc_Some in Hsk as [[Hlt Hsk]|[-> <-]].
    + rewrite lookup_app_l in Ht' by lia. by apply (H6 n).
    + rewrite <- H2, list_lookup_middle in Ht' by done. injection Ht' as <-.
      split; simpl; [split; apply lane_new|by apply Hs|]. split; simpl; [done|by intros ???%elem_of_nil].
Qed.

Lemma server_reads_inv w n attempts w' :
  world_inv w -> server_reads w n attempts = Some w' -> world_inv w'.
Proof.
  intros Hw. unfold server_reads. destruct (tuples (w_server w) !! n) as [t|] eqn:Ht; [|done].
  cbn [mbind option_bind]. destruct (w_sockets w !! n) as [sk|] eqn:Hsk; [|done]. cbn [mbind option_bind].
  destruct (t_phase t); [done| |done]. destruct (l_bytes (sk_up sk)) as [|message rest] eqn:Hl; [done|].
  unfold goroutine_receives. destruct (verifyPayloadAndSendAckIfNeeded _ message attempts) as [wt effects] eqn:Hv.
  intros [= <-]. eapply (socket_change w n sk _ t _ _ _ (t_set t wt Listening)); try done; simpl.
  - by apply sublist_inserts_r.
  - apply (wi_client _ Hw).
  - rewrite (puts_insert _ _ _ _ [] Hsk), app_nil_r by (by rewrite app_nil_r). apply (wi_out _ Hw).
  - apply (wi_conv _ Hw).
  - intros _ [Hways Hs Ho]. split; simpl; [| |done].
    + apply (way_read _ _ _ _ _ _ _ _ (snd_parser _ _ _ _ Hs)) with (3 := Hv); [|done|done].
      intros m. by apply (put_counter w n sk m).
    + eapply reads_sender; [exact Hs|apply Hways|exact Hl|done|exact Hv].
Qed.

Lemma server_prepares_inv w n payload topic w' :
  world_inv w -> (forall t, tuples (w_server w) !! n = Some t -> ws_wf (asked_message (t_transceiver t) payload topic)) ->
  server_prepares w n payload topic = Some w' -> world_inv w'.
Proof.
  intros Hw Hwf. unfold server_prepares. destruct (tuples (w_server w) !! n) as [t|] eqn:Ht; [|done].
  cbn [mbind option_bind]. destruct (w_sockets w !! n) as [sk|] eqn:Hsk; [|done]. cbn [mbind option_bind].
  destruct (Send_prepares _ _ _ _) as [wt out] eqn:Hp. case_decide; [done|]. intros [= <-].
  eapply (socket_change w n sk _ t _ _ _ (t_set t wt (t_phase t))); try done; simpl.
  - apply (wi_client _ Hw).
  - rewrite (puts_insert _ _ _ _ [] Hsk), app_nil_r by (by rewrite app_nil_r). apply (wi_out _ Hw).
  - apply (wi_conv _ Hw).
  - intros _ [Hways Hs Ho]. by destruct (prepares_inv _ _ _ _ _ _ _ _ Hp (Hwf t eq_refl) Hs Ho).
Qed.

Lemma server_writes_inv w net n i w' :
  world_inv w -> server_writes BinaryMessage w net n i = Some w' -> world_inv w'.
Proof.
  intros Hw. unfold server_writes. destruct (tuples (w_server w) !! n) as [t|] eqn:Ht; [|done].
  cbn [mbind option_bind]. destruct (w_sockets w !! n) as [sk|] eqn:Hsk; [|done]. cbn [mbind option_bind].
  destruct (ob_pending (sk_out sk) !! i) as [[m b]|] eqn:Hi; [|done]. cbn [mbind option_bind]. intros [= <-].
  eapply (socket_change w n sk _ t _ _ _ t); try done; simpl.
  - apply (wi_client _ Hw).
  - rewrite (puts_insert _ _ _ _ [] Hsk), app_nil_r by (by rewrite app_nil_r). apply (wi_out _ Hw).
  - apply (wi_conv _ Hw).
  - by rewrite list_insert_id.
  - intros _ [Hways Hs Ho]. destruct (writes_inv _ _ _ _ _ Hi Ho) as [_ Ho2]. split; simpl; [|done|done].
    apply and_comm, way_write; [|by apply and_comm]. apply (out_bytes _ _ Ho). by eapply list_elem_of_lookup_2.
Qed.

Lemma Close_own w net conn :
  own_connection w (wc_conn conn) = true ->
  own_connection w (wc_conn (wc_Close CloseMessage closeFrame net conn).1.2) = true.
Proof.
  intros Ho. unfold wc_Close. destruct (wc_conn conn) as [n|] eqn:Hn; [destruct (conn_Close net n)|];
    simpl; by rewrite ?Hn.
Qed.

Lemma client_ReadFails_inv w net closing :
  world_inv w ->
  world_inv (w_set w (client_listen CloseMessage closeFrame net (w_client w) [ReadError closing]).1 (w_out w)).
Proof.
  intros Hw. unfold client_listen. simpl. destruct closing; simpl; apply client_keeps; try done; simpl.
  - apply (wi_conn _ Hw).
  - apply Close_own, (wi_conn _ Hw).
Qed.

Lemma client_Close_inv w net :
  world_inv w -> world_inv (w_set w (client_Close CloseMessage closeFrame net (w_client w)).2 (w_out w)).
Proof.
  intros Hw. pose proof (Close_own w net _ (wi_conn _ Hw)) as Hc. unfold client_Close, wt_Close.
  destruct (wc_Close _ _ _ _) as [[err conn] written]. apply client_keeps; [done|done|].
  intros sent H. apply sender_close.
Qed.

(** What the closing of the server leaves of its tuples *)
Lemma Close_loop_tuples net order s err :
  let s' := (server_Close_loop CloseMessage closeFrame net s order err).2 in
  s_payloadConverter s' = s_payloadConverter s /\ length (tuples s') = length (tuples s)
  /\ forall n t', tuples s' !! n = Some t' -> exists t, tuples s !! n = Some t /\ forall sent H,
       sender_inv conv (t_transceiver t) sent H -> sender_inv conv (t_transceiver t') sent H.
Proof.
  revert s err. induction order as [|k order IH]; intros s err; simpl; [by split_and!; eauto|].
  destruct (tuples s !! k) as [t|] eqn:Hk; [|apply IH].
  destruct (wc_Close _ _ _ _) as [[err' conn] written].
  set (s1 := s_set _ _ _). destruct (IH s1 (match err' with Some _ => err' | None =>
    match ph_Close (payloadHandler (t_transceiver t)) with
    | Some _ => ph_Close (payloadHandler (t_transceiver t)) | None => err end end)) as (-> & -> & Hall).
  unfold s1 at 1 2. simpl. rewrite length_insert. split_and!; [done|done|].
  intros n t' Ht'. destruct (Hall n t' Ht') as (t1 & Ht1 & Hs1). unfold s1 in Ht1. simpl in Ht1.
  apply list_lookup_insert_Some in Ht1 as [(-> & <- & _)|[_ Ht1]]; [|by exists t1].
  exists t. split; [done|]. intros sent H Hs. by apply Hs1, sender_close.
Qed.

Lemma goroutine_turn_inv w n p turn w' :
  (forall s n t, exists t' m, turn s n t = s_set s (<[n := t']> (tuples s)) m /\ t_transceiver t' = t_transceiver t) ->
  world_inv w -> goroutine_turn w n p turn = Some w' -> world_inv w'.
Proof.
  intros Hturn Hw. unfold goroutine_turn. destruct (tuples (w_server w) !! n) as [t|] eqn:Ht; [|done].
  cbn [mbind option_bind]. case_decide; [|done]. intros [= <-].
  destruct (Hturn (w_server w) n t) as (t' & m & -> & Heq). by eapply tuple_keeps.
Qed.

Lemma BytesLost_inv w n sk i j :
  world_inv w -> w_sockets w !! n = Some sk ->
  world_inv (w_set_socket w n
    (sk_set sk (l_read (sk_up sk) (take i (l_bytes (sk_up sk))) [])
      (l_read (sk_down sk) (take j (l_bytes (sk_down sk))) []) (sk_out sk))).
Proof.
  intros Hw Hsk. destruct (socket_tuple w n sk Hw Hsk) as [t Ht].
  eapply (socket_change w n sk _ t _ _ _ t); try done; simpl.
  - by rewrite app_nil_r.
  - apply (wi_client _ Hw).
  - rewrite (puts_insert _ _ _ _ [] Hsk), app_nil_r by (by rewrite app_nil_r). apply (wi_out _ Hw).
  - apply (wi_conv _ Hw).
  - by rewrite list_insert_id.
  - intros _ [Hways Hs Ho]. split; simpl; [by apply way_lost|by rewrite app_nil_r|done].
Qed.

Lemma OtherClient_inv w n sk up down :
  world_inv w -> w_sockets w !! n = Some sk -> sk_mine sk = false ->
  world_inv (w_set_socket w n (sk_set sk (l_read (sk_up sk) up []) (l_read (sk_down sk) down []) (sk_out sk))).
Proof.
  intros Hw Hsk Hm. destruct (socket_tuple w n sk Hw Hsk) as [t Ht].
  eapply (socket_change w n sk _ t _ _ _ t); try done; simpl.
  - by rewrite app_nil_r.
  - apply (wi_client _ Hw).
  - rewrite (puts_insert _ _ _ _ [] Hsk), app_nil_r by (by rewrite app_nil_r). apply (wi_out _ Hw).
  - apply (wi_conv _ Hw).
  - by rewrite list_insert_id.
  - by rewrite Hm.
Qed.

Lemma host_next_inv w ev w' :
  world_inv w -> in_range w ev -> host_next BinaryMessage CloseMessage closeFrame nilLogger w ev = Some w' ->
  world_inv w'.
Proof.
  intros Hw Hr. destruct ev as [net|net att|net cl|pay top|net i|hd|net|mine ptr|n|n att|n|n pay top|net n i|hd|net ord e
    |n up dn|n up dn]; cbn [host_next].
  - destruct (negb _); [|done]. cbn [andb]. destruct (own_connection _ _) eqn:Ho; [|done]. intros [= <-].
    by apply client_keeps.
  - by apply client_reads_inv.
  - intros [= <-]. by apply client_ReadFails_inv.
  - intros [= <-]. by apply client_prepares_inv.
  - by apply client_writes_inv.
  - intros [= <-]. unfold client_SetPayloadHandler.
    pose proof (fun sent H => sender_handler conv (c_transceiver (w_client w)) sent H hd) as Hh.
    destruct (wt_SetPayloadHandler _ _) as [err wt]. apply client_keeps; [done|apply (wi_conn _ Hw)|done].
  - intros [= <-]. by apply client_Close_inv.
  - by apply server_accepts_inv.
  - apply goroutine_turn_inv; [|done]. intros s k t. by eexists _, _.
  - by apply server_reads_inv.
  - apply goroutine_turn_inv; [|done]. intros s k t. by eexists _, _.
  - by apply server_prepares_inv.
  - by apply server_writes_inv.
  - intros [= <-]. apply server_keeps; [done|apply (wi_conv _ Hw)|done|eauto].
  - intros [= <-]. destruct (Close_loop_tuples net ord (w_server w) e) as (Hc & Hl & Ht).
    apply server_keeps; [done|by rewrite <- (wi_conv _ Hw)|done|done].
  - destruct (w_sockets w !! n) as [sk|] eqn:Hsk; [|done]. intros [= <-]. by apply BytesLost_inv.
  - destruct (w_sockets w !! n) as [sk|] eqn:Hsk; [|done]. cbn [mbind option_bind].
    destruct (sk_mine sk) eqn:Hm; [done|]. intros [= <-]. by apply OtherClient_inv.
Qed.

Lemma world_reachable_inv url_Parse w :
  world_reachable BinaryMessage CloseMessage closeFrame nilLogger url_Parse conv w -> world_inv w.
Proof.
  induction 1 as [ac c args s Hc Hac Hs Has|w w' _ IH (ev & Hr & Hn)]; [|by eapply host_next_inv].
  unfold NewWebSocketClient in Hc. rewrite guard_err_Ok, Hac in Hc. destruct Hc as [_ Hc].
  rewrite !guard_err_Ok in Hc. destruct Hc as (_ & _ & Hc).
  destruct (NewTransceiver _ _) as [wt|] eqn:Hwt; [|done]. cbn [mbind result_bind] in Hc.
  destruct (url_Parse _) as [[scheme path]|]; [|done]. rewrite guard_err_Ok in Hc. destruct Hc as [_ Hc].
  apply (inj Ok) in Hc as <-.
  unfold NewWebSocketServer in Hs. rewrite guard_err_Ok, Has in Hs. destruct Hs as [_ Hs].
  rewrite !guard_err_Ok in Hs. destruct Hs as (_ & _ & Hs). apply (inj Ok) in Hs as <-.
  split; simpl; try done; [by eapply sender_new|]. split; [done|by intros ???%elem_of_nil].
Qed.

(** ** What the hosts promise *)

(** What the handlers of the server were given of the client's connections *)
Definition delivered (w : world) : list WsMessage :=
  w_sockets w ≫= (fun sk => if sk_mine sk then h_msg <$> l_handled (sk_up sk) else []).

Lemma bind_submseteq {A B} (f g : A -> list B) (l : list A) :
  (forall n x, l !! n = Some x -> f x ⊆+ g x) -> l ≫= f ⊆+ l ≫= g.
Proof.
  induction l as [|x l IH]; intros H; [done|]. rewrite !bind_cons. apply submseteq_app; [by apply (H 0%nat)|].
  apply IH. intros n. apply (H (S n)).
Qed.

Lemma fmap_bind {A B C} (f : B -> C) (g : A -> list B) (l : list A) :
  f <$> (l ≫= g) = l ≫= (fun x => f <$> g x).
Proof. induction l as [|x l IH]; [done|]. by rewrite !bind_cons, fmap_app, IH. Qed.

Lemma submseteq_NoDup {A} (l k : list A) : l ⊆+ k -> NoDup k -> NoDup l.
Proof. intros [k' ->]%submseteq_Permutation. by intros [? _]%NoDup_app. Qed.

Lemma delivered_asked w : world_inv w -> delivered w ⊆+ ws_canon <$> ob_asked (w_out w).
Proof.
  intros Hw. trans (ws_canon <$> puts (w_sockets w)).
  - unfold delivered, puts. rewrite fmap_bind. apply bind_submseteq. intros n sk Hn.
    destruct (sk_mine sk) eqn:Hm; [|apply submseteq_nil_l]. destruct (socket_tuple w n sk Hw Hn) as [t Ht].
    apply sublist_submseteq. eapply lane_handled. apply (sk_ways _ _ (wi_socks _ Hw n sk t Hn Ht Hm)).
  - apply fmap_submseteq. etrans; [|apply (out_sub _ _ (wi_out _ Hw))]. by apply submseteq_inserts_l.
Qed.

(** C3: the delivery of what the client sends, over all its connections, whatever breaks,
    overlaps or is closed. On each connection the server's handler is given, in the order of
    the writes and each at most once, what the client wrote to it; over all the connections together
    no more than what the client's transceiver was asked to send, and no message twice, even when
    an old connection is still being read after the next was opened; and a send that ends
    without error, on whichever connection its acknowledgement arrived, was handled by
    the handler of one of the connections, which accepted it, unless errors were not to block the
    acknowledgements. *)
Theorem client_messages_delivered url_Parse w :
  world_reachable BinaryMessage CloseMessage closeFrame nilLogger url_Parse conv w ->
  (forall n sk, w_sockets w !! n = Some sk -> sk_mine sk = true ->
     (h_msg <$> l_handled (sk_up sk)) `sublist_of` (ws_canon <$> l_put (sk_up sk))
     /\ forall h, h ∈ l_handled (sk_up sk) -> given h (h_msg h))
  /\ delivered w ⊆+ ws_canon <$> ob_asked (w_out w)
  /\ (Z.of_nat (length (ob_asked (w_out w))) <= 2 ^ 64 ->
      NoDup (delivered w)
      /\ forall ch timeout, waitForAck (c_transceiver (w_client w)) ch timeout None ->
         exists m n sk h, ob_asked (w_out w) !! ch = Some m /\ w_sockets w !! n = Some sk /\ sk_mine sk = true
           /\ h ∈ l_handled (sk_up sk) /\ given h (ws_canon m) /\ (h_err h = None \/ h_blocking h = false)).
Proof.
  intros Hr. pose proof (world_reachable_inv url_Parse w Hr) as Hw. pose proof (delivered_asked w Hw) as Hsub.
  split_and!; [|exact Hsub|].
  - intros n sk Hn Hm. destruct (socket_tuple w n sk Hw Hn) as [t Ht].
    destruct (sk_ways _ _ (wi_socks _ Hw n sk t Hn Ht Hm)) as [Hup _].
    split; [by eapply lane_handled|apply (lane_given _ _ _ _ _ Hup)].
  - intros Hlen. split; [eapply submseteq_NoDup; [exact Hsub|]; by eapply sent_NoDup; [apply (wi_client _ Hw)|]|].
    intros ch timeout Hwait. assert (Hcl : ch ∈ closedAcks (c_transceiver (w_client w)))
      by (by destruct Hwait as [[? _]|[[_ ?]|[_ ?]]]).
    destruct (closed_handled _ _ _ _ ch (wi_client _ Hw)) as (m & h & Hm & (n & sk & Hn & Hmine & Hh) & Heq & Hmay);
      [|done|done|by exists m, n, sk, h].
    intros h (n & sk & Hn & Hm & Hh). destruct (socket_tuple w n sk Hw Hn) as [t Ht].
    split; [|apply (lane_given _ _ _ _ _ (proj1 (sk_ways _ _ (wi_socks _ Hw n sk t Hn Ht Hm)))), Hh].
    eapply elem_of_submseteq; [|exact Hsub]. unfold delivered. apply list_elem_of_bind. exists sk. rewrite Hm. split; [by apply list_elem_of_fmap_2|by eapply list_elem_of_lookup_2].
Qed.

(** C21: the delivery of what the server sends to one of its clients: the handler of the client is
    given, in the order of the writes, each at most once, what the server's transceiver of this
    connection wrote, whatever the other connections of the same client do, and a
    send of this transceiver that ends without error was handled and accepted by the
    client. *)
Theorem server_messages_delivered url_Parse w n sk t :
  world_reachable BinaryMessage CloseMessage closeFrame nilLogger url_Parse conv w ->
  w_sockets w !! n = Some sk -> sk_mine sk = true -> tuples (w_server w) !! n = Some t ->
  (h_msg <$> l_handled (sk_down sk)) `sublist_of` (ws_canon <$> l_put (sk_down sk))
  /\ (forall h, h ∈ l_handled (sk_down sk) -> given h (h_msg h))
  /\ l_put (sk_down sk) ⊆+ ob_asked (sk_out sk)
  /\ (Z.of_nat (length (ob_asked (sk_out sk))) <= 2 ^ 64 ->
      NoDup (h_msg <$> l_handled (sk_down sk))
      /\ forall ch timeout, waitForAck (t_transceiver t) ch timeout None ->
         exists m h, ob_asked (sk_out sk) !! ch = Some m /\ h ∈ l_handled (sk_down sk)
           /\ given h (ws_canon m) /\ (h_err h = None \/ h_blocking h = false)).
Proof.
  intros Hr Hn Hm Ht. pose proof (world_reachable_inv url_Parse w Hr) as Hw.
  destruct (wi_socks _ Hw n sk t Hn Ht Hm) as [[_ Hd] Hs Ho]. pose proof (lane_handled _ _ _ _ _ Hd) as Hsub.
  assert (Hput : l_put (sk_down sk) ⊆+ ob_asked (sk_out sk)).
  { etrans; [|apply (out_sub _ _ Ho)]. by apply submseteq_inserts_l. }
  assert (Hall : h_msg <$> l_handled (sk_down sk) ⊆+ ws_canon <$> ob_asked (sk_out sk)).
  { etrans; [by apply sublist_submseteq|]. by apply fmap_submseteq. }
  split_and!; [done|apply (lane_given _ _ _ _ _ Hd)|done|]. intros Hlen.
  split; [eapply submseteq_NoDup; [exact Hall|]; by eapply sent_NoDup|].
  intros ch timeout Hwait. apply (closed_handled _ _ _ _ ch Hs); [|done|by destruct Hwait as [[? _]|[[_ ?]|[_ ?]]]].
  intros h Hh. split; [|by apply (lane_given _ _ _ _ _ Hd)].
  eapply elem_of_submseteq; [|exact Hall]. by apply list_elem_of_fmap_2.
Qed.

(** *** Connecting again *)

Notation step := (host_step BinaryMessage CloseMessage closeFrame nilLogger).

Lemma step_by w ev w' :
  in_range w ev -> host_next BinaryMessage CloseMessage closeFrame nilLogger w ev = Some w' -> step w w'.
Proof. intros Hr Hn. by exists ev. Qed.

(** A network over which the client can dial connection [n] *)
Definition working (n : nat) : gorilla := {|
  Dial _ := Ok n; conn_ReadMessage _ := Err ErrConnectionNotOpen; conn_WriteMessage _ _ _ := None;
  conn_Close _ := None |}.

(** The server makes transceivers. *)
Definition serves (s : server) : Prop :=
  forall conn, length (tuples (connectionHandler nilLogger s conn)) = S (length (tuples s)).

Lemma connectionHandler_tuple s conn :
  serves s -> s_payloadConverter s = conv -> exists wt,
    connectionHandler nilLogger s conn
      = s_set s (tuples s ++ [{| t_transceiver := wt; t_conn := conn; t_phase := Adding |}]) (transceiverAndConn s)
    /\ payloadParser wt = conv /\ blockingAckOnError wt = s_blockingAckOnError s
    /\ payloadHandler wt = default NewNilPayloadHandler (s_payloadHandler s).
Proof.
  intros Hl Hc. specialize (Hl conn). unfold connectionHandler in *.
  destruct (NewTransceiver _ _) as [wt|] eqn:Hn; [|lia]. eexists. split; [done|].
  unfold NewTransceiver in Hn. rewrite guard_err_Ok in Hn. destruct Hn as [_ Hn]. simpl in Hn.
  rewrite !guard_err_Ok in Hn. destruct Hn as (_ & _ & Hn). apply (inj Ok) in Hn as <-.
  by destruct (s_payloadHandler s).
Qed.

(** The connection of the client is given up and a new one is opened. *)
Lemma reconnects w (pointer : string) :
  world_inv w -> c_closed (w_client w) = false -> serves (w_server w) ->
  let n := length (tuples (w_server w)) in
  exists w1 t, rtc step w w1
    /\ c_transceiver (w_client w1) = c_transceiver (w_client w)
    /\ wc_conn (c_wsConn (w_client w1)) = Some n /\ w_out w1 = w_out w
    /\ w_sockets w1 !! n = Some (new_socket true) /\ tuples (w_server w1) !! n = Some t
    /\ t_phase t = Listening /\ payloadParser (t_transceiver t) = conv
    /\ blockingAckOnError (t_transceiver t) = s_blockingAckOnError (w_server w)
    /\ payloadHandler (t_transceiver t) = default NewNilPayloadHandler (s_payloadHandler (w_server w)).
Proof.
  intros Hw Hc Hs n.
  destruct (connectionHandler_tuple _ (NewWSConnClientWithConn n pointer) Hs (wi_conv _ Hw)) as (wt & Hh & Hp & Hb & Hph).
  set (c1 := c_set (w_client w) (wc_set_conn (c_wsConn (w_client w)) None) (c_transceiver (w_client w)) false).
  set (t0 := {| t_transceiver := wt; t_conn := NewWSConnClientWithConn n pointer; t_phase := Adding |}).
  set (s1 := s_set (w_server w) (tuples (w_server w) ++ [t0]) (transceiverAndConn (w_server w))).
  set (sks := w_sockets w ++ [new_socket true]).
  assert (Hsk : sks !! n = Some (new_socket true)).
  { unfold sks, n. by rewrite (wi_len _ Hw), list_lookup_middle. }
  set (c2 := c_set c1 (wc_set_conn (c_wsConn c1) (Some n)) (c_transceiver c1) false).
  set (t1 := t_set t0 wt Listening).
  exists {| w_client := c2; w_out := w_out w; w_server := goroutine_adds s1 n t0; w_sockets := sks |}, t1.
  assert (Ht : tuples s1 !! n = Some t0) by (unfold s1, n; simpl; by rewrite list_lookup_middle).
  split.
  - eapply rtc_l; [apply (step_by _ (ClientReadFails (working n) false)); [done|reflexivity]|].
    replace (w_set w _ _) with (w_set w c1 (w_out w)).
    2:{ unfold c1, client_listen, wc_Close. simpl. rewrite Hc. f_equal.
        destruct (wc_conn (c_wsConn (w_client w))) eqn:He; [done|]. simpl. f_equal. unfold wc_set_conn.
        destruct (c_wsConn (w_client w)). simpl in *. by rewrite He. }
    eapply rtc_l; [apply (step_by _ (ServerAccepts true pointer)); [done|]|].
    { cbn [host_next]. unfold server_accepts. cbn [w_server w_set addClientFunc]. fold n.
      rewrite Hh. rewrite bool_decide_true; [reflexivity|]. simpl. rewrite length_app. simpl. lia. }
    eapply rtc_l; [apply (step_by _ (ClientOpens (working n))); [done|]|].
    { cbn [host_next]. unfold client_open, OpenConnection, own_connection.
      cbn [w_client w_set c1 c_set c_wsConn wc_set_conn wc_conn working Dial snd c_closed negb andb w_sockets].
      fold sks. rewrite Hsk. reflexivity. }
    apply rtc_once, (step_by _ (ServerAdds n)); [done|].
    cbn [host_next]. unfold goroutine_turn. cbn [w_server w_set]. fold t0 s1. rewrite Ht. reflexivity.
  - split_and!; try done. simpl. rewrite list_lookup_insert_eq; [done|]. rewrite length_app. simpl. lia.
Qed.

Lemma passed_all w (l : list bytes) : (forall b, w b = None) -> passed w l = l.
Proof. intros Hw. induction l as [|b l IH]; [done|]. unfold passed in *. by rewrite filter_cons, decide_True, IH. Qed.

(** What the halves of a send, its reception and its acknowledgement do *)
Lemma exchange_parts wt r out put H payload topic :
  sender_inv conv wt (ob_asked out) H -> outbox_inv out put -> payloadParser r = conv ->
  withAcknowledge wt = true -> safeCloser wt = false -> ws_wf (asked_message wt payload topic) ->
  (ProcessPayload (payloadHandler r) (canon payload) topic (payloadVersion wt) = None \/ blockingAckOnError r = false) ->
  exists b ack wt1 out1 wt2, let m := asked_message wt payload topic in
    Send_prepares wt out payload topic = (wt1, out1) /\ ob_asked out1 = ob_asked out ++ [m]
    /\ ob_pending out1 !! length (ob_pending out) = Some (m, b)
    /\ (exists h, handles r b [DoProcessPayload (canon payload) topic (payloadVersion wt); DoWriteMessage ack] = [h]
         /\ given h (ws_canon m))
    /\ verifyPayloadAndSendAckIfNeeded r b [(None, false)]
       = (r, [DoProcessPayload (canon payload) topic (payloadVersion wt); DoWriteMessage ack])
    /\ verifyPayloadAndSendAckIfNeeded wt1 ack [] = (wt2, [])
    /\ forall err, waitForAck wt2 (madeAcks wt) false err <-> err = None.
Proof.
  intros Hs Ho Hpr Hack Hsc Hwf Hproc. pose proof (snd_parser _ _ _ _ Hs) as Hp.
  destruct (send_ack_roundtrip conv wt r payload topic [] false [] Hp Hpr Hack Hsc Hwf Hproc)
    as (b & ack & wt1 & Hsend & Hrecv & Hlast).
  cbn [fmap list_fmap app length replicate] in Hrecv.
  pose proof (Send_halves (fun _ => None) wt out payload topic) as Hh. rewrite Hsend in Hh.
  destruct (Send_prepares wt out payload topic) as [wt1' out1] eqn:Hprep. destruct Hh as (<- & Hasked & Hpend).
  destruct (prepares_inv _ _ _ _ _ _ _ _ Hprep Hwf Hs Ho) as [_ Hout].
  destruct (ob_pending out1 !! length (ob_pending out)) as [[m b']|] eqn:Hi; [|by destruct Hpend].
  destruct Hpend as [[= <-] _].
  assert (Hm : m = asked_message wt payload topic) by (by eapply prepares_last). subst m.
  assert (Hpay : payload_of conv b = Some (ws_canon (asked_message wt payload topic))).
  { apply (out_bytes _ _ Hout). by eapply list_elem_of_lookup_2. }
  destruct (verifyPayloadAndSendAckIfNeeded wt1 ack []) as [wt2 eff] eqn:Hv2. destruct Hlast as (-> & _ & Hwait).
  exists b, ack, wt1, out1, wt2. split_and!; try done. rewrite (handles_calls _ _ _ _ _ Hrecv).
  unfold handling_of. rewrite Hpr, Hpay. eexists. split; [done|by split_and!].
Qed.

(** A message that is sent over a new connection, and acknowledged *)
Lemma exchange w n t payload topic :
  let wt := c_transceiver (w_client w) in
  world_inv w -> withAcknowledge wt = true -> safeCloser wt = false -> ws_wf (asked_message wt payload topic) ->
  wc_conn (c_wsConn (w_client w)) = Some n -> w_sockets w !! n = Some (new_socket true) ->
  tuples (w_server w) !! n = Some t -> t_phase t = Listening -> payloadParser (t_transceiver t) = conv ->
  (ProcessPayload (payloadHandler (t_transceiver t)) (canon payload) topic (payloadVersion wt) = None
   \/ blockingAckOnError (t_transceiver t) = false) ->
  exists w' sk h, rtc step w w'
    /\ ob_asked (w_out w') = ob_asked (w_out w) ++ [asked_message wt payload topic]
    /\ w_sockets w' !! n = Some sk /\ sk_mine sk = true
    /\ l_handled (sk_up sk) = [h] /\ given h (ws_canon (asked_message wt payload topic))
    /\ forall err, waitForAck (c_transceiver (w_client w')) (madeAcks wt) false err <-> err = None.
Proof.
  intros wt Hw Hack Hsc Hwf Hc Hsk Ht Hph Hpt Hproc.
  destruct (exchange_parts _ _ _ _ _ _ _ (wi_client _ Hw) (wi_out _ Hw) Hpt Hack Hsc Hwf Hproc)
    as (message & ack & wt1 & out1 & wt2 & Hprep & Hasked & Hi & (h & Hhd & Hm) & Hrecv & Hv2 & Hwait).
  set (c := w_client w) in *. set (m := asked_message wt payload topic) in *.
  set (c1 := c_set c (c_wsConn c) wt1 (c_closed c)). set (c2 := c_set c (c_wsConn c) wt2 (c_closed c)).
  set (i := length (ob_pending (w_out w))) in *. 
  set (s2 := s_set (w_server w) (<[n := t_set t (t_transceiver t) Listening]> (tuples (w_server w)))
    (transceiverAndConn (w_server w))).
  set (sk1 := sk_set (new_socket true) (l_write new_lane m [message]) new_lane new_outbox).
  set (sk2 := sk_set sk1 (l_read (sk_up sk1) []
    (handles (t_transceiver t) message [DoProcessPayload (canon payload) topic (payloadVersion wt); DoWriteMessage ack])) (l_reply new_lane [ack]) new_outbox).
  set (sk3 := sk_set sk2 (l_reply (sk_up sk2) []) (l_read (sk_down sk2) [] (handles wt1 ack [])) new_outbox).
  assert (Hlt : (n < length (w_sockets w))%nat) by by eapply lookup_lt_Some.
  set (w2 := w_set_socket (w_set_server (w_set_socket (w_set w c1 (Send_written_out out1 i)) n sk1) s2) n sk2).
  eexists (w_set_socket (w_set w2 c2 (Send_written_out out1 i)) n sk3), sk3, _.
  split; [|split_and!; [exact Hasked| |done|exact Hhd|exact Hm|exact Hwait]].
  - eapply rtc_l; [apply (step_by _ (ClientPrepares payload topic)); [done|]|].
    { cbn [host_next]. unfold client_prepares, IsOpen. fold c. rewrite Hc, bool_decide_true, andb_false_r by done.
      rewrite Hprep. reflexivity. }
    eapply rtc_l; [apply (step_by _ (ClientWrites (working n) i)); [done|]|].
    { cbn [host_next]. unfold client_writes. cbn [w_out w_set w_client]. fold i. rewrite Hi. cbn [mbind option_bind].
      fold c1. change (wc_conn (c_wsConn c1)) with (wc_conn (c_wsConn c)).
      rewrite Hc. cbn [w_sockets w_set]. rewrite Hsk. cbn [mbind option_bind]. rewrite passed_all.
      2:{ intros b. unfold WriteMessage. change (wc_conn (c_wsConn c1)) with (wc_conn (c_wsConn c)). by rewrite Hc. }
      reflexivity. }
    fold c1 sk1.
    eapply rtc_l; [apply (step_by _ (ServerReads n [(None, false)])); [done|]|].
    { cbn [host_next]. unfold server_reads. cbn [w_server w_set_socket w_set w_sockets].
      rewrite Ht, list_lookup_insert_eq by done. cbn [mbind option_bind]. rewrite Hph. simpl l_bytes. unfold goroutine_receives.
      rewrite Hrecv. reflexivity. }
    change (rtc step w2 (w_set_socket (w_set w2 c2 (Send_written_out out1 i)) n sk3)).
    apply rtc_once, (step_by _ (ClientReads (working n) [])); [done|]. cbn [host_next]. unfold client_reads.
    change (wc_conn (c_wsConn (w_client w2))) with (wc_conn (c_wsConn c)). rewrite Hc. cbn [mbind option_bind].
    change (w_sockets w2) with (<[n := sk2]> (<[n := sk1]> (w_sockets w))).
    rewrite list_lookup_insert_eq by by rewrite length_insert. cbn [mbind option_bind].
    change (l_bytes (sk_down sk2)) with [ack]. unfold client_listen, Listen.
    change (c_transceiver (w_client w2)) with wt1. rewrite Hv2. reflexivity.
  - simpl. by rewrite list_lookup_insert_eq by by rewrite !length_insert.
Qed.

Lemma host_run_inv w w' : world_inv w -> rtc step w w' -> world_inv w'.
Proof. intros Hw. induction 1 as [|w w1 w2 (ev & Hr & Hn) _ IH]; [done|]. apply IH. by eapply host_next_inv. Qed.

Lemma host_run_reachable url_Parse w w' :
  world_reachable BinaryMessage CloseMessage closeFrame nilLogger url_Parse conv w -> rtc step w w' ->
  world_reachable BinaryMessage CloseMessage closeFrame nilLogger url_Parse conv w'.
Proof. intros Hw. induction 1 as [|w w1 w2 Hstep _ IH]; [done|]. apply IH. by eapply WorldStep. Qed.

(** C10: whatever happened before, to the connections and to earlier sends, a client that
    is not closed can get through again: there is a run in which it opens a new connection,
    the handler that the server now has is given the next payload over it, once, and the send ends
    without error and in no other way. *)
Theorem connection_recovers url_Parse w payload topic :
  let wt := c_transceiver (w_client w) in
  let s := w_server w in
  world_reachable BinaryMessage CloseMessage closeFrame nilLogger url_Parse conv w ->
  c_closed (w_client w) = false -> safeCloser wt = false -> withAcknowledge wt = true -> serves s ->
  ws_wf (asked_message wt payload topic) ->
  (ProcessPayload (default NewNilPayloadHandler (s_payloadHandler s)) (canon payload) topic (payloadVersion wt) = None
   \/ s_blockingAckOnError s = false) ->
  exists w' n sk h, rtc step w w'
    /\ ob_asked (w_out w') = ob_asked (w_out w) ++ [asked_message wt payload topic]
    /\ w_sockets w !! n = None /\ w_sockets w' !! n = Some sk /\ sk_mine sk = true
    /\ l_handled (sk_up sk) = [h] /\ given h (ws_canon (asked_message wt payload topic))
    /\ forall err, waitForAck (c_transceiver (w_client w')) (madeAcks wt) false err <-> err = None.
Proof.
  intros wt s Hr Hc Hsc Hack Hs Hwf Hproc. pose proof (world_reachable_inv url_Parse w Hr) as Hw.
  destruct (reconnects w "" Hw Hc Hs) as (w1 & t & Hrun & Hwt & Hconn & Hout & Hsk & Ht & Hph & Hp & Hb & Hh).
  destruct (exchange w1 (length (tuples (w_server w))) t payload topic (host_run_inv _ _ Hw Hrun))
    as (w' & sk & h & Hrun' & Ha & Hn & ?);
    try done; try (by rewrite Hwt); [by rewrite Hwt, Hb, Hh|].
  exists w', (length (tuples (w_server w))), sk, h. rewrite Hwt, Hout in *. split; [by etrans|]. split; [done|].
  split; [|done]. apply lookup_ge_None_2. by rewrite (wi_len _ Hw).
Qed.
End events.
End invariant.

(** ** Two goroutines and one connection *)

(** The listening goroutine fails while the connection is not open yet, the other one
    opens it, and then the first closes what it finds: a connection that it never read. *)
Theorem fresh_connection_closed CloseMessage closeFrame net c n :
  wc_conn (c_wsConn c) = None -> Dial net (c_url c) = Ok n -> conn_Close net n = None ->
  ReadMessage net (c_wsConn c) = Err ErrConnectionNotOpen
  /\ Listen (c_transceiver c) [ReadError false] = (Some true, c_transceiver c, [])
  /\ let c1 := client_open net c in
     wc_conn (c_wsConn c1) = Some n
     /\ let '(err, conn, written) := wc_Close CloseMessage closeFrame net (c_wsConn c1) in
        err = None /\ wc_conn conn = None /\ written = [(CloseMessage, closeFrame)].
Proof.
  intros Hc Hd Hcl. unfold ReadMessage, getConn, client_open, OpenConnection. rewrite Hc, Hd. simpl.
  unfold wc_Close. simpl. rewrite Hcl. by split_and!.
Qed.

(** ** The theorems at concrete hosts *)

Definition demo_client_args : ArgsWebSocketClient := {|
  ac_RetryDurationInSeconds := 1; ac_AckTimeoutInSeconds := 2; ac_WithAcknowledge := true;
  ac_BlockingAckOnError := true; ac_DropMessagesIfNoConnection := false; ac_URL := "ws://localhost:9090";
  ac_PayloadConverter := Some proto_converter; ac_Log := true; ac_PayloadVersion := 1 |}.

Definition demo_client0 : client := {|
  c_url := "ws://ws://localhost:9090/save"; c_retryDuration := time_Second; c_closed := false;
  c_wsConn := NewWSConnClient; c_transceiver := demo_wt; c_dropMessagesIfNoConnection := false |}.

Definition demo_world0 : world := {|
  w_client := demo_client0; w_out := new_outbox; w_server := demo_server0 2; w_sockets := [] |}.

Notation demo_reachable := (world_reachable 2 8 [] demo_nilLogger demo_url_Parse proto_converter).

Lemma demo_world0_reachable : demo_reachable demo_world0.
Proof. by apply (WorldNew 2 8 [] demo_nilLogger demo_url_Parse _ demo_client_args demo_client0 (demo_server_args 2)). Qed.

(** Each host sends one payload. *)
Definition demo_in_range (w : world) (ev : host_event) : bool :=
  let first wt := withAcknowledge wt && (wt_counter wt =? 0) && (payloadVersion wt =? 1) in
  match ev with
  | ClientPrepares payload topic =>
      bool_decide (payload = Some [Byte.x07]) && bool_decide (topic = "topic") && first (c_transceiver (w_client w))
  | ServerPrepares n payload topic =>
      match tuples (w_server w) !! n with
      | Some t => bool_decide (payload = Some [Byte.x07]) && bool_decide (topic = "topic") && first (t_transceiver t)
      | None => false
      end
  | _ => true
  end.

Definition demo_next (w : world) (ev : host_event) : option world :=
  if demo_in_range w ev then host_next 2 8 [] demo_nilLogger w ev else None.

Lemma demo_next_reachable w ev w' : demo_reachable w -> demo_next w ev = Some w' -> demo_reachable w'.
Proof.
  intros Hw. unfold demo_next. destruct (demo_in_range w ev) eqn:Hr; [|done]. intros Hn.
  apply (WorldStep _ _ _ _ _ _ w w' Hw). exists ev. split; [|done].
  assert (Hwf : forall wt payload topic, bool_decide (payload = Some [Byte.x07]) && bool_decide (topic = "topic")
      && (withAcknowledge wt && (wt_counter wt =? 0) && (payloadVersion wt =? 1)) = true ->
      ws_wf (asked_message wt payload topic)).
  { intros wt payload topic H. rewrite !andb_true_iff, !bool_decide_eq_true, !Z.eqb_eq in H.
    destruct H as [[-> ->] [[Ha Hc] Hv]]. unfold asked_message, payload_message. rewrite Ha, Hc, Hv. split; split; done. }
  destruct ev; try done; simpl in *; [by apply Hwf|]. intros t Ht. rewrite Ht in Hr. by apply Hwf.
Qed.

(** The client connects and sends, the connection breaks before the acknowledgement is read,
    the server goes on with the old one; the client connects again and sends the next
    payload. *)
Definition host_demo_events : list host_event := [
  ServerAccepts true "0xc01"; ClientOpens (working 0); ServerAdds 0;
  ClientPrepares (Some [Byte.x07]) "topic"; ClientWrites (working 0) 0; ServerReads 0 [(None, false)];
  ServerPrepares 0 (Some [Byte.x07]) "topic"; ServerWrites (working 0) 0 0;
  ClientReads (working 0) []; ClientReads (working 0) [(None, false)]; ServerReads 0 [];
  ClientReadFails (working 0) false; ServerAccepts true "0xc02"; ClientOpens (working 1); ServerAdds 1].

Definition demo_world : option world :=
  foldl (fun ow ev => w ← ow; demo_next w ev) (Some demo_world0) host_demo_events.

Definition demo_summary (w : world) : option (bool * nat) * option (gset nat) * nat * gset nat :=
  ((fun sk => (sk_mine sk, length (ob_asked (sk_out sk)))) <$> w_sockets w !! 0%nat,
   (fun t => closedAcks (t_transceiver t)) <$> tuples (w_server w) !! 0%nat,
   length (ob_asked (w_out w)), closedAcks (c_transceiver (w_client w))).

Lemma demo_world_summary :
  demo_summary <$> demo_world = Some (Some (true, 1%nat), Some {[ 0%nat ]}, 1%nat, {[ 0%nat ]}).
Proof. vm_compute. reflexivity. Qed.

Lemma demo_run_reachable l w w' :
  demo_reachable w -> foldl (fun ow ev => w ← ow; demo_next w ev) (Some w) l = Some w' -> demo_reachable w'.
Proof.
  revert w. induction l as [|ev l IH]; intros w Hw; cbn [foldl]; [by intros [= <-]|].
  cbn [mbind option_bind]. destruct (demo_next w ev) as [w1|] eqn:Hn.
  - apply IH. by eapply demo_next_reachable.
  - intros H. exfalso. clear -H. by induction l.
Qed.

Lemma demo_world_reachable w : demo_world = Some w -> demo_reachable w.
Proof. unfold demo_world. exact (demo_run_reachable _ _ w demo_world0_reachable). Qed.

Lemma demo_world_facts : exists w, demo_reachable w
  /\ (exists sk t, w_sockets w !! 0%nat = Some sk /\ sk_mine sk = true /\ tuples (w_server w) !! 0%nat = Some t
       /\ length (ob_asked (sk_out sk)) = 1%nat /\ closedAcks (t_transceiver t) = {[ 0%nat ]})
  /\ length (ob_asked (w_out w)) = 1%nat /\ closedAcks (c_transceiver (w_client w)) = {[ 0%nat ]}.
Proof.
  pose proof demo_world_summary as Hsum. pose proof demo_world_reachable as Hr. revert Hsum Hr.
  generalize demo_world. intros [w|] Hsum Hr; [|done]. exists w. split; [by apply Hr|]. clear Hr.
  apply (inj Some) in Hsum. injection Hsum as H1 H2 H3 H4. split; [|by split].
  destruct (w_sockets w !! 0%nat) as [sk|]; [|done]. destruct (tuples (w_server w) !! 0%nat) as [t|]; [|done].
  exists sk, t. cbn [fmap option_fmap option_map] in H1, H2. injection H1 as H1 H5. injection H2 as H2. by split_and!.
Qed.

Lemma client_messages_delivered_witness : exists w m n sk h,
  demo_reachable w /\ ob_asked (w_out w) !! 0%nat = Some m /\ w_sockets w !! n = Some sk
  /\ h ∈ l_handled (sk_up sk) /\ given h (ws_canon m) /\ (h_err h = None \/ h_blocking h = false).
Proof.
  destruct demo_world_facts as (w & Hw & _ & Hlen & Hcl).
  destruct (client_messages_delivered proto_converter 2 8 [] demo_nilLogger demo_url_Parse w Hw) as (_ & _ & H).
  destruct H as [_ H]; [rewrite Hlen; vm_compute; discriminate|].
  destruct (H 0%nat false) as (m & n & sk & h & H1 & H2 & _ & H4 & H5 & H6).
  - left. split; [rewrite Hcl; apply elem_of_singleton_2|]; reflexivity.
  - exists w, m, n, sk, h. split_and!; assumption.
Defined.

Lemma server_messages_delivered_witness : exists w m sk h,
  demo_reachable w /\ w_sockets w !! 0%nat = Some sk /\ ob_asked (sk_out sk) !! 0%nat = Some m
  /\ h ∈ l_handled (sk_down sk) /\ given h (ws_canon m) /\ (h_err h = None \/ h_blocking h = false).
Proof.
  destruct demo_world_facts as (w & Hw & (sk & t & Hsk & Hm & Ht & Hlen & Hcl) & _).
  destruct (server_messages_delivered proto_converter 2 8 [] demo_nilLogger demo_url_Parse w 0 sk t Hw Hsk Hm Ht)
    as (_ & _ & _ & H).
  destruct H as [_ H]; [rewrite Hlen; vm_compute; discriminate|].
  destruct (H 0%nat false) as (m & h & H1 & H2 & H3 & H4).
  - left. split; [rewrite Hcl; apply elem_of_singleton_2|]; reflexivity.
  - exists w, m, sk, h. split_and!; assumption.
Defined.

Lemma connection_recovers_witness : exists w' n sk h,
  rtc (host_step 2 8 [] demo_nilLogger) demo_world0 w'
  /\ ob_asked (w_out w') = [asked_message demo_wt (Some [Byte.x07]) "topic"]
  /\ w_sockets demo_world0 !! n = None /\ w_sockets w' !! n = Some sk /\ sk_mine sk = true
  /\ l_handled (sk_up sk) = [h] /\ given h (ws_canon (asked_message demo_wt (Some [Byte.x07]) "topic"))
  /\ forall err, waitForAck (c_transceiver (w_client w')) 0 false err <-> err = None.
Proof.
  apply (connection_recovers proto_converter 2 8 [] demo_nilLogger demo_url_Parse demo_world0 (Some [Byte.x07]) "topic");
    [exact demo_world0_reachable|reflexivity|reflexivity|reflexivity|intros conn; reflexivity|split; split; done
    |left; reflexivity].
Defined.

Lemma fresh_connection_closed_witness :
  ReadMessage (working 0) (c_wsConn demo_client0) = Err ErrConnectionNotOpen
  /\ Listen demo_wt [ReadError false] = (Some true, demo_wt, [])
  /\ let c1 := client_open (working 0) demo_client0 in
     wc_conn (c_wsConn c1) = Some 0%nat
     /\ let '(err, conn, written) := wc_Close 8 [] (working 0) (c_wsConn c1) in
        err = None /\ wc_conn conn = None /\ written = [(8, [])].
Proof. apply (fresh_connection_closed 8 [] (working 0) demo_client0 0%nat); reflexivity. Defined.
