(* ===== verification/Discovery.v ===== *)
(** * Peer discovery

    p2p/libp2p/connectableHost.go and p2p/libp2p/discovery: the host that asks
    the sharder before it connects, the continuous and the optimized kad-dht
    discoverers, the nil one, and their factory. *)

From S2P Require Import Prelude Errors Config Sharding PeersHolder Messages ConnectionMonitor.
From stdpp Require Import list.
Open Scope Z_scope.

(** libp2p's peer.AddrInfo *)
Record AddrInfo := {
  ai_ID : PeerID;
  ai_Addrs : list string;
}.

(** ** connectableHost.go *)

(** [NewMultiaddr] and [AddrInfoFromP2pAddr] of libp2p, and its [Connect] *)
Definition connHost_AddressToPeerInfo {MA} (NewMultiaddr : string -> result MA)
    (AddrInfoFromP2pAddr : MA -> result AddrInfo) (address : string) : result AddrInfo :=
  multiAddr ← NewMultiaddr address;
  AddrInfoFromP2pAddr multiAddr.

Definition connHost_ConnectToPeer (AddressToPeerInfo : string -> result AddrInfo)
    (Connect : AddrInfo -> option error) (address : string) : option error :=
  match AddressToPeerInfo address with
  | Err err => Some err
  | Ok pInfo => Connect pInfo
  end.

(** ** discovery/hostWithConnectionManagement.go *)

Record ArgsHostWithConnectionManagement := {
  ahc_ConnectableHost : bool;
  ahc_Sharder : option Sharder;
  ahc_ConnectionsWatcher : bool;
}.

Record hostWithConnectionManagement := { hwcm_sharder : Sharder }.

Definition NewHostWithConnectionManagement (args : ArgsHostWithConnectionManagement)
    : result hostWithConnectionManagement :=
  guard_err (negb (ahc_ConnectableHost args)) ErrNilHost $
  match ahc_Sharder args with
  | None => Err ErrNilSharder
  | Some sharder =>
      guard_err (negb (ahc_ConnectionsWatcher args)) ErrNilConnectionsWatcher $
      Ok {| hwcm_sharder := sharder |}
  end.

Definition concatenateAddresses (addresses : list string) : string :=
  fold_left (fun sb ma => sb +:+ (ma +:+ " ")) addresses "".

(** What [Connect] does to the watcher and to the host *)
Inductive hw_effect :=
| HwNewKnownConnection (pid : PeerID) (addresses : string)
| HwConnect (pi : AddrInfo).

Section discovery.
Context (Pretty : PeerID -> string).
Context (sort_Sort : list PeerDistance -> list PeerDistance).

(** [allPeers] is [Network().Peers()]. *)
Definition canConnectToPeer (hwcm : hostWithConnectionManagement) (allPeers : list PeerID) (pid : PeerID)
    : option error :=
  let sharder := hwcm_sharder hwcm in
  let allPeers := if negb (sh_Has sharder pid allPeers) then allPeers ++ [pid] else allPeers in
  let evicted := sh_ComputeEvictionList Pretty sort_Sort sharder allPeers in
  if sh_Has sharder pid evicted then Some (ErrUnwantedPeer : error) else None.

Definition hw_Connect (hwcm : hostWithConnectionManagement) (host_Connect : AddrInfo -> option error)
    (allPeers : list PeerID) (pi : AddrInfo) : option error * list hw_effect :=
  let addresses := concatenateAddresses (ai_Addrs pi) in
  let known := HwNewKnownConnection (ai_ID pi) addresses in
  match canConnectToPeer hwcm allPeers (ai_ID pi) with
  | Some err => (Some err, [known])
  | None => (host_Connect pi, [known; HwConnect pi])
  end.

(** [Connectedness] tells whether the network is connected to the peer. *)
Definition hw_IsConnected (Connectedness : PeerID -> bool) (pi : AddrInfo) : bool :=
  Connectedness (ai_ID pi).

(** ** The arguments of the discoverers *)

(** The dynamic type behind the [p2p.Sharder]: one of the sharders, or something
    that is not a [discovery.Sharder] *)
Inductive kdd_sharder := KddSharder (sh : Sharder) | KddOther.

Record ArgKadDht := {
  akd_Context : bool;
  akd_Host : bool;
  PeersRefreshInterval : Z;
  SeedersReconnectionInterval : Z;
  ProtocolID : string;
  InitialPeersList : list string;
  akd_BucketSize : Z;
  RoutingTableRefresh : Z;
  akd_KddSharder : option kdd_sharder;
  akd_ConnectionWatcher : bool;
  akd_NetworkType : string;
  akd_Logger : bool;
}.

Definition prepareArguments (arg : ArgKadDht) : result Sharder :=
  guard_err (negb (akd_Context arg)) ErrNilContext $
  guard_err (negb (akd_Host arg)) ErrNilHost $
  match akd_KddSharder arg with
  | None => Err ErrNilSharder
  | Some sharder =>
      guard_err (negb (akd_ConnectionWatcher arg)) ErrNilConnectionsWatcher $
      match sharder with
      | KddOther => Err ErrWrongTypeAssertion
      | KddSharder sharder =>
          guard_err (PeersRefreshInterval arg <? time_Second) ErrInvalidValue $
          guard_err (RoutingTableRefresh arg <? time_Second) ErrInvalidValue $
          guard_err (negb (akd_Logger arg)) ErrNilLogger $
          Ok sharder
      end
  end.

(** ** discovery/continuousKadDhtDiscoverer.go *)

Definition kadDhtName : string := "kad-dht discovery".

(** The DHTs of go-libp2p-kad-dht are named by numbers; [refreshCancel] tells
    whether the cancel function is set. *)
Record continuousKadDhtDiscoverer := {
  kadDHT : option nat;
  refreshCancel : bool;
  ckdd_peersRefreshInterval : Z;
  ckdd_protocolID : string;
  ckdd_initialPeersList : list string;
  ckdd_bucketSize : Z;
  ckdd_routingTableRefresh : Z;
  hostConnManagement : option hostWithConnectionManagement;
  ckdd_sharder : Sharder;
  ckdd_networkType : string;
}.

(** The constructor also gives the seeders to the sharder, which the caller
    shares. *)
Definition NewContinuousKadDhtDiscoverer (arg : ArgKadDht) : result (continuousKadDhtDiscoverer * Sharder) :=
  sharder ← prepareArguments arg;
  let sharder := sh_SetSeeders sharder (InitialPeersList arg) in
  Ok ({| kadDHT := None; refreshCancel := false; ckdd_peersRefreshInterval := PeersRefreshInterval arg;
         ckdd_protocolID := ProtocolID arg; ckdd_initialPeersList := InitialPeersList arg;
         ckdd_bucketSize := akd_BucketSize arg; ckdd_routingTableRefresh := RoutingTableRefresh arg;
         hostConnManagement := None; ckdd_sharder := sharder; ckdd_networkType := akd_NetworkType arg |},
      sharder).

Definition ckdd_set (ckdd : continuousKadDhtDiscoverer) (dht : option nat) (cancel : bool)
    (hcm : option hostWithConnectionManagement) : continuousKadDhtDiscoverer := {|
  kadDHT := dht; refreshCancel := cancel; ckdd_peersRefreshInterval := ckdd_peersRefreshInterval ckdd;
  ckdd_protocolID := ckdd_protocolID ckdd; ckdd_initialPeersList := ckdd_initialPeersList ckdd;
  ckdd_bucketSize := ckdd_bucketSize ckdd; ckdd_routingTableRefresh := ckdd_routingTableRefresh ckdd;
  hostConnManagement := hcm; ckdd_sharder := ckdd_sharder ckdd; ckdd_networkType := ckdd_networkType ckdd |}.

(** What the discoverer does besides: it starts the goroutine of the
    connections, cancels it, and removes a stream handler. *)
Inductive ckdd_effect :=
| GoConnectToInitialAndBootstrap
| DoCancel
| DoRemoveStreamHandler (protocol : string).

(** [dht_New] is what [dht.New] returns for a host, a protocol prefix and a
    refresh period. *)
Definition startDHT (dht_New : hostWithConnectionManagement -> string -> Z -> result nat)
    (ckdd : continuousKadDhtDiscoverer) : option error * continuousKadDhtDiscoverer * list ckdd_effect :=
  match NewHostWithConnectionManagement {|
          ahc_ConnectableHost := true; ahc_Sharder := Some (ckdd_sharder ckdd); ahc_ConnectionsWatcher := true |} with
  | Err err => (Some err, ckdd_set ckdd (kadDHT ckdd) (refreshCancel ckdd) None, [DoCancel])
  | Ok hcm =>
      let ckdd := ckdd_set ckdd (kadDHT ckdd) (refreshCancel ckdd) (Some hcm) in
      match dht_New hcm (ckdd_protocolID ckdd) (ckdd_routingTableRefresh ckdd) with
      | Err err => (Some err, ckdd, [DoCancel])
      | Ok kademliaDHT =>
          (None, ckdd_set ckdd (Some kademliaDHT) true (Some hcm), [GoConnectToInitialAndBootstrap])
      end
  end.

Definition ckdd_Bootstrap (dht_New : hostWithConnectionManagement -> string -> Z -> result nat)
    (ckdd : continuousKadDhtDiscoverer) : option error * continuousKadDhtDiscoverer * list ckdd_effect :=
  match kadDHT ckdd with
  | Some _ => (Some (ErrPeerDiscoveryProcessAlreadyStarted : error), ckdd, [])
  | None => startDHT dht_New ckdd
  end.

(** [dht_Close] is the closing of a DHT; a nil one panics. *)
Definition stopDHT (dht_Close : nat -> option error) (ckdd : continuousKadDhtDiscoverer)
    : option (option error * continuousKadDhtDiscoverer * list ckdd_effect) :=
  if negb (refreshCancel ckdd) then Some (None, ckdd, [])
  else
    dht ← kadDHT ckdd;
    Some (dht_Close dht, ckdd_set ckdd None false (hostConnManagement ckdd),
          [DoCancel; DoRemoveStreamHandler (ckdd_protocolID ckdd)]).

(** [tryConnectToSeeder]: [connect i address] is what the attempt number [i]
    returns, [ctxDone i] whether the context ends while it waits for the next
    one. [SeederPanic] is an index out of range. *)
Inductive seeder_outcome := SeederConnected | SeederCancelled | SeederTrying | SeederPanic.

#[export] Instance seeder_outcome_eq_decision : EqDecision seeder_outcome.
Proof. solve_decision. Defined.

Fixpoint tryConnectToSeeder (connect : nat -> string -> option error) (ctxDone : nat -> bool)
    (initialPeersList : list string) (fuel attempt startIndex : nat) : list string * seeder_outcome :=
  match fuel with
  | O => ([], SeederTrying)
  | S fuel =>
      match initialPeersList !! startIndex with
      | None => ([], SeederPanic)
      | Some initialPeer =>
          match connect attempt initialPeer with
          | None => ([initialPeer], SeederConnected)
          | Some _ =>
              let startIndex := (startIndex + 1)%nat in
              let startIndex := (startIndex `mod` length initialPeersList)%nat in
              if ctxDone attempt then ([initialPeer], SeederCancelled)
              else
                let '(tried, outcome) :=
                  tryConnectToSeeder connect ctxDone initialPeersList fuel (S attempt) startIndex in
                (initialPeer :: tried, outcome)
          end
      end
  end.

(** The channel it returns is ready at once for an empty list; otherwise it
    becomes ready when the goroutine connects. *)
Definition connectToOnePeerFromInitialPeersList (connect : nat -> string -> option error)
    (ctxDone : nat -> bool) (initialPeersList : list string) (fuel : nat) : list string * seeder_outcome :=
  if len initialPeersList =? 0 then ([], SeederConnected)
  else tryConnectToSeeder connect ctxDone initialPeersList fuel 0 0.

(** A turn of the loop of [bootstrap], before its wait: whether it reconnects to
    the network; [dht_Bootstrap] is what the DHT's bootstrap returns. *)
Definition bootstrap_turn (ErrLookupFailure : error) (dht_Bootstrap : nat -> option error)
    (ckdd : continuousKadDhtDiscoverer) : bool :=
  match kadDHT ckdd with
  | Some kadDht => bool_decide (dht_Bootstrap kadDht = Some ErrLookupFailure)
  | None => false
  end.

Definition ckdd_ReconnectToNetwork (connect : nat -> string -> option error) (ctxDone : nat -> bool)
    (ckdd : continuousKadDhtDiscoverer) (fuel : nat) : list string * seeder_outcome :=
  connectToOnePeerFromInitialPeersList connect ctxDone (ckdd_initialPeersList ckdd) fuel.

(** What a turn of the bootstrapping meets: the discoverer (another goroutine may
    have stopped its DHT), what the DHT and the seeders answer, and whether the
    context is done at its wait *)
Record bootstrap_view := {
  bv_ckdd : continuousKadDhtDiscoverer;
  bv_Bootstrap : nat -> option error;
  bv_connect : nat -> string -> option error;
  bv_seedersDone : nat -> bool;
  bv_ctxDone : bool;
}.

Inductive boot_effect := BootDht (dht : nat) | BootTried (seeders : list string).

Fixpoint ckdd_bootstrap (ErrLookupFailure : error) (fuel : nat) (turns : list bootstrap_view) : list boot_effect :=
  match turns with
  | [] => []
  | v :: turns =>
      let ckdd := bv_ckdd v in
      let asked := match kadDHT ckdd with Some kadDht => [BootDht kadDht] | None => [] end in
      let shouldReconnect := bootstrap_turn ErrLookupFailure (bv_Bootstrap v) ckdd in
      let tried :=
        if shouldReconnect
        then [BootTried (ckdd_ReconnectToNetwork (bv_connect v) (bv_seedersDone v) ckdd fuel).1] else [] in
      asked ++ tried ++ (if bv_ctxDone v then [] else ckdd_bootstrap ErrLookupFailure fuel turns)
  end.

(** The goroutine bootstraps once a seeder is connected, and not if the context is
    done before. *)
Definition connectToInitialAndBootstrap (ErrLookupFailure : error) (ckdd : continuousKadDhtDiscoverer)
    (connect : nat -> string -> option error) (ctxDone : nat -> bool) (fuel : nat)
    (turns : list bootstrap_view) : list boot_effect :=
  let '(tried, outcome) := connectToOnePeerFromInitialPeersList connect ctxDone (ckdd_initialPeersList ckdd) fuel in
  BootTried tried ::
  match outcome with
  | SeederConnected => ckdd_bootstrap ErrLookupFailure fuel turns
  | _ => []
  end.

(** ** discovery/optimizedKadDhtDiscoverer.go *)

Inductive discovererStatus := statNotInitialized | statInitialized.

#[export] Instance discovererStatus_eq_decision : EqDecision discovererStatus.
Proof. solve_decision. Defined.

Definition minIntervalForSeedersReconnection : Z := time_Second.
Definition optimizedKadDhtName : string := "optimized kad-dht discovery".

Record optimizedKadDhtDiscoverer := {
  okdd_kadDHT : option nat;
  okdd_peersRefreshInterval : Z;
  okdd_seedersReconnectionInterval : Z;
  okdd_protocolID : string;
  okdd_initialPeersList : list string;
  okdd_bucketSize : Z;
  okdd_routingTableRefresh : Z;
  okdd_hostConnManagement : hostWithConnectionManagement;
  okdd_sharder : Sharder;
  status : discovererStatus;
  okdd_networkType : string;
}.

Definition NewOptimizedKadDhtDiscoverer (arg : ArgKadDht) : result (optimizedKadDhtDiscoverer * Sharder) :=
  sharder ← prepareArguments arg;
  guard_err (SeedersReconnectionInterval arg <? minIntervalForSeedersReconnection)
    ErrInvalidSeedersReconnectionInterval $
  let sharder := sh_SetSeeders sharder (InitialPeersList arg) in
  hostConnManagement ← NewHostWithConnectionManagement {|
    ahc_ConnectableHost := akd_Host arg; ahc_Sharder := Some sharder;
    ahc_ConnectionsWatcher := akd_ConnectionWatcher arg |};
  Ok ({| okdd_kadDHT := None; okdd_peersRefreshInterval := PeersRefreshInterval arg;
         okdd_seedersReconnectionInterval := SeedersReconnectionInterval arg;
         okdd_protocolID := ProtocolID arg; okdd_initialPeersList := InitialPeersList arg;
         okdd_bucketSize := akd_BucketSize arg; okdd_routingTableRefresh := RoutingTableRefresh arg;
         okdd_hostConnManagement := hostConnManagement; okdd_sharder := sharder;
         status := statNotInitialized; okdd_networkType := akd_NetworkType arg |}, sharder).

Definition okdd_start (okdd : optimizedKadDhtDiscoverer) (dht : nat) : optimizedKadDhtDiscoverer := {|
  okdd_kadDHT := Some dht; okdd_peersRefreshInterval := okdd_peersRefreshInterval okdd;
  okdd_seedersReconnectionInterval := okdd_seedersReconnectionInterval okdd;
  okdd_protocolID := okdd_protocolID okdd; okdd_initialPeersList := okdd_initialPeersList okdd;
  okdd_bucketSize := okdd_bucketSize okdd; okdd_routingTableRefresh := okdd_routingTableRefresh okdd;
  okdd_hostConnManagement := okdd_hostConnManagement okdd; okdd_sharder := okdd_sharder okdd;
  status := statInitialized; okdd_networkType := okdd_networkType okdd |}.

Definition createKadDht (dht_New : hostWithConnectionManagement -> string -> Z -> result nat)
    (okdd : optimizedKadDhtDiscoverer) : result nat :=
  dht_New (okdd_hostConnManagement okdd) (okdd_protocolID okdd) (okdd_routingTableRefresh okdd).

(** [init]; [createKadDhtHandler] is what the function of this name returns. *)
Definition okdd_init (createKadDhtHandler : result nat) (okdd : optimizedKadDhtDiscoverer)
    : option error * optimizedKadDhtDiscoverer :=
  if bool_decide (status okdd <> statNotInitialized)
  then (Some (ErrPeerDiscoveryProcessAlreadyStarted : error), okdd)
  else
    match createKadDhtHandler with
    | Err err => (Some err, okdd)
    | Ok kadDhtHandler => (None, okdd_start okdd kadDhtHandler)
    end.

(** The network at the time of an attempt to connect to a seeder, and whether
    the context is done after it *)
Record net_view := {
  nv_AddressToPeerInfo : string -> result AddrInfo;
  nv_Connectedness : PeerID -> bool;
  nv_Peers : list PeerID;
  nv_Connect : AddrInfo -> option error;
  nv_ctxDone : bool;
}.

Definition connectToSeeder (okdd : optimizedKadDhtDiscoverer) (v : net_view) (seederAddress : string)
    : option error * list hw_effect :=
  match nv_AddressToPeerInfo v seederAddress with
  | Err err => (Some err, [])
  | Ok seederInfo =>
      if hw_IsConnected (nv_Connectedness v) seederInfo then (None, [])
      else hw_Connect (okdd_hostConnManagement okdd) (nv_Connect v) (nv_Peers v) seederInfo
  end.

(** The loop over the seeders; [views i] is the network at the seeder [i]. *)
Fixpoint reconnect_loop (okdd : optimizedKadDhtDiscoverer) (views : nat -> net_view) (i : nat)
    (seeders : list string) (connectedToOneSeeder : bool) : bool * list hw_effect :=
  match seeders with
  | [] => (connectedToOneSeeder, [])
  | seederAddress :: seeders =>
      let '(err, effects) := connectToSeeder okdd (views i) seederAddress in
      let connectedToOneSeeder := match err with Some _ => connectedToOneSeeder | None => true end in
      if nv_ctxDone (views i) then (true, effects)
      else
        let '(connected, rest) := reconnect_loop okdd views (S i) seeders connectedToOneSeeder in
        (connected, effects ++ rest)
  end.

Definition tryToReconnectAtLeastToASeeder (okdd : optimizedKadDhtDiscoverer) (views : nat -> net_view)
    : bool * list hw_effect :=
  if bool_decide (status okdd <> statInitialized) then (false, [])
  else if len (okdd_initialPeersList okdd) =? 0 then (true, [])
  else reconnect_loop okdd views 0 (okdd_initialPeersList okdd) false.

(** The wait of the channel that [createChTimeSeedersReconnect] returns *)
Definition createChTimeSeedersReconnect (okdd : optimizedKadDhtDiscoverer) (isConnectedToSeeders : bool) : Z :=
  if isConnectedToSeeders then okdd_seedersReconnectionInterval okdd else okdd_peersRefreshInterval okdd.

Definition processSeedersReconnect (okdd : optimizedKadDhtDiscoverer) (views : nat -> net_view)
    : Z * list hw_effect :=
  let '(isConnectedToSeeders, effects) := tryToReconnectAtLeastToASeeder okdd views in
  (createChTimeSeedersReconnect okdd isConnectedToSeeders, effects).

(** [findPeers]: whether the DHT is asked to bootstrap *)
Definition findPeers (okdd : optimizedKadDhtDiscoverer) : option nat :=
  if bool_decide (status okdd <> statInitialized) then None else okdd_kadDHT okdd.

(** *** The process loop and its callers

    The loop is at its select, or gives the result of [init] to a caller, or has
    ended; a caller of [Bootstrap] waits to hand in its request, or for the
    answer, or has returned. The channels are unbuffered: a send and its
    receive are one step. *)
Inductive loop_phase := AtSelect | SendingErr (err : option error) | Stopped.
Inductive caller := CallInit | CallErr | CallReturned (err : option error).

#[export] Instance caller_eq_decision : EqDecision caller.
Proof. solve_decision. Defined.

#[export] Instance loop_phase_eq_decision : EqDecision loop_phase.
Proof. solve_decision. Defined.

Record okdd_state := {
  os_okdd : optimizedKadDhtDiscoverer;
  os_phase : loop_phase;
  os_callers : list caller;
  os_now : Z;
  os_seedersAt : Z;    (* when chTimeSeedersReconnect fires *)
  os_findPeersAt : Z;  (* when chTimeFindPeers fires *)
}.

Definition processLoop_start (okdd : optimizedKadDhtDiscoverer) (now : Z) : okdd_state := {|
  os_okdd := okdd; os_phase := AtSelect; os_callers := []; os_now := now;
  os_seedersAt := now + okdd_seedersReconnectionInterval okdd;
  os_findPeersAt := now + okdd_peersRefreshInterval okdd |}.

(** What happens next. The labels of the loop's own branches carry what the
    outside returns. *)
Inductive okdd_event :=
| EvTime (d : Z)
| EvBootstrap                                         (* a call of Bootstrap *)
| EvChanInit (i : nat) (create : result nat)          (* the loop takes a request *)
| EvErrChanInit (i : nat) (views : nat -> net_view)   (* the caller gets the answer *)
| EvSeedersTimer (views : nat -> net_view)
| EvReconnectToNetwork (views : nat -> net_view)      (* a call of ReconnectToNetwork *)
| EvFindPeersTimer
| EvCtxDone (ctxErr : error) (receiver : option nat).

Definition os_set (st : okdd_state) (okdd : optimizedKadDhtDiscoverer) (p : loop_phase)
    (callers : list caller) (seedersAt : Z) : okdd_state := {|
  os_okdd := okdd; os_phase := p; os_callers := callers; os_now := os_now st;
  os_seedersAt := seedersAt; os_findPeersAt := os_findPeersAt st |}.

Definition waits_for_answer (c : caller) : bool := match c with CallErr => true | _ => false end.

(** What the loop does to the host and to the DHT *)
Inductive okdd_effect := DoHost (e : hw_effect) | DoDhtBootstrap (dht : nat).

(** The body of the branches that reconnect to the seeders *)
Definition seeders_branch (st : okdd_state) (callers : list caller) (views : nat -> net_view)
    : okdd_state * list okdd_effect :=
  let okdd := os_okdd st in
  let '(wait, effects) := processSeedersReconnect okdd views in
  (os_set st okdd AtSelect callers (os_now st + wait), DoHost <$> effects).

Definition findPeers_effects (okdd : optimizedKadDhtDiscoverer) : list okdd_effect :=
  match findPeers okdd with Some dht => [DoDhtBootstrap dht] | None => [] end.

(** Whether the request is sent: its [default] branch drops it when the loop is not
    at its select. *)
Definition okdd_ReconnectToNetwork (p : loop_phase) : bool := bool_decide (p = AtSelect).

(** The step an event makes, if it can happen *)
Definition okdd_step (st : okdd_state) (ev : okdd_event) : option (okdd_state * list okdd_effect) :=
  let okdd := os_okdd st in
  match ev with
  | EvTime d =>
      if d <? 0 then None
      else Some ({| os_okdd := okdd; os_phase := os_phase st; os_callers := os_callers st;
                    os_now := os_now st + d; os_seedersAt := os_seedersAt st;
                    os_findPeersAt := os_findPeersAt st |}, [])
  | EvBootstrap => Some (os_set st okdd (os_phase st) (os_callers st ++ [CallInit]) (os_seedersAt st), [])
  | EvChanInit i create =>
      match os_phase st, os_callers st !! i with
      | AtSelect, Some CallInit =>
          let '(err, okdd) := okdd_init create okdd in
          Some (os_set st okdd (SendingErr err) (<[i := CallErr]> (os_callers st)) (os_seedersAt st), [])
      | _, _ => None
      end
  | EvErrChanInit i views =>
      match os_phase st, os_callers st !! i with
      | SendingErr err, Some CallErr =>
          let callers := <[i := CallReturned err]> (os_callers st) in
          match err with
          | Some _ =>
              Some (os_set st okdd AtSelect callers (os_now st + createChTimeSeedersReconnect okdd false), [])
          | None =>
              let '(st, effects) := seeders_branch st callers views in
              Some (st, effects ++ findPeers_effects okdd)
          end
      | _, _ => None
      end
  | EvSeedersTimer views =>
      match os_phase st with
      | AtSelect => if os_seedersAt st <=? os_now st then Some (seeders_branch st (os_callers st) views) else None
      | _ => None
      end
  | EvReconnectToNetwork views =>
      if okdd_ReconnectToNetwork (os_phase st) then Some (seeders_branch st (os_callers st) views)
      else Some (st, [])
  | EvFindPeersTimer =>
      match os_phase st with
      | AtSelect =>
          if os_findPeersAt st <=? os_now st
          then Some ({| os_okdd := okdd; os_phase := AtSelect; os_callers := os_callers st;
                        os_now := os_now st; os_seedersAt := os_seedersAt st;
                        os_findPeersAt := os_now st + okdd_peersRefreshInterval okdd |},
                     findPeers_effects okdd)
          else None
      | _ => None
      end
  | EvCtxDone ctxErr receiver =>
      match os_phase st with
      | AtSelect =>
          match receiver with
          | Some i =>
              match os_callers st !! i with
              | Some CallErr =>
                  Some (os_set st okdd Stopped (<[i := CallReturned (Some ctxErr)]> (os_callers st))
                          (os_seedersAt st), [])
              | _ => None
              end
          | None =>
              if existsb waits_for_answer (os_callers st) then None
              else Some (os_set st okdd Stopped (os_callers st) (os_seedersAt st), [])
          end
      | _ => None
      end
  end.

(** The states that are reached from the start of the loop *)
Inductive okdd_reaches (st0 : okdd_state) : okdd_state -> Prop :=
| okdd_at : okdd_reaches st0 st0
| okdd_after st ev st' effects :
    okdd_reaches st0 st -> okdd_step st ev = Some (st', effects) -> okdd_reaches st0 st'.

(** ** discovery/nilDiscoverer.go and discovery/factory *)

Definition nilName : string := "no peer discovery".

Inductive PeerDiscoverer :=
| NilDiscoverer
| Continuous (ckdd : continuousKadDhtDiscoverer)
| Optimized (okdd : optimizedKadDhtDiscoverer).

Definition pd_Name (pd : PeerDiscoverer) : string :=
  match pd with
  | NilDiscoverer => nilName
  | Continuous _ => kadDhtName
  | Optimized _ => optimizedKadDhtName
  end.

Definition typeLegacy : string := "legacy".
Definition typeOptimized : string := "optimized".
Definition defaultSeedersReconnectionInterval : Z := time_Minute * 5.

Record ArgsPeerDiscoverer := {
  apd_Context : bool;
  apd_Host : bool;
  apd_Sharder : option kdd_sharder;
  apd_P2pConfig : P2PConfig;
  apd_ConnectionsWatcher : bool;
  apd_NetworkType : string;
  apd_Logger : bool;
}.

Definition createKadDhtDiscoverer (p2pConfig : P2PConfig) (arg : ArgKadDht) : result PeerDiscoverer :=
  let type := kad_Type (KadDhtPeerDiscovery p2pConfig) in
  if decide (type = typeLegacy) then '(ckdd, _) ← NewContinuousKadDhtDiscoverer arg; Ok (Continuous ckdd)
  else if decide (type = typeOptimized) then '(okdd, _) ← NewOptimizedKadDhtDiscoverer arg; Ok (Optimized okdd)
  else Err ErrInvalidValue.

Definition createKadDhtPeerDiscoverer (args : ArgsPeerDiscoverer) (protocolID : string) : result PeerDiscoverer :=
  let kad := KadDhtPeerDiscovery (apd_P2pConfig args) in
  let arg := {|
    akd_Context := apd_Context args; akd_Host := apd_Host args; akd_KddSharder := apd_Sharder args;
    PeersRefreshInterval := wraps 64 (time_Second * RefreshIntervalInSec kad);
    SeedersReconnectionInterval := defaultSeedersReconnectionInterval;
    ProtocolID := protocolID; InitialPeersList := InitialPeerList kad; akd_BucketSize := BucketSize kad;
    RoutingTableRefresh := wraps 64 (time_Second * RoutingTableRefreshIntervalInSec kad);
    akd_ConnectionWatcher := apd_ConnectionsWatcher args; akd_NetworkType := apd_NetworkType args;
    akd_Logger := apd_Logger args |} in
  let type := sh_Type (Sharding (apd_P2pConfig args)) in
  if decide (type = ListsSharder \/ type = OneListSharder \/ type = NilListSharder)
  then createKadDhtDiscoverer (apd_P2pConfig args) arg
  else Err ErrInvalidValue.

Fixpoint createAll (args : ArgsPeerDiscoverer) (protocolIDs : list string) : result (list PeerDiscoverer) :=
  match protocolIDs with
  | [] => Ok []
  | protocolID :: protocolIDs =>
      instance ← createKadDhtPeerDiscoverer args protocolID;
      instances ← createAll args protocolIDs;
      Ok (instance :: instances)
  end.

Definition NewPeerDiscoverers (args : ArgsPeerDiscoverer) : result (list PeerDiscoverer) :=
  guard_err (negb (apd_Logger args)) ErrNilLogger $
  let kad := KadDhtPeerDiscovery (apd_P2pConfig args) in
  if Enabled kad then
    guard_err (len (ProtocolIDs kad) =? 0) ErrInvalidConfig $
    createAll args (ProtocolIDs kad)
  else Ok [NilDiscoverer].

End discovery.

(** ** Asking the sharder before connecting *)

Lemma has_elem pid l : has pid l = true <-> pid ∈ l.
Proof.
  unfold has. rewrite existsb_exists. split.
  - intros (x & Hx & ->%bool_decide_eq_true). by apply list_elem_of_In.
  - intros Hp. exists pid. split; [by apply list_elem_of_In|by apply bool_decide_eq_true].
Qed.

Section connect.
Context (Pretty : PeerID -> string).
Context (sort_Sort : list PeerDistance -> list PeerDistance) `{!SortSort sort_Sort}.

(** The peers with the one that is to be connected *)
Definition with_peer (allPeers : list PeerID) (pid : PeerID) : list PeerID :=
  if has pid allPeers then allPeers else allPeers ++ [pid].

Lemma canConnectToPeer_spec sh allPeers pid :
  canConnectToPeer Pretty sort_Sort {| hwcm_sharder := sh |} allPeers pid
  = if has pid (sh_ComputeEvictionList Pretty sort_Sort sh (with_peer allPeers pid))
    then Some (ErrUnwantedPeer : error) else None.
Proof.
  unfold canConnectToPeer, with_peer. destruct sh as [ls|ols|]; cbn [hwcm_sharder sh_Has]; unfold ls_Has, ols_Has;
    [by destruct (has pid allPeers)..|]. by destruct (has pid allPeers).
Qed.

Lemma evicted_category ls peers pid :
  ls_wf ls -> pid ∈ ComputeEvictionList Pretty sort_Sort ls peers -> is_Some (category Pretty ls pid).
Proof.
  intros Hwf Hp. destruct (ComputeEvictionList_shares Pretty sort_Sort ls peers Hwf) as (n & Hn & He).
  rewrite He in Hp. apply elem_of_concat_fmap in Hp as (k & Hk & Hp).
  apply (evicted_of_category _ _ _ _ _ _ _ (shares_nonneg _ _ _ _ Hn k Hk)) in Hp as [Hc _]. by exists k.
Qed.

(** C25: a peer is dialed exactly when the sharder, of any kind, would keep it beside the
    connected ones; the watcher is told in any case. With the lists sharder a preferred peer
    that is no seeder is never refused, and with the nil sharder no peer is. When a connection
    with the peer opens, at a monitor that has the same sharder and finds the same peers
    connected: if the monitor does not deny the peer, it asks for its closing exactly when the
    peer would not have been dialed; if it denies the peer, it closes the connection, whether
    the peer was dialed or not, and does nothing else. *)
Theorem hw_Connect_spec {E} `{PeerDenialEvaluator E} AllShardId sh host_Connect allPeers pi
    (lcms : libp2pConnectionMonitorSimple E) conn :
  sharder_wf sh -> lcms_sharder lcms = sh -> nc_RemotePeer conn = ai_ID pi ->
  let evicted := sh_ComputeEvictionList Pretty sort_Sort sh (with_peer allPeers (ai_ID pi)) in
  let opened := (Connected Pretty sort_Sort AllShardId lcms (with_peer allPeers (ai_ID pi)) conn).2 in
  let '(err, effects) := hw_Connect Pretty sort_Sort {| hwcm_sharder := sh |} host_Connect allPeers pi in
  (if decide (ai_ID pi ∈ evicted)
   then err = Some (ErrUnwantedPeer : error)
        /\ effects = [HwNewKnownConnection (ai_ID pi) (concatenateAddresses (ai_Addrs pi))]
   else err = host_Connect pi
        /\ effects = [HwNewKnownConnection (ai_ID pi) (concatenateAddresses (ai_Addrs pi)); HwConnect pi])
  /\ match sh with
     | SLists ls => preferredPeersHolder ls (ai_ID pi) = true -> ls_IsSeeder Pretty ls (ai_ID pi) = false ->
                    HwConnect pi ∈ effects
     | SOneList _ => True
     | SNil => HwConnect pi ∈ effects
     end
  /\ (if lcms_IsDenied lcms (ai_ID pi) then opened = [DoConnClose (nc_ID conn)]
      else HwConnect pi ∈ effects <-> DoClosePeer (ai_ID pi) ∉ opened).
Proof.
  intros Hwf Hs Hc evicted opened. unfold hw_Connect. rewrite canConnectToPeer_spec. fold evicted.
  assert (Hclose : lcms_IsDenied lcms (ai_ID pi) = false -> DoClosePeer (ai_ID pi) ∈ opened <-> ai_ID pi ∈ evicted).
  { intros Hd. unfold opened, Connected. rewrite Hc, Hd. cbv zeta. cbn [snd lcms_sharder set_holder]. rewrite Hs.
    fold evicted. rewrite elem_of_cons, list_elem_of_fmap. split; [|by eauto].
    intros [?|(q & [= <-] & Hq)]; done. }
  assert (Hdenied : lcms_IsDenied lcms (ai_ID pi) = true -> opened = [DoConnClose (nc_ID conn)]).
  { intros Hd. unfold opened, Connected. by rewrite Hc, Hd. }
  destruct (has (ai_ID pi) evicted) eqn:Hh.
  - pose proof (proj1 (has_elem _ _) Hh) as Hin. rewrite decide_True by done.
    assert (Hno : HwConnect pi ∉ [HwNewKnownConnection (ai_ID pi) (concatenateAddresses (ai_Addrs pi))])
      by (intros ?%list_elem_of_singleton; done).
    split_and!; [done..| |].
    + destruct sh as [ls|ols|]; [|done|by apply elem_of_nil in Hin].
      intros Hpref Hseed. exfalso. destruct (evicted_category ls _ _ Hwf Hin) as [k Hk].
      unfold category in Hk. by rewrite Hseed, Hpref in Hk.
    + destruct (lcms_IsDenied lcms (ai_ID pi)); [by apply Hdenied|]. rewrite Hclose by done. naive_solver.
  - assert (Hnin : ai_ID pi ∉ evicted) by (rewrite <- has_elem; congruence).
    rewrite decide_False by done. split_and!; [done..| |].
    + destruct sh; [intros _ _|done|]; set_solver.
    + destruct (lcms_IsDenied lcms (ai_ID pi)); [by apply Hdenied|]. rewrite Hclose by done. set_solver.
Qed.
End connect.

(** ** The seeders of the continuous discoverer *)

(** The seeder of an attempt *)
Definition seeder (l : list string) (attempt : nat) : string := nth (attempt `mod` length l) l "".

Definition attempt_fails (connect : nat -> string -> option error) (ctxDone : nat -> bool) (l : list string)
    (attempt : nat) : Prop :=
  connect attempt (seeder l attempt) <> None /\ ctxDone attempt = false.

Lemma seeder_lookup l attempt : l <> [] -> l !! (attempt `mod` length l)%nat = Some (seeder l attempt).
Proof.
  intros Hl. assert (Hlen : (0 < length l)%nat) by (destruct l; [done|simpl; lia]). unfold seeder.
  destruct (nth_lookup_or_length l (attempt `mod` length l) "") as [H|H]; [done|].
  pose proof (Nat.mod_upper_bound attempt (length l)). lia.
Qed.

(** What the loop tries, from an attempt on, and how it ends *)
Lemma tryConnectToSeeder_spec connect ctxDone l fuel attempt :
  l <> [] ->
  let '(tried, outcome) := tryConnectToSeeder connect ctxDone l fuel attempt (attempt `mod` length l) in
  tried = seeder l <$> seq attempt (length tried)
  /\ ((outcome = SeederTrying /\ length tried = fuel
        /\ forall j, (attempt <= j < attempt + fuel)%nat -> attempt_fails connect ctxDone l j)
      \/ exists k, (k < fuel)%nat /\ length tried = S k
        /\ (forall j, (attempt <= j < attempt + k)%nat -> attempt_fails connect ctxDone l j)
        /\ ((outcome = SeederConnected /\ connect (attempt + k)%nat (seeder l (attempt + k)) = None)
            \/ (outcome = SeederCancelled /\ ctxDone (attempt + k)%nat = true))).
Proof.
  intros Hl. revert attempt. induction fuel as [|fuel IH]; intros attempt; cbn [tryConnectToSeeder].
  { split; [done|]. left. split_and!; [done|done|intros j Hj; lia]. }
  rewrite seeder_lookup by done. destruct (connect attempt (seeder l attempt)) as [err|] eqn:Hc.
  - replace (((attempt `mod` length l + 1) `mod` length l)%nat) with ((S attempt `mod` length l)%nat)
      by (rewrite Nat.Div0.add_mod_idemp_l; f_equal; lia).
    destruct (ctxDone attempt) eqn:Hd.
    + split; [done|]. right. exists 0%nat. rewrite Nat.add_0_r. split_and!; [lia|done|intros j Hj; lia|by right].
    + specialize (IH (S attempt)).
      destruct (tryConnectToSeeder connect ctxDone l fuel (S attempt) _) as [tried outcome].
      destruct IH as (Htried & Hend). split; [simpl; by rewrite Htried at 1|].
      assert (Hfail : attempt_fails connect ctxDone l attempt) by (split; [congruence|done]).
      assert (Hext : forall n, (forall j, (S attempt <= j < S attempt + n)%nat -> attempt_fails connect ctxDone l j) ->
        forall j, (attempt <= j < attempt + S n)%nat -> attempt_fails connect ctxDone l j).
      { intros n Hn j Hj. destruct (decide (j = attempt)) as [->|]; [done|]. apply Hn. lia. }
      destruct Hend as [(-> & Hlen & Hall)|(k & Hk & Hlen & Hall & Hout)].
      * left. simpl. split_and!; [done|lia|by apply Hext].
      * right. exists (S k). replace (attempt + S k)%nat with (S attempt + k)%nat by lia. simpl.
        split_and!; [lia|lia| |done]. intros j Hj. apply (Hext k Hall). lia.
  - split; [done|]. right. exists 0%nat. rewrite Nat.add_0_r. split_and!; [lia|done|intros j Hj; lia|by left].
Qed.

(** The continuous discoverer tries its seeders one after the other, round
    and round: attempt [i] goes to seeder [i] modulo their number, no index is out
    of range, and every attempt but the last failed. As soon as one of the seeders
    can be reached, and the context is not done, it is connected within one
    round. With no seeder it goes on at once. *)
Theorem connectToOnePeer_round_robin connect ctxDone l fuel :
  let '(tried, outcome) := connectToOnePeerFromInitialPeersList connect ctxDone l fuel in
  (l = [] -> tried = [] /\ outcome = SeederConnected)
  /\ outcome <> SeederPanic
  /\ tried = seeder l <$> seq 0 (length tried)
  /\ (forall i, (S i < length tried)%nat -> attempt_fails connect ctxDone l i)
  /\ (forall a, a ∈ l -> (forall i, connect i a = None) -> (forall i, ctxDone i = false) ->
      (length l <= fuel)%nat -> outcome = SeederConnected /\ (length tried <= length l)%nat).
Proof.
  unfold connectToOnePeerFromInitialPeersList. destruct (decide (l = [])) as [->|Hl].
  { simpl. split_and!; [done|done|done|lia|]. intros a Ha. by apply elem_of_nil in Ha. }
  assert (Hlen : (0 < length l)%nat) by (destruct l; [done|simpl; lia]).
  replace (len l =? 0) with false by (unfold len; lia).
  pose proof (tryConnectToSeeder_spec connect ctxDone l fuel 0 Hl) as Hspec.
  rewrite Nat.Div0.mod_0_l in Hspec.
  destruct (tryConnectToSeeder connect ctxDone l fuel 0 0) as [tried outcome].
  destruct Hspec as (Htried & Hend). split_and!; [done| |done| |].
  - destruct Hend as [(-> & _)|(k & _ & _ & _ & [[-> _]|[-> _]])]; done.
  - intros i Hi. destruct Hend as [(_ & Hf & Hall)|(k & Hk & Hf & Hall & _)]; apply Hall; lia.
  - intros a [j Hj]%list_elem_of_lookup Ha Hd Hfuel. pose proof (lookup_lt_Some _ _ _ Hj) as Hlt.
    assert (Hsj : seeder l j = a).
    { unfold seeder. rewrite Nat.mod_small by done. by apply nth_lookup_Some. }
    assert (Hnf : forall n, attempt_fails connect ctxDone l n -> n <> j).
    { intros n [Hn _] ->. rewrite Hsj, Ha in Hn. done. }
    destruct Hend as [(_ & _ & Hall)|(k & Hk & Hf & Hall & Hout)].
    + exfalso. apply (Hnf j); [apply Hall; lia|done].
    + assert (k <= j)%nat by (destruct (decide (k <= j)%nat); [done|]; exfalso; apply (Hnf j);
        [apply Hall; lia|done]).
      destruct Hout as [[-> _]|[_ Hdone]]; [split; [done|lia]|by rewrite Hd in Hdone].
Qed.

(** ** Starting and stopping the continuous discoverer *)

(** The DHT is set exactly while there is a goroutine to cancel. *)
Definition ckdd_inv (ckdd : continuousKadDhtDiscoverer) : Prop :=
  is_Some (kadDHT ckdd) <-> refreshCancel ckdd = true.

Lemma NewContinuousKadDhtDiscoverer_inv arg ckdd sharder :
  NewContinuousKadDhtDiscoverer arg = Ok (ckdd, sharder) -> ckdd_inv ckdd.
Proof. intros (s & _ & [= <- <-])%bind_Ok. split; [by intros []|done]. Qed.

(** Starting works once, until it is stopped; it fails without a change of the
    invariant when the DHT cannot be made. *)
Lemma ckdd_Bootstrap_inv dht_New ckdd :
  ckdd_inv ckdd ->
  let '(err, ckdd', effects) := ckdd_Bootstrap dht_New ckdd in
  ckdd_inv ckdd'
  /\ (refreshCancel ckdd = true -> err = Some (ErrPeerDiscoveryProcessAlreadyStarted : error) /\ ckdd' = ckdd)
  /\ (refreshCancel ckdd = false ->
      (err = None <-> refreshCancel ckdd' = true) /\ (err = None <-> GoConnectToInitialAndBootstrap ∈ effects)).
Proof.
  unfold ckdd_inv, ckdd_Bootstrap. intros Hinv. destruct (kadDHT ckdd) as [dht|] eqn:Hd.
  { split; [by rewrite Hd|]. split; [done|]. intros Hc. rewrite Hc in Hinv.
    by discriminate (proj1 Hinv (mk_is_Some _ _ eq_refl)). }
  assert (Hc : refreshCancel ckdd = false) by (apply not_true_is_false; intros [x Hx]%Hinv; done).
  unfold startDHT, NewHostWithConnectionManagement. cbn. destruct (dht_New _ _ _) as [dht|err]; cbn; rewrite ?Hd, ?Hc.
  - split_and!; [by split|done|]. intros _. split; [done|]. split; [|done]. intros _. apply list_elem_of_here.
  - split_and!; [split; [by intros []|done]|done|]. intros _. split; [done|].
    split; [done|]. intros Hin. apply list_elem_of_singleton in Hin. done.
Qed.

(** Stopping never panics, and a discoverer that was stopped can be started again. *)
Lemma stopDHT_inv dht_Close ckdd :
  ckdd_inv ckdd ->
  exists err ckdd' effects, stopDHT dht_Close ckdd = Some (err, ckdd', effects)
    /\ ckdd_inv ckdd' /\ kadDHT ckdd' = None /\ refreshCancel ckdd' = false.
Proof.
  unfold ckdd_inv, stopDHT. intros Hinv. destruct (refreshCancel ckdd) eqn:Hc; cbn.
  - destruct (proj2 Hinv eq_refl) as [dht Hd]. rewrite Hd. cbn. eexists _, _, _. split; [done|]. cbn.
    split_and!; [|done|done]. split; [by intros []|done].
  - exists None, ckdd, []. split_and!; [done|by rewrite Hc| |done].
    destruct (kadDHT ckdd); [|done]. by discriminate (proj1 Hinv (mk_is_Some _ _ eq_refl)).
Qed.

(** ** The optimized discoverer *)

Section optimized.
Context (Pretty : PeerID -> string).
Context (sort_Sort : list PeerDistance -> list PeerDistance).

(** The attempts of a reconnection, seeder by seeder *)
Definition attempts (okdd : optimizedKadDhtDiscoverer) (views : nat -> net_view) (i : nat) (seeders : list string)
    : list (option error * list hw_effect) :=
  (fun '(j, address) => connectToSeeder Pretty sort_Sort okdd (views j) address)
    <$> zip (seq i (length seeders)) seeders.

Lemma attempts_cons okdd views i a seeders :
  attempts okdd views i (a :: seeders)
  = connectToSeeder Pretty sort_Sort okdd (views i) a :: attempts okdd views (S i) seeders.
Proof. done. Qed.

Lemma reconnect_loop_spec okdd views i seeders connected :
  (forall j, nv_ctxDone (views j) = false) ->
  reconnect_loop Pretty sort_Sort okdd views i seeders connected
  = (connected || existsb (fun r => bool_decide (r.1 = None)) (attempts okdd views i seeders),
     concat (snd <$> attempts okdd views i seeders)).
Proof.
  intros Hd. revert i connected. induction seeders as [|a seeders IH]; intros i connected.
  { simpl. by rewrite orb_false_r. }
  rewrite attempts_cons. cbn [reconnect_loop].
  destruct (connectToSeeder _ _ _ _ a) as [err effects]. rewrite Hd, IH.
  rewrite fmap_cons. cbn [concat existsb fst snd]. f_equal. destruct err as [e|].
  - by rewrite bool_decide_false.
  - rewrite bool_decide_true by done. by rewrite orb_true_r.
Qed.

(** A reconnection of an initialized discoverer goes through all the seeders
    while its context is not done, whether or not one of them is connected; the
    next one is waited for the longer interval exactly when one of them is or
    could be connected. A seeder that is connected is not dialed, and a dialed one
    was asked to the sharder. *)
Theorem processSeedersReconnect_spec okdd views :
  status okdd = statInitialized -> okdd_initialPeersList okdd <> [] ->
  (forall j, nv_ctxDone (views j) = false) ->
  let '(wait, effects) := processSeedersReconnect Pretty sort_Sort okdd views in
  let tries := attempts okdd views 0 (okdd_initialPeersList okdd) in
  effects = concat (snd <$> tries)
  /\ length tries = length (okdd_initialPeersList okdd)
  /\ ((exists r, r ∈ tries /\ r.1 = None) -> wait = okdd_seedersReconnectionInterval okdd)
  /\ ((forall r, r ∈ tries -> r.1 <> None) -> wait = okdd_peersRefreshInterval okdd)
  /\ (forall pi, HwConnect pi ∈ effects -> exists j,
        nv_Connectedness (views j) (ai_ID pi) = false
        /\ canConnectToPeer Pretty sort_Sort (okdd_hostConnManagement okdd) (nv_Peers (views j)) (ai_ID pi) = None).
Proof.
  intros Hs Hl Hd. unfold processSeedersReconnect, tryToReconnectAtLeastToASeeder.
  rewrite Hs, bool_decide_false by naive_solver.
  replace (len (okdd_initialPeersList okdd) =? 0) with false
    by (destruct (okdd_initialPeersList okdd); [done|unfold len; simpl; lia]).
  rewrite reconnect_loop_spec by done. cbn [orb]. split_and!; [done| | | |].
  - unfold attempts. rewrite length_fmap, length_zip, length_seq. lia.
  - intros (r & Hr & Hn). replace (existsb _ _) with true; [done|]. symmetry. apply existsb_exists.
    exists r. split; [by apply list_elem_of_In|by apply bool_decide_eq_true].
  - intros Hall. replace (existsb _ _) with false; [done|]. symmetry. apply not_true_is_false.
    intros (r & Hr & Hn%bool_decide_eq_true)%existsb_exists. apply list_elem_of_In in Hr. by apply (Hall r).
  - intros pi Hpi. apply elem_of_concat_fmap in Hpi as (r & Hr & Hpi).
    apply list_elem_of_fmap in Hr as ([j a] & -> & _). exists j. unfold connectToSeeder in Hpi.
    destruct (nv_AddressToPeerInfo (views j) a) as [pi'|err]; simpl in Hpi; [|by apply elem_of_nil in Hpi].
    unfold hw_IsConnected in Hpi. destruct (nv_Connectedness _ (ai_ID pi')) eqn:Hc; [by apply elem_of_nil in Hpi|].
    unfold hw_Connect in Hpi. destruct (canConnectToPeer _ _ _ _ (ai_ID pi')) as [err|] eqn:Hcan; simpl in Hpi.
    + by apply list_elem_of_singleton in Hpi.
    + apply elem_of_cons in Hpi as [?|[= ->]%list_elem_of_singleton]; [done|]. by split.
Qed.

(** *** The loop and its callers *)

Definition count (c : caller) (l : list caller) : nat := length (filter (fun c' => c' = c) l).

Definition one (P : Prop) `{Decision P} : nat := if decide P then 1%nat else 0%nat.

Lemma count_insert c l i x y :
  l !! i = Some x -> (count c (<[i := y]> l) + one (x = c) = count c l + one (y = c))%nat.
Proof.
  revert i. induction l as [|z l IH]; intros [|i] Hi; simplify_eq/=.
  - unfold count, one. rewrite !filter_cons. repeat case_decide; simpl; lia.
  - specialize (IH i Hi). unfold count, one in *. rewrite !filter_cons. repeat case_decide; simpl; lia.
Qed.

Lemma count_snoc c l x : count c (l ++ [x]) = (count c l + one (x = c))%nat.
Proof. unfold count, one. rewrite filter_app, length_app, filter_cons. by case_decide. Qed.

Lemma count_pos c l i : l !! i = Some c -> (0 < count c l)%nat.
Proof.
  intros Hi. unfold count. assert (c ∈ filter (fun c' => c' = c) l) as He.
  { apply list_elem_of_filter. split; [done|by eapply list_elem_of_lookup_2]. }
  destruct (filter _ l); [by apply elem_of_nil in He|simpl; lia].
Qed.
Definition sending_nil (p : loop_phase) : nat := match p with SendingErr None => 1 | _ => 0 end.
Definition sending (p : loop_phase) : nat := match p with SendingErr _ => 1 | _ => 0 end.

(** Of the callers, as many got [nil] or are about to as initializations were
    made, and one waits for an answer exactly while the loop sends one. *)
Record os_inv (st : okdd_state) : Prop := {
  oi_nil : (count (CallReturned None) (os_callers st) + sending_nil (os_phase st))%nat
           = one (status (os_okdd st) = statInitialized);
  oi_err : count CallErr (os_callers st) = sending (os_phase st);
  oi_dht : status (os_okdd st) = statInitialized <-> is_Some (okdd_kadDHT (os_okdd st));
}.

Lemma seeders_branch_fields st callers views st' effects :
  seeders_branch Pretty sort_Sort st callers views = (st', effects) ->
  os_okdd st' = os_okdd st /\ os_phase st' = AtSelect /\ os_callers st' = callers.
Proof.
  unfold seeders_branch. destruct (processSeedersReconnect _ _ _ _) as [w e]. by intros [= <- <-].
Qed.

Lemma okdd_init_status create okdd err okdd' :
  okdd_init create okdd = (err, okdd') ->
  (status okdd = statInitialized <-> is_Some (okdd_kadDHT okdd)) ->
  (status okdd' = statInitialized <-> is_Some (okdd_kadDHT okdd'))
  /\ one (status okdd' = statInitialized)
     = (one (status okdd = statInitialized) + sending_nil (SendingErr err))%nat.
Proof.
  unfold okdd_init. destruct (status okdd) eqn:Hs; simpl.
  - destruct create as [d|e]; intros [= <- <-] H; simpl; rewrite ?Hs; (split; [|done]); [|done].
    split; [by eexists|done].
  - intros [= <- <-] H; simpl; rewrite Hs. by split.
Qed.

Lemma okdd_step_inv st ev st' effects :
  os_inv st -> okdd_step Pretty sort_Sort st ev = Some (st', effects) -> os_inv st'.
Proof.
  intros [Hn He Hd] Hst. destruct ev as [d| |i create|i views|views|views| |ctxErr [i|]]; simpl in Hst.
  - destruct (d <? 0); simplify_eq/=. by split.
  - simplify_eq/=. split; simpl; rewrite ?count_snoc; unfold one in *; simpl; [lia|lia|done].
  - destruct (os_phase st) eqn:Hp, (os_callers st !! i) as [[]|] eqn:Hi; simplify_eq/=.
    destruct (okdd_init create (os_okdd st)) as [err okdd'] eqn:Hinit. simplify_eq/=.
    destruct (okdd_init_status _ _ _ _ Hinit Hd) as [Hd' Hone].
    split; simpl; [|pose proof (count_insert CallErr _ _ _ CallErr Hi)|done].
    + pose proof (count_insert (CallReturned None) _ _ _ CallErr Hi) as Hc. simpl in *.
      rewrite Hone. unfold one in Hc. simpl in Hc. lia.
    + unfold one in *. simpl in *. lia.
  - destruct (os_phase st) as [|err|] eqn:Hp, (os_callers st !! i) as [[]|] eqn:Hi; simplify_eq/=.
    pose proof (count_insert CallErr _ _ _ (CallReturned err) Hi) as H1.
    pose proof (count_insert (CallReturned None) _ _ _ (CallReturned err) Hi) as H2.
    unfold one in H1, H2. destruct err as [e|]; simplify_eq/=.
    + split; simpl; [lia|lia|done].
    + destruct (seeders_branch _ _ _ _ _) as [st2 eff] eqn:Hb. simplify_eq/=.
      destruct (seeders_branch_fields _ _ _ _ _ Hb) as (Ho & Hph & Hcs).
      split; rewrite ?Ho, ?Hph, ?Hcs; simpl; [lia|lia|done].
  - destruct (os_phase st) eqn:Hp; simplify_eq/=. destruct (_ <=? _); simplify_eq/=.
    destruct (seeders_branch_fields _ _ _ _ _ Hst) as (Ho & Hph & Hcs).
    split; rewrite ?Ho, ?Hph, ?Hcs; simpl; [lia|lia|done].
  - destruct (os_phase st) eqn:Hp; simplify_eq/=; [|by split; rewrite ?Hp..].
    destruct (seeders_branch_fields _ _ _ _ _ Hst) as (Ho & Hph & Hcs).
    split; rewrite ?Ho, ?Hph, ?Hcs; simpl; [lia|lia|done].
  - destruct (os_phase st) eqn:Hp; simplify_eq/=. destruct (_ <=? _); simplify_eq/=. by split.
  - destruct (os_phase st) eqn:Hp, (os_callers st !! i) as [[]|] eqn:Hi; simplify_eq/=.
    pose proof (count_pos _ _ _ Hi). lia.
  - destruct (os_phase st) eqn:Hp; simplify_eq/=. destruct (existsb _ _); simplify_eq/=. by split.
Qed.

Lemma reaches_inv st0 st : os_inv st0 -> okdd_reaches Pretty sort_Sort st0 st -> os_inv st.
Proof. intros H0. induction 1; [done|by eapply okdd_step_inv]. Qed.

(** The state after a list of events, if each can happen *)
Fixpoint okdd_run (st : okdd_state) (evs : list okdd_event) : option okdd_state :=
  match evs with
  | [] => Some st
  | ev :: evs =>
      match okdd_step Pretty sort_Sort st ev with
      | Some (st', _) => okdd_run st' evs
      | None => None
      end
  end.

Lemma run_reaches st0 st evs st' :
  okdd_reaches Pretty sort_Sort st0 st -> okdd_run st evs = Some st' -> okdd_reaches Pretty sort_Sort st0 st'.
Proof.
  revert st. induction evs as [|ev evs IH]; intros st Hr; simpl; [by intros [= <-]|].
  destruct (okdd_step _ _ st ev) as [[st1 effects]|] eqn:Hs; [|done]. by apply IH; eapply okdd_after.
Qed.

Lemma stopped_step st ev st' effects i :
  os_phase st = Stopped -> os_callers st !! i = Some CallInit ->
  okdd_step Pretty sort_Sort st ev = Some (st', effects) ->
  os_phase st' = Stopped /\ os_callers st' !! i = Some CallInit.
Proof.
  intros Hp Hi Hst. destruct ev; simpl in Hst; rewrite ?Hp in Hst; simplify_eq/=; [|by rewrite lookup_app_l; [|eapply lookup_lt_Some]|done].
  destruct (_ <? 0); simplify_eq/=. by split.
Qed.

(** C23: the DHT is created once: of all the calls of [Bootstrap], at any
    number and in any interleaving with the timers, the reconnections and the
    closing, at most one ever gets [nil], and it gets it with the discoverer
    initialized and its DHT set; the others get an error. At its select the loop
    owes no answer, so the send of the closing loop never finds a receiver. *)
Theorem bootstrap_once okdd now st :
  status okdd = statNotInitialized -> okdd_kadDHT okdd = None ->
  okdd_reaches Pretty sort_Sort (processLoop_start okdd now) st ->
  (count (CallReturned None) (os_callers st) <= 1)%nat
  /\ (forall i, os_callers st !! i = Some (CallReturned None) ->
      status (os_okdd st) = statInitialized /\ is_Some (okdd_kadDHT (os_okdd st)))
  /\ (status (os_okdd st) = statInitialized -> os_phase st = AtSelect ->
      count (CallReturned None) (os_callers st) = 1%nat)
  /\ (os_phase st = AtSelect -> forall i, os_callers st !! i <> Some CallErr)
  /\ (forall ctxErr i, okdd_step Pretty sort_Sort st (EvCtxDone ctxErr (Some i)) = None).
Proof.
  intros Hs Hd Hr. assert (os_inv st) as [Hn He Hdht].
  { eapply reaches_inv; [|done]. split; simpl; [by rewrite Hs|done|rewrite Hs, Hd].
    split; [done|by intros []]. }
  assert (Hno : os_phase st = AtSelect -> forall i, os_callers st !! i <> Some CallErr).
  { intros Hp i Hi. rewrite Hp in He. simpl in He. pose proof (count_pos _ _ _ Hi). lia. }
  split_and!; [| | |done|].
  - unfold one in Hn. case_decide; lia.
  - intros i Hi. pose proof (count_pos _ _ _ Hi). unfold one in Hn. case_decide as Hst; [|lia].
    split; [done|by apply Hdht].
  - intros Hst Hp. rewrite Hp in Hn. unfold one in Hn. simpl in Hn. case_decide; [lia|done].
  - intros ctxErr i. simpl. destruct (os_phase st) eqn:Hp; [|done..].
    destruct (os_callers st !! i) as [[]|] eqn:Hi; [done| |done|done]. by destruct (Hno eq_refl i).
Qed.

(** A call of [Bootstrap] that is waiting is answered by the two next steps of a
    loop at its select, with what [init] returns: [nil] the first time, after which
    the loop goes through the seeders and asks the DHT for peers; the error of the
    creation of the DHT, after which a later call can succeed; or that it was
    started already. *)
Theorem Bootstrap_answered st i create views :
  os_phase st = AtSelect -> os_callers st !! i = Some CallInit ->
  let '(err, okdd) := okdd_init create (os_okdd st) in
  exists st1 st2 effects,
    okdd_step Pretty sort_Sort st (EvChanInit i create) = Some (st1, [])
    /\ okdd_step Pretty sort_Sort st1 (EvErrChanInit i views) = Some (st2, effects)
    /\ os_callers st2 = <[i := CallReturned err]> (os_callers st)
    /\ os_phase st2 = AtSelect /\ os_okdd st2 = okdd
    /\ (status (os_okdd st) = statInitialized ->
        err = Some (ErrPeerDiscoveryProcessAlreadyStarted : error) /\ okdd = os_okdd st)
    /\ (status (os_okdd st) = statNotInitialized -> forall e, create = Err e -> err = Some e /\ okdd = os_okdd st)
    /\ (status (os_okdd st) = statNotInitialized -> forall dht, create = Ok dht ->
        err = None /\ okdd_kadDHT okdd = Some dht
        /\ effects = (DoHost <$> (processSeedersReconnect Pretty sort_Sort okdd views).2) ++ [DoDhtBootstrap dht]
        /\ os_seedersAt st2 = os_now st + (processSeedersReconnect Pretty sort_Sort okdd views).1)
    /\ (err <> None -> effects = [] /\ os_seedersAt st2 = os_now st + okdd_peersRefreshInterval okdd).
Proof.
  intros Hp Hi. destruct (okdd_init create (os_okdd st)) as [err okdd] eqn:Hinit.
  assert (Hlt : (i < length (os_callers st))%nat) by by eapply lookup_lt_Some.
  cbn [okdd_step]. rewrite Hp, Hi, Hinit. eexists.
  destruct err as [e|].
  - eexists _, _. split_and!; [done| | | | | | | |]; cbn [okdd_step os_set os_phase os_callers os_okdd os_now].
    + by rewrite list_lookup_insert_eq.
    + cbn. by rewrite list_insert_insert_eq.
    + done.
    + done.
    + intros Hs. unfold okdd_init in Hinit. rewrite Hs in Hinit. by simplify_eq/=.
    + intros Hs e' ->. unfold okdd_init in Hinit. rewrite Hs in Hinit. by simplify_eq/=.
    + intros Hs d ->. unfold okdd_init in Hinit. rewrite Hs in Hinit. by simplify_eq/=.
    + done.
  - unfold okdd_init in Hinit. destruct (status (os_okdd st)) eqn:Hs; simplify_eq/=.
    destruct create as [d|e]; simplify_eq/=. rewrite list_lookup_insert_eq by done.
    unfold seeders_branch. cbn [os_okdd os_set].
    destruct (processSeedersReconnect _ _ _ _) as [w e] eqn:Hr.
    eexists _, _. split_and!; [done|done|cbn; by rewrite list_insert_insert_eq|done|done|done|done| |done].
    intros _ dht [= ->]. by split_and!.
Qed.

(** Once the context of the discoverer is done and its loop has ended, a call
    of [Bootstrap] that has not handed in its request never does, whatever happens
    next: it blocks for ever, for the sends on its channels do not look at the context. *)
Theorem Bootstrap_after_close_blocks st st' i :
  os_phase st = Stopped -> os_callers st !! i = Some CallInit ->
  okdd_reaches Pretty sort_Sort st st' -> os_callers st' !! i = Some CallInit.
Proof.
  intros Hp Hi Hr. assert (os_phase st' = Stopped /\ os_callers st' !! i = Some CallInit) as [_ ?]; [|done].
  induction Hr as [|st1 ev st2 effects _ [IHp IHi] Hst]; [done|by eapply stopped_step].
Qed.
End optimized.

(** ** The factory *)

(** What the factory promises of the discoverer of a protocol *)
Definition discovers (args : ArgsPeerDiscoverer) (pd : PeerDiscoverer) (protocolID : string) : Prop :=
  let kad := KadDhtPeerDiscovery (apd_P2pConfig args) in
  match pd with
  | NilDiscoverer => False
  | Continuous d =>
      kad_Type kad = typeLegacy /\ ckdd_protocolID d = protocolID
      /\ ckdd_initialPeersList d = InitialPeerList kad
      /\ ckdd_peersRefreshInterval d = time_Second * RefreshIntervalInSec kad
      /\ ckdd_routingTableRefresh d = time_Second * RoutingTableRefreshIntervalInSec kad
      /\ kadDHT d = None
  | Optimized d =>
      kad_Type kad = typeOptimized /\ okdd_protocolID d = protocolID
      /\ okdd_initialPeersList d = InitialPeerList kad
      /\ okdd_peersRefreshInterval d = time_Second * RefreshIntervalInSec kad
      /\ okdd_routingTableRefresh d = time_Second * RoutingTableRefreshIntervalInSec kad
      /\ okdd_seedersReconnectionInterval d = 300 * time_Second
      /\ status d = statNotInitialized /\ okdd_kadDHT d = None
  end.

(** The arguments and the configuration are good *)
Definition discoverable (args : ArgsPeerDiscoverer) : bool :=
  let kad := KadDhtPeerDiscovery (apd_P2pConfig args) in
  let type := sh_Type (Sharding (apd_P2pConfig args)) in
  bool_decide (type = ListsSharder \/ type = OneListSharder \/ type = NilListSharder)
  && bool_decide (kad_Type kad = typeLegacy \/ kad_Type kad = typeOptimized)
  && apd_Context args && apd_Host args && apd_ConnectionsWatcher args && apd_Logger args
  && match apd_Sharder args with Some (KddSharder _) => true | _ => false end
  && (1 <=? RefreshIntervalInSec kad) && (1 <=? RoutingTableRefreshIntervalInSec kad).

Definition uint32_intervals (args : ArgsPeerDiscoverer) : Prop :=
  let kad := KadDhtPeerDiscovery (apd_P2pConfig args) in
  0 <= RefreshIntervalInSec kad < 2 ^ 32 /\ 0 <= RoutingTableRefreshIntervalInSec kad < 2 ^ 32.

Lemma seconds_fit x : 0 <= x < 2 ^ 32 -> wraps 64 (time_Second * x) = time_Second * x.
Proof. intros Hx. apply wraps_small; [lia|]. unfold in_s, time_Second. simpl. lia. Qed.

Lemma seconds_enough x : (time_Second * x <? time_Second) = negb (1 <=? x).
Proof. unfold time_Second. lia. Qed.

(** The checks that the two discoverers share *)
Lemma prepareArguments_spec arg :
  match prepareArguments arg with
  | Ok sharder => akd_KddSharder arg = Some (KddSharder sharder)
  | Err _ => True
  end
  /\ (is_ok (prepareArguments arg) =
      akd_Context arg && akd_Host arg && akd_ConnectionWatcher arg && akd_Logger arg
      && match akd_KddSharder arg with Some (KddSharder _) => true | _ => false end
      && negb (PeersRefreshInterval arg <? time_Second) && negb (RoutingTableRefresh arg <? time_Second)).
Proof.
  unfold prepareArguments, guard_err.
  destruct (akd_Context arg), (akd_Host arg), (akd_KddSharder arg) as [[sh|]|], (akd_ConnectionWatcher arg),
    (akd_Logger arg), (_ <? _), (_ <? _); split; done.
Qed.

Lemma createKadDhtPeerDiscoverer_spec args protocolID :
  uint32_intervals args ->
  match createKadDhtPeerDiscoverer args protocolID with
  | Ok pd => discoverable args = true /\ discovers args pd protocolID
  | Err _ => discoverable args = false
  end.
Proof.
  intros [H1 H2]. unfold createKadDhtPeerDiscoverer, discoverable.
  rewrite !seconds_fit by done. unfold createKadDhtDiscoverer. case_decide as Hsh; [|by rewrite bool_decide_false].
  rewrite (bool_decide_true (sh_Type _ = _ \/ _)) by done. cbn [andb].
  set (arg := Build_ArgKadDht _ _ _ _ _ _ _ _ _ _ _ _).
  pose proof (prepareArguments_spec arg) as [Hok Hck]. unfold is_ok in Hck. cbn in Hck.
  rewrite !seconds_enough, !negb_involutive in Hck. rewrite <- !andb_assoc in Hck |- *.
  case_decide as Hl; [|case_decide as Ho].
  - rewrite bool_decide_true by auto. cbn [andb]. rewrite <- Hck.
    unfold NewContinuousKadDhtDiscoverer. destruct (prepareArguments arg) as [sharder|err]; simpl; [|done].
    by split_and!.
  - rewrite bool_decide_true by auto. cbn [andb]. rewrite <- Hck.
    unfold NewOptimizedKadDhtDiscoverer. destruct (prepareArguments arg) as [sharder|err]; cbn [mbind result_bind]; [|done].
    unfold guard_err at 1. replace (_ <? minIntervalForSeedersReconnection) with false by done.
    unfold NewHostWithConnectionManagement. cbn [ahc_ConnectableHost ahc_Sharder ahc_ConnectionsWatcher arg].
    destruct (apd_Context args), (apd_Host args), (apd_ConnectionsWatcher args); done.
  - by rewrite bool_decide_false by naive_solver.
Qed.

Lemma createAll_spec args ids :
  uint32_intervals args ->
  match createAll args ids with
  | Ok l => (ids = [] \/ discoverable args = true) /\ Forall2 (discovers args) l ids
  | Err _ => ids <> [] /\ discoverable args = false
  end.
Proof.
  intros H. induction ids as [|id ids IH]; simpl; [split; [by left|done]|].
  pose proof (createKadDhtPeerDiscoverer_spec args id H) as Hc.
  destruct (createKadDhtPeerDiscoverer args id) as [pd|err]; simpl; [|done].
  destruct (createAll args ids) as [l|err]; simpl.
  - destruct Hc, IH. split; [by right|by constructor].
  - destruct Hc as [Hc _], IH as [_ IH]. congruence.
Qed.

(** The factory gives one discoverer per protocol id, in their order, of the
    configured kind, with the intervals of the configuration in seconds (the
    products do not overflow) and not started; the discovery disabled, it gives
    the nil discoverer only. It fails exactly when the logger is missing, or the
    discovery is enabled with no protocol, an unknown kind of sharder or of
    discoverer, an interval of 0 seconds, or a missing part. *)
Theorem NewPeerDiscoverers_spec args :
  uint32_intervals args ->
  let kad := KadDhtPeerDiscovery (apd_P2pConfig args) in
  match NewPeerDiscoverers args with
  | Ok l =>
      apd_Logger args = true
      /\ if Enabled kad
         then l <> [] /\ discoverable args = true /\ Forall2 (discovers args) l (ProtocolIDs kad)
         else l = [NilDiscoverer]
  | Err err =>
      (apd_Logger args = false /\ err = ErrNilLogger)
      \/ (Enabled kad = true /\ ((ProtocolIDs kad = [] /\ err = ErrInvalidConfig) \/ discoverable args = false))
  end.
Proof.
  intros H kad. unfold NewPeerDiscoverers. fold kad. destruct (apd_Logger args) eqn:Hlog; simpl; [|by left].
  destruct (Enabled kad) eqn:He; [|by split].
  pose proof (createAll_spec args (ProtocolIDs kad) H) as Hall.
  destruct (ProtocolIDs kad) as [|id ids] eqn:Hids; [right; split; [done|by left]|].
  replace (guard_err (len (id :: ids) =? 0) _ (createAll args (id :: ids)))
    with (createAll args (id :: ids)) by (unfold guard_err; by replace (len _ =? 0) with false by (unfold len; simpl; lia)).
  destruct (createAll args (id :: ids)) as [l|err].
  - destruct Hall as [[?|Hd] Hl]; [done|]. split_and!; [done| |done|done]. by intros ->; inversion Hl.
  - right. split; [done|]. right. by destruct Hall.
Qed.

(** ** Examples *)

Definition demo_host : hostWithConnectionManagement := {| hwcm_sharder := SLists demo_ls |}.

Definition demo_info : AddrInfo := {| ai_ID := "p1"; ai_Addrs := ["/ip4/10.0.0.1/tcp/1"] |}.

(** The sharder keeps two validators of the own shard: the nearest are "v1" and "v22". *)
Definition demo_near : AddrInfo := {| ai_ID := "v1"; ai_Addrs := ["/ip4/10.0.0.1/tcp/1"] |}.
Definition demo_near_conn : NetConn := {|
  nc_ID := "conn-1"; nc_RemotePeer := "v1"; nc_RemoteMultiaddr := "/ip4/10.0.0.1/tcp/1" |}.

Lemma hw_Connect_spec_witness :
  (hw_Connect id (merge_sort dist_le) demo_host (fun _ => None) ["v22"; "v333"; "v4444"] demo_near).1 = None
  /\ HwConnect demo_near
     ∈ (hw_Connect id (merge_sort dist_le) demo_host (fun _ => None) ["v22"; "v333"; "v4444"] demo_near).2
  /\ DoClosePeer "v1"
     ∉ (Connected id (merge_sort dist_le) 99 demo_lcms ["v22"; "v333"; "v4444"; "v1"] demo_near_conn).2.
Proof.
  pose proof (hw_Connect_spec id (merge_sort dist_le) 99 (SLists demo_ls) (fun _ => None) ["v22"; "v333"; "v4444"]
    demo_near demo_lcms demo_near_conn demo_ls_wf eq_refl eq_refl) as H. cbv zeta in H. unfold demo_host.
  destruct (hw_Connect _ _ _ _ _ _) as [err effects]. cbn [fst snd]. destruct H as (H1 & _ & H3).
  rewrite decide_False in H1.
  - destruct H1 as [-> H1]. change (lcms_IsDenied demo_lcms (ai_ID demo_near)) with false in H3.
    assert (Hin : HwConnect demo_near ∈ effects) by (rewrite H1; apply list_elem_of_further, list_elem_of_here).
    split; [reflexivity|]. split; [exact Hin|]. exact (proj1 H3 Hin).
  - apply (bool_decide_unpack _). vm_compute. exact I.
Defined.

Definition demo_okdd : optimizedKadDhtDiscoverer := {|
  okdd_kadDHT := None; okdd_peersRefreshInterval := 10 * time_Second;
  okdd_seedersReconnectionInterval := 300 * time_Second; okdd_protocolID := "/drt/kad/1.0.0";
  okdd_initialPeersList := ["s1"; "s2"]; okdd_bucketSize := 100; okdd_routingTableRefresh := 300 * time_Second;
  okdd_hostConnManagement := demo_host; okdd_sharder := SLists demo_ls; status := statNotInitialized;
  okdd_networkType := "main" |}.

(** The first seeder is not reached, the second one is. *)
Definition demo_view (i : nat) : net_view := {|
  nv_AddressToPeerInfo := fun a => if i =? 0 then Err ErrInvalidValue
                                   else Ok {| ai_ID := a; ai_Addrs := [a] |};
  nv_Connectedness := fun _ => false; nv_Peers := []; nv_Connect := fun _ => None; nv_ctxDone := false |}%nat.

Lemma processSeedersReconnect_spec_witness :
  (processSeedersReconnect id (merge_sort dist_le) (okdd_start demo_okdd 7) demo_view).1 = 300 * time_Second.
Proof.
  pose proof (processSeedersReconnect_spec id (merge_sort dist_le) (okdd_start demo_okdd 7) demo_view
    eq_refl ltac:(done) ltac:(done)) as H.
  destruct (processSeedersReconnect _ _ _ _) as [wait effects]. destruct H as (_ & _ & H & _). apply H.
  exists (connectToSeeder id (merge_sort dist_le) (okdd_start demo_okdd 7) (demo_view 1) "s2").
  split; [apply list_elem_of_further, list_elem_of_here|]. vm_compute. reflexivity.
Defined.

(** Two calls of [Bootstrap]; the first one is answered, then the loop is closed. *)
Definition demo_events : list okdd_event :=
  [EvBootstrap; EvBootstrap; EvChanInit 0 (Ok 7%nat); EvErrChanInit 0 demo_view; EvCtxDone ErrNilContext None].

Definition demo_state (n : nat) : okdd_state :=
  default (processLoop_start demo_okdd 0)
    (okdd_run id (merge_sort dist_le) (processLoop_start demo_okdd 0) (take n demo_events)).

Lemma demo_state_runs n :
  (n <= 5)%nat -> okdd_run id (merge_sort dist_le) (processLoop_start demo_okdd 0) (take n demo_events)
  = Some (demo_state n).
Proof. intros Hn. do 6 (destruct n as [|n]; [vm_compute; reflexivity|]). lia. Qed.

Lemma bootstrap_once_witness :
  count (CallReturned None) (os_callers (demo_state 5)) = 1%nat
  /\ (count (CallReturned None) (os_callers (demo_state 5)) <= 1)%nat.
Proof.
  split; [vm_compute; reflexivity|]. apply (bootstrap_once id (merge_sort dist_le) demo_okdd 0 (demo_state 5) eq_refl eq_refl).
  eapply run_reaches; [apply okdd_at|]. apply demo_state_runs. lia.
Defined.

Lemma Bootstrap_answered_witness :
  exists st1 st2 effects,
    okdd_step id (merge_sort dist_le) (demo_state 2) (EvChanInit 1 (Ok 7%nat)) = Some (st1, [])
    /\ okdd_step id (merge_sort dist_le) st1 (EvErrChanInit 1 demo_view) = Some (st2, effects)
    /\ os_callers st2 = [CallInit; CallReturned None].
Proof.
  pose proof (Bootstrap_answered id (merge_sort dist_le) (demo_state 2) 1 (Ok 7%nat) demo_view
    ltac:(vm_compute; reflexivity) ltac:(vm_compute; reflexivity)) as H.
  destruct (okdd_init _ _) as [err okdd] eqn:Hi. destruct H as (st1 & st2 & effects & H1 & H2 & H3 & _).
  exists st1, st2, effects. split_and!; [exact H1|exact H2|]. rewrite H3.
  vm_compute in Hi. injection Hi as <- <-. vm_compute. reflexivity.
Defined.

Lemma Bootstrap_after_close_blocks_witness :
  os_callers (demo_state 5) !! 1%nat = Some CallInit.
Proof.
  apply (Bootstrap_after_close_blocks id (merge_sort dist_le) (demo_state 5) (demo_state 5) 1).
  - vm_compute. reflexivity.
  - vm_compute. reflexivity.
  - apply okdd_at.
Defined.

Definition demo_discovery : ArgsPeerDiscoverer := {|
  apd_Context := true; apd_Host := true; apd_Sharder := Some (KddSharder (SLists demo_ls));
  apd_P2pConfig := {|
    Node := Node demo_config;
    KadDhtPeerDiscovery := {|
      Enabled := true; kad_Type := "optimized"; RefreshIntervalInSec := 10;
      ProtocolIDs := ["/drt/kad/1.0.0"; "/drt/kad/sandbox"]; InitialPeerList := ["s1"]; BucketSize := 100;
      RoutingTableRefreshIntervalInSec := 300 |};
    Sharding := {|
      TargetPeerCount := 36; MaxIntraShardValidators := 7; MaxCrossShardValidators := 15;
      MaxIntraShardObservers := 2; MaxCrossShardObservers := 3; MaxSeeders := 2; sh_Type := "ListsSharder" |} |};
  apd_ConnectionsWatcher := true; apd_NetworkType := "main"; apd_Logger := true |}.

Lemma NewPeerDiscoverers_spec_witness :
  exists l, NewPeerDiscoverers demo_discovery = Ok l /\ length l = 2%nat
    /\ Forall2 (discovers demo_discovery) l ["/drt/kad/1.0.0"; "/drt/kad/sandbox"].
Proof.
  assert (Hu : uint32_intervals demo_discovery) by (unfold uint32_intervals; simpl; lia).
  pose proof (NewPeerDiscoverers_spec demo_discovery Hu) as H. cbv zeta in H.
  destruct (NewPeerDiscoverers demo_discovery) as [l|err] eqn:He.
  - destruct H as (_ & _ & _ & H). exists l. split_and!; [reflexivity| |exact H].
    by rewrite (Forall2_length _ _ _ H).
  - vm_compute in He. discriminate He.
Defined.
