(* ===== verification/Reconnection.v ===== *)
(** * The loop of the monitor and the discoverers it calls

    [reconnectToNetwork] of the connection monitor calls the discoverers of the node
    one after the other, from the goroutine that also serves the timers and checks for
    denied peers. An optimized discoverer takes the request or drops it at once, the
    nil one does nothing, a continuous one holds its caller until a seeder is
    connected. This file runs the loop of ConnectionMonitor with the discoverers of
    Discovery in the place of its reconnecters. *)

From S2P Require Import Prelude Errors Config Sharding PeersHolder Messages ConnectionMonitor Discovery.
From stdpp Require Import list.
Open Scope Z_scope.

(** ** The state *)

(** The [p2p.Reconnecter]s: the discoverers, the optimized one with its loop *)
Inductive reconnecter :=
| ReNil
| ReOptimized (st : okdd_state)
| ReContinuous (ckdd : continuousKadDhtDiscoverer).

(** [createConnectionMonitor] takes every discoverer of the node. *)
Definition reconnecter_of (start : Z) (pd : PeerDiscoverer) : reconnecter :=
  match pd with
  | NilDiscoverer => ReNil
  | Continuous ckdd => ReContinuous ckdd
  | Optimized okdd => ReOptimized (processLoop_start okdd start)
  end.

(** The loop is at its select, checks the connections, or is at the call of the
    reconnecter [i]; a continuous one it waits for has made a number of attempts, the
    next at the time [at_]. *)
Inductive node_phase :=
| NdSelect
| NdCheck
| NdCalls (i : nat) (waiting : option (nat * Z))
| NdEnded.

(** What the reconnection under way has done *)
Inductive call_done :=
| DidNothing (i : nat)
| DidAsk (i : nat) (taken : bool) (effects : list okdd_effect)
| DidTry (i : nat) (seeder : string) (err : option error)
| DidGiveUp (i : nat).

Record node_loop := {
  nl_state : loop_state;
  nl_phase : node_phase;
  nl_discoverers : list reconnecter;
  nl_cancelled : bool;
  nl_done : list call_done;
}.

Definition node_start (start : Z) (discoverers : list PeerDiscoverer) : node_loop := {|
  nl_state := processLoop_init start; nl_phase := NdSelect;
  nl_discoverers := reconnecter_of start <$> discoverers; nl_cancelled := false; nl_done := [] |}.

Definition nl_set (nl : node_loop) (st : loop_state) (phase : node_phase) : node_loop := {|
  nl_state := st; nl_phase := phase; nl_discoverers := nl_discoverers nl;
  nl_cancelled := nl_cancelled nl; nl_done := nl_done nl |}.

(** The loop goes on to [phase], and the discoverer that it called to [ds]. *)
Definition nl_called (nl : node_loop) (ds : list reconnecter) (phase : node_phase) (did : list call_done)
    : node_loop := {|
  nl_state := nl_state nl; nl_phase := phase; nl_discoverers := ds;
  nl_cancelled := nl_cancelled nl; nl_done := nl_done nl ++ did |}.

(** ** The steps *)

Inductive node_event :=
| NdElapse (d : Z)
| NdCheckTick
| NdChecked
| NdRequest
| NdAttemptTick
| NdCall (views : nat -> net_view)
| NdAttempt
| NdOwn (i : nat) (ev : okdd_event)
| NdClose
| NdEnd.

(** The steps of [reconnectToNetwork] *)
Definition reconnecting (ev : node_event) : bool :=
  match ev with NdCall _ | NdAttempt => true | _ => false end.

(** The events of the loop of a discoverer that are its own *)
Definition own_event (ev : okdd_event) : bool :=
  match ev with EvTime _ | EvReconnectToNetwork _ => false | _ => true end.

Section node.
Context (Pretty : PeerID -> string).
Context (sort_Sort : list PeerDistance -> list PeerDistance).
(** What [ConnectToPeer] returns to the attempt of a discoverer at a seeder *)
Context (connect : nat -> nat -> string -> option error).
Implicit Types (nl : node_loop) (i : nat).

Definition re_time (d : Z) (r : reconnecter) : reconnecter :=
  match r with
  | ReOptimized st => ReOptimized (default (st, []) (okdd_step Pretty sort_Sort st (EvTime d))).1
  | r => r
  end.

(** The call of a reconnecter; the loop goes on at once but for a continuous one with
    seeders. *)
Definition re_call nl i (views : nat -> net_view) : option node_loop :=
  match nl_discoverers nl !! i with
  | None => Some (nl_set nl (attempt_made (nl_state nl)) NdSelect)
  | Some ReNil => Some (nl_called nl (nl_discoverers nl) (NdCalls (S i) None) [DidNothing i])
  | Some (ReOptimized st) =>
      '(st', effects) ← okdd_step Pretty sort_Sort st (EvReconnectToNetwork views);
      Some (nl_called nl (<[i := ReOptimized st']> (nl_discoverers nl)) (NdCalls (S i) None)
              [DidAsk i (okdd_ReconnectToNetwork (os_phase st)) effects])
  | Some (ReContinuous ckdd) =>
      if len (ckdd_initialPeersList ckdd) =? 0
      then Some (nl_called nl (nl_discoverers nl) (NdCalls (S i) None) [DidNothing i])
      else Some (nl_called nl (nl_discoverers nl) (NdCalls i (Some (0%nat, now (nl_state nl)))) [])
  end.

(** An attempt of the goroutine that the loop waits for *)
Definition re_attempt nl i k : option node_loop :=
  match nl_discoverers nl !! i with
  | Some (ReContinuous ckdd) =>
      let l := ckdd_initialPeersList ckdd in
      initialPeer ← l !! (k `mod` length l)%nat;
      let err := connect i k initialPeer in
      Some (nl_called nl (nl_discoverers nl)
              (match err with
               | None => NdCalls (S i) None
               | Some _ => NdCalls i (Some (S k, now (nl_state nl) + ckdd_peersRefreshInterval ckdd))
               end) [DidTry i initialPeer err])
  | _ => None
  end.

Definition node_step nl (ev : node_event) : option node_loop :=
  let st := nl_state nl in
  match ev, nl_phase nl with
  | NdElapse d, phase =>
      if 0 <=? d
      then Some {| nl_state := match phase with NdEnded => st | _ => time_passes d st end; nl_phase := phase;
                   nl_discoverers := re_time d <$> nl_discoverers nl; nl_cancelled := nl_cancelled nl;
                   nl_done := nl_done nl |}
      else None
  | NdCheckTick, NdSelect =>
      if tick (timerCheckConnections st) then Some (nl_set nl (check_received st) NdCheck) else None
  | NdChecked, NdCheck => Some (nl_set nl (check_reset st) NdSelect)
  | NdRequest, NdSelect =>
      if canReconnect st
      then Some {| nl_state := st; nl_phase := NdCalls 0 None; nl_discoverers := nl_discoverers nl;
                   nl_cancelled := nl_cancelled nl; nl_done := [] |}
      else Some nl
  | NdRequest, _ => Some nl
  | NdAttemptTick, NdSelect => '(st, _) ← processLoop_step st ReconnectTimer; Some (nl_set nl st NdSelect)
  | NdCall views, NdCalls i None => re_call nl i views
  | NdAttempt, NdCalls i (Some (k, at_)) => if at_ <=? now st then re_attempt nl i k else None
  | NdOwn i ev, phase =>
      match nl_discoverers nl !! i with
      | Some (ReOptimized ost) =>
          if own_event ev
          then '(ost, _) ← okdd_step Pretty sort_Sort ost ev;
               Some (nl_called nl (<[i := ReOptimized ost]> (nl_discoverers nl)) phase [])
          else None
      | _ => None
      end
  | NdClose, phase =>
      Some {| nl_state := st; nl_phase := phase; nl_discoverers := nl_discoverers nl; nl_cancelled := true;
              nl_done := nl_done nl |}
  | NdEnd, NdSelect => if nl_cancelled nl then Some (nl_set nl st NdEnded) else None
  | NdEnd, NdCalls i (Some _) =>
      if nl_cancelled nl
      then Some (nl_called nl (nl_discoverers nl) (NdCalls (S i) None) [DidGiveUp i]) else None
  | _, _ => None
  end.

Fixpoint node_run nl (l : list node_event) : option node_loop :=
  match l with
  | [] => Some nl
  | ev :: l => nl ← node_step nl ev; node_run nl l
  end.

(** ** The loop of the monitor is the one of ConnectionMonitor *)

Definition loop_of nl : running_loop := {|
  rl_state := (nl_state nl, match nl_phase nl with
                            | NdCheck => Checking
                            | NdCalls _ _ => Reconnecting
                            | _ => Selecting
                            end);
  rl_cancelled := nl_cancelled nl;
  rl_returned := match nl_phase nl with NdEnded => true | _ => false end |}.

(** What the steps of [reconnectToNetwork] leave alone *)
Definition still_calling nl nl' : Prop :=
  nl_state nl' = nl_state nl /\ nl_cancelled nl' = nl_cancelled nl
  /\ exists i waiting, nl_phase nl' = NdCalls i waiting.

Lemma re_call_cases nl i views nl' :
  re_call nl i views = Some nl' ->
  (nl_discoverers nl !! i = None /\ nl' = nl_set nl (attempt_made (nl_state nl)) NdSelect)
  \/ (is_Some (nl_discoverers nl !! i) /\ still_calling nl nl').
Proof.
  unfold re_call. intros H.
  destruct (nl_discoverers nl !! i) as [[|st|ckdd]|]; [| | |injection H as <-; by left]; right; (split; [done|]).
  - injection H as <-. split_and!; [done|done|by eexists _, _].
  - destruct (okdd_step _ _ _ _) as [[st' effects]|]; [|done]. injection H as <-.
    split_and!; [done|done|by eexists _, _].
  - destruct (_ =? 0); injection H as <-; (split_and!; [done|done|by eexists _, _]).
Qed.

Lemma re_attempt_cases nl i k nl' : re_attempt nl i k = Some nl' -> still_calling nl nl'.
Proof.
  unfold re_attempt. destruct (nl_discoverers nl !! i) as [[| |ckdd]|]; [done|done| |done].
  destruct (_ !! _) as [seeder|]; [|done]. intros [= <-]. split_and!; [done|done|].
  simpl. destruct (connect _ _ _); by eexists _, _.
Qed.

Lemma still_calling_loop nl nl' i waiting :
  nl_phase nl = NdCalls i waiting -> still_calling nl nl' -> loop_of nl' = loop_of nl.
Proof. intros Hp (Hs & Hc & j & w & Hp'). unfold loop_of. by rewrite Hs, Hc, Hp, Hp'. Qed.

(** A call or an attempt in the middle of [reconnectToNetwork] is no step of the loop. *)
Lemma node_step_loop nl ev nl' :
  node_step nl ev = Some nl' ->
  loop_of nl' = loop_of nl \/ exists ev', running_step (loop_of nl) ev' = Some (loop_of nl').
Proof.
  intros Hst. destruct nl as [st phase ds cancelled did].
  destruct ev as [d| | | | |views| |i ev| |], phase as [| |j [[k at_]|]|];
    cbn [node_step nl_phase nl_state nl_discoverers nl_cancelled nl_done] in Hst; try discriminate Hst.
  all: try (destruct (0 <=? d) eqn:Hd; [|discriminate Hst]; injection Hst as <-; cbn; auto; right;
    exists (RlPhase (Elapse d)); cbn; by rewrite Hd).
  all: try (destruct (ds !! i) as [[|ost|]|]; try discriminate Hst; destruct (own_event ev); [|discriminate Hst];
    destruct (okdd_step _ _ _ _) as [[ost' e]|]; [|discriminate Hst]; injection Hst as <-; by left).
  all: try (injection Hst as <-; right; exists RlClose; reflexivity).
  all: try (injection Hst as <-; by left).
  - right. exists (RlPhase CheckTick). cbn. destruct (tick _); [|discriminate Hst]. by injection Hst as <-.
  - right. exists (RlPhase Checked). by injection Hst as <-.
  - right. exists (RlPhase Request). cbn. destruct (canReconnect st); injection Hst as <-; reflexivity.
  - right. exists (RlPhase AttemptTick). cbn in Hst |- *. destruct (tick _); [|discriminate Hst]. by injection Hst as <-.
  - destruct (re_call_cases _ _ _ _ Hst) as [[_ ->]|[_ Hc]]; [right; by exists (RlPhase Reconnected)|].
    left. by eapply still_calling_loop; [|exact Hc].
  - destruct (at_ <=? now st); [|discriminate Hst]. left. eapply still_calling_loop; [|by eapply re_attempt_cases].
    reflexivity.
  - right. exists RlReturn. destruct cancelled; [|discriminate Hst]. by injection Hst as <-.
  - destruct cancelled; [|discriminate Hst]. injection Hst as <-. by left.
Qed.

Lemma node_run_app nl l l' : node_run nl (l ++ l') = nl1 ← node_run nl l; node_run nl1 l'.
Proof.
  revert nl. induction l as [|ev l IH]; intros nl; [done|]. simpl. destruct (node_step nl ev); [|done]. apply IH.
Qed.

(** With its discoverers, the loop of the monitor does nothing that it does not do when
    the time its reconnecters take is free. *)
Theorem node_refines_loop nl l nl' :
  node_run nl l = Some nl' -> exists l', running_run (loop_of nl) l' = Some (loop_of nl').
Proof.
  revert nl. induction l as [|ev l IH]; intros nl; simpl; [intros [= <-]; by exists []|].
  destruct (node_step nl ev) as [nl1|] eqn:Hst; [|done]. intros Hr. destruct (IH nl1 Hr) as [l' Hl'].
  destruct (node_step_loop _ _ _ Hst) as [Heq|[ev' Hev]].
  - exists l'. by rewrite <- Heq.
  - exists (ev' :: l'). cbn [running_run]. by rewrite Hev.
Qed.

(** ** What the steps keep *)

(** What a reconnecter is, whatever its loop is at *)
Inductive reconnecter_kind := KNil | KOptimized (seeders : list string) | KContinuous (seeders : list string).

Definition kind_of (r : reconnecter) : reconnecter_kind :=
  match r with
  | ReNil => KNil
  | ReOptimized st => KOptimized (okdd_initialPeersList (os_okdd st))
  | ReContinuous ckdd => KContinuous (ckdd_initialPeersList ckdd)
  end.

Definition kinds nl : list reconnecter_kind := kind_of <$> nl_discoverers nl.

Lemma okdd_step_seeders st ev st' effects :
  okdd_step Pretty sort_Sort st ev = Some (st', effects) ->
  okdd_initialPeersList (os_okdd st') = okdd_initialPeersList (os_okdd st).
Proof.
  assert (Hb : forall st callers views st' effects,
    seeders_branch Pretty sort_Sort st callers views = (st', effects) -> os_okdd st' = os_okdd st).
  { intros ?????. apply seeders_branch_fields. }
  destruct ev as [d| |i create|i views|views|views| |ctxErr [i|]]; simpl.
  - destruct (d <? 0); [done|]. by intros [= <- _].
  - by intros [= <- _].
  - destruct (os_phase st), (os_callers st !! i) as [[]|]; try done.
    unfold okdd_init. destruct (bool_decide _); [by intros [= <- _]|]. by destruct create; intros [= <- _].
  - destruct (os_phase st) as [|[e|]|], (os_callers st !! i) as [[]|]; try done; [by intros [= <- _]|].
    destruct (seeders_branch _ _ _ _ _) as [st1 eff] eqn:Hs. intros [= <- _]. by rewrite (Hb _ _ _ _ _ Hs).
  - destruct (os_phase st); try done. destruct (_ <=? _); [|done]. intros [= Hs]. by rewrite (Hb _ _ _ _ _ Hs).
  - destruct (okdd_ReconnectToNetwork _); [|by intros [= <- _]]. intros [= Hs]. by rewrite (Hb _ _ _ _ _ Hs).
  - destruct (os_phase st); try done. destruct (_ <=? _); [|done]. by intros [= <- _].
  - destruct (os_phase st); try done. destruct (os_callers st !! i) as [[]|]; try done. by intros [= <- _].
  - destruct (os_phase st); try done. destruct (existsb _ _); [done|]. by intros [= <- _].
Qed.

Lemma kinds_insert nl i st st' :
  nl_discoverers nl !! i = Some (ReOptimized st) ->
  okdd_initialPeersList (os_okdd st') = okdd_initialPeersList (os_okdd st) ->
  kind_of <$> <[i := ReOptimized st']> (nl_discoverers nl) = kinds nl.
Proof.
  intros Hi Hs. rewrite list_fmap_insert. simpl. rewrite Hs. apply list_insert_id.
  unfold kinds. by rewrite list_lookup_fmap, Hi.
Qed.

Lemma re_call_kinds nl i views nl' : re_call nl i views = Some nl' -> kinds nl' = kinds nl.
Proof.
  unfold re_call. destruct (nl_discoverers nl !! i) as [[|st|ckdd]|] eqn:Hi.
  - by intros [= <-].
  - destruct (okdd_step _ _ _ _) as [[st' effects]|] eqn:Hst; [|done]. intros [= <-]. apply (kinds_insert nl i st st' Hi).
    by eapply okdd_step_seeders.
  - by destruct (_ =? 0); intros [= <-].
  - by intros [= <-].
Qed.

Lemma re_attempt_kinds nl i k nl' : re_attempt nl i k = Some nl' -> kinds nl' = kinds nl.
Proof.
  unfold re_attempt. destruct (_ !! _) as [[| |ckdd]|]; [done|done| |done].
  destruct (_ !! _); [|done]. by intros [= <-].
Qed.

Lemma node_step_kinds nl ev nl' : node_step nl ev = Some nl' -> kinds nl' = kinds nl.
Proof.
  destruct ev as [d| | | | |views| |i ev| |]; unfold node_step.
  - destruct (0 <=? d); [|done]. intros [= <-]. unfold kinds. simpl. rewrite <- list_fmap_compose.
    apply list_fmap_ext. intros j [|st|ckdd] _; simpl; [done| |done]. by destruct (d <? 0).
  - destruct (nl_phase nl); try done. destruct (tick _); [|done]. by intros [= <-].
  - destruct (nl_phase nl); try done. by intros [= <-].
  - destruct (nl_phase nl); try destruct (canReconnect _); by intros [= <-].
  - destruct (nl_phase nl); try done. destruct (processLoop_step _ _) as [[st b]|]; [|done]. by intros [= <-].
  - destruct (nl_phase nl) as [| |j [[k at_]|]|]; try done. apply re_call_kinds.
  - destruct (nl_phase nl) as [| |j [[k at_]|]|]; try done. destruct (_ <=? _); [|done]. apply re_attempt_kinds.
  - destruct (nl_discoverers nl !! i) as [[|ost|]|] eqn:Hi; try done. destruct (own_event ev); [|done].
    destruct (okdd_step _ _ _ _) as [[ost' e]|] eqn:Hst; [|done]. intros [= <-].
    apply (kinds_insert nl i ost ost' Hi). by eapply okdd_step_seeders.
  - by intros [= <-].
  - destruct (nl_phase nl) as [| |j [[k at_]|]|]; try done; (destruct (nl_cancelled nl); [|done]); by intros [= <-].
Qed.

Lemma kinds_continuous nl i l :
  kinds nl !! i = Some (KContinuous l) ->
  exists ckdd, nl_discoverers nl !! i = Some (ReContinuous ckdd) /\ ckdd_initialPeersList ckdd = l.
Proof.
  unfold kinds. rewrite list_lookup_fmap. destruct (nl_discoverers nl !! i) as [[| |ckdd]|]; [done|done| |done].
  intros [= <-]. by exists ckdd.
Qed.

(** ** A reconnection that ends *)

(** One of the attempts of the first round of each continuous discoverer is answered. *)
Definition answering (ks : list reconnecter_kind) : Prop :=
  forall i l, ks !! i = Some (KContinuous l) -> l <> [] ->
  exists j, (j < length l)%nat /\ connect i j (seeder l j) = None.

(** The most steps that the call of a reconnecter takes *)
Definition call_cost (k : reconnecter_kind) : nat :=
  match k with KContinuous l => S (length l) | _ => 1 end.

Definition reconnection_cost (ks : list reconnecter_kind) : nat := S (sum_list_with call_cost ks).

Definition call_index (d : call_done) : nat :=
  match d with DidNothing i | DidAsk i _ _ | DidTry i _ _ | DidGiveUp i => i end.

(** What a call that went well has done *)
Definition served (i : nat) (k : reconnecter_kind) (d : call_done) : Prop :=
  match k with
  | KNil => d = DidNothing i
  | KOptimized l => exists taken effects, d = DidAsk i taken effects
      /\ (taken = true -> exists okdd views, okdd_initialPeersList okdd = l
            /\ effects = DoHost <$> (processSeedersReconnect Pretty sort_Sort okdd views).2)
  | KContinuous [] => d = DidNothing i
  | KContinuous l => exists j a, a ∈ l /\ connect i j a = None /\ d = DidTry i a None
  end.

(** The reconnecters before [n] have been called. *)
Definition served_to (n : nat) nl : Prop :=
  forall i k, (i < n)%nat -> kinds nl !! i = Some k -> exists d, d ∈ nl_done nl /\ served i k d.

Record calling_inv (ks : list reconnecter_kind) nl : Prop := {
  ca_kinds : kinds nl = ks;
  ca_open : nl_cancelled nl = false;
  ca_phase : exists i waiting, nl_phase nl = NdCalls i waiting /\ served_to i nl
    /\ forall k at_, waiting = Some (k, at_) -> exists l, ks !! i = Some (KContinuous l)
         /\ exists j, (k <= j < length l)%nat /\ connect i j (seeder l j) = None;
}.

(** The steps that are left *)
Definition steps_left (ks : list reconnecter_kind) nl : nat :=
  match nl_phase nl with
  | NdCalls i None => reconnection_cost (drop i ks)
  | NdCalls i (Some (k, _)) =>
      (match ks !! i with Some (KContinuous l) => length l - k | _ => 0 end + reconnection_cost (drop (S i) ks))%nat
  | _ => 0%nat
  end.

Lemma cost_drop ks i k : ks !! i = Some k ->
  reconnection_cost (drop i ks) = (call_cost k + reconnection_cost (drop (S i) ks))%nat.
Proof. intros Hk. rewrite (drop_S ks k i Hk). unfold reconnection_cost. simpl. lia. Qed.

Lemma steps_left_pos ks nl : calling_inv ks nl -> (0 < steps_left ks nl)%nat.
Proof.
  intros [_ _ (i & w & Hp & _)]. unfold steps_left. rewrite Hp. destruct w as [[k at_]|]; unfold reconnection_cost; lia.
Qed.

(** The reconnecter [i] was served, and the loop goes on to the next one. *)
Lemma served_next nl nl' i k d :
  served_to i nl -> kinds nl' = kinds nl -> nl_done nl' = nl_done nl ++ [d] ->
  kinds nl !! i = Some k -> served i k d -> served_to (S i) nl'.
Proof.
  intros Hs Hk Hd Hi Hserved j k' Hj Hk'. rewrite Hk in Hk'. rewrite Hd.
  destruct (decide (j = i)) as [->|Hne].
  - exists d. split; [set_solver|]. congruence.
  - destruct (Hs j k' ltac:(lia) Hk') as (d' & Hd' & Hsd). exists d'. split; [set_solver|done].
Qed.

(** The loop is back at its select, and every reconnecter was served. *)
Definition back nl : Prop := nl_phase nl = NdSelect /\ served_to (length (kinds nl)) nl.

(** The outcome of a step while the reconnecters are called *)
Definition advances ks nl (n : nat) nl' : Prop :=
  back nl' \/ (calling_inv ks nl' /\ (steps_left ks nl' + n <= steps_left ks nl)%nat).

Lemma re_call_advances ks nl i views nl' :
  answering ks -> calling_inv ks nl -> nl_phase nl = NdCalls i None ->
  re_call nl i views = Some nl' -> advances ks nl 1 nl'.
Proof.
  intros Hans [Hks Hopen (i' & w & Hp & Hs & _)] Hph Hc. rewrite Hph in Hp. injection Hp as <- <-.
  pose proof (re_call_kinds _ _ _ _ Hc) as Hkinds. unfold re_call in Hc.
  assert (Hnext : forall k d, ks !! i = Some k -> served i k d -> nl_phase nl' = NdCalls (S i) None ->
    nl_cancelled nl' = false -> nl_done nl' = nl_done nl ++ [d] -> advances ks nl 1 nl').
  { intros k d Hk Hd Hp' Hc' Hd'. right. split.
    - split; [congruence|done|]. exists (S i), None. split_and!; [done| |done].
      eapply served_next; [exact Hs|done|exact Hd'|by rewrite Hks|done].
    - unfold steps_left. rewrite Hp', Hph, (cost_drop _ _ _ Hk).
      generalize (reconnection_cost (drop (S i) ks)). intros c. destruct k; cbn [call_cost]; lia. }
  assert (Hk : ks !! i = kind_of <$> nl_discoverers nl !! i) by by rewrite <- Hks; apply list_lookup_fmap.
  destruct (nl_discoverers nl !! i) as [[|st|ckdd]|] eqn:Hi; simpl in Hk.
  - injection Hc as <-. by eapply Hnext.
  - destruct (okdd_step _ _ _ _) as [[st' effects]|] eqn:Hst; [|done]. injection Hc as <-.
    eapply Hnext; [exact Hk| |done|done|done]. eexists _, _. split; [done|]. intros Htaken.
    exists (os_okdd st), views. split; [done|]. cbn [okdd_step] in Hst. rewrite Htaken in Hst. unfold seeders_branch in Hst.
    destruct (processSeedersReconnect _ _ _ _) as [wait eff]. by injection Hst as _ <-.
  - destruct (len (ckdd_initialPeersList ckdd) =? 0) eqn:Hl; injection Hc as <-.
    + eapply Hnext; [exact Hk| |done|done|done]. apply Z.eqb_eq in Hl. unfold len in Hl.
      simpl. by rewrite (nil_length_inv (ckdd_initialPeersList ckdd)) by lia.
    + assert (Hne : ckdd_initialPeersList ckdd <> []) by (intros Hn; by rewrite Hn in Hl).
      destruct (Hans i _ Hk Hne) as (j & Hj & Hcj). right. split.
      * split; [congruence|done|]. exists i, (Some (0%nat, now (nl_state nl))). split_and!; [done| |].
        -- intros i0 k Hi0 Hk0. destruct (Hs i0 k Hi0 Hk0) as (d & Hd & Hsd). exists d. cbn. rewrite app_nil_r. by split.
        -- intros k at_ [= <- <-]. exists (ckdd_initialPeersList ckdd). split; [done|]. exists j. split; [lia|done].
      * unfold steps_left. rewrite Hph. cbn [nl_phase nl_called]. rewrite Hk, (cost_drop _ _ _ Hk). cbn [call_cost]. lia.
  - injection Hc as <-. left. split; [done|]. intros j k Hj Hkj. apply (Hs j k); [|done].
    apply lookup_ge_None_1 in Hi. cbn in Hj. unfold kinds in Hj. simpl in Hj. rewrite length_fmap in Hj. lia.
Qed.

Lemma re_attempt_advances ks nl i k at_ nl' :
  calling_inv ks nl -> nl_phase nl = NdCalls i (Some (k, at_)) ->
  re_attempt nl i k = Some nl' -> advances ks nl 1 nl'.
Proof.
  intros [Hks Hopen (i' & w & Hp & Hs & Hw)] Hph Ha. rewrite Hph in Hp. injection Hp as <- <-.
  destruct (Hw k at_ eq_refl) as (l & Hk & j & Hj & Hcj). clear Hw.
  pose proof (re_attempt_kinds _ _ _ _ Ha) as Hkinds. unfold re_attempt in Ha.
  rewrite <- Hks in Hk. destruct (kinds_continuous _ _ _ Hk) as (ckdd & Hi & Hseeders). rewrite Hks in Hk.
  rewrite Hi, Hseeders in Ha.
  assert (Hl : l <> []) by (intros ->; simpl in Hj; lia).
  pose proof (seeder_lookup l k Hl) as Hlook. rewrite Hlook in Ha. cbn [mbind option_bind] in Ha.
  destruct (connect i k (seeder l k)) as [err|] eqn:Hck; injection Ha as <-; right; split.
  - split; [congruence|done|]. exists i, (Some (S k, now (nl_state nl) + ckdd_peersRefreshInterval ckdd)).
    split_and!; [done| |].
    + intros i0 k0 Hi0 Hk0. destruct (Hs i0 k0 Hi0 Hk0) as (d & Hd & Hsd). exists d. split; [|done]. cbn. set_solver.
    + intros k' at' [= <- <-]. exists l. split; [done|]. exists j. split; [|done].
      assert (k <> j) by (intros ->; congruence). lia.
  - unfold steps_left. rewrite Hph. cbn [nl_phase nl_called]. rewrite ?Hk. lia.
  - split; [congruence|done|]. exists (S i), None. split_and!; [done| |done].
    eapply (served_next nl _ i (KContinuous l) (DidTry i (seeder l k) None)); [exact Hs|done|done|by rewrite Hks|].
    destruct l as [|s l]; [done|]. exists k, (seeder (s :: l) k). split_and!; [by eapply list_elem_of_lookup_2|done|done].
  - unfold steps_left. rewrite Hph. cbn [nl_phase nl_called]. rewrite ?Hk. lia.
Qed.

(** The other steps, which leave the calls alone *)
Lemma other_advances ks nl nl' :
  calling_inv ks nl -> kinds nl' = kinds nl -> nl_cancelled nl' = nl_cancelled nl ->
  nl_phase nl' = nl_phase nl -> (forall d, d ∈ nl_done nl -> d ∈ nl_done nl') -> advances ks nl 0 nl'.
Proof.
  intros [Hks Hopen (i & w & Hp & Hs & Hw)] Hk Hc Hph Hd. right. split.
  - split; [congruence|congruence|]. exists i, w. rewrite Hph. split_and!; [done| |done].
    intros j k Hj Hkj. rewrite Hk in Hkj. destruct (Hs j k Hj Hkj) as (d & Hin & Hsd). exists d. auto.
  - unfold steps_left. rewrite Hph. lia.
Qed.

Definition one_if (b : bool) : nat := if b then 1%nat else 0%nat.

Lemma node_step_advances ks nl ev nl' :
  answering ks -> calling_inv ks nl -> ev <> NdClose -> node_step nl ev = Some nl' ->
  advances ks nl (one_if (reconnecting ev)) nl'.
Proof.
  intros Hans Hinv Hev Hst. pose proof (node_step_kinds _ _ _ Hst) as Hk.
  destruct (ca_phase _ _ Hinv) as (i & w & Hp & _). unfold node_step in Hst. rewrite Hp in Hst.
  destruct ev as [d| | | | |views| |j ev| |]; try done; try (destruct w as [[k at_]|]; discriminate Hst); cbn [reconnecting one_if].
  - destruct (0 <=? d); [|done]. injection Hst as <-. by apply other_advances.
  - injection Hst as <-. by apply other_advances.
  - destruct w as [[k at_]|]; [done|]. by eapply re_call_advances.
  - destruct w as [[k at_]|]; [|done]. destruct (at_ <=? now (nl_state nl)); [|done]. by eapply re_attempt_advances.
  - destruct (nl_discoverers nl !! j) as [[|ost|]|]; try done. destruct (own_event ev); [|done].
    destruct (okdd_step _ _ _ _) as [[ost' e]|]; [|done]. injection Hst as <-. apply other_advances; try done.
    intros d Hd. cbn. by rewrite app_nil_r.
  - destruct w as [[k at_]|]; [|done]. by rewrite (ca_open _ _ Hinv) in Hst.
Qed.

Lemma re_call_total nl i views : is_Some (re_call nl i views).
Proof.
  unfold re_call. destruct (nl_discoverers nl !! i) as [[|st|ckdd]|]; [done| | |done].
  - cbn [okdd_step]. destruct (okdd_ReconnectToNetwork _); [|done]. by destruct (seeders_branch _ _ _ _ _).
  - by destruct (_ =? 0).
Qed.

Lemma re_attempt_total nl i k l :
  kinds nl !! i = Some (KContinuous l) -> l <> [] -> is_Some (re_attempt nl i k).
Proof.
  intros (ckdd & Hi & Hs)%kinds_continuous Hl. unfold re_attempt. rewrite Hi, Hs, seeder_lookup by done. done.
Qed.

Definition no_view : net_view := {|
  nv_AddressToPeerInfo := fun _ => Err ErrInvalidValue; nv_Connectedness := fun _ => false; nv_Peers := [];
  nv_Connect := fun _ => None; nv_ctxDone := false |}.

(** While the reconnecters are called, the next step of the calls is possible, at once
    or when the wait between two attempts is over. *)
Lemma calling_progress ks nl :
  calling_inv ks nl -> exists d ev nl', 0 <= d /\ reconnecting ev = true /\ node_run nl [NdElapse d; ev] = Some nl'.
Proof.
  intros [Hks _ (i & w & Hp & _ & Hw)].
  assert (Hstep : forall d, 0 <= d -> exists nl1, node_step nl (NdElapse d) = Some nl1 /\ nl_phase nl1 = nl_phase nl
    /\ now (nl_state nl1) = now (nl_state nl) + d).
  { intros d Hd. cbn [node_step]. rewrite (proj2 (Z.leb_le 0 d)) by done. eexists. split; [done|]. cbn. by rewrite Hp. }
  destruct w as [[k at_]|].
  - set (d := Z.max 0 (at_ - now (nl_state nl))). destruct (Hstep d ltac:(lia)) as (nl1 & H1 & Hp1 & Hn1).
    destruct (Hw k at_ eq_refl) as (l & Hk & j & Hj & _).
    destruct (re_attempt_total nl1 i k l) as [nl2 H2]; [|by intros ->; simpl in Hj; lia|].
    { rewrite (node_step_kinds _ _ _ H1). congruence. }
    exists d, NdAttempt, nl2. split_and!; [lia|done|]. cbn [node_run]. rewrite H1. cbn [mbind option_bind].
    unfold node_step. rewrite Hp1, Hp, Hn1, (proj2 (Z.leb_le _ _)), H2 by lia. done.
  - destruct (Hstep 0 ltac:(lia)) as (nl1 & H1 & Hp1 & _). destruct (re_call_total nl1 i (fun _ => no_view)) as [nl2 H2].
    exists 0, (NdCall (fun _ => no_view)), nl2. split_and!; [lia|done|]. cbn [node_run]. rewrite H1. cbn [mbind option_bind].
    unfold node_step. rewrite Hp1, Hp, H2. done.
Qed.

(** C11: a reconnection ends, and it reaches every discoverer. When one of the attempts of the
    first round of each continuous discoverer is answered, the loop of the monitor, from a
    request that it accepts on, is back at its select after at most one step for each
    discoverer, one more for each attempt and one to return, whatever else happens, as
    long as it is not closed; until then its next step is possible, at once or when a wait is over. When
    it is back, every optimized discoverer was asked (and went through its seeders
    unless it was at work), and every continuous one is connected to one of its own. *)
Theorem reconnection_ends nl nl1 l nl' :
  answering (kinds nl) -> nl_cancelled nl = false ->
  nl_phase nl = NdSelect -> canReconnect (nl_state nl) = true -> node_step nl NdRequest = Some nl1 ->
  node_run nl1 l = Some nl' -> NdClose ∉ l ->
  (exists l1 l2 nl2, l = l1 ++ l2 /\ node_run nl1 l1 = Some nl2 /\ nl_phase nl2 = NdSelect
     /\ served_to (length (kinds nl)) nl2
     /\ (length (filter (fun ev => reconnecting ev = true) l1) <= reconnection_cost (kinds nl))%nat)
  \/ ((length (filter (fun ev => reconnecting ev = true) l) < reconnection_cost (kinds nl))%nat
      /\ exists d ev nl2, 0 <= d /\ reconnecting ev = true /\ node_run nl' [NdElapse d; ev] = Some nl2).
Proof.
  intros Hans Hopen Hp Hc Hreq Hrun Hcl. set (ks := kinds nl) in *.
  assert (H1 : calling_inv ks nl1 /\ steps_left ks nl1 = reconnection_cost ks).
  { cbn [node_step] in Hreq. rewrite Hp, Hc in Hreq. injection Hreq as <-. split; [|done].
    split; [done|done|]. exists 0%nat, None. split_and!; [done| |done]. intros j k Hj. lia. }
  destruct H1 as [Hinv Hleft]. rewrite <- Hleft. clear Hreq Hc Hp Hopen Hleft.
  revert nl1 Hinv Hrun. induction l as [|ev l IH]; intros nl1 Hinv Hrun.
  - injection Hrun as <-. right. split; [by apply steps_left_pos|by eapply calling_progress].
  - apply not_elem_of_cons in Hcl as [Hev Hcl]. cbn [node_run] in Hrun.
    destruct (node_step nl1 ev) as [nl2|] eqn:Hst; [|done]. cbn [mbind option_bind] in Hrun.
    assert (Hcount : forall l, length (filter (fun ev => reconnecting ev = true) (ev :: l))
      = (one_if (reconnecting ev) + length (filter (fun ev => reconnecting ev = true) l))%nat).
    { intros l0. rewrite filter_cons. destruct (reconnecting ev); [by rewrite decide_True|by rewrite decide_False]. }
    pose proof (node_step_kinds _ _ _ Hst) as Hk2.
    destruct (node_step_advances ks nl1 ev nl2 Hans Hinv ltac:(congruence) Hst) as [[Hp2 Hs2]|[Hinv2 Hle]].
    + left. exists [ev], l, nl2. split_and!; [done|cbn; by rewrite Hst|done| |].
      * by rewrite <- (ca_kinds _ _ Hinv), <- Hk2.
      * rewrite Hcount. pose proof (steps_left_pos _ _ Hinv). destruct (reconnecting ev); simpl; lia.
    + destruct (IH Hcl nl2 Hinv2 Hrun) as [(l1 & l2 & nl3 & -> & Hr & Hp3 & Hs3 & Hn)|[Hn Hex]]; rewrite ?Hcount.
      * left. exists (ev :: l1), l2, nl3. split_and!; [done|cbn; by rewrite Hst|done|done|rewrite Hcount; lia].
      * right. split; [lia|done].
Qed.

(** ** A reconnection that does not end *)

(** C32: a continuous discoverer whose seeders are all out of reach holds the loop of the
    monitor: while the loop waits for it, and as long as the monitor is not closed, no
    denied peer is looked for, no timer and no request is served and no other
    discoverer is called, however long it lasts; all that happens in it are further
    attempts at the same seeders. *)
Theorem unreachable_seeders_hold_the_loop nl l nl' i k at_ seeders :
  nl_phase nl = NdCalls i (Some (k, at_)) -> kinds nl !! i = Some (KContinuous seeders) ->
  (forall j a, a ∈ seeders -> connect i j a <> None) ->
  nl_cancelled nl = false -> NdClose ∉ l -> node_run nl l = Some nl' ->
  (exists k' at', nl_phase nl' = NdCalls i (Some (k', at'))
     /\ (k' = k + length (filter (fun ev => reconnecting ev = true) l))%nat)
  /\ canReconnect (nl_state nl') = canReconnect (nl_state nl)
  /\ forall ev, ev ∈ l -> match ev with NdCheckTick | NdAttemptTick | NdCall _ | NdEnd => False | _ => True end.
Proof.
  intros Hp Hk Hno. revert nl k at_ Hp Hk. induction l as [|ev l IH]; intros nl k at_ Hp Hk Hc Hcl Hrun.
  { injection Hrun as <-. split_and!; [|done|by intros ev ?%elem_of_nil]. exists k, at_. split; [done|simpl; lia]. }
  apply not_elem_of_cons in Hcl as [Hev Hcl]. cbn [node_run] in Hrun.
  destruct (node_step nl ev) as [nl1|] eqn:Hst; [|done]. cbn [mbind option_bind] in Hrun.
  pose proof (node_step_kinds _ _ _ Hst) as Hk1.
  assert (H1 : exists at1, nl_phase nl1 = NdCalls i (Some ((k + one_if (reconnecting ev))%nat, at1))
    /\ nl_cancelled nl1 = false /\ canReconnect (nl_state nl1) = canReconnect (nl_state nl)
    /\ match ev with NdCheckTick | NdAttemptTick | NdCall _ | NdEnd => False | _ => True end).
  { unfold node_step in Hst. rewrite Hp in Hst. destruct ev as [d| | | | |views| |j ev| |]; try done.
    - destruct (0 <=? d); [|done]. injection Hst as <-. exists at_. cbn. by rewrite Nat.add_0_r.
    - injection Hst as <-. exists at_. cbn. by rewrite Nat.add_0_r.
    - destruct (at_ <=? now (nl_state nl)); [|done]. unfold re_attempt in Hst.
      destruct (kinds_continuous _ _ _ Hk) as (ckdd & Hi & Hs). rewrite Hi, Hs in Hst.
      destruct (seeders !! _) as [a|] eqn:Ha; [|done]. cbn [mbind option_bind] in Hst. injection Hst as <-.
      destruct (connect i k a) eqn:Hck; [|by destruct (Hno k a (list_elem_of_lookup_2 _ _ _ Ha))].
      eexists. cbn. split_and!; [|done..]. by rewrite Nat.add_1_r.
    - destruct (nl_discoverers nl !! j) as [[|ost|]|]; try done. destruct (own_event ev); [|done].
      destruct (okdd_step _ _ _ _) as [[ost' e]|]; [|done]. injection Hst as <-. exists at_. cbn.
      by rewrite Nat.add_0_r.
    - by rewrite Hc in Hst. }
  destruct H1 as (at1 & Hp1 & Hc1 & Hcan & Hmatch).
  destruct (IH nl1 _ at1 Hp1 ltac:(congruence) Hc1 Hcl Hrun) as ((k' & at' & Hp' & Hk') & Hcan' & Hall).
  split_and!.
  - exists k', at'. split; [done|]. rewrite filter_cons. destruct (reconnecting ev); simpl in *; lia.
  - congruence.
  - intros ev' [->|Hin]%elem_of_cons; [done|by apply Hall].
Qed.
End node.

(** ** Examples *)

(** A continuous discoverer with two seeders *)
Definition demo_ckdd : continuousKadDhtDiscoverer := {|
  kadDHT := None; refreshCancel := false; ckdd_peersRefreshInterval := 10 * time_Second;
  ckdd_protocolID := "/drt/kad/1.0.0"; ckdd_initialPeersList := ["s1"; "s2"]; ckdd_bucketSize := 100;
  ckdd_routingTableRefresh := 300 * time_Second; hostConnManagement := None; ckdd_sharder := SLists demo_ls;
  ckdd_networkType := "main" |}.

(** The second seeder answers, or none does. *)
Definition demo_connect (answers : bool) (i k : nat) (a : string) : option error :=
  if answers && bool_decide (a = "s2") then None else Some (ErrInvalidValue : error).

Abbreviation demo_node_run answers := (node_run id (merge_sort dist_le) (demo_connect answers)).

Definition demo_node : node_loop := node_start 0 [NilDiscoverer; Optimized (okdd_start demo_okdd 7); Continuous demo_ckdd].

Definition demo_calls : list node_event :=
  [NdCall demo_view; NdCall demo_view; NdCall demo_view; NdAttempt; NdElapse (10 * time_Second); NdAttempt; NdCall demo_view].

Lemma demo_node_calls :
  match demo_node_run true demo_node (NdRequest :: demo_calls) with
  | Some nl => nl_phase nl = NdSelect /\ length (nl_done nl) = 4%nat
  | None => False
  end.
Proof. vm_compute. split; reflexivity. Qed.

Lemma demo_answering : answering (demo_connect true) (kinds demo_node).
Proof.
  intros i l Hi _. destruct i as [|[|[|i]]]; simpl in Hi; try discriminate Hi. injection Hi as <-.
  exists 1%nat. split; [simpl; lia|reflexivity].
Qed.

Lemma reconnection_ends_witness :
  exists l1 l2 nl nl2, demo_calls = l1 ++ l2
    /\ node_step id (merge_sort dist_le) (demo_connect true) demo_node NdRequest = Some nl
    /\ demo_node_run true nl l1 = Some nl2 /\ nl_phase nl2 = NdSelect.
Proof.
  pose proof demo_node_calls as Hsum. cbn [node_run] in Hsum.
  destruct (node_step _ _ _ demo_node NdRequest) as [nl|] eqn:H1; [|destruct Hsum].
  cbn [mbind option_bind] in Hsum. destruct (demo_node_run true nl demo_calls) as [nl'|] eqn:H2; [|destruct Hsum].
  destruct (reconnection_ends id (merge_sort dist_le) (demo_connect true) demo_node nl demo_calls nl'
    demo_answering eq_refl eq_refl eq_refl H1 H2) as [(l1 & l2 & nl2 & Hl & Hr & Hp & _)|[Hn _]].
  - intros Hin. repeat (apply elem_of_cons in Hin as [Hin|Hin]; [discriminate Hin|]). by apply elem_of_nil in Hin.
  - exists l1, l2, nl, nl2. split_and!; [exact Hl|reflexivity|exact Hr|exact Hp].
  - exfalso. vm_compute in Hn. lia.
Defined.

Lemma unreachable_seeders_hold_the_loop_witness :
  exists nl nl', demo_node_run false demo_node (NdRequest :: take 3 demo_calls) = Some nl
    /\ demo_node_run false nl (drop 3 demo_calls ++ [NdElapse time_Second; NdRequest]) = None
    /\ demo_node_run false nl [NdAttempt; NdElapse (10 * time_Second); NdAttempt; NdRequest] = Some nl'
    /\ exists at', nl_phase nl' = NdCalls 2 (Some (2%nat, at')).
Proof.
  assert (Hsum : (nl ← demo_node_run false demo_node (NdRequest :: take 3 demo_calls);
    nl' ← demo_node_run false nl [NdAttempt; NdElapse (10 * time_Second); NdAttempt; NdRequest];
    Some (nl_phase nl, kinds nl !! 2%nat, nl_cancelled nl,
      demo_node_run false nl (drop 3 demo_calls ++ [NdElapse time_Second; NdRequest])))
    = Some (NdCalls 2 (Some (0%nat, 0)), Some (KContinuous ["s1"; "s2"]), false, None)) by (vm_compute; reflexivity).
  destruct (demo_node_run false demo_node _) as [nl|]; [|discriminate Hsum]. cbn [mbind option_bind] in Hsum.
  destruct (demo_node_run false nl [NdAttempt; _; _; _]) as [nl'|] eqn:Hr; [|discriminate Hsum].
  cbn [mbind option_bind] in Hsum. injection Hsum as Hp Hk Hc Hnone.
  destruct (unreachable_seeders_hold_the_loop id (merge_sort dist_le) (demo_connect false) nl
    [NdAttempt; NdElapse (10 * time_Second); NdAttempt; NdRequest] nl' 2 0 0 ["s1"; "s2"] Hp Hk) as [(k' & at' & Hp' & Hk') _].
  - intros j a _. discriminate.
  - exact Hc.
  - intros Hin. repeat (apply elem_of_cons in Hin as [Hin|Hin]; [discriminate Hin|]). by apply elem_of_nil in Hin.
  - exact Hr.
  - exists nl, nl'. split_and!; [reflexivity|exact Hnone|exact Hr|]. exists at'. rewrite Hp', Hk'. reflexivity.
Defined.
