(* ===== verification/Display.v ===== *)
(** * Small parts

    The texts of peer ids and sequence numbers that go to the logs
    (p2p/interface.go), the sorted list of peers
    (networksharding/sorting/sortedList.go), the disabled debugger and the local
    clock. *)

From S2P Require Import Prelude Errors Config Messages.
From stdpp Require Import list sorting.
Open Scope Z_scope.

(** ** p2p/interface.go *)

Definition displayLastPidChars : Z := 12.

(** [hex.EncodeToString] of Go's package [encoding/hex] *)
Definition hex_digits : string := "0123456789abcdef".

Definition hex_digit (n : Z) : ascii := default "0"%char (String.get (Z.to_nat n) hex_digits).

Fixpoint hex_EncodeToString (src : bytes) : string :=
  match src with
  | [] => ""
  | b :: src =>
      String (hex_digit (byte_val b / 16)) (String (hex_digit (byte_val b mod 16)) (hex_EncodeToString src))
  end.

Section texts.
Context (Pretty : PeerID -> string).

Definition PeerIdToShortString (pid : PeerID) : string :=
  let prettyPid := Pretty pid in
  let lenPrettyPid := Z.of_nat (String.length prettyPid) in
  if lenPrettyPid >? displayLastPidChars
  then "..." +:+ String.substring (Z.to_nat (lenPrettyPid - displayLastPidChars)) (String.length prettyPid) prettyPid
  else prettyPid.

Definition MessageOriginatorPid (msg : Message) : string := PeerIdToShortString (m_Peer msg).

Definition MessageOriginatorSeq (msg : Message) : string := hex_EncodeToString (sl (m_SeqNo msg)).

End texts.

(** ** networksharding/sorting/sortedList.go *)

(** [Distance] is a [big.Int]. *)
Record SortedID := {
  sid_ID : PeerID;
  sid_Key : bytes;
  sid_Shard : Z;  (* uint32 *)
  sid_Distance : Z;
}.

Record SortedList := {
  Ref : SortedID;
  Peers : list SortedID;
}.

Definition sl_Len (l : SortedList) : Z := len (Peers l).

Definition sid_Less (a b : SortedID) : bool := sid_Distance a <? sid_Distance b.

(** [Less(i, j)]; [None] is an index out of range. *)
Definition sl_Less (l : SortedList) (i j : nat) : option bool :=
  a ← Peers l !! i; b ← Peers l !! j; Some (sid_Less a b).

Definition sl_Swap (l : SortedList) (i j : nat) : option SortedList :=
  a ← Peers l !! i; b ← Peers l !! j;
  Some {| Ref := Ref l; Peers := <[j := a]> (<[i := b]> (Peers l)) |}.

(** [sort_Sort] is [sort.Sort], on the list that [sl] holds. *)
Definition SortedPeers (sort_Sort : list SortedID -> list SortedID) (l : SortedList) : list PeerID * SortedList :=
  let peers := sort_Sort (Peers l) in
  (sid_ID <$> peers, {| Ref := Ref l; Peers := peers |}).

(** ** disabled/p2pDebugger.go and localSyncTimer.go *)

Inductive p2pDebugger := P2PDebugger.

Definition AddIncomingMessage (debugger : p2pDebugger) (topic : string) (size : Z) (isRejected : bool) : p2pDebugger :=
  debugger.
Definition AddOutgoingMessage (debugger : p2pDebugger) (topic : string) (size : Z) (isRejected : bool) : p2pDebugger :=
  debugger.
Definition debugger_Close (debugger : p2pDebugger) : option error := None.

(** [now] is [time.Now()]. *)
Definition CurrentTime (now : Z) : Z := now.

(** ** Facts *)

Lemma str_length_app s t : String.length (s +:+ t) = (String.length s + String.length t)%nat.
Proof. induction s as [|c s IH]; [done|]. change (S (String.length (s +:+ t)) = S (String.length s + String.length t)). by rewrite IH. Qed.

Lemma substring_end s n : (n <= String.length s)%nat ->
  exists p, String.length p = n /\ s = p +:+ String.substring n (String.length s) s.
Proof.
  assert (Hall : forall s m, (String.length s <= m)%nat -> String.substring 0 m s = s).
  { clear. induction s as [|c s IH]; intros [|m] Hm; simpl in *; try done; try lia. f_equal. apply IH. lia. }
  assert (Hgen : forall m s n, (String.length s <= m)%nat -> (n <= String.length s)%nat ->
    exists p, String.length p = n /\ s = p +:+ String.substring n m s).
  { clear s n. intros m s. revert m. induction s as [|c s IH]; intros m n Hm Hn.
    - exists "". assert (n = 0%nat) as -> by (simpl in Hn; lia). split; [done|]. by rewrite Hall.
    - destruct n as [|n]; [exists ""; split; [done|by rewrite Hall]|]. simpl in Hm, Hn.
      destruct (IH m n ltac:(lia) ltac:(lia)) as (p & Hp & Hs). exists (String c p). split; [simpl; lia|].
      change (String c s = String c (p +:+ String.substring n m s)). by rewrite <- Hs. }
  intros Hn. by apply Hgen.
Qed.

(** The short text of a peer id is its pretty text when that has at most twelve
    characters, and otherwise three dots and its last twelve. *)
Lemma PeerIdToShortString_spec Pretty pid :
  if (String.length (Pretty pid) <=? 12)%nat then PeerIdToShortString Pretty pid = Pretty pid
  else exists pre post, Pretty pid = pre +:+ post /\ String.length post = 12%nat
         /\ PeerIdToShortString Pretty pid = "..." +:+ post.
Proof.
  unfold PeerIdToShortString, displayLastPidChars. destruct (Nat.leb_spec (String.length (Pretty pid)) 12) as [Hl|Hl].
  - by replace (_ >? 12) with false by lia.
  - replace (_ >? 12) with true by lia.
    destruct (substring_end (Pretty pid) (Z.to_nat (Z.of_nat (String.length (Pretty pid)) - 12)) ltac:(lia)) as (pre & Hp & Hs).
    eexists pre, _. split; [exact Hs|]. split; [|done].
    pose proof (f_equal String.length Hs) as Hlen. rewrite str_length_app in Hlen. lia.
Qed.

Lemma hex_digit_inj a b : 0 <= a < 16 -> 0 <= b < 16 -> hex_digit a = hex_digit b -> a = b.
Proof.
  assert (H : forallb (fun a => forallb (fun b => implb (Ascii.eqb (hex_digit a) (hex_digit b)) (a =? b))
    (seqZ 0 16)) (seqZ 0 16) = true) by by vm_compute.
  intros Ha Hb He. rewrite forallb_forall in H. specialize (H a). rewrite forallb_forall in H.
  assert (Hin : forall x, 0 <= x < 16 -> In x (seqZ 0 16)) by (intros x Hx; apply list_elem_of_In, elem_of_seqZ; lia).
  specialize (H (Hin a Ha) b (Hin b Hb)). rewrite He, Ascii.eqb_refl in H. simpl in H. lia.
Qed.

(** The text of a sequence number determines it. *)
Lemma hex_EncodeToString_inj a b : hex_EncodeToString a = hex_EncodeToString b -> a = b.
Proof.
  revert b. induction a as [|x a IH]; intros [|y b]; simpl; try done. intros [= H1 H2 H3].
  pose proof (byte_val_range x). pose proof (byte_val_range y).
  apply hex_digit_inj in H1; [|split; [apply Z.div_pos; lia|apply Z.div_lt_upper_bound; lia]..].
  apply hex_digit_inj in H2; [|apply Z.mod_pos_bound; lia..].
  f_equal; [|by apply IH]. apply byte_val_inj.
  rewrite (Z.div_mod (byte_val x) 16), (Z.div_mod (byte_val y) 16) by lia. lia.
Qed.

(** The sorted peers are those of the list, by increasing distance. *)
Lemma SortedPeers_spec sort_Sort l :
  (forall k, sort_Sort k ≡ₚ k) -> (forall k, StronglySorted (fun a b => sid_Less b a = false) (sort_Sort k)) ->
  let '(ids, l') := SortedPeers sort_Sort l in
  ids ≡ₚ sid_ID <$> Peers l /\ ids = sid_ID <$> Peers l' /\ Ref l' = Ref l
  /\ forall i j a b, (i < j)%nat -> Peers l' !! i = Some a -> Peers l' !! j = Some b -> sid_Distance a <= sid_Distance b.
Proof.
  intros Hp Hs. simpl. split_and!; [by rewrite Hp|done|done|].
  specialize (Hs (Peers l)). revert Hs. generalize (sort_Sort (Peers l)) as k. clear.
  induction 1 as [|x k Hk IH Hx]; intros [|i] [|j] a b Hij Ha Hb; simplify_eq/=; try lia.
  - rewrite Forall_forall in Hx. apply list_elem_of_lookup_2 in Hb. specialize (Hx b Hb). unfold sid_Less in Hx. lia.
  - by apply (IH i j a b); [lia|..].
Qed.
