(* ===== verification/Ports.v ===== *)
(** * Ports

    p2p/libp2p/ports.go: reading the configured port, alone or as a range, and
    choosing a free port of a range; with the functions of Go's package [strconv]
    it uses. *)

From S2P Require Import Prelude Errors Config.
From stdpp Require Import list pretty.
Open Scope Z_scope.

(** ** Go's package [strconv] *)

Definition digit_val (c : ascii) : option Z :=
  let n := Z.of_nat (nat_of_ascii c) in
  if (48 <=? n) && (n <=? 57) then Some (n - 48) else None.

(** The value of a string of decimal digits, after those that make [acc] *)
Fixpoint parse_digits (acc : Z) (s : string) : option Z :=
  match s with
  | EmptyString => Some acc
  | String c s => d ← digit_val c; parse_digits (10 * acc + d) s
  end.

Definition parse_unsigned (s : string) : option Z :=
  match s with EmptyString => None | _ => parse_digits 0 s end.

(** [strconv.Atoi] for a 64-bit [int]; [None] is an error, of syntax or of range. *)
Definition Atoi (s : string) : option Z :=
  let parsed :=
    match s with
    | String "+" s => parse_unsigned s
    | String "-" s => Z.opp <$> parse_unsigned s
    | _ => parse_unsigned s
    end in
  v ← parsed;
  if (- 2 ^ 63 <=? v) && (v <? 2 ^ 63) then Some v else None.

(** [strconv.Itoa] *)
Definition Itoa (v : Z) : string := pretty v.

(** ** ports.go *)

(** The lowest port of a range: netMessenger.go *)
Definition minRangePortValue : Z := 1025.

(** The most bytes a slice can be made with on the 64-bit platforms *)
Definition maxAlloc : Z := 2 ^ 48.

Section ports.
(** [random.FisherYatesShuffle] with its random source *)
Context (FisherYatesShuffle : list Z -> list Z).

(** The loop over the shuffled ports *)
Fixpoint first_free (handler : Z -> option error) (ports : list Z) : option Z :=
  match ports with
  | [] => None
  | p :: ports =>
      match handler p with
      | Some _ => first_free handler ports
      | None => Some p
      end
  end.

(** [for i := startPort; i <= endPort; i++] over the 64-bit [int]: the ports that are
    appended; [None] is a loop that is not over after [fuel] turns. *)
Fixpoint range_loop (fuel : nat) (i endPort : Z) : option (list Z) :=
  if i <=? endPort then
    match fuel with
    | O => None
    | S fuel => ports ← range_loop fuel (int_add i 1) endPort; Some (i :: ports)
    end
  else Some [].

(** [None] is a choice that does not return: by the panic of [make] for a capacity out of its
    range, or because the loop is not over when all the numbers of the range had their turn, and
    then never is. *)
Definition choosePort (startPort endPort : Z) (handler : Z -> option error) (log : bool)
    : option (result Z) :=
  if negb log then Some (Err ErrNilLogger)
  else
    let capacity := int_add (int_sub endPort startPort) 1 in
    if (capacity <? 0) || (maxAlloc <? 8 * capacity) then None
    else
      ports ← range_loop (Z.to_nat (endPort - startPort + 1)) startPort endPort;
      Some match first_free handler (FisherYatesShuffle ports) with
           | Some p => Ok p
           | None => Err ErrNoFreePortInRange
           end.

Definition getPort (port : string) (handler : Z -> option error) (log : bool) : option (result Z) :=
  match Atoi port with
  | Some val => if val <? 0 then Some (Err ErrInvalidPortValue) else Some (Ok val)
  | None =>
      match split_on "-" port with
      | [port0; port1] =>
          match Atoi port0 with
          | None => Some (Err ErrInvalidStartingPortValue)
          | Some startPort =>
              match Atoi port1 with
              | None => Some (Err ErrInvalidEndingPortValue)
              | Some endPort =>
                  if startPort <? minRangePortValue then Some (Err ErrInvalidValue)
                  else if endPort <? startPort then Some (Err ErrEndPortIsSmallerThanStartPort)
                  else choosePort startPort endPort handler log
              end
          end
      | _ => Some (Err ErrInvalidPortsRangeString)
      end
  end.

End ports.

(** [checkFreePort]: [ResolveTCPAddr] and [ListenTCP] are those of the package
    [net]. *)
Definition checkFreePort {Addr} (ResolveTCPAddr : string -> result Addr) (ListenTCP : Addr -> option error)
    (port : Z) : option error :=
  match ResolveTCPAddr ("localhost:" +:+ Itoa port) with
  | Err err => Some err
  | Ok addr => ListenTCP addr
  end.

(** ** Decimal numbers *)

(** A string of digits only *)
Fixpoint digits (s : string) : bool :=
  match s with
  | EmptyString => true
  | String c s => match digit_val c with Some _ => digits s | None => false end
  end.

Lemma digit_val_pretty n : (n < 10)%N -> digit_val (pretty_N_char n) = Some (Z.of_N n).
Proof.
  intros Hn. assert (Hc : n ∈ [0; 1; 2; 3; 4; 5; 6; 7; 8; 9]%N) by (rewrite !elem_of_cons; lia).
  rewrite !elem_of_cons, elem_of_nil in Hc. naive_solver.
Qed.

Lemma parse_pretty_N_go n s : parse_digits 0 (pretty_N_go n s) = parse_digits (Z.of_N n) s.
Proof.
  revert s. induction (N.lt_wf_0 n) as [n _ IH]; intros s.
  destruct (decide (n = 0)%N) as [->|Hn]; [by rewrite pretty_N_go_0|].
  rewrite pretty_N_go_step by lia. rewrite IH by (apply N.div_lt; lia). cbn [parse_digits].
  pose proof (N.mod_lt n 10 ltac:(lia)) as Hm. rewrite digit_val_pretty by done. cbn.
  f_equal. pose proof (N.div_mod n 10 ltac:(lia)). lia.
Qed.

Lemma digits_pretty_N_go n s : digits (pretty_N_go n s) = digits s.
Proof.
  revert s. induction (N.lt_wf_0 n) as [n _ IH]; intros s.
  destruct (decide (n = 0)%N) as [->|Hn]; [by rewrite pretty_N_go_0|].
  rewrite pretty_N_go_step by lia. rewrite IH by (apply N.div_lt; lia). cbn [digits].
  by rewrite digit_val_pretty by (apply N.mod_lt; lia).
Qed.

Lemma Itoa_digits v : 0 <= v -> digits (Itoa v) = true.
Proof.
  intros Hv. destruct v as [|p|p]; [done| |lia]. unfold Itoa, pretty, pretty_Z, pretty, pretty_positive, pretty, pretty_N.
  rewrite decide_False by done. by rewrite digits_pretty_N_go.
Qed.

Lemma parse_Itoa v : 0 <= v -> parse_unsigned (Itoa v) = Some v.
Proof.
  intros Hv. destruct v as [|p|p]; [done| |lia]. unfold Itoa, pretty, pretty_Z, pretty, pretty_positive, pretty, pretty_N.
  rewrite decide_False by done. pose proof (parse_pretty_N_go (N.pos p) "") as H. unfold parse_unsigned.
  destruct (pretty_N_go (N.pos p) "") as [|c s]; [|done]. simpl in H. by injection H.
Qed.

Lemma digits_head s : digits s = true -> match s with String "+" _ | String "-" _ => False | _ => True end.
Proof. destruct s as [|[[] [] [] [] [] [] [] []] s]; done. Qed.

Lemma Atoi_digits s : digits s = true ->
  Atoi s = v ← parse_unsigned s; if (- 2 ^ 63 <=? v) && (v <? 2 ^ 63) then Some v else None.
Proof.
  intros Hd%digits_head. unfold Atoi. f_equal. destruct s as [|[[] [] [] [] [] [] [] []] s]; done.
Qed.

Lemma Atoi_range_of s v : Atoi s = Some v -> - 2 ^ 63 <= v < 2 ^ 63.
Proof.
  unfold Atoi. intros (w & _ & Hw)%bind_Some. destruct (_ && _) eqn:Hr in Hw; [|done]. injection Hw as ->. lia.
Qed.

Lemma Atoi_Itoa v : in_s 64 v -> Atoi (Itoa v) = Some v.
Proof.
  intros Hv. unfold in_s in Hv. simpl in Hv.
  assert (Hr : (- 2 ^ 63 <=? v) && (v <? 2 ^ 63) = true) by lia.
  destruct (decide (0 <= v)) as [Hp|Hn].
  - rewrite Atoi_digits by by apply Itoa_digits. rewrite parse_Itoa by done. cbn [mbind option_bind]. by rewrite Hr.
  - destruct v as [|p|p]; [lia|lia|]. change (Itoa (Z.neg p)) with (String "-" (Itoa (Z.pos p))).
    unfold Atoi. rewrite parse_Itoa by lia. cbn [mbind option_bind fmap option_fmap option_map].
    change (Z.opp (Z.pos p)) with (Z.neg p). by rewrite Hr.
Qed.

(** ** Ranges *)

Lemma parse_digits_dash acc s t : digits s = true -> parse_digits acc (s +:+ String "-" t) = None.
Proof.
  revert acc. induction s as [|c s IH]; intros acc Hs; [done|]. cbn [digits] in Hs.
  change (String c s +:+ String "-" t) with (String c (s +:+ String "-" t)). cbn [parse_digits].
  destruct (digit_val c) as [d|] eqn:Hc; [|done]. cbn. by apply IH.
Qed.

Lemma digits_app_head s t : digits s = true -> s <> "" ->
  match s +:+ t with String "+" _ | String "-" _ => False | _ => True end.
Proof. destruct s as [|c s]; [done|]. intros Hd%digits_head _. by destruct c as [[] [] [] [] [] [] [] []]. Qed.

Lemma Atoi_range s t : digits s = true -> s <> "" -> Atoi (s +:+ String "-" t) = None.
Proof.
  intros Hd Hne. pose proof (digits_app_head s (String "-" t) Hd Hne) as Hh. unfold Atoi.
  assert (Hp : parse_unsigned (s +:+ String "-" t) = None).
  { pose proof (parse_digits_dash 0 s t Hd) as H. destruct s; [done|]. exact H. }
  replace (match s +:+ String "-" t with
    | String "+" s => parse_unsigned s | String "-" s => Z.opp <$> parse_unsigned s | _ => _ end)
    with (@None Z); [done|].
  rewrite <- Hp. destruct (s +:+ String "-" t) as [|[[] [] [] [] [] [] [] []] u]; done.
Qed.

Lemma split_on_digits s : digits s = true -> split_on "-" s = [s].
Proof.
  induction s as [|c s IH]; [done|]. intros Hs. cbn [digits] in Hs. cbn [split_on].
  destruct (Ascii.eqb_spec c "-") as [->|]; [done|]. destruct (digit_val c); [|done]. by rewrite IH.
Qed.

Lemma split_on_range s t : digits s = true -> split_on "-" (s +:+ String "-" t) = s :: split_on "-" t.
Proof.
  induction s as [|c s IH]; [done|]. intros Hs. cbn [digits] in Hs.
  change (String c s +:+ String "-" t) with (String c (s +:+ String "-" t)). cbn [split_on].
  destruct (Ascii.eqb_spec c "-") as [->|]; [done|]. destruct (digit_val c); [|done]. by rewrite IH.
Qed.

Lemma Itoa_not_empty v : 0 <= v -> Itoa v <> "".
Proof. intros Hv H. pose proof (parse_Itoa v Hv) as Hp. by rewrite H in Hp. Qed.

(** ** The choice of a port *)

Lemma first_free_spec handler ports :
  match first_free handler ports with
  | Some p => p ∈ ports /\ handler p = None
  | None => forall p, p ∈ ports -> handler p <> None
  end.
Proof.
  induction ports as [|p ports IH]; simpl; [intros p Hp; by apply elem_of_nil in Hp|].
  destruct (handler p) as [err|] eqn:Hp; [|split; [set_solver|done]].
  destruct (first_free handler ports) as [q|].
  - destruct IH. split; [set_solver|done].
  - intros q [->|Hq]%elem_of_cons; [congruence|by apply IH].
Qed.

(** The law of the shuffle *)
Class Shuffle (FisherYatesShuffle : list Z -> list Z) : Prop :=
  shuffle_perm : forall l, FisherYatesShuffle l ≡ₚ l.

#[export] Instance rev_Shuffle : Shuffle (@rev Z).
Proof. intros l. by rewrite <- Permutation_rev. Qed.

Section choice.
Context (FisherYatesShuffle : list Z -> list Z) `{!Shuffle FisherYatesShuffle}.

(** Below the highest [int] the loop makes a turn for each number of the range. *)
Lemma range_loop_ends fuel i endPort :
  - 2 ^ 63 <= i -> endPort < 2 ^ 63 - 1 -> endPort - i + 1 <= Z.of_nat fuel ->
  range_loop fuel i endPort = Some (seqZ i (endPort - i + 1)).
Proof.
  revert i. induction fuel as [|fuel IH]; intros i Hi He Hf; cbn [range_loop].
  - replace (i <=? endPort) with false by lia. by rewrite seqZ_nil by lia.
  - destruct (i <=? endPort) eqn:Hle; [|by rewrite seqZ_nil by lia].
    rewrite int_add_small by (unfold in_s; simpl; lia). rewrite IH by lia. cbn [mbind option_bind].
    rewrite (seqZ_cons i) by lia. do 3 f_equal; lia.
Qed.

(** Up to the highest [int] it never ends: the number after it is the lowest one. *)
Lemma range_loop_endless fuel i : in_s 64 i -> range_loop fuel i (2 ^ 63 - 1) = None.
Proof.
  revert i. induction fuel as [|fuel IH]; intros i Hi; cbn [range_loop];
    replace (i <=? 2 ^ 63 - 1) with true by (unfold in_s in Hi; simpl in Hi; lia); [done|].
  rewrite IH; [done|]. unfold int_add. by apply wraps_range.
Qed.

Definition range_fits (startPort endPort : Z) : bool := 8 * (endPort - startPort + 1) <=? maxAlloc.

(** What the choice in a range promises *)
Definition chosen (startPort endPort : Z) (handler : Z -> option error) (r : result Z) : Prop :=
  match r with
  | Ok p => startPort <= p <= endPort /\ handler p = None
  | Err err => err = ErrNoFreePortInRange /\ forall p, startPort <= p <= endPort -> handler p <> None
  end.

Lemma choosePort_spec startPort endPort handler :
  0 <= startPort <= endPort -> endPort < 2 ^ 63 ->
  if range_fits startPort endPort && (endPort <? 2 ^ 63 - 1)
  then exists r, choosePort FisherYatesShuffle startPort endPort handler true = Some r
         /\ chosen startPort endPort handler r
  else choosePort FisherYatesShuffle startPort endPort handler true = None.
Proof.
  intros Hs He. unfold choosePort, range_fits. cbn [negb]. unfold int_add, int_sub.
  rewrite (wraps_small 64 (endPort - startPort)) by (unfold in_s; simpl; lia).
  destruct (decide (endPort - startPort + 1 < 2 ^ 63)) as [Hlt|Hge].
  - rewrite wraps_small by (unfold in_s; simpl; lia).
    replace ((endPort - startPort + 1 <? 0) || _) with (negb (8 * (endPort - startPort + 1) <=? maxAlloc)) by lia.
    destruct (_ <=? maxAlloc); [|done]. cbn [negb andb]. destruct (endPort <? 2 ^ 63 - 1) eqn:Hend.
    + rewrite range_loop_ends by lia. cbn [mbind option_bind]. eexists. split; [done|].
      pose proof (first_free_spec handler (FisherYatesShuffle (seqZ startPort (endPort - startPort + 1)))) as Hf.
      destruct (first_free _ _) as [p|]; simpl.
      * destruct Hf as [Hp Hh]. rewrite shuffle_perm, elem_of_seqZ in Hp. split; [lia|done].
      * split; [done|]. intros p Hp. apply Hf. rewrite shuffle_perm, elem_of_seqZ. lia.
    + replace endPort with (2 ^ 63 - 1) by lia. rewrite range_loop_endless; [done|]. unfold in_s. simpl. lia.
  - assert (startPort = 0 /\ endPort = 2 ^ 63 - 1) as [-> ->] by lia. done.
Qed.

(** C35: a configured range [start-end] of natural numbers gives a port of the range
    that is free, if there is one, or the error that there is none; a range that
    starts below 1025, or is empty, is refused. The end has no upper bound: a range
    with more ports than a slice can hold makes the program panic, and the loop over a
    smaller one that ends at the highest [int] never ends. *)
Theorem getPort_range startPort endPort handler :
  0 <= startPort < 2 ^ 63 -> 0 <= endPort < 2 ^ 63 ->
  let r := getPort FisherYatesShuffle (Itoa startPort +:+ "-" +:+ Itoa endPort) handler true in
  if startPort <? 1025 then r = Some (Err ErrInvalidValue)
  else if endPort <? startPort then r = Some (Err ErrEndPortIsSmallerThanStartPort)
  else if negb (range_fits startPort endPort) then r = None
  else if endPort <? 2 ^ 63 - 1 then exists res, r = Some res /\ chosen startPort endPort handler res
  else r = None /\ forall fuel, range_loop fuel startPort endPort = None.
Proof.
  intros Hs He. unfold getPort. change ("-" +:+ Itoa endPort) with (String "-" (Itoa endPort)).
  rewrite Atoi_range, split_on_range, split_on_digits by (done || apply Itoa_digits || apply Itoa_not_empty; lia).
  rewrite !Atoi_Itoa by (unfold in_s; simpl; lia). change minRangePortValue with 1025.
  destruct (startPort <? 1025) eqn:H1; [done|]. destruct (endPort <? startPort) eqn:H2; [done|].
  pose proof (choosePort_spec startPort endPort handler ltac:(lia) ltac:(lia)) as Hc.
  destruct (range_fits startPort endPort); [|exact Hc]. cbn [negb andb] in *.
  destruct (endPort <? 2 ^ 63 - 1) eqn:Hend; [exact Hc|]. split; [exact Hc|]. intros fuel.
  replace endPort with (2 ^ 63 - 1) by lia. apply range_loop_endless. unfold in_s. simpl. lia.
Qed.

(** Whatever the configured string is, a port that is returned was either
    given alone, and is then a natural number of any size that was not checked to be free, or is
    a free one of the range that the two parts around the only dash make. *)
Theorem getPort_sound port handler p :
  getPort FisherYatesShuffle port handler true = Some (Ok p) ->
  (Atoi port = Some p /\ 0 <= p)
  \/ (exists port0 port1 startPort endPort,
        split_on "-" port = [port0; port1] /\ Atoi port0 = Some startPort /\ Atoi port1 = Some endPort
        /\ 1025 <= startPort <= p /\ p <= endPort /\ handler p = None).
Proof.
  unfold getPort. destruct (Atoi port) as [val|] eqn:Ha.
  { destruct (val <? 0) eqn:Hv; [done|]. intros [= ->]. left. split; [done|lia]. }
  destruct (split_on "-" port) as [|port0 [|port1 [|? ?]]] eqn:Hsp; try done.
  destruct (Atoi port0) as [startPort|] eqn:H0; [|done].
  destruct (Atoi port1) as [endPort|] eqn:H1; [|done]. unfold minRangePortValue.
  destruct (startPort <? 1025) eqn:Hlow; [done|]. destruct (endPort <? startPort) eqn:Hle; [done|].
  pose proof (Atoi_range_of _ _ H0) as Hr0. pose proof (Atoi_range_of _ _ H1) as Hr1.
  unfold choosePort. cbn [negb]. destruct (_ || _); [done|]. destruct (decide (endPort < 2 ^ 63 - 1)) as [Hend|Hend].
  2:{ replace endPort with (2 ^ 63 - 1) by lia. by rewrite range_loop_endless by (unfold in_s; simpl; lia). }
  rewrite range_loop_ends by lia. cbn [mbind option_bind].
  pose proof (first_free_spec handler (FisherYatesShuffle (seqZ startPort (endPort - startPort + 1)))) as Hf.
  destruct (first_free _ _) as [q|]; [|done]. intros [= ->]. destruct Hf as [Hp Hh].
  rewrite shuffle_perm, elem_of_seqZ in Hp. right. exists port0, port1, startPort, endPort.
  split_and!; [done..|lia|lia|lia|done].
Qed.
End choice.

(** ** Examples *)

Definition demo_handler (p : Z) : option error := if p =? 10002 then None else Some (EExternal "in use").

Lemma getPort_range_witness :
  (exists res, getPort (@rev Z) "10000-10010" demo_handler true = Some res /\ chosen 10000 10010 demo_handler res)
  /\ forall fuel, range_loop fuel 9223372036854775800 9223372036854775807 = None.
Proof.
  split; [apply (getPort_range (@rev Z) 10000 10010 demo_handler); lia|].
  apply (getPort_range (@rev Z) 9223372036854775800 9223372036854775807 demo_handler); lia.
Defined.

Lemma getPort_sound_witness : Atoi "37373" = Some 37373 /\ 0 <= 37373.
Proof.
  destruct (getPort_sound (@rev Z) "37373" demo_handler 37373) as [H|(? & ? & ? & ? & H & _)].
  - vm_compute. reflexivity.
  - exact H.
  - vm_compute in H. discriminate H.
Defined.
