(* ===== verification/Metrics.v ===== *)
(** * Metrics of the connections

    p2p/libp2p/metrics and its factory: the counter of the connections and
    disconnections, and the watchers of the new known connections. *)

From S2P Require Import Prelude Errors Config.
From stdpp Require Import list.
Open Scope Z_scope.

(** ** connections.go *)

Record connectionsMetric := {
  numConnections : Z;     (* uint32 *)
  numDisconnections : Z;  (* uint32 *)
}.

Definition NewConnectionsMetric : connectionsMetric := {| numConnections := 0; numDisconnections := 0 |}.

Definition Listen (cm : connectionsMetric) : connectionsMetric := cm.
Definition ListenClose (cm : connectionsMetric) : connectionsMetric := cm.

Definition cm_Connected (cm : connectionsMetric) : connectionsMetric := {|
  numConnections := wrapu 32 (numConnections cm + 1); numDisconnections := numDisconnections cm |}.

Definition cm_Disconnected (cm : connectionsMetric) : connectionsMetric := {|
  numConnections := numConnections cm; numDisconnections := wrapu 32 (numDisconnections cm + 1) |}.

Definition ResetNumConnections (cm : connectionsMetric) : Z * connectionsMetric :=
  (numConnections cm, {| numConnections := 0; numDisconnections := numDisconnections cm |}).

Definition ResetNumDisconnections (cm : connectionsMetric) : Z * connectionsMetric :=
  (numDisconnections cm, {| numConnections := numConnections cm; numDisconnections := 0 |}).

(** The network's notifications and the resets of the readers, in any order *)
Inductive metric_op := OpListen | OpListenClose | OpConnected | OpDisconnected | OpResetC | OpResetD.

#[export] Instance metric_op_eq_decision : EqDecision metric_op.
Proof. solve_decision. Defined.

(** The values read for the connections and for the disconnections *)
Definition metric_step (cm : connectionsMetric) (op : metric_op) : list Z * list Z * connectionsMetric :=
  match op with
  | OpListen => ([], [], Listen cm)
  | OpListenClose => ([], [], ListenClose cm)
  | OpConnected => ([], [], cm_Connected cm)
  | OpDisconnected => ([], [], cm_Disconnected cm)
  | OpResetC => let '(v, cm) := ResetNumConnections cm in ([v], [], cm)
  | OpResetD => let '(v, cm) := ResetNumDisconnections cm in ([], [v], cm)
  end.

Fixpoint metric_run (cm : connectionsMetric) (ops : list metric_op) : list Z * list Z * connectionsMetric :=
  match ops with
  | [] => ([], [], cm)
  | op :: ops =>
      let '(c, d, cm) := metric_step cm op in
      let '(cs, ds, cm) := metric_run cm ops in
      (c ++ cs, d ++ ds, cm)
  end.

(** ** printConnectionsWatcher.go *)

(** [types.TimeCacher] of drt-go-chain-storage, as the watcher uses it, at the time [now] *)
Class TimeCacher (T : Type) := {
  tcr_Has : T -> string -> bool;
  tcr_Upsert : Z -> T -> string -> Z -> option error * T;
  tcr_Sweep : Z -> T -> T;
}.

(** What it promises on its contents, the time of the last addition of each
    key: an addition with the span [ttl] starts the time of its key anew, a
    sweep drops the keys older than the span and nothing younger. *)
Class TimeCacherLaws (T : Type) `{TimeCacher T} (ttl : Z) (tview : T -> gmap string Z) : Prop := {
  tcr_Has_view t k : tcr_Has t k = bool_decide (is_Some (tview t !! k));
  tcr_Upsert_empty now t span : tcr_Upsert now t "" span = (Some (EExternal "empty key"), t);
  tcr_Upsert_err now t k : k <> "" -> (tcr_Upsert now t k ttl).1 = None;
  tcr_Upsert_view now t k : k <> "" -> tview (tcr_Upsert now t k ttl).2 = <[k := now]> (tview t);
  tcr_Sweep_sub now t k at_ : tview (tcr_Sweep now t) !! k = Some at_ ->
    tview t !! k = Some at_ /\ now - at_ <= ttl;
  tcr_Sweep_keeps now t k at_ : tview t !! k = Some at_ -> now - at_ < ttl ->
    tview (tcr_Sweep now t) !! k = Some at_;
}.

Definition minTimeToLive : Z := time_Second.

Record printConnectionsWatcher (T : Type) := {
  timeCacher : T;
  goRoutineClosed : bool;
  timeToLive : Z;
}.
Arguments timeCacher {T} p.
Arguments goRoutineClosed {T} p.
Arguments timeToLive {T} p.

(** [strings.Trim(s, " ")] *)
Fixpoint trim_right (s : string) : string :=
  match s with
  | EmptyString => ""
  | String c s =>
      match trim_right s with
      | EmptyString => if Ascii.eqb c " " then "" else String c ""
      | s => String c s
      end
  end.

Definition Trim (s : string) : string := trim_right (trim_left s).

Section watcher.
Context {T : Type} `{TimeCacher T}.

(** [NewTimeCache] is that of drt-go-chain-storage. *)
Definition NewPrintConnectionsWatcher (NewTimeCache : Z -> T) (timeToLive : Z) (logger : bool)
    : result (printConnectionsWatcher T) :=
  guard_err (timeToLive <? minTimeToLive) ErrInvalidValueForTimeToLiveParam $
  guard_err (negb logger) ErrNilLogger $
  Ok {| timeCacher := NewTimeCache timeToLive; goRoutineClosed := false; timeToLive := timeToLive |}.

(** What the log is told of a peer *)
Definition logPrintHandler (Pretty : PeerID -> string) (pid : PeerID) (connection : string) : string * string :=
  (Pretty pid, connection).

Context (Pretty : PeerID -> string).

Definition pcw_NewKnownConnection (now : Z) (pcw : printConnectionsWatcher T) (pid : PeerID) (connection : string)
    : list (string * string) * printConnectionsWatcher T :=
  let conn := Trim connection in
  if (Z.of_nat (String.length conn) =? 0) then ([], pcw)
  else
    let has := tcr_Has (timeCacher pcw) (Pretty pid) in
    let '(err, tc) := tcr_Upsert now (timeCacher pcw) (Pretty pid) (timeToLive pcw) in
    let pcw := {| timeCacher := tc; goRoutineClosed := goRoutineClosed pcw; timeToLive := timeToLive pcw |} in
    match err with
    | Some _ => ([], pcw)
    | None => if has then ([], pcw) else ([logPrintHandler Pretty pid conn], pcw)
    end.

(** The goroutine of the watcher has seen the end of its context. *)
Definition pcw_closed (pcw : printConnectionsWatcher T) : printConnectionsWatcher T := {|
  timeCacher := timeCacher pcw; goRoutineClosed := true; timeToLive := timeToLive pcw |}.

(** What happens to the watcher: a known connection, the timer of its
    goroutine, the end of its context ([Close] cancels it) *)
Inductive watcher_event :=
| Known (pid : PeerID) (connection : string)
| SweepTimer
| CtxDone.

(** [doSweep], turn by turn, beside the calls of [NewKnownConnection] *)
Definition watcher_step (now : Z) (pcw : printConnectionsWatcher T) (ev : watcher_event)
    : list (string * string) * printConnectionsWatcher T :=
  match ev with
  | Known pid connection => pcw_NewKnownConnection now pcw pid connection
  | SweepTimer =>
      if goRoutineClosed pcw then ([], pcw)
      else ([], {| timeCacher := tcr_Sweep now (timeCacher pcw); goRoutineClosed := false;
                   timeToLive := timeToLive pcw |})
  | CtxDone => ([], pcw_closed pcw)
  end.

Fixpoint watcher_run (pcw : printConnectionsWatcher T) (evs : list (Z * watcher_event))
    : list (string * string) * printConnectionsWatcher T :=
  match evs with
  | [] => ([], pcw)
  | (now, ev) :: evs =>
      let '(printed, pcw) := watcher_step now pcw ev in
      let '(rest, pcw) := watcher_run pcw evs in
      (printed ++ rest, pcw)
  end.

(** ** disabledConnectionsWatcher.go and the factory *)

Inductive ConnectionsWatcher :=
| DisabledConnectionsWatcher
| PrintConnectionsWatcher (pcw : printConnectionsWatcher T).

Definition cw_NewKnownConnection (now : Z) (cw : ConnectionsWatcher) (pid : PeerID) (connection : string)
    : list (string * string) * ConnectionsWatcher :=
  match cw with
  | DisabledConnectionsWatcher => ([], cw)
  | PrintConnectionsWatcher pcw =>
      let '(printed, pcw) := pcw_NewKnownConnection now pcw pid connection in
      (printed, PrintConnectionsWatcher pcw)
  end.

(** [Close] never fails; that of the printing watcher cancels its context,
    which ends its goroutine. *)
Definition cw_Close (cw : ConnectionsWatcher) : option error * ConnectionsWatcher :=
  match cw with
  | DisabledConnectionsWatcher => (None, cw)
  | PrintConnectionsWatcher pcw => (None, PrintConnectionsWatcher (pcw_closed pcw))
  end.

Definition NewConnectionsWatcher (NewTimeCache : Z -> T) (connectionsWatcherType : string) (timeToLive : Z)
    (logger : bool) : result ConnectionsWatcher :=
  if decide (connectionsWatcherType = ConnectionWatcherTypePrint) then
    pcw ← NewPrintConnectionsWatcher NewTimeCache timeToLive logger;
    Ok (PrintConnectionsWatcher pcw)
  else if decide (connectionsWatcherType = ConnectionWatcherTypeDisabled
                  \/ connectionsWatcherType = ConnectionWatcherTypeEmpty) then
    Ok DisabledConnectionsWatcher
  else Err ErrUnknownConnectionWatcherType.

End watcher.

(** ** The counters *)

Definition sum_Z (l : list Z) : Z := fold_right Z.add 0 l.

Definition occurrences (op : metric_op) (ops : list metric_op) : Z := len (filter (fun o => o = op) ops).

Definition metric_wf (cm : connectionsMetric) : Prop :=
  in_u 32 (numConnections cm) /\ in_u 32 (numDisconnections cm).

Lemma metric_step_wf cm op : metric_wf cm -> metric_wf (metric_step cm op).2.
Proof.
  intros [H1 H2]. assert (H0 : in_u 32 0) by (unfold in_u; simpl; lia).
  destruct op; simpl; split; simpl; try done; apply wrapu_range; lia.
Qed.

Lemma occurrences_cons op o ops :
  occurrences op (o :: ops) = (if decide (o = op) then 1 else 0) + occurrences op ops.
Proof. unfold occurrences. rewrite filter_cons. case_decide; [apply len_cons|lia]. Qed.

Lemma occurrences_nonneg op ops : 0 <= occurrences op ops.
Proof. apply len_nonneg. Qed.

Lemma sum_Z_app l1 l2 : sum_Z (l1 ++ l2) = sum_Z l1 + sum_Z l2.
Proof. unfold sum_Z. induction l1; simpl; lia. Qed.

(** One step, on the total of what was read and of what is still counted *)
Lemma metric_step_total cm op :
  let '(c, d, cm') := metric_step cm op in
  (sum_Z c + numConnections cm') mod 2 ^ 32
    = (numConnections cm + (if decide (op = OpConnected) then 1 else 0)) mod 2 ^ 32
  /\ (sum_Z d + numDisconnections cm') mod 2 ^ 32
    = (numDisconnections cm + (if decide (op = OpDisconnected) then 1 else 0)) mod 2 ^ 32.
Proof.
  unfold metric_step, cm_Connected, cm_Disconnected, wrapu.
  destruct op; cbn -[Z.add Z.modulo Z.pow]; rewrite ?Z.add_0_l, ?Z.add_0_r, ?Z.mod_mod by lia; by split.
Qed.

Lemma metric_run_total cm ops :
  let '(cs, ds, cm') := metric_run cm ops in
  (sum_Z cs + numConnections cm') mod 2 ^ 32 = (numConnections cm + occurrences OpConnected ops) mod 2 ^ 32
  /\ (sum_Z ds + numDisconnections cm') mod 2 ^ 32
     = (numDisconnections cm + occurrences OpDisconnected ops) mod 2 ^ 32.
Proof.
  revert cm. induction ops as [|op ops IH]; intros cm.
  { change (sum_Z []) with 0. change (occurrences OpConnected []) with 0.
    change (occurrences OpDisconnected []) with 0. cbn -[Z.modulo Z.add Z.pow].
    change (sum_Z []) with 0. by rewrite !Z.add_0_l, !Z.add_0_r. }
  cbn [metric_run].
  pose proof (metric_step_total cm op) as Hs. destruct (metric_step cm op) as [[c d] cm1].
  specialize (IH cm1). destruct (metric_run cm1 ops) as [[cs ds] cm2].
  rewrite !sum_Z_app, !occurrences_cons. destruct Hs as [Hc Hd], IH as [IHc IHd]. split.
  - rewrite <- Z.add_assoc, <- Z.add_mod_idemp_r, IHc, Z.add_mod_idemp_r, Z.add_assoc by lia.
    rewrite <- Z.add_mod_idemp_l, Hc, Z.add_mod_idemp_l by lia. f_equal. lia.
  - rewrite <- Z.add_assoc, <- Z.add_mod_idemp_r, IHd, Z.add_mod_idemp_r, Z.add_assoc by lia.
    rewrite <- Z.add_mod_idemp_l, Hd, Z.add_mod_idemp_l by lia. f_equal. lia.
Qed.

(** While the events fit the counters, the totals are exact. *)
Lemma metric_run_exact cm ops :
  metric_wf cm ->
  numConnections cm + occurrences OpConnected ops < 2 ^ 32 ->
  numDisconnections cm + occurrences OpDisconnected ops < 2 ^ 32 ->
  let '(cs, ds, cm') := metric_run cm ops in
  sum_Z cs + numConnections cm' = numConnections cm + occurrences OpConnected ops
  /\ sum_Z ds + numDisconnections cm' = numDisconnections cm + occurrences OpDisconnected ops.
Proof.
  revert cm. induction ops as [|op ops IH]; intros cm Hwf; [by unfold occurrences, len; simpl; lia|].
  rewrite !occurrences_cons. cbn [metric_run]. pose proof (metric_step_wf cm op Hwf) as Hwf1.
  pose proof (occurrences_nonneg OpConnected ops). pose proof (occurrences_nonneg OpDisconnected ops).
  destruct Hwf as [Hc Hd]. unfold in_u in Hc, Hd. intros H1 H2.
  assert (Hs : let '(c, d, cm1) := metric_step cm op in
    sum_Z c + numConnections cm1 = numConnections cm + (if decide (op = OpConnected) then 1 else 0)
    /\ sum_Z d + numDisconnections cm1 = numDisconnections cm + (if decide (op = OpDisconnected) then 1 else 0)
    /\ 0 <= sum_Z c /\ 0 <= sum_Z d).
  { destruct op; repeat case_decide; try done; cbn -[Z.add Z.pow Z.lt Z.le] in *;
      rewrite ?wrapu_small by (unfold in_u; lia); unfold Listen, ListenClose; lia. }
  destruct (metric_step cm op) as [[c d] cm1]. specialize (IH cm1 Hwf1 ltac:(lia) ltac:(lia)).
  destruct (metric_run cm1 ops) as [[cs ds] cm2]. rewrite !sum_Z_app. lia.
Qed.

(** No connection or disconnection is lost or counted twice: in any order of
    the notifications and of the resets, what the resets returned and what is
    still counted add up to the number of the notifications, exactly while these
    are fewer than 2^32 and modulo 2^32 otherwise. *)
Theorem connectionsMetric_counts ops :
  let '(cs, ds, cm) := metric_run NewConnectionsMetric ops in
  (sum_Z cs + numConnections cm) mod 2 ^ 32 = occurrences OpConnected ops mod 2 ^ 32
  /\ (sum_Z ds + numDisconnections cm) mod 2 ^ 32 = occurrences OpDisconnected ops mod 2 ^ 32
  /\ (len ops < 2 ^ 32 ->
      sum_Z cs + numConnections cm = occurrences OpConnected ops
      /\ sum_Z ds + numDisconnections cm = occurrences OpDisconnected ops).
Proof.
  pose proof (metric_run_total NewConnectionsMetric ops) as Ht.
  pose proof (metric_run_exact NewConnectionsMetric ops ltac:(by split)) as He.
  destruct (metric_run NewConnectionsMetric ops) as [[cs ds] cm]. destruct Ht as [Hc Hd].
  split_and!; [done|done|]. intros Hl. pose proof (len_filter (fun o => o = OpConnected) ops).
  pose proof (len_filter (fun o => o = OpDisconnected) ops). unfold occurrences in *.
  apply He; simpl; lia.
Qed.

(** ** The watcher *)

Section printing.
Context {T : Type} `{TimeCacher T} (ttl : Z) (tview : T -> gmap string Z) `{!TimeCacherLaws T ttl tview}.
Context (Pretty : PeerID -> string).

Abbreviation pcw_view pcw := (tview (timeCacher pcw)).

(** A known connection that counts for the key [k] *)
Definition is_known (k : string) (ev : watcher_event) : Prop :=
  match ev with Known pid connection => Pretty pid = k /\ Trim connection <> "" | _ => False end.

#[local] Instance is_known_dec k ev : Decision (is_known k ev).
Proof. destruct ev; apply _. Defined.

Lemma blank_spec s : (Z.of_nat (String.length s) =? 0) = bool_decide (s = "").
Proof. destruct s; [done|]. rewrite bool_decide_false by done. simpl. lia. Qed.

Lemma NewKnownConnection_view now pcw pid connection k :
  timeToLive pcw = ttl -> k <> "" ->
  let '(printed, pcw') := pcw_NewKnownConnection Pretty now pcw pid connection in
  timeToLive pcw' = ttl /\ goRoutineClosed pcw' = goRoutineClosed pcw
  /\ pcw_view pcw' !! k = if decide (is_known k (Known pid connection)) then Some now else pcw_view pcw !! k.
Proof.
  intros Httl Hk. unfold pcw_NewKnownConnection. rewrite blank_spec. case_bool_decide as Hb.
  { split_and!; [done..|]. rewrite decide_False; [done|]. by intros [_ ?]. }
  destruct (decide (Pretty pid = "")) as [He|Hne].
  { rewrite He, Httl, tcr_Upsert_empty. simpl. split_and!; [done..|].
    rewrite decide_False; [done|]. intros [? _]. congruence. }
  pose proof (tcr_Upsert_err now (timeCacher pcw) (Pretty pid) Hne) as Herr.
  pose proof (tcr_Upsert_view now (timeCacher pcw) (Pretty pid) Hne) as Hv.
  rewrite Httl. destruct (tcr_Upsert _ _ _ _) as [err tc]. simpl in Herr, Hv. rewrite Herr.
  assert (Hview : tview tc !! k = if decide (is_known k (Known pid connection)) then Some now else pcw_view pcw !! k).
  { rewrite Hv. destruct (decide (is_known k (Known pid connection))) as [[-> _]|Hn].
    - by rewrite lookup_insert_eq.
    - rewrite lookup_insert_ne; [done|]. intros Hk'. by apply Hn. }
  by destruct (tcr_Has _ _).
Qed.

Lemma watcher_step_view now pcw ev k :
  timeToLive pcw = ttl -> k <> "" ->
  let pcw' := (watcher_step Pretty now pcw ev).2 in
  timeToLive pcw' = ttl
  /\ (is_known k ev -> pcw_view pcw' !! k = Some now)
  /\ (forall a, ~ is_known k ev -> pcw_view pcw' !! k = Some a -> pcw_view pcw !! k = Some a)
  /\ (forall a, ~ is_known k ev -> pcw_view pcw !! k = Some a -> now - a < ttl -> pcw_view pcw' !! k = Some a)
  /\ (forall a, ev = SweepTimer -> goRoutineClosed pcw = false -> pcw_view pcw' !! k = Some a -> now - a <= ttl)
  /\ (ev <> CtxDone -> goRoutineClosed pcw' = goRoutineClosed pcw).
Proof.
  intros Httl Hk. destruct ev as [pid connection| |]; cbn [watcher_step].
  - pose proof (NewKnownConnection_view now pcw pid connection k Httl Hk) as Hv.
    destruct (pcw_NewKnownConnection _ _ _ _ _) as [printed pcw']. destruct Hv as (Ht & Hc & Hv).
    cbn [snd]. rewrite Hv.
    destruct (decide (is_known k (Known pid connection))) as [Hd|Hd]; split_and!; try done; intros a; naive_solver.
  - destruct (goRoutineClosed pcw) eqn:Hc; simpl; split_and!; try done; intros a.
    + intros _ Ha. by apply (tcr_Sweep_sub now) in Ha as [? _].
    + intros _ Ha Hlt. by apply tcr_Sweep_keeps.
    + intros _ _ Ha. by apply (tcr_Sweep_sub now) in Ha as [_ ?].
  - split_and!; done.
Qed.

(** The state after the events *)
Definition after (pcw : printConnectionsWatcher T) (evs : list (Z * watcher_event)) : printConnectionsWatcher T :=
  (watcher_run Pretty pcw evs).2.

Lemma after_cons pcw now ev evs :
  after pcw ((now, ev) :: evs) = after (watcher_step Pretty now pcw ev).2 evs.
Proof.
  unfold after. cbn [watcher_run]. destruct (watcher_step _ _ _ _) as [printed pcw'].
  cbn [snd]. by destruct (watcher_run _ pcw' evs).
Qed.

Lemma after_app pcw evs1 evs2 : after pcw (evs1 ++ evs2) = after (after pcw evs1) evs2.
Proof.
  revert pcw. induction evs1 as [|[now ev] evs1 IH]; intros pcw; [done|].
  change (((now, ev) :: evs1) ++ evs2) with ((now, ev) :: (evs1 ++ evs2)). by rewrite !after_cons.
Qed.

Lemma after_ttl pcw evs : timeToLive pcw = ttl -> timeToLive (after pcw evs) = ttl.
Proof.
  revert pcw. induction evs as [|[now ev] evs IH]; intros pcw Ht; [done|]. rewrite after_cons. apply IH.
  by apply (watcher_step_view now pcw ev "k").
Qed.

Lemma after_open pcw evs :
  timeToLive pcw = ttl -> (forall now, (now, CtxDone) ∉ evs) ->
  goRoutineClosed (after pcw evs) = goRoutineClosed pcw.
Proof.
  revert pcw. induction evs as [|[now ev] evs IH]; intros pcw Ht Hno; [done|]. rewrite after_cons.
  destruct (watcher_step_view now pcw ev "k" Ht ltac:(done)) as (Ht' & _ & _ & _ & _ & Hg).
  rewrite IH; [apply Hg|done|].
  - intros ->. by apply (Hno now), list_elem_of_here.
  - intros now' Hin. apply (Hno now'). by apply list_elem_of_further.
Qed.

(** A key that is present comes from a connection that was known. *)
Lemma after_origin pcw evs k a :
  timeToLive pcw = ttl -> k <> "" -> pcw_view (after pcw evs) !! k = Some a ->
  pcw_view pcw !! k = Some a \/ exists ev, (a, ev) ∈ evs /\ is_known k ev.
Proof.
  intros Ht Hk. revert pcw Ht. induction evs as [|[now ev] evs IH]; intros pcw Ht Ha; [by left|].
  rewrite after_cons in Ha. destruct (watcher_step_view now pcw ev k Ht Hk) as (Ht' & Hkn & Hun & _).
  destruct (IH _ Ht' Ha) as [Hv|(ev' & Hin & Hev')].
  - destruct (decide (is_known k ev)) as [Hd|Hd]; [|left; by apply Hun].
    right. exists ev. rewrite (Hkn Hd) in Hv. injection Hv as ->. split; [apply list_elem_of_here|done].
  - right. exists ev'. split; [by apply list_elem_of_further|done].
Qed.

(** A key stays for its time to live after each of its connections. *)
Lemma after_keeps pcw evs k a t :
  timeToLive pcw = ttl -> k <> "" -> StronglySorted Z.le (a :: evs.*1) -> (forall e, e ∈ evs -> e.1 <= t) ->
  pcw_view pcw !! k = Some a -> t - a < ttl -> is_Some (pcw_view (after pcw evs) !! k).
Proof.
  intros Ht Hk. revert pcw a Ht. induction evs as [|[now ev] evs IH]; intros pcw a Ht Hs Hle Ha Hlt; [by exists a|].
  rewrite after_cons. destruct (watcher_step_view now pcw ev k Ht Hk) as (Ht' & Hkn & _ & Hkeep & _).
  pose proof (Hle (now, ev) (list_elem_of_here _ _)) as Hnow. simpl in Hnow.
  rewrite fmap_cons in Hs. inversion Hs as [|? ? Hs1 Hf]; subst. inversion Hf as [|? ? Han Hf1]; subst.
  inversion Hs1 as [|? ? Hs2 Hf2]; subst. simpl in *.
  assert (Hle' : forall e, e ∈ evs -> e.1 <= t) by (intros e He; apply Hle; by apply list_elem_of_further).
  destruct (decide (is_known k ev)) as [Hd|Hd].
  - apply (IH _ now Ht'); [by constructor|done|by apply Hkn|lia].
  - apply (IH _ a Ht'); [by constructor|done|apply Hkeep; [done..|lia]|done].
Qed.

(** The watcher tells the log of a peer when a connection with an address
    becomes known, unless one of the same peer was known less than the time to
    live before, in which case it says nothing; it says it again once a sweep came
    more than the time to live after the last one. Nothing is said of a blank
    address. *)
Theorem NewKnownConnection_prints pcw evs t pid connection :
  timeToLive pcw = ttl -> tview (timeCacher pcw) = ∅ -> goRoutineClosed pcw = false ->
  StronglySorted Z.le (evs.*1) -> (forall e, e ∈ evs -> e.1 <= t) -> Pretty pid <> "" ->
  let printed := (pcw_NewKnownConnection Pretty t (after pcw evs) pid connection).1 in
  let known e := is_known (Pretty pid) (snd e) in
  (Trim connection = "" -> printed = [])
  /\ (Trim connection <> "" ->
      ((exists e, e ∈ evs /\ known e /\ t - e.1 < ttl) -> printed = [])
      /\ ((forall e, e ∈ evs -> ~ known e) -> printed = [(Pretty pid, Trim connection)])
      /\ (forall evs1 s evs2, evs = evs1 ++ (s, SweepTimer) :: evs2 ->
          (forall now, (now, CtxDone) ∉ evs1) ->
          (forall e, e ∈ evs1 -> known e -> ttl < s - e.1) -> (forall e, e ∈ evs2 -> ~ known e) ->
          printed = [(Pretty pid, Trim connection)])).
Proof.
  intros Httl Hempty Hopen Hs Hle Hne printed known.
  assert (Hp : Trim connection <> "" -> printed =
    if bool_decide (is_Some (pcw_view (after pcw evs) !! Pretty pid)) then [] else [(Pretty pid, Trim connection)]).
  { intros Hb. unfold printed, pcw_NewKnownConnection. rewrite blank_spec, bool_decide_false by done.
    rewrite (after_ttl _ _ Httl), tcr_Has_view.
    pose proof (tcr_Upsert_err t (timeCacher (after pcw evs)) (Pretty pid) Hne) as Herr.
    destruct (tcr_Upsert _ _ _ _) as [err tc]. simpl in Herr. rewrite Herr. by case_bool_decide. }
  split.
  { intros Hb. unfold printed, pcw_NewKnownConnection. by rewrite blank_spec, bool_decide_true. }
  intros Hb. rewrite (Hp Hb). split_and!.
  - intros ([a ev] & Hin & Hkn & Hlt). simpl in Hlt. apply list_elem_of_split in Hin as (l1 & l2 & ->).
    rewrite bool_decide_true; [done|]. rewrite after_app, after_cons.
    rewrite fmap_app in Hs. apply StronglySorted_app_1_r in Hs.
    destruct (watcher_step_view a (after pcw l1) ev (Pretty pid) (after_ttl _ _ Httl) Hne) as (Ht' & Hk' & _).
    eapply (after_keeps _ _ _ a t Ht' Hne); [exact Hs| |by apply Hk'|done].
    intros e He. apply Hle. apply elem_of_app. right. by apply list_elem_of_further.
  - intros Hno. rewrite bool_decide_false; [done|]. intros [a Ha].
    apply (after_origin _ _ _ _ Httl Hne) in Ha as [Ha|(ev & Hin & Hev)].
    + by rewrite Hempty, lookup_empty in Ha.
    + by apply (Hno (a, ev)).
  - intros evs1 s evs2 -> Hctx Hold Hno. rewrite bool_decide_false; [done|]. intros [a Ha].
    rewrite after_app, after_cons in Ha.
    destruct (watcher_step_view s (after pcw evs1) SweepTimer (Pretty pid) (after_ttl _ _ Httl) Hne)
      as (Ht' & _ & Hsub & _ & Hsweep & _).
    apply (after_origin _ _ _ _ Ht' Hne) in Ha as [Ha|(ev & Hin & Hev)]; [|by apply (Hno (a, ev))].
    assert (Hold' : s - a <= ttl) by (apply Hsweep; [done|by rewrite after_open|done]).
    apply Hsub in Ha; [|by intros []].
    apply (after_origin _ _ _ _ Httl Hne) in Ha as [Ha|(ev & Hin & Hev)].
    + by rewrite Hempty, lookup_empty in Ha.
    + specialize (Hold (a, ev) Hin Hev). simpl in Hold. lia.
Qed.
End printing.

(** ** The factory *)

(** The factory gives a watcher for the three types it knows, the printing one
    only with a logger and a time to live of a second or more, and an error for
    any other type. *)
Theorem NewConnectionsWatcher_spec {T} `{TimeCacher T} (NewTimeCache : Z -> T) type ttl logger :
  match NewConnectionsWatcher NewTimeCache type ttl logger with
  | Ok DisabledConnectionsWatcher => type = "disabled" \/ type = ""
  | Ok (PrintConnectionsWatcher pcw) =>
      type = "print" /\ time_Second <= ttl /\ logger = true /\ timeToLive pcw = ttl
      /\ timeCacher pcw = NewTimeCache ttl /\ goRoutineClosed pcw = false
      /\ (cw_Close (PrintConnectionsWatcher pcw)).1 = None
  | Err err =>
      (type = "print" /\ ttl < time_Second /\ err = ErrInvalidValueForTimeToLiveParam)
      \/ (type = "print" /\ time_Second <= ttl /\ logger = false /\ err = ErrNilLogger)
      \/ (type <> "print" /\ type <> "disabled" /\ type <> "" /\ err = ErrUnknownConnectionWatcherType)
  end.
Proof.
  unfold NewConnectionsWatcher, NewPrintConnectionsWatcher, guard_err, minTimeToLive. case_decide as Ht.
  - destruct (ttl <? time_Second) eqn:Hlt; simpl.
    + left. split_and!; [done|lia|done].
    + destruct logger; simpl; [split_and!; try done; lia|]. right; left. split_and!; try done; lia.
  - case_decide as Hd; simpl; [done|]. right; right. split_and!; naive_solver.
Qed.

(** ** Examples *)

#[local] Instance demo_TimeCacher : TimeCacher (gmap string Z) := {
  tcr_Has t k := bool_decide (is_Some (t !! k));
  tcr_Upsert now t k _ :=
    if decide (k = "") then (Some (EExternal "empty key"), t) else (None, <[k := now]> t);
  tcr_Sweep now t := filter (fun e => now - e.2 <= time_Hour) t;
}.

#[local] Instance demo_TimeCacherLaws : TimeCacherLaws (gmap string Z) time_Hour id.
Proof.
  split; unfold id; simpl; intros.
  - done.
  - done.
  - by rewrite decide_False.
  - by rewrite decide_False.
  - by apply map_lookup_filter_Some in H.
  - apply map_lookup_filter_Some. split; [done|simpl; lia].
Qed.

Definition demo_watcher : printConnectionsWatcher (gmap string Z) := {|
  timeCacher := ∅; goRoutineClosed := false; timeToLive := time_Hour |}.

Definition demo_watched : list (Z * watcher_event) :=
  [(0, Known "p1" " /ip4/10.0.0.1 "); (time_Hour, SweepTimer); (2 * time_Hour, SweepTimer)].

Lemma NewKnownConnection_prints_witness :
  (pcw_NewKnownConnection id (3 * time_Hour) (after id demo_watcher demo_watched) "p1" "/ip4/10.0.0.1 ").1
  = [("p1", "/ip4/10.0.0.1")].
Proof.
  assert (Hs : StronglySorted Z.le (demo_watched.*1)) by (repeat constructor; done).
  destruct (NewKnownConnection_prints time_Hour id id demo_watcher demo_watched (3 * time_Hour) "p1" "/ip4/10.0.0.1 "
    eq_refl eq_refl eq_refl Hs ltac:(unfold demo_watched; intros e; rewrite !elem_of_cons, elem_of_nil; naive_solver done)
    ltac:(done)) as [_ H].
  destruct H as (_ & _ & H); [done|].
  apply (H [(0, Known "p1" " /ip4/10.0.0.1 "); (time_Hour, SweepTimer)] (2 * time_Hour) []).
  - reflexivity.
  - intros now. rewrite !elem_of_cons, elem_of_nil. naive_solver.
  - intros e. rewrite !elem_of_cons, elem_of_nil. intros [->|[->|[]]]; [done|]. intros [].
  - intros e He. by apply elem_of_nil in He.
Defined.
