(* ===== verification/Crypto.v ===== *)
(** * Keys and signatures

    p2p/libp2p/crypto: the conversion of keys and peer ids, the generator of
    identities, and the signer that the direct sender is given. The keys and
    the signer of drt-go-chain-crypto, the keys and peer ids of libp2p, and
    the hash are parameters, with their laws as classes. *)

From S2P Require Import Prelude Errors Config Messages.
From stdpp Require Import list.
Open Scope Z_scope.

(** ** What the package is given *)

(** go-libp2p/core/crypto and core/peer; [Rand] is a state of the random source. *)
Class Libp2pKeys (Rand LPriv LPub : Type) := {
  GenerateSecp256k1Key : Rand -> result LPriv;
  UnmarshalSecp256k1PrivateKey : bytes -> result LPriv;
  UnmarshalSecp256k1PublicKey : bytes -> result LPub;
  lpriv_Raw : LPriv -> result bytes;
  lpriv_GetPublic : LPriv -> LPub;
  lpub_Raw : LPub -> result bytes;
  IDFromPublicKey : LPub -> result PeerID;
  IDFromBytes : bytes -> result PeerID;
  ExtractPublicKey : PeerID -> result LPub;
}.

(** drt-go-chain-crypto: the keys, the [KeyGenerator], the [SingleSigner] *)
Class CommonKeys (SK PK : Type) := {
  sk_ToByteArray : SK -> result bytes;
  sk_GeneratePublic : SK -> PK;
  pk_ToByteArray : PK -> result bytes;
  PrivateKeyFromByteArray : bytes -> result SK;
  PublicKeyFromByteArray : bytes -> result PK;
  signer_Sign : SK -> bytes -> result bytes;
  signer_Verify : PK -> bytes -> slice -> option error;
}.

Section crypto.
Context {Rand LPriv LPub SK PK : Type} `{Libp2pKeys Rand LPriv LPub} `{CommonKeys SK PK}.

(** ** common.go *)

Definition ConvertPrivateKeyToLibp2pPrivateKey (privateKey : option SK) : result LPriv :=
  match privateKey with
  | None => Err ErrNilPrivateKey
  | Some privateKey =>
      p2pPrivateKeyBytes ← sk_ToByteArray privateKey;
      UnmarshalSecp256k1PrivateKey p2pPrivateKeyBytes
  end.

(** ** p2pKeyConverter.go *)

Definition ConvertPeerIDToPublicKey (pid : PeerID) : result PK :=
  libp2pPid ← IDFromBytes (to_bytes pid);
  match ExtractPublicKey libp2pPid with
  | Err err => Err (EExternal ("cannot extract signing key: " +:+ error_text err))
  | Ok pubk =>
      pubKeyBytes ← lpub_Raw pubk;
      PublicKeyFromByteArray pubKeyBytes
  end.

Definition ConvertPublicKeyToPeerID (pk : option PK) : result PeerID :=
  match pk with
  | None => Err ErrNilPublicKey
  | Some pk =>
      pkBytes ← pk_ToByteArray pk;
      libp2pPk ← UnmarshalSecp256k1PublicKey pkBytes;
      IDFromPublicKey libp2pPk
  end.

(** ** identityGenerator.go *)

Definition NewIdentityGenerator (logger : bool) : result unit :=
  guard_err (negb logger) ErrNilLogger $ Ok ().

Definition CreateP2PPrivateKey (randReader : Rand) (privateKeyBytes : bytes) : result LPriv :=
  if len privateKeyBytes =? 0 then GenerateSecp256k1Key randReader
  else UnmarshalSecp256k1PrivateKey privateKeyBytes.

Definition CreateRandomP2PIdentity (randReader : Rand) : result (bytes * PeerID) :=
  sk ← CreateP2PPrivateKey randReader [];
  skBuff ← lpriv_Raw sk;
  pid ← IDFromPublicKey (lpriv_GetPublic sk);
  Ok (skBuff, pid).

(** ** p2pSigner.go *)

Record ArgsP2pSignerWrapper := {
  aps_PrivateKey : option SK;
  aps_Signer : bool;
  aps_KeyGen : bool;
  aps_P2PKeyConverter : bool;
}.

Record p2pSignerWrapper := { privateKey : SK }.

Definition psw_checkArgs (args : ArgsP2pSignerWrapper) : result SK :=
  match aps_PrivateKey args with
  | None => Err ErrNilPrivateKey
  | Some sk =>
      guard_err (negb (aps_Signer args)) ErrNilSingleSigner $
      guard_err (negb (aps_KeyGen args)) ErrNilKeyGenerator $
      guard_err (negb (aps_P2PKeyConverter args)) ErrNilP2PKeyConverter $
      Ok sk
  end.

Definition NewP2PSignerWrapper (args : ArgsP2pSignerWrapper) : result p2pSignerWrapper :=
  sk ← psw_checkArgs args;
  Ok {| privateKey := sk |}.

(** SHA-256 *)
Context (Sum256 : bytes -> bytes).

Definition psw_Sign (psw : p2pSignerWrapper) (payload : bytes) : result bytes :=
  let hash := Sum256 payload in
  signer_Sign (privateKey psw) hash.

Definition psw_Verify (payload : bytes) (pid : PeerID) (signature : slice) : option error :=
  match ConvertPeerIDToPublicKey pid with
  | Err err => Some err
  | Ok pubKey =>
      let hash := Sum256 payload in
      match signer_Verify pubKey hash signature with
      | Some err => Some err
      | None => None
      end
  end.

Definition SignUsingPrivateKey (skBytes payload : bytes) : result bytes :=
  sk ← PrivateKeyFromByteArray skBytes;
  let hash := Sum256 payload in
  signer_Sign sk hash.

(** The signer that the network messenger embeds and gives to the direct sender *)
Definition psw_SignerVerifier (psw : p2pSignerWrapper) : SignerVerifier := {|
  s_Sign := psw_Sign psw;
  s_Verify := psw_Verify;
|}.

End crypto.

(** ** The laws of the parameters *)

(** A peer id that was made of a key carries it; the two libraries agree on the
    bytes of the keys. *)
Class KeyLaws (Rand LPriv LPub SK PK : Type) `{Libp2pKeys Rand LPriv LPub} `{CommonKeys SK PK} : Prop := {
  id_of_bytes lpk pid : IDFromPublicKey lpk = Ok pid -> IDFromBytes (to_bytes pid) = Ok pid;
  id_carries_key lpk pid : IDFromPublicKey lpk = Ok pid -> ExtractPublicKey pid = Ok lpk;
  pub_bytes pk b lpk : pk_ToByteArray pk = Ok b -> UnmarshalSecp256k1PublicKey b = Ok lpk -> lpub_Raw lpk = Ok b;
  pub_of_bytes pk b : pk_ToByteArray pk = Ok b -> PublicKeyFromByteArray b = Ok pk;
  priv_bytes lsk b sk : lpriv_Raw lsk = Ok b -> PrivateKeyFromByteArray b = Ok sk ->
    lpub_Raw (lpriv_GetPublic lsk) = pk_ToByteArray (sk_GeneratePublic sk)
    /\ exists pb, pk_ToByteArray (sk_GeneratePublic sk) = Ok pb;
  identity_bytes sk b lsk : sk_ToByteArray sk = Ok b -> UnmarshalSecp256k1PrivateKey b = Ok lsk ->
    lpub_Raw (lpriv_GetPublic lsk) = pk_ToByteArray (sk_GeneratePublic sk)
    /\ exists pb, pk_ToByteArray (sk_GeneratePublic sk) = Ok pb;
  sign_verify sk h sig : signer_Sign sk h = Ok sig -> signer_Verify (sk_GeneratePublic sk) h (Some sig) = None;
}.

Section laws.
Context {Rand LPriv LPub SK PK : Type} `{KeyLaws Rand LPriv LPub SK PK}.
Context (Sum256 : bytes -> bytes).

Lemma peer_id_key pk pid :
  ConvertPublicKeyToPeerID (Some pk) = Ok pid -> ConvertPeerIDToPublicKey pid = Ok pk.
Proof.
  unfold ConvertPublicKeyToPeerID, ConvertPeerIDToPublicKey. intros Hp.
  apply bind_Ok in Hp as (b & Hb & Hp). apply bind_Ok in Hp as (lpk & Hl & Hid).
  rewrite (id_of_bytes lpk pid Hid). cbn [mbind result_bind].
  rewrite (id_carries_key lpk pid Hid), (pub_bytes pk b lpk Hb Hl). cbn [mbind result_bind].
  by apply pub_of_bytes.
Qed.

(** The conversion of a public key into a peer id can be undone: the peer id
    gives the key back. *)
Theorem ConvertPublicKeyToPeerID_roundtrip pk pid :
  ConvertPublicKeyToPeerID pk = Ok pid -> exists k, pk = Some k /\ ConvertPeerIDToPublicKey pid = Ok k.
Proof. destruct pk as [k|]; [|done]. intros Hp. exists k. split; [done|by apply peer_id_key]. Qed.

Lemma verify_of_key pid sk payload sig :
  ConvertPeerIDToPublicKey pid = Ok (sk_GeneratePublic sk) ->
  signer_Sign sk (Sum256 payload) = Ok sig -> psw_Verify Sum256 payload pid (Some sig) = None.
Proof. intros Hk Hs. unfold psw_Verify. by rewrite Hk, (sign_verify sk _ _ Hs). Qed.

(** The peer id of a libp2p key carries the key of the same bytes. *)
Lemma peer_id_of_libp2p_key lpk pk pb pid :
  IDFromPublicKey lpk = Ok pid -> lpub_Raw lpk = pk_ToByteArray pk -> pk_ToByteArray pk = Ok pb ->
  ConvertPeerIDToPublicKey pid = Ok pk.
Proof.
  intros Hid Hraw Hpb. unfold ConvertPeerIDToPublicKey. rewrite (id_of_bytes _ _ Hid). cbn [mbind result_bind].
  rewrite (id_carries_key _ _ Hid), Hraw, Hpb. cbn [mbind result_bind]. by apply pub_of_bytes.
Qed.

(** The peer id of a host that has the libp2p form of a key carries the public key. *)
Lemma host_key sk lsk pid :
  ConvertPrivateKeyToLibp2pPrivateKey (Some sk) = Ok lsk -> IDFromPublicKey (lpriv_GetPublic lsk) = Ok pid ->
  ConvertPeerIDToPublicKey pid = Ok (sk_GeneratePublic sk).
Proof.
  intros (b & Hb & Hl)%bind_Ok Hid. destruct (identity_bytes sk b lsk Hb Hl) as [Hraw [pb Hpb]].
  by eapply peer_id_of_libp2p_key.
Qed.

(** What the signer of one peer signs, the signer of any other accepts as
    coming from the peer id of its key: the requirement that the direct sender
    has of its signer. *)
Theorem psw_signs_for_its_peer (psw psw' : p2pSignerWrapper) pid payload sig :
  ConvertPublicKeyToPeerID (Some (sk_GeneratePublic (privateKey psw))) = Ok pid ->
  s_Sign (psw_SignerVerifier Sum256 psw) payload = Ok sig ->
  s_Verify (psw_SignerVerifier Sum256 psw') payload pid (Some sig) = None.
Proof. intros Hp Hs. eapply verify_of_key; [by apply peer_id_key|done]. Qed.

(** C36: a random identity can be used: what is signed with the private key bytes it
    returns is accepted as coming from the peer id it returns. *)
Theorem identity_signs_for_its_peer randReader skBuff pid payload sig :
  CreateRandomP2PIdentity randReader = Ok (skBuff, pid) ->
  SignUsingPrivateKey Sum256 skBuff payload = Ok sig ->
  psw_Verify Sum256 payload pid (Some sig) = None.
Proof.
  unfold CreateRandomP2PIdentity, SignUsingPrivateKey. intros Hc Hs.
  apply bind_Ok in Hc as (lsk & _ & Hc). apply bind_Ok in Hc as (b & Hb & Hc).
  apply bind_Ok in Hc as (pid' & Hid & [= -> ->]). apply bind_Ok in Hs as (sk & Hsk & Hs).
  apply (verify_of_key pid sk); [|done]. destruct (priv_bytes lsk skBuff sk Hb Hsk) as [Hraw [pb Hpb]].
  by eapply peer_id_of_libp2p_key.
Qed.
End laws.

(** ** Examples: keys that are their own public keys, signatures that carry the key *)

#[local] Instance demo_Libp2pKeys : Libp2pKeys bytes bytes bytes := {
  GenerateSecp256k1Key r := Ok r;
  UnmarshalSecp256k1PrivateKey b := if len b =? 32 then Ok b else Err (EExternal "expected secp256k1 data size to be 32");
  UnmarshalSecp256k1PublicKey b := Ok b;
  lpriv_Raw b := Ok b;
  lpriv_GetPublic b := b;
  lpub_Raw b := Ok b;
  IDFromPublicKey b := Ok (of_bytes b);
  IDFromBytes b := Ok (of_bytes b);
  ExtractPublicKey pid := Ok (to_bytes pid);
}.

#[local] Instance demo_CommonKeys : CommonKeys bytes bytes := {
  sk_ToByteArray b := Ok b;
  sk_GeneratePublic b := b;
  pk_ToByteArray b := Ok b;
  PrivateKeyFromByteArray b := Ok b;
  PublicKeyFromByteArray b := Ok b;
  signer_Sign sk h := Ok (sk ++ h);
  signer_Verify pk h sig := if decide (sl sig = pk ++ h) then None else Some (EExternal "signature is invalid");
}.

#[local] Instance demo_KeyLaws : KeyLaws bytes bytes bytes bytes bytes.
Proof.
  split; simpl; intros; simplify_eq; rewrite ?of_to_bytes, ?to_of_bytes; try done.
  - split; [done|by eexists].
  - repeat case_match; simplify_eq; try done. split; [done|by eexists].
  - by rewrite decide_True.
Qed.

Lemma ConvertPublicKeyToPeerID_roundtrip_witness :
  exists k, Some (to_bytes "key") = Some k /\ ConvertPeerIDToPublicKey "key" = Ok k.
Proof. apply (ConvertPublicKeyToPeerID_roundtrip (Some (to_bytes "key")) "key"). reflexivity. Defined.

Lemma psw_signs_for_its_peer_witness :
  s_Verify (psw_SignerVerifier id {| privateKey := to_bytes "other" |}) (to_bytes "payload") "key"
    (Some (to_bytes "keypayload")) = None.
Proof.
  apply (psw_signs_for_its_peer id {| privateKey := to_bytes "key" |} {| privateKey := to_bytes "other" |}).
  - reflexivity.
  - reflexivity.
Defined.

Lemma identity_signs_for_its_peer_witness :
  psw_Verify id (to_bytes "payload") "random" (Some (to_bytes "randompayload")) = None.
Proof.
  apply (identity_signs_for_its_peer id (to_bytes "random") (to_bytes "random") "random"); reflexivity.
Defined.
