(* ===== verification/NetMessenger.v ===== *)
(** * The network messenger

    p2p/libp2p/netMessenger.go and p2p/libp2p/resourceLimiter: the options of the
    host, the retries of its construction, the wiring of all the components and
    their closing; and the constructors for tests, p2p/libp2p/mockMessenger.go and
    p2p/libp2p/testNetMessenger.go. *)

From S2P Require Import Prelude Errors Config Sharding Cache PeersHolder Messages DirectSender Topics MessagesHandler ConnectionMonitor ConnectionsHandler Discovery Ports Metrics Crypto.
From stdpp Require Import list.
Open Scope Z_scope.

(** ** The transports *)

(** The markup of the listening addresses *)
Definition intMarkup : string := "%d".

(** [strings.Count(s, "%d")]: the occurrences cannot overlap. *)
Fixpoint count_markup (s : string) : Z :=
  match s with
  | String "%" (String "d" s) => 1 + count_markup s
  | String _ s => count_markup s
  | EmptyString => 0
  end.

Definition strictCheckStringForIntMarkup (str : string) : bool := count_markup str =? 1.

(** The libp2p transports, as options *)
Inductive transport_option :=
| TCPTransport (disableReuseport : bool)
| QUICTransport
| WSTransport
| WebTransport.

Section transports.
(** What [fmt] prints from a [%] on that is followed neither by [d] nor by
    [%], and its argument if it was not used yet *)
Context (other_directive : string -> option Z -> string).

(** [fmt.Sprintf(format, arg)], [arg] an [int] *)
Fixpoint Sprintf (format : string) (arg : option Z) : string :=
  match format with
  | EmptyString =>
      match arg with Some a => "%!(EXTRA int=" +:+ Itoa a +:+ ")" | None => "" end
  | String "%" rest =>
      match rest with
      | String "d" rest =>
          match arg with
          | Some a => Itoa a +:+ Sprintf rest None
          | None => "%!d(MISSING)" +:+ Sprintf rest None
          end
      | String "%" rest => "%" +:+ Sprintf rest arg
      | _ => other_directive rest arg
      end
  | String c rest => String c (Sprintf rest arg)
  end.

(** One transport: its address, the error for a wrong one, its option *)
Definition parse_transport (address : string) (port : Z) (wrong : error) (option : transport_option)
    (parsed : list transport_option * list string) : result (list transport_option * list string) :=
  let '(options, addresses) := parsed in
  if Z.of_nat (String.length address) >? 0 then
    guard_err (negb (strictCheckStringForIntMarkup address)) wrong $
    Ok (options ++ [option], addresses ++ [Sprintf address (Some port)])
  else Ok (options, addresses).

Definition parseTransportOptions (configs : TransportConfig) (port : Z)
    : result (list transport_option * list string) :=
  parsed ← parse_transport (ListenAddress (TCP configs)) port ErrInvalidTCPAddress
             (TCPTransport (PreventPortReuse (TCP configs))) ([], []);
  parsed ← parse_transport (QUICAddress configs) port ErrInvalidQUICAddress QUICTransport parsed;
  parsed ← parse_transport (WebSocketAddress configs) port ErrInvalidWSAddress WSTransport parsed;
  parsed ← parse_transport (WebTransportAddress configs) port ErrInvalidWebTransportAddress WebTransport parsed;
  let '(options, addresses) := parsed in
  guard_err (len addresses =? 0) ErrNoTransportsDefined $
  Ok (options, addresses).

End transports.

(** ** resourceLimiter *)

Definition oneMegabyteInBytes : Z := 1024 * 1024.

(** The resource managers that the options carry *)
Inductive resource_option :=
| DefaultResourceManager
| InfiniteLimits
| ScaledLimits (memory numFD : Z).

(** [NewResourceManager] is that of libp2p, on the limits. *)
Definition CreateResourceLimiterOption (NewResourceManager : resource_option -> option error)
    (cfg : ResourceLimiterConfig) : result resource_option :=
  if decide (rl_Type cfg = DefaultAutoscaleResourceLimiter) then Ok DefaultResourceManager
  else if decide (rl_Type cfg = InfiniteResourceLimiter) then
    then_ok (NewResourceManager InfiniteLimits) $ Ok InfiniteLimits
  else if decide (rl_Type cfg = DefaultWithScaleResourceLimiter) then
    let memoryInBytes := wraps 64 (oneMegabyteInBytes * ManualSystemMemoryInMB cfg) in
    let limits := ScaledLimits memoryInBytes (ManualMaximumFD cfg) in
    then_ok (NewResourceManager limits) $ Ok limits
  else Err ErrUnknownResourceLimiterType.

(** ** The constants *)

Definition refreshPeersOnTopicInterval : Z := time_Second * 3.
Definition ttlPeersOnTopic : Z := time_Second * 10.
Definition ttlConnectionsWatcher : Z := time_Hour * 2.
Definition broadcastGoRoutines : Z := 1000.
Definition maxRetriesIfBindError : nat := 10.
Definition msgBindError : string := "address already in use".
Definition pubSubMaxMessageSize : Z := Z.shiftl 1 21.

(** The options of the pubsub *)
Inductive pubsub_option := WithMessageSignaturePolicy (policy : Z) | WithMaxMessageSize (size : Z).

(** What the construction does to the outside *)
Inductive nm_effect :=
| OpenedHost (host : PeerID)
| ClosedHost (host : PeerID)
| SetStreamHandler (protocol : string)
| NotifyMonitor
| NotifyMetric.

(** ** The messenger *)

(** The nil tests of the constructor; [None] and [false] are nil. The rating
    handler and the sync timer are only handed on. *)
Record ArgsNetworkMessenger (SK : Type) := {
  anm_Marshaller : option Marshaller;
  anm_P2pConfig : P2PConfig;
  anm_SyncTimer : bool;
  anm_PreferredPeersHolder : option peersHolder;
  anm_PeersRatingHandler : bool;
  anm_ConnectionWatcherType : string;
  anm_P2pPrivateKey : option SK;
  anm_P2pSingleSigner : bool;
  anm_P2pKeyGenerator : bool;
  anm_NetworkType : string;
  anm_Logger : bool;
}.
Arguments anm_Marshaller {SK} a.
Arguments anm_P2pConfig {SK} a.
Arguments anm_SyncTimer {SK} a.
Arguments anm_PreferredPeersHolder {SK} a.
Arguments anm_PeersRatingHandler {SK} a.
Arguments anm_ConnectionWatcherType {SK} a.
Arguments anm_P2pPrivateKey {SK} a.
Arguments anm_P2pSingleSigner {SK} a.
Arguments anm_P2pKeyGenerator {SK} a.
Arguments anm_NetworkType {SK} a.
Arguments anm_Logger {SK} a.

(** The options of [libp2p.New] that depend on the configuration *)
Record host_options (LPriv : Type) := {
  ho_ListenAddrStrings : list string;
  ho_Identity : LPriv;
  ho_resourceLimiter : resource_option;
  ho_transports : list transport_option;
}.

Section messenger.
Context {Rand LPriv LPub SK PK : Type} `{Libp2pKeys Rand LPriv LPub} `{CommonKeys SK PK}.
(** The caches of the watcher ([W]) and of the direct sender, pubsub, the
    processors, what the channels carry, the denial evaluator *)
Context {W T C PS P Q E : Type}.
Context (NewWatcherCache : Z -> W) (NewTimeCache : Z -> T) (NewCache : Z -> result C).
Context (Pretty : PeerID -> string) (Sum256 : bytes -> bytes).
Context (other_directive : string -> option Z -> string).
Context (ConvertPeerID : PeerID -> vec byte 32).

Record networkMessenger := {
  nm_p2pSigner : p2pSignerWrapper (SK := SK);
  nm_p2pHost : PeerID;   (* the id of the host *)
  nm_port : Z;
  nm_printConnectionsWatcher : ConnectionsWatcher (T := W);
  nm_networkType : string;
}.

(** What an attempt to construct the node meets: the free ports, the random
    order of the ports, the resource managers, and the host that libp2p gives. *)
Record attempt := {
  at_checkFreePort : Z -> option error;
  at_FisherYatesShuffle : list Z -> list Z;
  at_NewResourceManager : resource_option -> option error;
  at_New : host_options LPriv -> result PeerID;
}.

(** The options of the host, all that [constructNode] does before it *)
Definition hostOptions (a : attempt) (args : ArgsNetworkMessenger SK) (port : Z)
    : result (ConnectionsWatcher * host_options LPriv) :=
  let node := Node (anm_P2pConfig args) in
  connWatcher ← NewConnectionsWatcher NewWatcherCache (anm_ConnectionWatcherType args)
                  ttlConnectionsWatcher (anm_Logger args);
  p2pPrivateKey ← ConvertPrivateKeyToLibp2pPrivateKey (anm_P2pPrivateKey args);
  '(transportOptions, addresses) ← parseTransportOptions other_directive (Transports node) port;
  resourceLimiterOption ← CreateResourceLimiterOption (at_NewResourceManager a) (ResourceLimiter node);
  Ok (connWatcher,
      {| ho_ListenAddrStrings := addresses; ho_Identity := p2pPrivateKey;
         ho_resourceLimiter := resourceLimiterOption; ho_transports := transportOptions |}).

(** [None] is a panic, of [getPort]. *)
Definition constructNode (a : attempt) (args : ArgsNetworkMessenger SK)
    : option (result networkMessenger * list nm_effect) :=
  match getPort (at_FisherYatesShuffle a) (Port (Node (anm_P2pConfig args))) (at_checkFreePort a) (anm_Logger args) with
  | None => None
  | Some (Err err) => Some (Err err, [])
  | Some (Ok port) =>
      match hostOptions a args port with
      | Err err => Some (Err err, [])
      | Ok (connWatcher, options) =>
          match at_New a options with
          | Err err => Some (Err err, [])
          | Ok h =>
              let p2pSignerArgs := {|
                aps_PrivateKey := anm_P2pPrivateKey args; aps_Signer := anm_P2pSingleSigner args;
                aps_KeyGen := anm_P2pKeyGenerator args; aps_P2PKeyConverter := true |} in
              match NewP2PSignerWrapper p2pSignerArgs with
              | Err err => Some (Err err, [OpenedHost h])
              | Ok p2pSignerInstance =>
                  Some (Ok {| nm_p2pSigner := p2pSignerInstance; nm_p2pHost := h; nm_port := port;
                              nm_printConnectionsWatcher := connWatcher;
                              nm_networkType := anm_NetworkType args |}, [OpenedHost h])
              end
          end
      end
  end.

(** The loop of [constructNodeWithPortRetry], at its turn [i] of [fuel] that are
    left, [lastErr] the error of the turn before; a result without an error and
    without a node cannot be: the loop makes a turn. *)
Fixpoint retry_loop (attempts : nat -> attempt) (args : ArgsNetworkMessenger SK) (i fuel : nat)
    (lastErr : option error) : option (result (option networkMessenger) * list nm_effect) :=
  match fuel with
  | O => Some (match lastErr with Some err => Err err | None => Ok None end, [])
  | S fuel =>
      '(p2pNode, effects) ← constructNode (attempts i) args;
      match p2pNode with
      | Ok node => Some (Ok (Some node), effects)
      | Err err =>
          if negb (str_contains (error_text err) msgBindError) then Some (Err err, effects)
          else
            '(res, rest) ← retry_loop attempts args (S i) fuel (Some err);
            Some (res, effects ++ rest)
      end
  end.

Definition constructNodeWithPortRetry (attempts : nat -> attempt) (args : ArgsNetworkMessenger SK)
    : option (result (option networkMessenger) * list nm_effect) :=
  retry_loop attempts args 0 maxRetriesIfBindError None.

(** [String()] of a peer id is its base58 form. *)
Definition validateSeeders (netMes : networkMessenger) (seeders : list string) : option error :=
  let selfID := Pretty (nm_p2pHost netMes) in
  if existsb (fun seeder => str_contains seeder selfID) seeders then Some (ErrInvalidConfig : error) else None.

(** *** The components of the node *)

(** What the components are made with: [NewGossipSub] and
    [NewNumGoRoutinesThrottler] are pubsub's and drt-go-chain-core's,
    [nowNano] the clock when the direct sender is made, [directHandler] what
    the messages handler answers to direct messages. *)
Record surroundings := {
  su_NewGossipSub : PeerID -> list pubsub_option -> result PS;
  su_NewNumGoRoutinesThrottler : Z -> option error;
  su_nowNano : Z;
  su_directHandler : MessageHandler;
}.

(** [withMessageSigning] is [true]. *)
Definition createPubSub (su : surroundings) (netMes : networkMessenger) (messageSigning : bool) : result PS :=
  let optsPS := if messageSigning then [] else [WithMessageSignaturePolicy 0] in
  su_NewGossipSub su (nm_p2pHost netMes) (optsPS ++ [WithMaxMessageSize pubSubMaxMessageSize]).

(** The code gives the holder itself; here the sharder gets what the holder contains when
    it is made. Network.v, where the holder changes,
    gives the sharder its present contents at every use. *)
Definition createSharder (netMes : networkMessenger) (argsNetMes : ArgsNetworkMessenger SK) : result Sharder :=
  NewSharder ConvertPeerID {|
    asf_PeerShardResolver := Some unknownPeerShardResolver; asf_Pid := nm_p2pHost netMes;
    asf_P2pConfig := anm_P2pConfig argsNetMes;
    asf_PreferredPeersHolder := Contains <$> anm_PreferredPeersHolder argsNetMes;
    asf_Logger := anm_Logger argsNetMes |}.

Definition createDiscoverers (netMes : networkMessenger) (p2pConfig : P2PConfig) (logger : bool) (sharder : Sharder)
    : result (list PeerDiscoverer) :=
  NewPeerDiscoverers {|
    apd_Context := true; apd_Host := true; apd_Sharder := Some (KddSharder sharder);
    apd_P2pConfig := p2pConfig; apd_ConnectionsWatcher := true; apd_NetworkType := nm_networkType netMes;
    apd_Logger := logger |}.

(** The sharder is shared: the discoverers have given it the seeders. *)
Definition seeded (sharder : Sharder) (peerDiscoverers : list PeerDiscoverer) : Sharder :=
  fold_left (fun sharder pd =>
    match pd with
    | NilDiscoverer => sharder
    | Continuous d => ckdd_sharder d
    | Optimized d => okdd_sharder d
    end) peerDiscoverers sharder.

(** All the discoverers have [ReconnectToNetwork] and all the sharders are
    sharders of the connection monitor, so that the type assertions hold. *)
Definition createConnectionMonitor (p2pConfig : P2PConfig) (sharderInstance : Sharder)
    (preferredPeersHolder : option peersHolder) (peerDiscoverers : list PeerDiscoverer) (logger : bool)
    : result (libp2pConnectionMonitorSimple E * list cm_effect) :=
  NewLibp2pConnectionMonitorSimple {|
    acm_Reconnecters := (fun _ => true) <$> peerDiscoverers;
    acm_ThresholdMinConnectedPeers := ThresholdMinConnectedPeers (Node p2pConfig);
    acm_Sharder := Some sharderInstance; acm_PreferredPeersHolder := preferredPeersHolder;
    acm_ConnectionsWatcher := true; acm_Network := true; acm_Logger := logger |}.

Abbreviation denialEvaluator := (disabledPeerDenialEvaluator + E)%type.

Record components := {
  co_pubSub : PS;
  co_sharder : Sharder;
  co_peerDiscoverers : list PeerDiscoverer;
  co_connMonitor : libp2pConnectionMonitorSimple E;
  co_directSender : directSender T C;
  co_MessageHandler : messagesHandler P PS (outgoingChannelLoadBalancer Q) denialEvaluator;
  co_connectionsMetric : connectionsMetric;
  co_ConnectionsHandler : connectionsHandler E;
}.

(** The result, and what was done to the host before it *)
Definition addComponentsToNode (su : surroundings) (args : ArgsNetworkMessenger SK) (p2pNode : networkMessenger)
    (messageSigning : bool) : result components * list nm_effect :=
  let logger := anm_Logger args in
  let discovered :=
    pubSub ← createPubSub su p2pNode messageSigning;
    peersOnChannelInstance ← newPeersOnChannel true refreshPeersOnTopicInterval ttlPeersOnTopic logger;
    sharder ← createSharder p2pNode args;
    peerDiscoverers ← createDiscoverers p2pNode (anm_P2pConfig args) logger sharder;
    Ok (pubSub, peersOnChannelInstance, seeded sharder peerDiscoverers, peerDiscoverers) in
  match discovered with
  | Err err => (Err err, [])
  | Ok (pubSub, peersOnChannelInstance, sharder, peerDiscoverers) =>
      match createConnectionMonitor (anm_P2pConfig args) sharder (anm_PreferredPeersHolder args) peerDiscoverers logger with
      | Err err => (Err err, [])
      | Ok (connMonitor, _) =>
          match NewDirectSender NewTimeCache NewCache true true
                  (Some (psw_SignerVerifier Sum256 (nm_p2pSigner p2pNode))) (anm_Marshaller args) logger
                  (su_nowNano su) with
          | Err err => (Err err, [NotifyMonitor])
          | Ok (ds, _) =>
              let effects := [NotifyMonitor; SetStreamHandler DirectSendID] in
              let '(registered, ds') := RegisterDirectMessageProcessor ds (Some (su_directHandler su)) in
              let handler :=
                then_ok (su_NewNumGoRoutinesThrottler su broadcastGoRoutines) $
                oclb ← NewOutgoingChannelLoadBalancer logger;
                NewMessagesHandler {|
                  amh_PubSub := Some pubSub; amh_DirectSender := true; amh_Throttler := true;
                  amh_OutgoingCLB := Some oclb; amh_Marshaller := match anm_Marshaller args with Some _ => true | None => false end;
                  amh_ConnMonitor := Some (peerDenialEvaluator connMonitor);
                  amh_PeersRatingHandler := anm_PeersRatingHandler args; amh_SyncTimer := anm_SyncTimer args;
                  amh_PeerID := nm_p2pHost p2pNode; amh_Logger := logger |} registered in
              match handler with
              | Err err => (Err err, effects)
              | Ok mh =>
                  let connectionsMetric := NewConnectionsMetric in
                  let effects := effects ++ [NotifyMetric] in
                  match NewConnectionsHandler {|
                          ach_P2pHost := true; ach_PeersOnChannel := Some peersOnChannelInstance;
                          ach_PeerShardResolver := Some unknownPeerShardResolver; ach_Sharder := Some sharder;
                          ach_PreferredPeersHolder := anm_PreferredPeersHolder args;
                          ach_ConnMonitor := Some connMonitor;
                          ach_PeerDiscoverers := (fun _ => true) <$> peerDiscoverers;
                          ach_PeerID := nm_p2pHost p2pNode; ach_ConnectionsMetric := true;
                          ach_Logger := logger;
                          ach_ProtocolIDs := ProtocolIDs (KadDhtPeerDiscovery (anm_P2pConfig args)) |} with
                  | Err err => (Err err, effects)
                  | Ok ch =>
                      (Ok {| co_pubSub := pubSub; co_sharder := sharder; co_peerDiscoverers := peerDiscoverers;
                             co_connMonitor := connMonitor; co_directSender := ds'; co_MessageHandler := mh;
                             co_connectionsMetric := connectionsMetric; co_ConnectionsHandler := ch |}, effects)
                  end
              end
          end
      end
  end.

(** *** The constructor *)

(** The guards in their order; the last one is the logger's. *)
Definition nm_checkArgs (args : ArgsNetworkMessenger SK) : option error :=
  let is_nil {A} (a : option A) := match a with None => true | Some _ => false end in
  guard_opt (is_nil (anm_Marshaller args)) ErrNilMarshaller $
  guard_opt (negb (anm_SyncTimer args)) ErrNilSyncTimer $
  guard_opt (is_nil (anm_PreferredPeersHolder args)) ErrNilPreferredPeersHolder $
  guard_opt (negb (anm_PeersRatingHandler args)) ErrNilPeersRatingHandler $
  guard_opt (is_nil (anm_P2pPrivateKey args)) ErrNilP2pPrivateKey $
  guard_opt (negb (anm_P2pSingleSigner args)) ErrNilP2pSingleSigner $
  guard_opt (negb (anm_P2pKeyGenerator args)) ErrNilP2pKeyGenerator $
  guard_opt (negb (anm_Logger args)) ErrNilLogger None.

(** [None] is a panic: of the choice of the port, or of the use of a nil node. *)
Definition newNetworkMessenger (attempts : nat -> attempt) (su : surroundings)
    (args : ArgsNetworkMessenger SK) (messageSigning : bool)
    : option (result (networkMessenger * components) * list nm_effect) :=
  match nm_checkArgs args with
  | Some err => Some (Err err, [])
  | None =>
      '(constructed, effects) ← constructNodeWithPortRetry attempts args;
      match constructed with
      | Err err => Some (Err err, effects)
      | Ok None => None
      | Ok (Some p2pNode) =>
          match validateSeeders p2pNode (InitialPeerList (KadDhtPeerDiscovery (anm_P2pConfig args))) with
          | Some err => Some (Err err, effects)
          | None =>
              match addComponentsToNode su args p2pNode messageSigning with
              | (Err err, added) => Some (Err err, effects ++ added ++ [ClosedHost (nm_p2pHost p2pNode)])
              | (Ok c, added) => Some (Ok (p2pNode, c), effects ++ added)
              end
          end
      end
  end.

Definition NewNetworkMessenger (attempts : nat -> attempt) (su : surroundings)
    (args : ArgsNetworkMessenger SK) : option (result (networkMessenger * components) * list nm_effect) :=
  newNetworkMessenger attempts su args true.

(** *** The constructors for tests *)

(** mockMessenger.go: the host is one that the mock net generates; [None] is the
    nil mock net. The watcher logs to a stub, the network has no type and no port,
    and the arguments are not checked first. *)
Definition NewMockMessenger (su : surroundings) (args : ArgsNetworkMessenger SK) (mockNet : option (result PeerID))
    : result (networkMessenger * components) * list nm_effect :=
  match mockNet with
  | None => (Err ErrNilMockNet, [])
  | Some (Err err) => (Err err, [])
  | Some (Ok h) =>
      let p2pSignerArgs := {|
        aps_PrivateKey := anm_P2pPrivateKey args; aps_Signer := anm_P2pSingleSigner args;
        aps_KeyGen := anm_P2pKeyGenerator args; aps_P2PKeyConverter := true |} in
      match NewP2PSignerWrapper p2pSignerArgs with
      | Err err => (Err err, [OpenedHost h])
      | Ok signer =>
          match NewConnectionsWatcher NewWatcherCache (anm_ConnectionWatcherType args) ttlConnectionsWatcher true with
          | Err err => (Err err, [OpenedHost h])
          | Ok watcher =>
              let p2pNode := {|
                nm_p2pSigner := signer; nm_p2pHost := h; nm_port := 0;
                nm_printConnectionsWatcher := watcher; nm_networkType := "" |} in
              match addComponentsToNode su args p2pNode false with
              | (Err err, added) => (Err err, OpenedHost h :: added)
              | (Ok c, added) => (Ok (p2pNode, c), OpenedHost h :: added)
              end
          end
      end
  end.

(** testNetMessenger.go: a messenger of which the connections can be closed *)
Record testNetMessenger := { tnm_networkMessenger : networkMessenger * components }.

Definition NewTestNetMessenger (attempts : nat -> attempt) (su : surroundings) (args : ArgsNetworkMessenger SK)
    : option (result testNetMessenger * list nm_effect) :=
  '(netMessenger, effects) ← NewNetworkMessenger attempts su args;
  Some (netMessenger ← netMessenger; Ok {| tnm_networkMessenger := netMessenger |}, effects).

(** [ClosePeer] of the network of the host answers. *)
Definition tnm_ClosePeer (Network_ClosePeer : PeerID -> PeerID -> option error) (netMes : testNetMessenger)
    (pid : PeerID) : option error :=
  Network_ClosePeer (nm_p2pHost (tnm_networkMessenger netMes).1) pid.

(** *** Closing *)

(** The parts, in the order in which they are closed *)
Inductive part := PMessageHandler | PConnectionsHandler | PHost | PConnectionsWatcher | PContext | PPeerstore.

(** What the closing of the parts answers; [cancelFunc] answers nothing. *)
Record close_answers := {
  errMH : option error;
  errCH : option error;
  errHost : option error;
  errPeerStore : option error;
}.

Definition nm_Close (ans : close_answers) (netMes : networkMessenger)
    : option error * networkMessenger * list part :=
  let err := None in
  let err := match errMH ans with Some e => Some e | None => err end in
  let err := match errCH ans with Some e => Some e | None => err end in
  let err := match errHost ans with Some e => Some e | None => err end in
  let '(errConnWatcher, watcher) := cw_Close (nm_printConnectionsWatcher netMes) in
  let err := match errConnWatcher with Some e => Some e | None => err end in
  let err := match errPeerStore ans with Some e => Some e | None => err end in
  (err,
   {| nm_p2pSigner := nm_p2pSigner netMes; nm_p2pHost := nm_p2pHost netMes; nm_port := nm_port netMes;
      nm_printConnectionsWatcher := watcher; nm_networkType := nm_networkType netMes |},
   [PMessageHandler; PConnectionsHandler; PHost; PConnectionsWatcher; PContext; PPeerstore]).

Definition nm_ID (netMes : networkMessenger) : PeerID := nm_p2pHost netMes.
Definition nm_Port (netMes : networkMessenger) : Z := nm_port netMes.

End messenger.

(** ** The addresses *)

(** An address with the port in the place of its only markup, and no other
    directive *)
Definition no_percent (s : string) : Prop := str_contains s "%" = false.

Lemma no_percent_cons c s : no_percent (String c s) -> c <> "%"%char /\ no_percent s.
Proof.
  unfold no_percent. cbn [str_contains String.prefix]. destruct (ascii_dec "%" c) as [<-|Hc].
  - destruct s; done.
  - simpl. intros H. split; [congruence|done].
Qed.

Lemma count_markup_cons c s : c <> "%"%char -> count_markup (String c s) = count_markup s.
Proof. intros Hc. destruct c as [[] [] [] [] [] [] [] []]; done. Qed.

Lemma count_markup_plain s : no_percent s -> count_markup s = 0.
Proof.
  induction s as [|c s IH]; [done|]. intros [Hc Hs]%no_percent_cons. rewrite count_markup_cons by done. by apply IH.
Qed.

Lemma count_markup_one pre post :
  no_percent pre -> no_percent post -> count_markup (pre +:+ "%d" +:+ post) = 1.
Proof.
  intros Hpre Hpost. induction pre as [|c pre IH].
  - change (1 + count_markup post = 1). rewrite count_markup_plain by done. lia.
  - apply no_percent_cons in Hpre as [Hc Hpre].
    change (String c pre +:+ "%d" +:+ post) with (String c (pre +:+ "%d" +:+ post)).
    rewrite count_markup_cons by done. by apply IH.
Qed.

Section addresses.
Context (other_directive : string -> option Z -> string).

Lemma Sprintf_cons c s arg :
  c <> "%"%char -> Sprintf other_directive (String c s) arg = String c (Sprintf other_directive s arg).
Proof. intros Hc. destruct c as [[] [] [] [] [] [] [] []]; done. Qed.

Lemma Sprintf_plain s : no_percent s -> Sprintf other_directive s None = s.
Proof.
  induction s as [|c s IH]; [done|]. intros [Hc Hs]%no_percent_cons. rewrite Sprintf_cons by done. by rewrite IH.
Qed.

Lemma Sprintf_one pre post port :
  no_percent pre -> no_percent post ->
  Sprintf other_directive (pre +:+ "%d" +:+ post) (Some port) = pre +:+ Itoa port +:+ post.
Proof.
  intros Hpre Hpost. induction pre as [|c pre IH].
  - change (Itoa port +:+ Sprintf other_directive post None = Itoa port +:+ post). by rewrite Sprintf_plain.
  - apply no_percent_cons in Hpre as [Hc Hpre].
    change (String c pre +:+ "%d" +:+ post) with (String c (pre +:+ "%d" +:+ post)).
    rewrite Sprintf_cons by done. by rewrite IH.
Qed.

(** The transports in their order: address, error for a wrong one, option *)
Definition transport_entries (configs : TransportConfig) : list (string * error * transport_option) :=
  [(ListenAddress (TCP configs), (ErrInvalidTCPAddress : error), TCPTransport (PreventPortReuse (TCP configs)));
   (QUICAddress configs, (ErrInvalidQUICAddress : error), QUICTransport);
   (WebSocketAddress configs, (ErrInvalidWSAddress : error), WSTransport);
   (WebTransportAddress configs, (ErrInvalidWebTransportAddress : error), WebTransport)].

Definition enabled_transports (configs : TransportConfig) : list (string * error * transport_option) :=
  filter (fun e => e.1.1 <> "") (transport_entries configs).

Definition well_marked (e : string * error * transport_option) : bool := strictCheckStringForIntMarkup e.1.1.

(** The transports, one after the other *)
Fixpoint parse_entries (port : Z) (entries : list (string * error * transport_option))
    (parsed : list transport_option * list string) : result (list transport_option * list string) :=
  match entries with
  | [] => Ok parsed
  | (address, wrong, option) :: entries =>
      parsed ← parse_transport other_directive address port wrong option parsed;
      parse_entries port entries parsed
  end.

Lemma parse_entries_spec port entries parsed :
  parse_entries port entries parsed =
  let enabled := filter (fun e => e.1.1 <> "") entries in
  match List.find (fun e => negb (well_marked e)) enabled with
  | Some e => Err e.1.2
  | None => Ok (parsed.1 ++ (snd <$> enabled),
                parsed.2 ++ ((fun e => Sprintf other_directive e.1.1 (Some port)) <$> enabled))
  end.
Proof.
  revert parsed. induction entries as [|[[address wrong] option] entries IH]; intros [os addrs].
  { simpl. by rewrite !app_nil_r. }
  cbn [parse_entries]. unfold parse_transport. cbv zeta. rewrite filter_cons. cbn [fst].
  destruct address as [|c address].
  - rewrite decide_False by auto. apply IH.
  - rewrite decide_True by done. replace (Z.of_nat (String.length (String c address)) >? 0) with true by done.
    cbn [List.find]. unfold well_marked at 1. cbn [fst].
    destruct (strictCheckStringForIntMarkup (String c address)); [|done].
    cbn [negb guard_err mbind result_bind]. rewrite IH. cbv zeta. destruct (List.find _ _); [done|].
    rewrite !fmap_cons. cbn [fst snd]. by rewrite <- !app_assoc.
Qed.

Lemma parseTransportOptions_entries configs port :
  parseTransportOptions other_directive configs port =
  parsed ← parse_entries port (transport_entries configs) ([], []);
  guard_err (len parsed.2 =? 0) ErrNoTransportsDefined $ Ok parsed.
Proof.
  unfold parseTransportOptions, transport_entries. cbn [parse_entries].
  repeat (destruct (parse_transport _ _ _ _ _ _); cbn [mbind result_bind]; [|done]).
  by destruct a2.
Qed.

(** The host listens on the enabled transports only, in their order, each at
    its address with the port in the place of its markup; with none enabled, or
    when an address has not exactly one markup, the error tells which. *)
Theorem parseTransportOptions_spec configs port :
  let enabled := enabled_transports configs in
  match parseTransportOptions other_directive configs port with
  | Ok (options, addresses) =>
      enabled <> [] /\ Forall (fun e => well_marked e = true) enabled
      /\ options = snd <$> enabled
      /\ length addresses = length enabled
      /\ (forall i pre post wrong option, no_percent pre -> no_percent post ->
            enabled !! i = Some (pre +:+ "%d" +:+ post, wrong, option) ->
            addresses !! i = Some (pre +:+ Itoa port +:+ post))
  | Err err =>
      (enabled = [] /\ err = ErrNoTransportsDefined)
      \/ (exists i e, enabled !! i = Some e /\ well_marked e = false /\ err = e.1.2
            /\ forall j e', (j < i)%nat -> enabled !! j = Some e' -> well_marked e' = true)
  end.
Proof.
  intros enabled. rewrite parseTransportOptions_entries, parse_entries_spec. cbv zeta.
  change (filter _ (transport_entries configs)) with enabled. clearbody enabled.
  destruct (List.find (fun e => negb (well_marked e)) enabled) as [e|] eqn:Hf; cbn [mbind result_bind fst snd app].
  - right. clear -Hf. induction enabled as [|e' enabled IH]; [done|]. cbn [List.find] in Hf.
    destruct (well_marked e') eqn:Hw; simpl in Hf.
    + destruct (IH Hf) as (i & e1 & Hi & Hw1 & He & Hall). exists (S i), e1. split_and!; [done..|].
      intros [|j] e2 Hj; simpl; [by intros [= <-]|]. apply Hall. lia.
    + injection Hf as ->. exists 0%nat, e. split_and!; [done..|]. intros j e2 Hj. lia.
  - destruct enabled as [|e enabled]; [by left|]. unfold guard_err.
    replace (len _ =? 0) with false by (unfold len; simpl; lia). split_and!; [done| |done|by rewrite length_fmap|].
    + apply Forall_forall. intros e1 He1. apply list_elem_of_In in He1.
      pose proof (List.find_none _ _ Hf e1 He1) as Hn. by apply negb_false_iff in Hn.
    + intros i pre post wrong option Hpre Hpost Hi. rewrite list_lookup_fmap, Hi. simpl.
      by rewrite Sprintf_one.
Qed.

(** The markup is looked for anywhere: an address with an escaped percent sign before
    a [d] passes, and the port is not put in it. *)
Lemma escaped_markup :
  strictCheckStringForIntMarkup "/ip4/0.0.0.0/tcp/%%d" = true
  /\ Sprintf other_directive "/ip4/0.0.0.0/tcp/%%d" (Some 37373)
     = "/ip4/0.0.0.0/tcp/%d%!(EXTRA int=37373)".
Proof. by split. Qed.
End addresses.

(** ** The retries *)

Section theorems.
Context {Rand LPriv LPub SK PK : Type} `{Libp2pKeys Rand LPriv LPub} `{CommonKeys SK PK}.
Context {W : Type} (NewWatcherCache : Z -> W).
Context (other_directive : string -> option Z -> string).

Abbreviation construct := (constructNode NewWatcherCache other_directive).

(** The attempt failed for its port was taken. *)
Definition bind_error (a : attempt (LPriv := LPriv)) (args : ArgsNetworkMessenger SK) : Prop :=
  exists err effects, construct a args = Some (Err err, effects)
    /\ str_contains (error_text err) msgBindError = true.

(** How the retries end, after the attempts [i] to [n] *)
Definition retried (attempts : nat -> attempt (LPriv := LPriv)) (args : ArgsNetworkMessenger SK) (i fuel : nat)
    (outcome : option (result (option networkMessenger) * list nm_effect)) : Prop :=
  exists n, (i <= n < i + fuel)%nat
  /\ (forall j, (i <= j < n)%nat -> bind_error (attempts j) args)
  /\ match outcome with
     | None => construct (attempts n) args = None
     | Some (Ok None, _) => False
     | Some (Ok (Some node), _) => exists effects, construct (attempts n) args = Some (Ok node, effects)
     | Some (Err err, _) =>
         exists effects, construct (attempts n) args = Some (Err err, effects)
         /\ (str_contains (error_text err) msgBindError = true -> n = (i + fuel - 1)%nat)
     end.

Lemma retry_loop_spec attempts args i fuel lastErr :
  retried attempts args i (S fuel) (retry_loop NewWatcherCache other_directive attempts args i (S fuel) lastErr).
Proof.
  revert i lastErr. induction fuel as [|fuel IH]; intros i lastErr.
  - cbn [retry_loop]. exists i. split; [lia|]. split; [intros; lia|].
    destruct (construct (attempts i) args) as [[[node|err] effects]|] eqn:Hc; cbn [mbind option_bind]; [by exists effects| |done].
    destruct (str_contains _ _) eqn:Hb; cbn [negb mbind option_bind]; exists effects; (split; [done|]); intros; lia || congruence.
  - remember (S fuel) as f. cbn [retry_loop].
    destruct (construct (attempts i) args) as [[[node|err] effects]|] eqn:Hc; cbn [mbind option_bind].
    + exists i. split; [lia|]. split; [intros; lia|]. by exists effects.
    + destruct (str_contains (error_text err) msgBindError) eqn:Hb; cbn [negb].
      * destruct (IH (S i) (Some err)) as (n & Hn & Hbefore & Hout). exists n. split; [lia|]. split.
        { intros j Hj. destruct (decide (j = i)) as [->|]; [by exists err, effects|]. apply Hbefore. lia. }
        destruct (retry_loop _ _ _ _ _ _ _) as [[[[node|]|err'] rest]|]; cbn [mbind option_bind]; try done.
        destruct Hout as (effects' & Ho & Hlast). exists effects'. split; [done|]. intros Hm. specialize (Hlast Hm). lia.
      * exists i. split; [lia|]. split; [intros; lia|]. exists effects. split; [done|]. congruence.
    + exists i. split; [lia|]. by split; [intros; lia|].
Qed.

(** The node is constructed at most ten times: once more after each error of
    a port that was taken in the meantime, and not after any other end of an attempt.
    What the attempts end with is the outcome, and the constructor never goes on
    without a node. *)
Theorem constructNodeWithPortRetry_spec attempts args :
  retried attempts args 0 10 (constructNodeWithPortRetry NewWatcherCache other_directive attempts args).
Proof. apply retry_loop_spec. Qed.

(** *** The hosts that stay open *)

Definition open_step (hosts : list PeerID) (e : nm_effect) : list PeerID :=
  match e with
  | OpenedHost h => h :: hosts
  | ClosedHost h => filter (fun h' => h' <> h) hosts
  | _ => hosts
  end.

Definition open_hosts (effects : list nm_effect) : list PeerID := fold_left open_step effects [].

Lemma open_hosts_snoc effects e : open_hosts (effects ++ [e]) = open_step (open_hosts effects) e.
Proof. unfold open_hosts. by rewrite fold_left_app. Qed.

Lemma checked_args (args : ArgsNetworkMessenger SK) :
  nm_checkArgs args = None ->
  is_Some (anm_Marshaller args) /\ anm_SyncTimer args = true /\ is_Some (anm_PreferredPeersHolder args)
  /\ anm_PeersRatingHandler args = true /\ is_Some (anm_P2pPrivateKey args)
  /\ anm_P2pSingleSigner args = true /\ anm_P2pKeyGenerator args = true /\ anm_Logger args = true.
Proof.
  unfold nm_checkArgs, guard_opt. destruct (anm_Marshaller args), (anm_SyncTimer args),
    (anm_PreferredPeersHolder args), (anm_PeersRatingHandler args), (anm_P2pPrivateKey args),
    (anm_P2pSingleSigner args), (anm_P2pKeyGenerator args), (anm_Logger args); try done; intros _;
    split_and!; done.
Qed.

(** With checked arguments an attempt opens a host exactly when it succeeds. *)
Lemma constructNode_hosts a (args : ArgsNetworkMessenger SK) res effects :
  nm_checkArgs args = None -> construct a args = Some (res, effects) ->
  match res with
  | Ok node =>
      effects = [OpenedHost (nm_p2pHost node)]
      /\ anm_P2pPrivateKey args = Some (privateKey (nm_p2pSigner node))
      /\ nm_networkType node = anm_NetworkType args
      /\ getPort (at_FisherYatesShuffle a) (Port (Node (anm_P2pConfig args))) (at_checkFreePort a) true = Some (Ok (nm_port node))
  | Err _ => effects = []
  end.
Proof.
  intros Hck Hc. destruct (checked_args args Hck) as (_ & _ & _ & _ & [sk Hsk] & Hs & Hk & Hl). revert Hc.
  unfold constructNode. rewrite Hl. destruct (getPort _ _ _ _) as [[port|err]|] eqn:Hp; [| |done].
  2: { by intros [= <- <-]. }
  destruct (hostOptions _ _ _ _ _) as [[cw options]|err]; [|by intros [= <- <-]].
  destruct (at_New a options) as [h|err]; [|by intros [= <- <-]].
  unfold NewP2PSignerWrapper, psw_checkArgs. cbn [aps_PrivateKey aps_Signer aps_KeyGen aps_P2PKeyConverter].
  rewrite Hsk, Hs, Hk. cbn. by intros [= <- <-].
Qed.

Lemma retry_hosts attempts (args : ArgsNetworkMessenger SK) i fuel lastErr res effects :
  nm_checkArgs args = None ->
  retry_loop NewWatcherCache other_directive attempts args i fuel lastErr = Some (res, effects) ->
  match res with
  | Ok (Some node) =>
      effects = [OpenedHost (nm_p2pHost node)]
      /\ anm_P2pPrivateKey args = Some (privateKey (nm_p2pSigner node))
      /\ nm_networkType node = anm_NetworkType args
  | _ => effects = []
  end.
Proof.
  intros Hck. revert i lastErr res effects. induction fuel as [|fuel IH]; intros i lastErr res effects; cbn [retry_loop].
  { intros [= <- <-]. by destruct lastErr. }
  destruct (construct (attempts i) args) as [[r eff]|] eqn:Hc; [|done]. cbn [mbind option_bind].
  pose proof (constructNode_hosts _ _ _ _ Hck Hc) as Hh. destruct r as [node|err].
  { intros [= <- <-]. naive_solver. }
  subst eff. destruct (negb _); [by intros [= <- <-]|].
  destruct (retry_loop _ _ _ _ _ _ _) as [[r rest]|] eqn:Hr; [|done]. intros [= <- <-]. by eapply IH.
Qed.
End theorems.

(** ** The components *)

Section wiring.
Context {Rand LPriv LPub SK PK : Type} `{Libp2pKeys Rand LPriv LPub} `{CommonKeys SK PK}.
Context {W T C PS P Q E : Type}.
Context (NewWatcherCache : Z -> W) (NewTimeCache : Z -> T) (NewCache : Z -> result C).
Context (Pretty : PeerID -> string) (Sum256 : bytes -> bytes).
Context (other_directive : string -> option Z -> string).
Context (ConvertPeerID : PeerID -> vec byte 32).

Abbreviation add_components :=
  (addComponentsToNode (P := P) (Q := Q) (E := E) NewTimeCache NewCache Sum256 ConvertPeerID).
Abbreviation new_messenger :=
  (newNetworkMessenger (P := P) (Q := Q) (E := E) NewWatcherCache NewTimeCache NewCache Pretty Sum256 other_directive ConvertPeerID).

(** None of the effects of the wiring opens or closes a host. *)
Lemma added_hosts (su : surroundings (PS := PS)) (args : ArgsNetworkMessenger SK)
    (node : networkMessenger (SK := SK) (W := W)) signing res added hosts :
  add_components su args node signing = (res, added) ->
  fold_left open_step added hosts = hosts.
Proof.
  unfold addComponentsToNode. cbv zeta.
  destruct (_ ≫= _) as [[[[ps poc] sharder] pds]|err]; [|by intros [= <- <-]].
  destruct (createConnectionMonitor _ _ _ _ _) as [[cm ceff]|err]; [|by intros [= <- <-]].
  destruct (NewDirectSender _ _ _ _ _ _ _ _) as [[ds deff]|err]; [|by intros [= <- <-]].
  destruct (RegisterDirectMessageProcessor _ _) as [registered ds'].
  destruct (then_ok _ _) as [mh|err]; [|by intros [= <- <-]].
  destruct (NewConnectionsHandler _) as [ch|err]; by intros [= <- <-].
Qed.

(** C34: a messenger that is returned has its one host open. After an error no host
    stays open, but for one: when the node finds itself in the list of the seeders,
    the host it has just opened is never closed. *)
Theorem newNetworkMessenger_hosts attempts (su : surroundings (PS := PS)) (args : ArgsNetworkMessenger SK) signing res effects :
  new_messenger attempts su args signing = Some (res, effects) ->
  match res with
  | Ok (node, _) => open_hosts effects = [nm_p2pHost node]
  | Err err =>
      open_hosts effects = []
      \/ exists h seeder, open_hosts effects = [h] /\ err = ErrInvalidConfig
           /\ seeder ∈ InitialPeerList (KadDhtPeerDiscovery (anm_P2pConfig args))
           /\ str_contains seeder (Pretty h) = true
  end.
Proof.
  unfold newNetworkMessenger. destruct (nm_checkArgs args) eqn:Hck; [intros [= <- <-]; by left|].
  destruct (constructNodeWithPortRetry _ _ _ _) as [[r eff]|] eqn:Hr; [|done]. cbn [mbind option_bind].
  pose proof (retry_hosts _ _ _ _ _ _ _ _ _ Hck Hr) as Hh.
  destruct r as [[node|]|err]; [|done|intros [= <- <-]; subst; by left]. destruct Hh as (-> & _).
  unfold validateSeeders. destruct (existsb _ _) eqn:Hv.
  { intros [= <- <-]. right. apply existsb_exists in Hv as (seeder & Hin & Hc).
    exists (nm_p2pHost node), seeder. split_and!; [done|done|by apply list_elem_of_In|done]. }
  destruct (addComponentsToNode _ _ _ _ _ _ _ _) as [r added] eqn:Ha. pose proof (added_hosts _ _ _ _ _ _ [nm_p2pHost node] Ha) as Had.
  destruct r as [c|err]; intros [= <- <-].
  - exact Had.
  - left. change (fold_left open_step (added ++ [ClosedHost (nm_p2pHost node)]) [nm_p2pHost node] = []).
    rewrite fold_left_app, Had. cbn [fold_left open_step].
    rewrite filter_cons, decide_False; [done|]. intros Hn. by apply Hn.
Qed.

(** *** The wiring *)

(** A discoverer of the configuration for a protocol, with the sharder it was given *)
Definition discovers (cfg : P2PConfig) (networkType : string) (sharder : Sharder) (protocolID : string)
    (pd : PeerDiscoverer) : Prop :=
  let kad := KadDhtPeerDiscovery cfg in
  match pd with
  | NilDiscoverer => False
  | Continuous d =>
      kad_Type kad = "legacy" /\ ckdd_sharder d = sharder /\ ckdd_protocolID d = protocolID
      /\ ckdd_initialPeersList d = InitialPeerList kad /\ ckdd_networkType d = networkType
  | Optimized d =>
      kad_Type kad = "optimized" /\ okdd_sharder d = sharder /\ okdd_protocolID d = protocolID
      /\ okdd_initialPeersList d = InitialPeerList kad /\ okdd_networkType d = networkType
      /\ hwcm_sharder (okdd_hostConnManagement d) = sharder
  end.

(** The seeders of a shared sharder after the discoverers were made *)
Lemma discoverer_sharder args protocolID pd sharder :
  apd_Sharder args = Some (KddSharder sharder) ->
  createKadDhtPeerDiscoverer args protocolID = Ok pd ->
  discovers (apd_P2pConfig args) (apd_NetworkType args)
    (sh_SetSeeders sharder (InitialPeerList (KadDhtPeerDiscovery (apd_P2pConfig args)))) protocolID pd.
Proof.
  intros Hs. unfold createKadDhtPeerDiscoverer. case_decide; [|done]. unfold createKadDhtDiscoverer.
  set (arg := Build_ArgKadDht _ _ _ _ _ _ _ _ _ _ _ _).
  assert (Hp : forall s, prepareArguments arg = Ok s -> s = sharder).
  { intros s Ha. pose proof (prepareArguments_spec arg) as [Hsh _]. rewrite Ha in Hsh. cbn in Hsh. congruence. }
  case_decide as Hk; [|case_decide as Hk'; [|done]].
  - unfold NewContinuousKadDhtDiscoverer. destruct (prepareArguments arg) as [s|err]; [|done]. cbn.
    rewrite (Hp s eq_refl). intros [= <-]. by split_and!.
  - unfold NewOptimizedKadDhtDiscoverer. destruct (prepareArguments arg) as [s|err]; [|done]. cbn [mbind result_bind].
    unfold guard_err at 1. destruct (_ <? _); [done|]. unfold NewHostWithConnectionManagement.
    cbn [ahc_ConnectableHost ahc_Sharder ahc_ConnectionsWatcher].
    destruct (guard_err _ _ _) as [hcm|err] eqn:Hh; [|done]. apply guard_err_Ok in Hh as [_ Hh].
    apply guard_err_Ok in Hh as [_ [= <-]]. cbn. rewrite (Hp s eq_refl). intros [= <-]. by split_and!.
Qed.

Lemma discovers_seeded cfg networkType sharder protocolID pd s :
  discovers cfg networkType sharder protocolID pd -> seeded s [pd] = sharder.
Proof. destruct pd; [done|by intros (_ & ? & _)..]. Qed.

Lemma seeded_cons s pd pds : seeded s (pd :: pds) = seeded (seeded s [pd]) pds.
Proof. done. Qed.

Lemma discover_all_seeded cfg networkType sharder ids pds s :
  Forall2 (discovers cfg networkType sharder) ids pds -> pds <> [] -> seeded s pds = sharder.
Proof.
  intros Hall. revert s. induction Hall as [|id pd ids pds Hpd Hall IH]; intros s Hne; [done|].
  rewrite seeded_cons. destruct (decide (pds = [])) as [->|Hne']; [by eapply discovers_seeded|by apply IH].
Qed.

Lemma createAll_discovers args ids pds sharder :
  apd_Sharder args = Some (KddSharder sharder) -> createAll args ids = Ok pds ->
  Forall2 (discovers (apd_P2pConfig args) (apd_NetworkType args)
    (sh_SetSeeders sharder (InitialPeerList (KadDhtPeerDiscovery (apd_P2pConfig args))))) ids pds.
Proof.
  intros Hs. revert pds. induction ids as [|id ids IH]; intros pds; cbn [createAll]; [by intros [= <-]|].
  intros Hc. apply bind_Ok in Hc as (pd & Hpd & Hc). apply bind_Ok in Hc as (pds' & Hpds & [= <-]).
  constructor; [by apply discoverer_sharder|by apply IH].
Qed.

Lemma createDiscoverers_seeded (node : networkMessenger (SK := SK) (W := W)) cfg logger sharder pds :
  createDiscoverers node cfg logger sharder = Ok pds ->
  seeded sharder pds =
    (if Enabled (KadDhtPeerDiscovery cfg)
     then sh_SetSeeders sharder (InitialPeerList (KadDhtPeerDiscovery cfg)) else sharder)
  /\ (if Enabled (KadDhtPeerDiscovery cfg)
      then Forall2 (discovers cfg (nm_networkType node) (seeded sharder pds)) (ProtocolIDs (KadDhtPeerDiscovery cfg)) pds
      else pds = [NilDiscoverer]).
Proof.
  unfold createDiscoverers, NewPeerDiscoverers. set (args := Build_ArgsPeerDiscoverer _ _ _ _ _ _ _).
  intros [_ Hc]%guard_err_Ok. change (apd_P2pConfig args) with cfg in Hc.
  destruct (Enabled (KadDhtPeerDiscovery cfg)) eqn:He; [|by injection Hc as <-].
  apply guard_err_Ok in Hc as [Hids Hc]. apply (createAll_discovers args _ _ sharder eq_refl) in Hc.
  cbn [apd_P2pConfig apd_NetworkType args] in Hc.
  assert (Hseed : seeded sharder pds = sh_SetSeeders sharder (InitialPeerList (KadDhtPeerDiscovery cfg))).
  { eapply discover_all_seeded; [exact Hc|]. intros ->. apply Forall2_nil_inv_r in Hc. by rewrite Hc in Hids. }
  by rewrite Hseed.
Qed.

(** The sharder of a node, kind by kind *)
Definition sharder_fits (args : ArgsNetworkMessenger SK) (node : networkMessenger (SK := SK) (W := W)) (sh : Sharder)
    : Prop :=
  let cfg := anm_P2pConfig args in
  let kad := KadDhtPeerDiscovery cfg in
  match sh with
  | SLists ls =>
      sh_Type (Sharding cfg) = "ListsSharder" /\ selfPeerId ls = nm_p2pHost node
      /\ Some (preferredPeersHolder ls) = Contains <$> anm_PreferredPeersHolder args
      /\ peerShardResolver ls = unknownPeerShardResolver
      /\ maxPeerCount ls = TargetPeerCount (Sharding cfg) /\ maxSeeders ls = MaxSeeders (Sharding cfg)
      /\ seeders ls = (if Enabled kad then InitialPeerList kad else [])
      /\ computeDistance ls = computeDistanceByCountingBits ConvertPeerID
  | SOneList ols =>
      sh_Type (Sharding cfg) = "OneListSharder" /\ ols_selfPeerId ols = nm_p2pHost node
      /\ ols_maxPeerCount ols = TargetPeerCount (Sharding cfg)
      /\ ols_computeDistance ols = computeDistanceByCountingBits ConvertPeerID
  | SNil => sh_Type (Sharding cfg) = "NilListSharder"
  end.

Lemma sharder_made_fits args node sharder :
  createSharder ConvertPeerID node args = Ok sharder ->
  let kad := KadDhtPeerDiscovery (anm_P2pConfig args) in
  sharder_fits args node (if Enabled kad then sh_SetSeeders sharder (InitialPeerList kad) else sharder).
Proof.
  unfold createSharder, NewSharder. intros [_ Hn]%guard_err_Ok. revert Hn. cbn [asf_P2pConfig]. cbv zeta.
  unfold sharder_fits. set (cfg := anm_P2pConfig args).
  case_decide as Hk; [|case_decide as Hk1; [|case_decide as Hk2; [|done]]].
  - intros (ls & Hl & [= <-])%bind_Ok. apply NewListsSharder_fields in Hl as (Hr & Hs & Hp & Hm & Hms & Hsd & Hd).
    injection Hr as Hr. destruct (Enabled (KadDhtPeerDiscovery cfg)); cbn [sh_SetSeeders]; by split_and!.
  - unfold oneListSharder_factory, NewOneListSharder. intros (ols & Ho & [= <-])%bind_Ok.
    apply guard_err_Ok in Ho as [_ [= <-]]. destruct (Enabled _); cbn [sh_SetSeeders]; by split_and!.
  - intros [= <-]. by destruct (Enabled _).
Qed.

(** What each component of a node was made of *)
Definition wired (su : surroundings (PS := PS)) (args : ArgsNetworkMessenger SK)
    (node : networkMessenger (SK := SK) (W := W)) (signing : bool)
    (c : components (T := T) (C := C) (PS := PS) (P := P) (Q := Q) (E := E)) : Prop :=
  let cfg := anm_P2pConfig args in
  let seeds := InitialPeerList (KadDhtPeerDiscovery cfg) in
  (exists sharder, NewSharder ConvertPeerID {|
       asf_PeerShardResolver := Some unknownPeerShardResolver; asf_Pid := nm_p2pHost node; asf_P2pConfig := cfg;
       asf_PreferredPeersHolder := Contains <$> anm_PreferredPeersHolder args; asf_Logger := true |} = Ok sharder
     /\ co_sharder c = (if Enabled (KadDhtPeerDiscovery cfg) then sh_SetSeeders sharder seeds else sharder))
  (* pubsub, and the discoverers *)
  /\ su_NewGossipSub su (nm_p2pHost node)
       (if signing then [WithMaxMessageSize (2 * 1024 * 1024)]
        else [WithMessageSignaturePolicy 0; WithMaxMessageSize (2 * 1024 * 1024)]) = Ok (co_pubSub c)
  /\ (if Enabled (KadDhtPeerDiscovery cfg)
      then Forall2 (discovers cfg (nm_networkType node) (co_sharder c))
             (ProtocolIDs (KadDhtPeerDiscovery cfg)) (co_peerDiscoverers c)
      else co_peerDiscoverers c = [NilDiscoverer])
  (* the monitor *)
  /\ lcms_sharder (co_connMonitor c) = co_sharder c
  /\ Some (lcms_preferredPeersHolder (co_connMonitor c)) = anm_PreferredPeersHolder args
  /\ thresholdMinConnectedPeers (co_connMonitor c) = ThresholdMinConnectedPeers (Node cfg)
  (* the direct sender *)
  /\ ds_signer (co_directSender c) = psw_SignerVerifier Sum256 (nm_p2pSigner node)
  /\ Some (ds_marshaller (co_directSender c)) = anm_Marshaller args
  /\ messageHandler (co_directSender c) = Some (su_directHandler su)
  (* the messages handler *)
  /\ pubSub (co_MessageHandler c) = co_pubSub c
  /\ mh_peerID (co_MessageHandler c) = nm_p2pHost node
  /\ NewOutgoingChannelLoadBalancer true = Ok (outgoingCLB (co_MessageHandler c))
  (* the connections handler *)
  /\ ch_sharder (co_ConnectionsHandler c) = co_sharder c
  /\ ch_connMonitor (co_ConnectionsHandler c) = co_connMonitor c
  /\ Some (ch_preferredPeersHolder (co_ConnectionsHandler c)) = anm_PreferredPeersHolder args
  /\ ch_peerID (co_ConnectionsHandler c) = nm_p2pHost node
  /\ ch_peerShardResolver (co_ConnectionsHandler c) = unknownPeerShardResolver
  /\ ch_protocolIDs (co_ConnectionsHandler c)
     = list_to_set ((fun id => id +:+ "/kad/1.0.0") <$> ProtocolIDs (KadDhtPeerDiscovery cfg))
  /\ refreshInterval (ch_peersOnChannel (co_ConnectionsHandler c)) = time_Second * 3
  /\ ttlInterval (ch_peersOnChannel (co_ConnectionsHandler c)) = time_Second * 10
  /\ denial (co_MessageHandler c) = peerDenialEvaluator (co_connMonitor c)
  /\ sharder_fits args node (co_sharder c).

Lemma newPeersOnChannel_intervals fetch refresh ttl logger poc :
  newPeersOnChannel fetch refresh ttl logger = Ok poc -> refreshInterval poc = refresh /\ ttlInterval poc = ttl.
Proof. unfold newPeersOnChannel. rewrite !guard_err_Ok. intros (_ & _ & _ & _ & [= <-]). by split. Qed.

Lemma addComponentsToNode_wired su (args : ArgsNetworkMessenger SK) node signing c added :
  anm_Logger args = true -> add_components su args node signing = (Ok c, added) -> wired su args node signing c.
Proof.
  intros Hlog. unfold addComponentsToNode. cbv zeta. rewrite Hlog.
  destruct (createPubSub su node signing) as [ps|err] eqn:Hps; [|done]. cbn [mbind result_bind].
  destruct (newPeersOnChannel _ _ _ _) as [poc|err] eqn:Hpoc; [|done]. cbn [mbind result_bind].
  apply newPeersOnChannel_intervals in Hpoc as [Hri Htl].
  destruct (createSharder _ node args) as [sharder|err] eqn:Hsh; [|done]. cbn [mbind result_bind].
  destruct (createDiscoverers _ _ _ _) as [pds|err] eqn:Hpd; [|done]. cbn [mbind result_bind].
  destruct (createDiscoverers_seeded _ _ _ _ _ Hpd) as [Hseed Hdisc]. pose proof (sharder_made_fits _ _ _ Hsh) as Hfits.
  cbv zeta in Hfits. rewrite <- Hseed in Hfits.
  unfold createSharder in Hsh. rewrite Hlog in Hsh.
  unfold createConnectionMonitor, NewLibp2pConnectionMonitorSimple. cbn [acm_Sharder acm_PreferredPeersHolder acm_Reconnecters].
  unfold guard_err at 1. destruct (existsb _ _); [done|].
  destruct (anm_PreferredPeersHolder args) as [holder|] eqn:Hph; [|done]. cbn.
  unfold NewDirectSender. destruct (anm_Marshaller args) as [marshaller|] eqn:Hm; [|done]. cbn.
  destruct (NewMutexHolder _ _) as [mutexes|err]; [|done]. cbn.
  destruct (su_NewNumGoRoutinesThrottler su _); [done|]. cbn.
  destruct (anm_PeersRatingHandler args); [|done]. cbn. destruct (anm_SyncTimer args); [|done]. cbn.
  unfold NewConnectionsHandler. cbn. destruct (guard_err _ _ _) as [ch|err] eqn:Hch; [|done].
  apply guard_err_Ok in Hch as [_ [= <-]]. intros [= <- <-].
  split; [exists sharder; rewrite Hph; split; [exact Hsh|exact Hseed]|]. split; [by destruct signing; exact Hps|].
  split; [exact Hdisc|]. split_and!; try exact Hfits; cbn; done || assumption.
Qed.

Lemma addComponentsToNode_logger (su : surroundings (PS := PS)) (args : ArgsNetworkMessenger SK) (node : networkMessenger (SK := SK) (W := W)) signing c added :
  add_components su args node signing = (Ok c, added) -> anm_Logger args = true.
Proof.
  unfold addComponentsToNode. cbv zeta. destruct (createPubSub su node signing) as [ps|err]; [|done].
  cbn [mbind result_bind]. by destruct (anm_Logger args).
Qed.

(** The watcher is of the configured kind. *)
Definition watches (kind : string) (cw : ConnectionsWatcher (T := W)) : Prop :=
  match cw with
  | PrintConnectionsWatcher _ => kind = "print"
  | DisabledConnectionsWatcher => kind = "disabled" \/ kind = ""
  end.

(** The limits that are configured, which the resource manager took *)
Definition limits (NewResourceManager : resource_option -> option error) (cfg : ResourceLimiterConfig)
    (option : resource_option) : Prop :=
  match option with
  | DefaultResourceManager => rl_Type cfg = "default autoscale"
  | InfiniteLimits => rl_Type cfg = "infinite" /\ NewResourceManager InfiniteLimits = None
  | ScaledLimits memory numFD =>
      rl_Type cfg = "default with manual scale" /\ NewResourceManager (ScaledLimits memory numFD) = None
      /\ memory = wraps 64 (1024 * 1024 * ManualSystemMemoryInMB cfg) /\ numFD = ManualMaximumFD cfg
  end.

Lemma messenger_wired attempts su (args : ArgsNetworkMessenger SK) signing node c effects :
  new_messenger attempts su args signing = Some (Ok (node, c), effects) ->
  wired su args node signing c
  /\ anm_P2pPrivateKey args = Some (privateKey (nm_p2pSigner node))
  /\ (forall seeder, seeder ∈ InitialPeerList (KadDhtPeerDiscovery (anm_P2pConfig args)) ->
      str_contains seeder (Pretty (nm_p2pHost node)) = false)
  /\ (exists i a port options, a = attempts i
        /\ getPort (at_FisherYatesShuffle a) (Port (Node (anm_P2pConfig args))) (at_checkFreePort a) true = Some (Ok port)
        /\ port = nm_Port node
        /\ hostOptions NewWatcherCache other_directive a args port = Ok options
        /\ at_New a options.2 = Ok (nm_ID node)
        /\ nm_printConnectionsWatcher node = options.1 /\ nm_networkType node = anm_NetworkType args).
Proof.
  unfold newNetworkMessenger. destruct (nm_checkArgs args) eqn:Hck; [done|].
  destruct (checked_args args Hck) as (_ & _ & _ & _ & _ & _ & _ & Hlog).
  destruct (constructNodeWithPortRetry _ _ _ _) as [[r eff]|] eqn:Hr; [|done]. cbn [mbind option_bind].
  pose proof (retry_hosts _ _ _ _ _ _ _ _ _ Hck Hr) as Hh. destruct r as [[node'|]|err]; [|done..].
  destruct Hh as (_ & Hsk & _). unfold validateSeeders. destruct (existsb _ _) eqn:Hv; [done|].
  destruct (addComponentsToNode _ _ _ _ _ _ _ _) as [[c'|err] added] eqn:Ha; [|done]. intros [= <- <- <-].
  split_and!; [by eapply addComponentsToNode_wired|done| |].
  - intros seeder Hin. apply not_true_is_false. intros Hc. apply not_true_iff_false in Hv. apply Hv.
    apply existsb_exists. exists seeder. split; [by apply list_elem_of_In|done].
  - pose proof (retry_loop_spec NewWatcherCache other_directive attempts args 0 9 None) as (n & _ & _ & Hn).
    unfold constructNodeWithPortRetry, maxRetriesIfBindError in Hr. rewrite Hr in Hn. destruct Hn as [eff' Hn].
    unfold constructNode in Hn. rewrite Hlog in Hn.
    destruct (getPort _ _ _ _) as [[port|err]|] eqn:Hport in Hn; [|done..].
    destruct (hostOptions _ _ _ _ _) as [[cw options]|err] eqn:Hopt in Hn; [|done].
    destruct (at_New _ options) as [h|err] eqn:Hnew in Hn; [|done].
    destruct (NewP2PSignerWrapper _) as [sg|err] in Hn; [|done]. injection Hn as <- _.
    by exists n, (attempts n), port, (cw, options).
Qed.

Lemma hostOptions_spec a (args : ArgsNetworkMessenger SK) port cw options :
  hostOptions NewWatcherCache other_directive a args port = Ok (cw, options) ->
  let node := Node (anm_P2pConfig args) in
  let enabled := enabled_transports (Transports node) in
  watches (anm_ConnectionWatcherType args) cw
  /\ ConvertPrivateKeyToLibp2pPrivateKey (anm_P2pPrivateKey args) = Ok (ho_Identity LPriv options)
  /\ enabled <> [] /\ Forall (fun e => count_markup e.1.1 = 1) enabled
  /\ ho_transports LPriv options = snd <$> enabled
  /\ ho_ListenAddrStrings LPriv options = (fun e => Sprintf other_directive e.1.1 (Some port)) <$> enabled
  /\ limits (at_NewResourceManager a) (ResourceLimiter node) (ho_resourceLimiter LPriv options).
Proof.
  unfold hostOptions. cbv zeta. intros (w & Hw & Hc)%bind_Ok. apply bind_Ok in Hc as (lsk & Hl & Hc).
  apply bind_Ok in Hc as ([os addrs] & Ht & Hc). apply bind_Ok in Hc as (r & Hr & Hc). injection Hc as <- <-.
  split; [|split; [exact Hl|]].
  - unfold NewConnectionsWatcher in Hw. case_decide as Hk; [|case_decide as Hk'; [|done]].
    + apply bind_Ok in Hw as (pcw & _ & [= <-]). exact Hk.
    + injection Hw as <-. exact Hk'.
  - rewrite parseTransportOptions_entries, parse_entries_spec in Ht. cbv zeta in Ht.
    change (filter _ (transport_entries _)) with (enabled_transports (Transports (Node (anm_P2pConfig args)))) in Ht.
    destruct (List.find _ _) as [e|] eqn:Hf; [done|]. cbn [mbind result_bind fst snd app] in Ht.
    apply guard_err_Ok in Ht as [Hne [= <- <-]]. split_and!; try done.
    + intros Hnil. by rewrite Hnil in Hne.
    + apply Forall_forall. intros e He%list_elem_of_In. pose proof (List.find_none _ _ Hf e He) as Hn.
      apply negb_false_iff in Hn. unfold well_marked, strictCheckStringForIntMarkup in Hn. by bdestruct_all.
    + unfold CreateResourceLimiterOption in Hr. cbn [ho_resourceLimiter].
      case_decide; [|case_decide; [|case_decide; [|done]]].
      * by injection Hr as <-.
      * destruct (at_NewResourceManager a _) eqn:Hm in Hr; [done|]. by injection Hr as <-.
      * cbv zeta in Hr. destruct (at_NewResourceManager a _) eqn:Hm in Hr; [done|]. injection Hr as <-. by split_and!.
Qed.

(** C22: the messenger is made of components that fit. There is one sharder, of the
    configured kind, with the id of the host, the preferred peers that were given
    and the configured seeders, for the discoverers of the configured protocols, the monitor and
    the connections handler; pubsub is on the host, and signs unless it is told
    not to; the preferred peers, the threshold and the marshaller are the given
    ones; the direct sender signs with the key of the host and hands its messages to the
    messages handler; the id of the host is everywhere, and in none of the seeders. The
    host is made of the private key, listens on the enabled transports at the chosen port and has
    the configured limits. *)
Theorem newNetworkMessenger_wiring attempts su (args : ArgsNetworkMessenger SK) signing node c effects :
  new_messenger attempts su args signing = Some (Ok (node, c), effects) ->
  let cfg := anm_P2pConfig args in
  let enabled := enabled_transports (Transports (Node cfg)) in
  wired su args node signing c
  /\ anm_P2pPrivateKey args = Some (privateKey (nm_p2pSigner node))
  /\ (forall seeder, seeder ∈ InitialPeerList (KadDhtPeerDiscovery cfg) ->
      str_contains seeder (Pretty (nm_p2pHost node)) = false)
  /\ nm_networkType node = anm_NetworkType args
  /\ watches (anm_ConnectionWatcherType args) (nm_printConnectionsWatcher node)
  /\ (exists i options keyBytes,
        getPort (at_FisherYatesShuffle (attempts i)) (Port (Node cfg)) (at_checkFreePort (attempts i)) true
          = Some (Ok (nm_Port node))
        /\ at_New (attempts i) options = Ok (nm_ID node)
        /\ sk_ToByteArray (privateKey (nm_p2pSigner node)) = Ok keyBytes
        /\ UnmarshalSecp256k1PrivateKey keyBytes = Ok (ho_Identity LPriv options)
        /\ enabled <> [] /\ Forall (fun e => count_markup e.1.1 = 1) enabled
        /\ ho_transports LPriv options = snd <$> enabled
        /\ ho_ListenAddrStrings LPriv options
           = (fun e => Sprintf other_directive e.1.1 (Some (nm_Port node))) <$> enabled
        /\ limits (at_NewResourceManager (attempts i)) (ResourceLimiter (Node cfg)) (ho_resourceLimiter LPriv options)).
Proof.
  intros Hn. destruct (messenger_wired _ _ _ _ _ _ _ Hn)
    as (Hw & Hk & Hs & i & a & port & [cw options] & -> & Hport & -> & Ho & Hnew & Hcw & Hnt).
  apply hostOptions_spec in Ho as (Hwatch & Hid & Hrest). rewrite Hk in Hid.
  apply bind_Ok in Hid as (keyBytes & Hb & Hu). cbn [fst snd] in *. rewrite Hcw.
  split_and!; [done..|]. by exists i, options, keyBytes.
Qed.

(** What a mock messenger is made of: the same components, without signatures on
    what is published, whatever the rest of the arguments; after an error the
    generated host stays. *)
Theorem NewMockMessenger_spec (su : surroundings (PS := PS)) (args : ArgsNetworkMessenger SK) mockNet :
  let '(res, effects) := NewMockMessenger (P := P) (Q := Q) (E := E) NewWatcherCache NewTimeCache NewCache Sum256
    ConvertPeerID su args mockNet in
  open_hosts effects = match mockNet with Some (Ok h) => [h] | _ => [] end
  /\ match res with
     | Ok (node, c) =>
         mockNet = Some (Ok (nm_ID node)) /\ wired su args node false c /\ nm_Port node = 0
         /\ anm_P2pPrivateKey args = Some (privateKey (nm_p2pSigner node))
     | Err err => mockNet = None -> err = ErrNilMockNet
     end.
Proof.
  unfold NewMockMessenger. destruct mockNet as [[h|err]|]; [|done..].
  unfold NewP2PSignerWrapper. cbn [aps_PrivateKey].
  destruct (anm_P2pPrivateKey args) as [sk|]; [|done]. cbn. destruct (anm_P2pSingleSigner args); [|done]. cbn.
  destruct (anm_P2pKeyGenerator args); [|done]. cbn.
  destruct (NewConnectionsWatcher _ _ _ _) as [watcher|err]; [|done].
  set (node := {| nm_p2pSigner := _; nm_p2pHost := h; nm_port := 0; nm_printConnectionsWatcher := watcher; nm_networkType := "" |}).
  destruct (addComponentsToNode _ _ _ _ _ _ _ _) as [[c|err] added] eqn:Ha;
    pose proof (added_hosts _ _ _ _ _ _ [h] Ha) as Hh; [|done].
  split; [exact Hh|]. split_and!; [done| |done|done].
  apply (addComponentsToNode_wired _ _ _ _ _ _ (addComponentsToNode_logger _ _ _ _ _ _ Ha) Ha).
Qed.

(** *** Two nodes *)

(** The id of a host is that of its identity: what libp2p promises of [New] *)
Definition host_of_identity (attempts : nat -> attempt (LPriv := LPriv)) : Prop :=
  forall i options h, at_New (attempts i) options = Ok h ->
    IDFromPublicKey (lpriv_GetPublic (ho_Identity LPriv options)) = Ok h.

Lemma hostOptions_identity a (args : ArgsNetworkMessenger SK) port cw options :
  hostOptions NewWatcherCache other_directive a args port = Ok (cw, options) ->
  ConvertPrivateKeyToLibp2pPrivateKey (anm_P2pPrivateKey args) = Ok (ho_Identity LPriv options).
Proof.
  unfold hostOptions. intros (w & _ & Hc)%bind_Ok. apply bind_Ok in Hc as (lsk & Hl & Hc).
  apply bind_Ok in Hc as ([os addrs] & _ & Hc). apply bind_Ok in Hc as (r & _ & Hc).
  injection Hc as _ <-. exact Hl.
Qed.

(** The id of the host of a messenger gives the key that its direct sender signs with. *)
Lemma messenger_key `{!KeyLaws Rand LPriv LPub SK PK} attempts
    (su : surroundings (PS := PS)) (args : ArgsNetworkMessenger SK) signing node c effects :
  new_messenger attempts su args signing = Some (Ok (node, c), effects) -> host_of_identity attempts ->
  ConvertPeerIDToPublicKey (nm_p2pHost node) = Ok (sk_GeneratePublic (privateKey (nm_p2pSigner node)))
  /\ IDFromBytes (to_bytes (nm_p2pHost node)) = Ok (nm_p2pHost node).
Proof.
  intros Hn Hid. destruct (messenger_wired _ _ _ _ _ _ _ Hn) as (_ & Hsk & _ & i & a & port & [cw options] & -> & _ & _ & Ho & Hnew & _).
  apply Hid in Hnew. apply hostOptions_identity in Ho. rewrite Hsk in Ho. split.
  - by eapply host_key.
  - by eapply id_of_bytes.
Qed.

(** Direct messages pass between two messengers: what the direct sender of the
    one makes for a connection of its host, with an encoded topic message that the
    marshaller of the other reads, the direct sender of the other hands once to its
    handler as a direct message from the first, with the same topic and contents, unless it has
    seen it. No assumption is made on the signatures beyond the laws of the keys
    and that the id of a host is that of its key. *)
Lemma direct_message_accepted `{TimeCache T} `{Cacher cached C} `{!KeyLaws Rand LPriv LPub SK PK}
    pb_Marshal SignPrefix attempts1 (su1 : surroundings (PS := PS)) (args1 : ArgsNetworkMessenger SK) signing1 node1 c1 effects1
    attempts2 (su2 : surroundings (PS := PS)) (args2 : ArgsNetworkMessenger SK) signing2 node2 c2 effects2
    (ds dr : directSender T C) now topic buff conn m handler tm :
  new_messenger attempts1 su1 args1 signing1 = Some (Ok (node1, c1), effects1) -> host_of_identity attempts1 ->
  new_messenger attempts2 su2 args2 signing2 = Some (Ok (node2, c2), effects2) ->
  ds_signer ds = ds_signer (co_directSender c1) -> ds_signer dr = ds_signer (co_directSender c2) ->
  messageHandler dr = Some handler -> LocalPeer conn = nm_ID node1 ->
  (createMessage pb_Marshal SignPrefix ds topic buff conn).1 = Ok m ->
  UnmarshalTopic (ds_marshaller dr) (Some buff) = Ok tm ->
  Version tm = 1 -> sl (SignatureOnPid tm) = [] -> sl (Pk tm) = [] ->
  tc_Has (seenMessages dr) (msgId m) = false ->
  exists msg,
    processReceivedDirectMessage IDFromBytes pb_Marshal SignPrefix now dr (Some m) (nm_ID node1)
    = (handler msg (nm_ID node1), set_seen dr (tc_Add now (seenMessages dr) (msgId m)),
       [DoHandle msg (nm_ID node1)])
    /\ TopicField msg = topic /\ PeerField msg = nm_ID node1
    /\ PayloadField msg = Some buff /\ DataField msg = Payload tm
    /\ TimestampField msg = Timestamp tm /\ BroadcastMethodField msg = Direct.
Proof.
  intros Hn1 Hid Hn2 Hs1 Hs2 Hh Hconn Hcreate Hu Hv Hsig Hpk Hseen.
  destruct (messenger_key _ _ _ _ _ _ _ Hn1 Hid) as [Hkey Hid1].
  pose proof (messenger_wired _ _ _ _ _ _ _ Hn1) as [Hw1 _].
  pose proof (messenger_wired _ _ _ _ _ _ _ Hn2) as [Hw2 _].
  assert (Hsg1 : ds_signer ds = psw_SignerVerifier Sum256 (nm_p2pSigner node1)) by (rewrite Hs1; apply Hw1).
  assert (Hsg2 : ds_signer dr = psw_SignerVerifier Sum256 (nm_p2pSigner node2)) by (rewrite Hs2; apply Hw2).
  unfold nm_ID in *. rewrite <- Hconn in *.
  eapply (sent_message_accepted IDFromBytes pb_Marshal SignPrefix ds dr); try done.
  intros payload sig. rewrite Hsg1, Hsg2. cbn [s_Sign s_Verify psw_SignerVerifier].
  intros Hsign. by eapply verify_of_key.
Qed.
End wiring.

(** ** Closing *)

(** Closing the messenger closes all its parts in their order, whatever any of
    them answers, ends the goroutine of its watcher, and returns the last error, so that
    it returns [nil] exactly when all were closed without one. *)
Theorem nm_Close_spec {SK W} (ans : close_answers) (node : networkMessenger (SK := SK) (W := W)) :
  let '(err, node', parts) := nm_Close ans node in
  parts = [PMessageHandler; PConnectionsHandler; PHost; PConnectionsWatcher; PContext; PPeerstore]
  /\ err = last (omap id [errMH ans; errCH ans; errHost ans; errPeerStore ans])
  /\ (err = None <-> errMH ans = None /\ errCH ans = None /\ errHost ans = None /\ errPeerStore ans = None)
  /\ (forall pcw, nm_printConnectionsWatcher node = PrintConnectionsWatcher pcw ->
      exists pcw', nm_printConnectionsWatcher node' = PrintConnectionsWatcher pcw'
        /\ goRoutineClosed pcw' = true).
Proof.
  unfold nm_Close, cw_Close. destruct ans as [[] [] [] []], (nm_printConnectionsWatcher node); cbn;
    (split_and!; [done|done|naive_solver|]); intros pcw' [= <-] || intros pcw'; try done; by eexists.
Qed.

(** ** Examples *)

#[local] Existing Instance demo_Libp2pKeys.
#[local] Existing Instance demo_CommonKeys.

Definition demo_nm_args (seeder : string) : ArgsNetworkMessenger bytes := {|
  anm_Marshaller := Some demo_marshaller;
  anm_P2pConfig := {|
    Node := {| Port := "37373-37375"; MaximumExpectedPeerCount := 1; ThresholdMinConnectedPeers := 3;
      MinNumPeersToWaitForOnBootstrap := 0;
      Transports := {| TCP := {| ListenAddress := "/ip4/0.0.0.0/tcp/%d"; PreventPortReuse := false |};
        QUICAddress := ""; WebSocketAddress := ""; WebTransportAddress := "" |};
      ResourceLimiter := {| rl_Type := "infinite"; ManualSystemMemoryInMB := 0; ManualMaximumFD := 0 |} |};
    KadDhtPeerDiscovery := {|
      Enabled := true; kad_Type := "optimized"; RefreshIntervalInSec := 10;
      ProtocolIDs := ["/drt/kad/1.0.0"]; InitialPeerList := [seeder]; BucketSize := 100;
      RoutingTableRefreshIntervalInSec := 300 |};
    Sharding := {|
      TargetPeerCount := 36; MaxIntraShardValidators := 7; MaxCrossShardValidators := 15;
      MaxIntraShardObservers := 2; MaxCrossShardObservers := 3; MaxSeeders := 2; sh_Type := "ListsSharder" |} |};
  anm_SyncTimer := true; anm_PreferredPeersHolder := Some demo_full; anm_PeersRatingHandler := true;
  anm_ConnectionWatcherType := "print"; anm_P2pPrivateKey := Some (repeat Byte.x61 32);
  anm_P2pSingleSigner := true; anm_P2pKeyGenerator := true; anm_NetworkType := "main"; anm_Logger := true |}.

(** The port is taken at the first attempt. *)
Definition demo_attempts (i : nat) : attempt (LPriv := bytes) := {|
  at_checkFreePort := fun _ => None; at_FisherYatesShuffle := @rev Z;
  at_NewResourceManager := fun _ => None;
  at_New := fun _ => match i with
    | O => Err (EExternal "listen tcp: bind: address already in use")
    | _ => Ok "host"
    end |}.

Definition demo_su : surroundings (PS := unit) := {|
  su_NewGossipSub := fun _ _ => Ok (); su_NewNumGoRoutinesThrottler := fun _ => None;
  su_nowNano := 0; su_directHandler := fun _ _ => None |}.

Definition demo_messenger (seeder : string) :=
  newNetworkMessenger (P := string) (Q := unit) (E := disabledPeerDenialEvaluator) (fun _ => ()) (fun _ => ())
    (fun _ => Ok ()) id id (fun _ _ => "") demo_hash demo_attempts demo_su (demo_nm_args seeder) true.

Lemma newNetworkMessenger_hosts_witness :
  match demo_messenger "/ip4/10.0.0.1/p2p/host" with
  | Some (Err err, effects) => err = ErrInvalidConfig /\ open_hosts effects = ["host"]
  | _ => False
  end.
Proof.
  destruct (demo_messenger "/ip4/10.0.0.1/p2p/host") as [[[[node c]|err] effects]|] eqn:Hd;
    [vm_compute in Hd; discriminate Hd| |vm_compute in Hd; discriminate Hd].
  pose proof Hd as Hm. unfold demo_messenger in Hm.
  pose proof (newNetworkMessenger_hosts (fun _ => ()) (fun _ => ()) (fun _ => Ok ()) id id (fun _ _ => "")
    demo_hash demo_attempts demo_su (demo_nm_args "/ip4/10.0.0.1/p2p/host") true (Err err) effects Hm) as H.
  destruct H as [H|(h & seeder & H1 & H2 & _)].
  - vm_compute in Hd. injection Hd as _ <-. vm_compute in H. discriminate H.
  - split; [exact H2|]. vm_compute in Hd. injection Hd as _ <-. reflexivity.
Defined.

Lemma newNetworkMessenger_wiring_witness :
  match demo_messenger "/ip4/10.0.0.1/p2p/other" with
  | Some (Ok (node, c), _) =>
      lcms_sharder (co_connMonitor c) = co_sharder c /\ thresholdMinConnectedPeers (co_connMonitor c) = 3
      /\ match co_sharder c with
         | SLists ls => selfPeerId ls = nm_p2pHost node /\ seeders ls = ["/ip4/10.0.0.1/p2p/other"]
             /\ Some (preferredPeersHolder ls) = Some (Contains demo_full)
         | _ => False
         end
  | _ => False
  end.
Proof.
  destruct (demo_messenger "/ip4/10.0.0.1/p2p/other") as [[[[node c]|err] effects]|] eqn:Hd;
    [|vm_compute in Hd; discriminate Hd|vm_compute in Hd; discriminate Hd].
  unfold demo_messenger in Hd.
  destruct (newNetworkMessenger_wiring (fun _ => ()) (fun _ => ()) (fun _ => Ok ()) id id (fun _ _ => "")
    demo_hash demo_attempts demo_su (demo_nm_args "/ip4/10.0.0.1/p2p/other") true node c effects Hd) as [H _].
  destruct H as (_ & _ & _ & H1 & _ & H2 & _ & _ & _ & _ & _ & _ & _ & _ & _ & _ & _ & _ & _ & _ & _ & H3).
  split; [exact H1|split; [exact H2|]]. clear -H3. destruct (co_sharder c) as [ls|ols|].
  - destruct H3 as (_ & Hs & Hp & _ & _ & _ & Hseeds & _). split; [exact Hs|split; [exact Hseeds|exact Hp]].
  - destruct H3 as [Hk _]. discriminate Hk.
  - discriminate H3.
Defined.

(** Two nodes of different keys, on hosts that libp2p makes of them *)
Definition demo_hosts (i : nat) : attempt (LPriv := bytes) := {|
  at_checkFreePort := fun _ => None; at_FisherYatesShuffle := @rev Z;
  at_NewResourceManager := fun _ => None; at_New := fun options => Ok (of_bytes (ho_Identity bytes options)) |}.

Definition demo_keyed (key : bytes) : ArgsNetworkMessenger bytes :=
  let args := demo_nm_args "/ip4/10.0.0.1/p2p/other" in {|
  anm_Marshaller := anm_Marshaller args; anm_P2pConfig := anm_P2pConfig args; anm_SyncTimer := true;
  anm_PreferredPeersHolder := anm_PreferredPeersHolder args; anm_PeersRatingHandler := true;
  anm_ConnectionWatcherType := ""; anm_P2pPrivateKey := Some key; anm_P2pSingleSigner := true;
  anm_P2pKeyGenerator := true; anm_NetworkType := "main"; anm_Logger := true |}.

#[local] Existing Instance demo_TimeCache.
#[local] Existing Instance demo_mutex_cache.
#[local] Existing Instance demo_KeyLaws.

Definition demo_key1 : bytes := repeat Byte.x61 32.
Definition demo_key2 : bytes := repeat Byte.x62 32.

(** The direct sender of the node of a key *)
Definition demo_keyed_ds (key : bytes) : directSender (gmap string Z) demo_cache := {|
  counter := 41; messageHandler := Some (su_directHandler demo_su); seenMessages := ∅;
  mutexForPeer := demo_mh; ds_signer := psw_SignerVerifier id {| privateKey := key |};
  ds_marshaller := demo_marshaller |}.

Definition demo_conn1 : Conn := {|
  LocalPeer := of_bytes demo_key1; RemotePeer := of_bytes demo_key2; GetStreams := GetStreams demo_conn |}.
