(* ===== verification/Network.v ===== *)
(** * The connections of a node

    The connection monitor, the sharder and the holder of preferred peers at
    work together on the connections of a host: a state with the open
    connections, the notifications that wait for their handlers and the closings
    that the handlers have asked for, and its steps. The handlers are those of
    ConnectionMonitor, the dialing is that of Discovery; the order in which
    connections open and close, handlers run and closings happen is free. *)

From S2P Require Import Prelude Errors Config Sharding Cache PeersHolder Messages DirectSender Topics MessagesHandler ConnectionMonitor ConnectionsHandler Discovery Ports Metrics Crypto NetMessenger.
From stdpp Require Import list well_founded.
Open Scope Z_scope.

(** ** The shared holder *)

(** A sharder is made with the holder itself: what it sees of the preferred
    peers changes with the holder. *)
Definition ls_sharing (ls : listsSharder) (ph : peersHolder) : listsSharder :=
  {| peerShardResolver := peerShardResolver ls; selfPeerId := selfPeerId ls;
     maxPeerCount := maxPeerCount ls;
     maxIntraShardValidators := maxIntraShardValidators ls;
     maxCrossShardValidators := maxCrossShardValidators ls;
     maxIntraShardObservers := maxIntraShardObservers ls;
     maxCrossShardObservers := maxCrossShardObservers ls;
     maxSeeders := maxSeeders ls; maxUnknown := maxUnknown ls;
     seeders := seeders ls; computeDistance := computeDistance ls;
     preferredPeersHolder := Contains ph |}.

Definition sh_sharing (sh : Sharder) (ph : peersHolder) : Sharder :=
  match sh with
  | SLists ls => SLists (ls_sharing ls ph)
  | SOneList ols => SOneList ols
  | SNil => SNil
  end.

Section holder.
Context (AllShardId : Z).

Lemma Contains_PutConnectionAddress ph pid addr p :
  Contains (PutConnectionAddress AllShardId ph pid addr) p = Contains ph p.
Proof.
  by destruct (PutConnectionAddress_cases AllShardId ph pid addr) as [->|[_ ->]].
Qed.
End holder.

Lemma Contains_PutShardID ph pid shard p :
  Contains (PutShardID ph pid shard) p = Contains ph p
  \/ (p = pid /\ Contains (PutShardID ph pid shard) p = true).
Proof.
  unfold PutShardID. destruct (tempPeerIDsWaitingForShard ph !! pid); [|by left].
  destruct (getPeerInfoForPeerID _ _); [|by left]. unfold Contains. simpl.
  destruct (decide (p = pid)) as [->|Hne].
  - right. split; [done|]. rewrite lookup_insert_eq. by apply bool_decide_true.
  - left. by rewrite lookup_insert_ne.
Qed.

Lemma Remove_unknown ph pid : Contains ph pid = false -> Remove ph pid = Some ph.
Proof.
  unfold Contains, Remove. intros Hc%bool_decide_eq_false. by rewrite <- eq_None_not_Some in Hc; rewrite Hc.
Qed.

(** ** What a sharder bounds *)

(** The classes of peers that a sharder bounds, with their maximums *)
Definition sh_limits (Pretty : PeerID -> string) (sh : Sharder) : list ((PeerID -> bool) * Z) :=
  match sh with
  | SLists ls => [(counted Pretty ls, maxPeerCount ls); (ls_IsSeeder Pretty ls, maxSeeders ls)]
  | SOneList ols => [(fun _ => true, ols_maxPeerCount ols)]
  | SNil => []
  end.

(** The sharders that the factory makes *)
Definition sh_limits_wf (sh : Sharder) : Prop :=
  match sh with
  | SLists ls => ls_wf ls
  | SOneList ols => 0 <= ols_maxPeerCount ols
  | SNil => True
  end.

Definition within (limit : (PeerID -> bool) * Z) (peers : list PeerID) : Prop :=
  len (filter (fun p => limit.1 p = true) peers) <= limit.2.

Lemma len_submseteq {A} (l k : list A) : l ⊆+ k -> len l <= len k.
Proof. intros H%submseteq_length. unfold len. lia. Qed.

(** Fewer peers, or peers of fewer classes, stay within a limit. *)
Lemma within_mono (limit limit' : (PeerID -> bool) * Z) (peers peers' : list PeerID) :
  NoDup peers' -> (forall p, p ∈ peers' -> p ∈ peers) ->
  (forall p, limit'.1 p = true -> limit.1 p = true) -> limit.2 <= limit'.2 ->
  within limit peers -> within limit' peers'.
Proof.
  intros Hnd Hsub Hf Hn Hw. unfold within in *. etrans; [|etrans; [exact Hw|exact Hn]].
  apply len_submseteq, NoDup_submseteq; [by apply NoDup_filter|].
  intros p. rewrite !list_elem_of_filter. naive_solver.
Qed.

Lemma within_all n (peers : list PeerID) : within (fun _ => true, n) peers -> len peers <= n.
Proof.
  unfold within. cbn [fst snd].
  assert (Hall : filter (fun _ => true = true) peers = peers); [|by rewrite Hall].
  induction peers as [|p l IH]; [done|]. rewrite filter_cons, decide_True by done. by rewrite IH.
Qed.

Lemma sh_limits_nonneg Pretty sh limit : sh_limits_wf sh -> limit ∈ sh_limits Pretty sh -> 0 <= limit.2.
Proof.
  destruct sh as [ls|ols|]; simpl; intros Hwf Hin.
  - unfold ls_wf in Hwf. apply elem_of_cons in Hin as [->|Hin%list_elem_of_singleton]; [|subst limit]; simpl; lia.
  - by apply list_elem_of_singleton in Hin as ->.
  - by apply elem_of_nil in Hin.
Qed.

Section limits.
Context (Pretty : PeerID -> string).
Context (sort_Sort : list PeerDistance -> list PeerDistance) `{!SortSort sort_Sort}.

Lemma filter_rest (f : PeerID -> bool) (ev peers : list PeerID) :
  filter (fun p => f p = true) (filter (fun p => p ∉ ev) peers)
  = filter (fun p => p ∉ ev) (filter (fun p => f p = true) peers).
Proof. rewrite !list_filter_filter. apply list_filter_iff. naive_solver. Qed.

Lemma filter_not_in_app (kept ev : list PeerID) :
  filter (fun p => p ∉ ev) (kept ++ ev) = filter (fun p => p ∉ ev) kept.
Proof. rewrite filter_app, (filter_none _ ev) by set_solver. apply app_nil_r. Qed.

Lemma evict_bounded l n :
  0 <= n -> exists kept, ID <$> l ≡ₚ kept ++ evict sort_Sort l n /\ len kept <= n.
Proof.
  intros Hn. destruct (evict_split sort_Sort l n) as (evicted & Hp & -> & Hl & _).
  exists (ID <$> keep sort_Sort l n). rewrite <- fmap_app, <- Hp. split; [done|].
  unfold len in *. rewrite length_fmap. lia.
Qed.

(** What is left of the peers after the evictions is within the limits. *)
Lemma sh_remaining sh peers limit :
  sh_limits_wf sh -> limit ∈ sh_limits Pretty sh ->
  within limit (filter (fun p => p ∉ sh_ComputeEvictionList Pretty sort_Sort sh peers) peers).
Proof.
  intros Hwf Hin. destruct sh as [ls|ols|]; simpl in *; [| |by apply elem_of_nil in Hin].
  - destruct (ComputeEvictionList_bounded Pretty sort_Sort ls peers Hwf) as (kept & Hp & Hc & Hs).
    set (ev := ComputeEvictionList _ _ _ _) in *. clearbody ev. unfold within.
    assert (Hk : filter (fun p => counted Pretty ls p = true) (filter (fun p => p ∉ ev) peers)
      ≡ₚ filter (fun p => p ∉ ev) kept).
    { by rewrite filter_rest, Hp, filter_not_in_app. }
    apply elem_of_cons in Hin as [->|Hin%list_elem_of_singleton]; [|subst limit]; cbn [fst snd].
    + rewrite Hk. etrans; [apply len_filter|done].
    + rewrite (list_filter_iff _ (fun p => ls_IsSeeder Pretty ls p = true /\ counted Pretty ls p = true)).
      2: { intros p. unfold counted. destruct (ls_IsSeeder Pretty ls p); naive_solver. }
      rewrite <- list_filter_filter, Hk, filter_rest. etrans; [apply len_filter|done].
  - apply list_elem_of_singleton in Hin as ->. unfold within, ols_ComputeEvictionList. cbn [fst snd].
    destruct (evict_bounded (convertList ols peers) (ols_maxPeerCount ols) Hwf) as (kept & Hp & Hl).
    set (ev := evict _ _ _) in *. clearbody ev.
    unfold convertList in Hp. rewrite <- list_fmap_compose in Hp. change (fmap (M:=list) _ peers) with (id <$> peers) in Hp.
    rewrite list_fmap_id in Hp.
    etrans; [apply len_filter|]. rewrite Hp, filter_not_in_app. etrans; [apply len_filter|done].
Qed.
End limits.

(** ** The state and its steps *)

#[export] Instance NetConn_eq_decision : EqDecision NetConn.
Proof. solve_decision. Defined.

(** The open connections of the host; the connections whose [Connected] and
    [Disconnected] notifications wait; what the handlers have asked for and is
    not done yet *)
Record net_state (E : Type) := {
  ns_conns : list NetConn;
  ns_monitor : libp2pConnectionMonitorSimple E;
  ns_opened : list NetConn;
  ns_closed : list NetConn;
  ns_tasks : list cm_effect;
}.
Arguments Build_net_state {E}.
Arguments ns_conns {E}.
Arguments ns_monitor {E}.
Arguments ns_opened {E}.
Arguments ns_closed {E}.
Arguments ns_tasks {E}.

(** [Network().Peers()]: the peers of the open connections, each once, in any
    order *)
Definition is_Peers (conns : list NetConn) (peers : list PeerID) : Prop :=
  NoDup peers /\ Forall (fun p => p ∈ nc_RemotePeer <$> conns) peers
  /\ Forall (fun c => nc_RemotePeer c ∈ peers) conns.

#[export] Instance is_Peers_dec conns peers : Decision (is_Peers conns peers).
Proof. unfold is_Peers. apply _. Defined.

(** What happens next; a handler that asks the network for its peers carries the
    answer. *)
Inductive net_label (E : Type) :=
| LOpen (c : NetConn)
| LDial (pi : AddrInfo) (peers : list PeerID) (c : NetConn)
| LRemoteClose (c : NetConn)
| LConnected (c : NetConn) (peers : list PeerID)
| LDisconnected (c : NetConn) (peers : list PeerID)
| LTask (e : cm_effect)
| LCheck (peers : list PeerID)
| LPutShardID (pid : PeerID) (shard : Z)
| LSetThreshold (threshold : Z) (peers : list PeerID)
| LSetPeerDenialEvaluator (evaluator : E)
| LSetPeerShardResolver (resolver : PeerShardResolver).
Arguments LOpen {E} c.
Arguments LDial {E} pi peers c.
Arguments LRemoteClose {E} c.
Arguments LConnected {E} c peers.
Arguments LDisconnected {E} c peers.
Arguments LTask {E} e.
Arguments LCheck {E} peers.
Arguments LPutShardID {E} pid shard.
Arguments LSetThreshold {E} threshold peers.
Arguments LSetPeerDenialEvaluator {E} evaluator.
Arguments LSetPeerShardResolver {E} resolver.

Definition set_sharder {E} (lcms : libp2pConnectionMonitorSimple E) (sh : Sharder)
    : libp2pConnectionMonitorSimple E := {|
  thresholdMinConnectedPeers := thresholdMinConnectedPeers lcms; lcms_sharder := sh;
  lcms_preferredPeersHolder := lcms_preferredPeersHolder lcms;
  peerDenialEvaluator := peerDenialEvaluator lcms |}.

(** The sharder as it is now *)
Definition sharder_now {E} (lcms : libp2pConnectionMonitorSimple E) : Sharder :=
  sh_sharing (lcms_sharder lcms) (lcms_preferredPeersHolder lcms).

Definition guardP {A} (P : Prop) `{!Decision P} (a : option A) : option A := if decide P then a else None.

Lemma guardP_Some {A} (P : Prop) `{!Decision P} (a : option A) (b : A) : guardP P a = Some b <-> P /\ a = Some b.
Proof. unfold guardP. case_decide; naive_solver. Qed.

(** One of the waiting items *)
Fixpoint take_out {A} `{EqDecision A} (x : A) (l : list A) : option (list A) :=
  match l with
  | [] => None
  | y :: l => if decide (y = x) then Some l else (y ::.) <$> take_out x l
  end.

Lemma take_out_perm {A} `{EqDecision A} (x : A) l k : take_out x l = Some k -> l ≡ₚ x :: k.
Proof.
  revert k. induction l as [|y l IH]; intros k; simpl; [done|]. case_decide as Hy; [by intros [= <-]; subst|].
  destruct (take_out x l) as [k'|]; simpl; [|done]. intros [= <-]. rewrite (IH k' eq_refl). apply Permutation_swap.
Qed.

Lemma take_out_elem {A} `{EqDecision A} (x : A) l : x ∈ l -> is_Some (take_out x l).
Proof.
  induction l as [|y l IH]; [by intros ?%elem_of_nil|]. intros Hx. simpl. case_decide; [done|].
  destruct IH as [k ->]; [set_solver|]. done.
Qed.

Section network.
Context {E : Type} `{PeerDenialEvaluator E}.
Context (Pretty : PeerID -> string).
Context (sort_Sort : list PeerDistance -> list PeerDistance).
Context (AllShardId : Z).
(** The ids that libp2p gives to connections; they are no peer ids. *)
Context (conn_id : string -> bool).
Implicit Types (s : net_state E) (c : NetConn) (peers : list PeerID).

(** The connections with [f] are closed, with a notification each. *)
Definition close_conns (f : NetConn -> Prop) `{!forall c, Decision (f c)} s : net_state E := {|
  ns_conns := filter (fun c => ~ f c) (ns_conns s); ns_monitor := ns_monitor s;
  ns_opened := ns_opened s; ns_closed := ns_closed s ++ filter f (ns_conns s); ns_tasks := ns_tasks s |}.

Definition set_monitor s lcms (asked : list cm_effect) : net_state E := {|
  ns_conns := ns_conns s; ns_monitor := lcms; ns_opened := ns_opened s; ns_closed := ns_closed s;
  ns_tasks := ns_tasks s ++ asked |}.

Definition set_pending s (opened closed : list NetConn) (tasks : list cm_effect) : net_state E := {|
  ns_conns := ns_conns s; ns_monitor := ns_monitor s; ns_opened := opened; ns_closed := closed;
  ns_tasks := tasks |}.

Definition open_conn s c : net_state E := {|
  ns_conns := ns_conns s ++ [c]; ns_monitor := ns_monitor s; ns_opened := ns_opened s ++ [c];
  ns_closed := ns_closed s; ns_tasks := ns_tasks s |}.

(** [conn.Close()], [netw.ClosePeer(pid)]; the other effects are not on the
    connections. *)
Definition run_effect (e : cm_effect) s : net_state E :=
  match e with
  | DoConnClose id => close_conns (fun c => nc_ID c = id) s
  | DoClosePeer pid => close_conns (fun c => nc_RemotePeer c = pid) s
  | _ => s
  end.

Definition can_open s c : Prop :=
  conn_id (nc_ID c) = true /\ nc_ID c ∉ nc_ID <$> (ns_conns s ++ ns_opened s).

#[export] Instance can_open_dec s c : Decision (can_open s c).
Proof. unfold can_open. apply _. Defined.

(** The monitor with the sharder as it is now *)
Definition monitor_now s : libp2pConnectionMonitorSimple E :=
  set_sharder (ns_monitor s) (sharder_now (ns_monitor s)).

Definition net_step s (l : net_label E) : option (net_state E) :=
  match l with
  | LOpen c => guardP (can_open s c) $ Some (open_conn s c)
  | LDial pi peers c =>
      let host := {| hwcm_sharder := sharder_now (ns_monitor s) |} in
      let '(err, effects) := hw_Connect Pretty sort_Sort host (fun _ => None) peers pi in
      guardP (can_open s c /\ is_Peers (ns_conns s) peers /\ nc_RemotePeer c = ai_ID pi /\ err = None) $
      Some (open_conn s c)
  | LRemoteClose c => guardP (c ∈ ns_conns s) $ Some (close_conns (fun c' => c' = c) s)
  | LConnected c peers =>
      opened ← take_out c (ns_opened s);
      guardP (is_Peers (ns_conns s) peers) $
      let '(lcms, effects) := Connected Pretty sort_Sort AllShardId (monitor_now s) peers c in
      Some (set_monitor (set_pending s opened (ns_closed s) (ns_tasks s)) lcms effects)
  | LDisconnected c peers =>
      closed ← take_out c (ns_closed s);
      guardP (is_Peers (ns_conns s) peers) $
      '(lcms, effects) ← Disconnected (monitor_now s) peers (Some c);
      Some (set_monitor (set_pending s (ns_opened s) closed (ns_tasks s)) lcms effects)
  | LTask e =>
      tasks ← take_out e (ns_tasks s);
      Some (run_effect e (set_pending s (ns_opened s) (ns_closed s) tasks))
  | LCheck peers =>
      guardP (is_Peers (ns_conns s) peers) $
      Some (set_monitor s (ns_monitor s) (checkConnectionsBlocking (monitor_now s) peers))
  | LPutShardID pid shard =>
      guardP (conn_id pid = false) $
      Some (set_monitor s (set_holder (ns_monitor s)
        (PutShardID (lcms_preferredPeersHolder (ns_monitor s)) pid shard)) [])
  | LSetThreshold threshold peers =>
      guardP (is_Peers (ns_conns s) peers) $
      let '(lcms, effects) := lcms_SetThresholdMinConnectedPeers (ns_monitor s) threshold (Some peers) in
      Some (set_monitor s lcms effects)
  | LSetPeerDenialEvaluator e =>
      let '(_, lcms) := lcms_SetPeerDenialEvaluator (ns_monitor s) (Some e) in
      Some (set_monitor s lcms [])
  | LSetPeerShardResolver r =>
      let '(sh, _) := sh_SetPeerShardResolver (lcms_sharder (ns_monitor s)) (Some r) in
      Some (set_monitor s (set_sharder (ns_monitor s) sh) [])
  end.

Fixpoint net_run s (l : list (net_label E)) : option (net_state E) :=
  match l with
  | [] => Some s
  | ev :: l => s ← net_step s ev; net_run s l
  end.

(** A node without connections *)
Definition net_init (lcms : libp2pConnectionMonitorSimple E) : net_state E := {|
  ns_conns := []; ns_monitor := lcms; ns_opened := []; ns_closed := []; ns_tasks := [] |}.

(** The handlers and the closings; the rest comes from outside. *)
Definition internal (l : net_label E) : bool :=
  match l with LConnected _ _ | LDisconnected _ _ | LTask _ => true | _ => false end.

(** The steps that leave who is denied and who is counted to the node *)
Definition calm (l : net_label E) : bool :=
  match l with LSetPeerDenialEvaluator _ | LSetPeerShardResolver _ => false | _ => true end.

(** Nothing waits for a handler of an opened connection or to be closed. *)
Definition quiet s : Prop := ns_opened s = [] /\ ns_tasks s = [].
End network.

(** ** Invariants of the runs *)

Section runs.
Context {E : Type} `{PeerDenialEvaluator E}.
Context (Pretty : PeerID -> string).
Context (sort_Sort : list PeerDistance -> list PeerDistance) `{!SortSort sort_Sort}.
Context (AllShardId : Z).
Context (conn_id : string -> bool).
Implicit Types (s : net_state E) (c : NetConn) (peers : list PeerID) (m : libp2pConnectionMonitorSimple E).

Abbreviation step := (net_step Pretty sort_Sort AllShardId conn_id).
Abbreviation run := (net_run Pretty sort_Sort AllShardId conn_id).

(** Preferred peers have the ids of peers, connections those of connections. *)
Record net_inv s : Prop := {
  inv_limits : sh_limits_wf (lcms_sharder (ns_monitor s));
  inv_preferred p : Contains (lcms_preferredPeersHolder (ns_monitor s)) p = true -> conn_id p = false;
  inv_conn_ids c : c ∈ ns_conns s ++ ns_opened s ++ ns_closed s -> conn_id (nc_ID c) = true;
}.

Lemma sh_sharing_wf sh ph : sh_limits_wf (sh_sharing sh ph) <-> sh_limits_wf sh.
Proof. by destruct sh. Qed.

Lemma sh_sharing_sharing sh ph ph' : sh_sharing (sh_sharing sh ph) ph' = sh_sharing sh ph'.
Proof. by destruct sh. Qed.

(** How a monitor changes: the same sharder but for the holder, in which peers
    may have become preferred, and the same peers denied *)
Record monitor_le m m' : Prop := {
  le_sharder ph : sh_sharing (lcms_sharder m') ph = sh_sharing (lcms_sharder m) ph;
  le_preferred p : Contains (lcms_preferredPeersHolder m) p = true ->
    Contains (lcms_preferredPeersHolder m') p = true;
  le_denied p : lcms_IsDenied m' p = lcms_IsDenied m p;
}.

#[export] Instance monitor_le_refl : Reflexive monitor_le.
Proof. by split. Qed.

Lemma monitor_le_wf m m' : monitor_le m m' -> sh_limits_wf (lcms_sharder m) -> sh_limits_wf (lcms_sharder m').
Proof.
  intros Hle Hwf. apply (sh_sharing_wf _ (lcms_preferredPeersHolder m)).
  rewrite (le_sharder _ _ Hle). by apply sh_sharing_wf.
Qed.

(** [Connected] on the shared sharder, in its two branches *)
Lemma Connected_now s peers c m' asked :
  Connected Pretty sort_Sort AllShardId (monitor_now s) peers c = (m', asked) ->
  monitor_le (ns_monitor s) m'
  /\ (forall p, Contains (lcms_preferredPeersHolder m') p
                = Contains (lcms_preferredPeersHolder (ns_monitor s)) p)
  /\ (if lcms_IsDenied (ns_monitor s) (nc_RemotePeer c)
      then asked = [DoConnClose (nc_ID c)]
      else asked = DoNewKnownConnection (nc_RemotePeer c) (nc_RemoteMultiaddr c)
             :: (DoClosePeer <$> sh_ComputeEvictionList Pretty sort_Sort (sharder_now (ns_monitor s)) peers)).
Proof.
  unfold Connected. cbv zeta.
  change (lcms_IsDenied (monitor_now s)) with (lcms_IsDenied (ns_monitor s)).
  destruct (lcms_IsDenied (ns_monitor s) (nc_RemotePeer c)); intros [= <- <-].
  - split_and!; [split; [|done..]|done|done]. intros ph. apply sh_sharing_sharing.
  - split_and!; [split; [| |done]| |done].
    + intros ph. apply sh_sharing_sharing.
    + intros p. simpl. by rewrite Contains_PutConnectionAddress.
    + intros p. simpl. by rewrite Contains_PutConnectionAddress.
Qed.

(** No preferred peer is lost for the closing of a connection. *)
Lemma Disconnected_now s peers c :
  net_inv s -> conn_id (nc_ID c) = true ->
  Disconnected (monitor_now s) peers (Some c)
  = Some (monitor_now s, doReconnectionIfNeeded (ns_monitor s) peers).
Proof.
  intros Hinv Hid. unfold Disconnected. cbn [lcms_preferredPeersHolder monitor_now set_sharder].
  rewrite Remove_unknown; [done|]. apply not_true_is_false. intros Hc.
  apply (inv_preferred _ Hinv) in Hc. congruence.
Qed.

Lemma monitor_now_le s : monitor_le (ns_monitor s) (monitor_now s).
Proof. split; [|done..]. intros ph. apply sh_sharing_sharing. Qed.

Lemma PutShardID_le m pid shard :
  monitor_le m (set_holder m (PutShardID (lcms_preferredPeersHolder m) pid shard)).
Proof.
  split; [done| |done]. intros p Hp. simpl.
  by destruct (Contains_PutShardID (lcms_preferredPeersHolder m) pid shard p) as [-> |[_ ->]].
Qed.

(** *** The shape of the steps *)

(** A connection that stays: its handler has run, and nothing waits to close it. *)
Definition closing s c : Prop :=
  DoConnClose (nc_ID c) ∈ ns_tasks s \/ DoClosePeer (nc_RemotePeer c) ∈ ns_tasks s.

Definition live s c : Prop := c ∈ ns_conns s /\ c ∉ ns_opened s /\ ~ closing s c.

Definition keeps_sharder (l : net_label E) : bool :=
  match l with LSetPeerShardResolver _ => false | _ => true end.

Definition keeps_denied (l : net_label E) : bool :=
  match l with LSetPeerDenialEvaluator _ => false | _ => true end.

(** The outcome of a step *)
Inductive net_stepped s : net_label E -> net_state E -> Prop :=
| SOpen l c : can_open conn_id s c -> (l = LOpen c \/ exists pi peers, l = LDial pi peers c) ->
    net_stepped s l (open_conn s c)
| SRemoteClose c : net_stepped s (LRemoteClose c) (close_conns (fun c' => c' = c) s)
| SConnected c peers opened m' asked :
    ns_opened s ≡ₚ c :: opened -> is_Peers (ns_conns s) peers ->
    Connected Pretty sort_Sort AllShardId (monitor_now s) peers c = (m', asked) ->
    net_stepped s (LConnected c peers)
      (set_monitor (set_pending s opened (ns_closed s) (ns_tasks s)) m' asked)
| SDisconnected c peers closed m' asked :
    ns_closed s ≡ₚ c :: closed -> Disconnected (monitor_now s) peers (Some c) = Some (m', asked) ->
    net_stepped s (LDisconnected c peers)
      (set_monitor (set_pending s (ns_opened s) closed (ns_tasks s)) m' asked)
| STask e tasks :
    ns_tasks s ≡ₚ e :: tasks ->
    net_stepped s (LTask e) (run_effect e (set_pending s (ns_opened s) (ns_closed s) tasks))
| SCheck peers :
    is_Peers (ns_conns s) peers ->
    net_stepped s (LCheck peers)
      (set_monitor s (ns_monitor s) (checkConnectionsBlocking (monitor_now s) peers))
| SMonitor l m' asked :
    sh_limits_wf (lcms_sharder (ns_monitor s)) -> sh_limits_wf (lcms_sharder m') ->
    (forall p, Contains (lcms_preferredPeersHolder m') p = true ->
      Contains (lcms_preferredPeersHolder (ns_monitor s)) p = true \/ conn_id p = false) ->
    (forall p, Contains (lcms_preferredPeersHolder (ns_monitor s)) p = true ->
      Contains (lcms_preferredPeersHolder m') p = true) ->
    (keeps_sharder l = true -> forall ph,
       sh_sharing (lcms_sharder m') ph = sh_sharing (lcms_sharder (ns_monitor s)) ph) ->
    (keeps_denied l = true -> forall p, lcms_IsDenied m' p = lcms_IsDenied (ns_monitor s) p) ->
    internal l = false ->
    net_stepped s l (set_monitor s m' asked).

Lemma net_step_stepped s l s' : net_inv s -> step s l = Some s' -> net_stepped s l s'.
Proof.
  intros Hinv. pose proof (inv_limits _ Hinv) as Hwf.
  destruct l; unfold net_step.
  - intros [Ho [= <-]]%guardP_Some. constructor; [done|by left].
  - destruct (hw_Connect _ _ _ _ _ _) as [err effects]. intros [(Ho & _) [= <-]]%guardP_Some.
    constructor; [done|]. right. eauto.
  - intros [_ [= <-]]%guardP_Some. constructor.
  - destruct (take_out c (ns_opened s)) as [opened|] eqn:Ht; [|done]. cbn [mbind option_bind].
    intros [Hp Hc]%guardP_Some. destruct (Connected _ _ _ _ _ _) as [m' asked] eqn:HC.
    injection Hc as <-. econstructor; [by apply take_out_perm|done|done].
  - destruct (take_out c (ns_closed s)) as [closed|] eqn:Ht; [|done]. cbn [mbind option_bind].
    intros [Hp Hc]%guardP_Some. destruct (Disconnected _ _ _) as [[m' asked]|] eqn:HC; [|done].
    injection Hc as <-. econstructor; [by apply take_out_perm|done].
  - destruct (take_out e (ns_tasks s)) as [tasks|] eqn:Ht; [|done]. cbn [mbind option_bind].
    intros [= <-]. constructor. by apply take_out_perm.
  - intros [Hp [= <-]]%guardP_Some. by constructor.
  - intros [Hid [= <-]]%guardP_Some. constructor; try done.
    + intros p. simpl. destruct (Contains_PutShardID (lcms_preferredPeersHolder (ns_monitor s)) pid shard p)
        as [-> |[-> _]]; auto.
    + apply PutShardID_le.
  - intros [Hp Hc]%guardP_Some. cbn in Hc. injection Hc as <-. by constructor; auto.
  - cbn. intros [= <-]. by constructor; auto.
  - destruct (lcms_sharder (ns_monitor s)) as [ls|ols|] eqn:Hs; cbn; intros [= <-];
      by constructor; auto; rewrite Hs.
Qed.

Lemma step_inv s l s' : net_inv s -> step s l = Some s' -> net_inv s'.
Proof.
  intros Hinv Hst%net_step_stepped; [|done]. pose proof (inv_conn_ids _ Hinv) as Hids.
  assert (Hclose : forall (f : NetConn -> Prop) `{!forall c, Decision (f c)} s0,
    net_inv s0 -> net_inv (close_conns f s0)).
  { intros f Hf s0 [H1 H2 H3]. split; [done|done|]. intros c. simpl. intros Hc. apply H3.
    rewrite !elem_of_app, !list_elem_of_filter in Hc. set_solver. }
  destruct Hst as [l c [Hc _] _|c|c peers opened m' asked Hp _ HC|c peers closed m' asked Hp HD|e tasks Hp|peers _
    |l m' asked _ Hwf' Hpref _ _ _ _].
  - split; [apply Hinv|apply Hinv|]. intros c'. simpl. intros Hc'.
    destruct (decide (c' = c)) as [->|]; [done|]. apply Hids. set_solver.
  - by apply Hclose.
  - destruct (Connected_now _ _ _ _ _ HC) as (Hle & Hcont & _). split.
    + simpl. eapply monitor_le_wf; [done|apply Hinv].
    + intros p. simpl. rewrite Hcont. apply Hinv.
    + intros c'. simpl. intros Hc'. apply Hids. rewrite Hp. set_solver.
  - rewrite Disconnected_now in HD; [|done|apply Hids; rewrite Hp; set_solver]. injection HD as <- <-. split.
    + simpl. apply sh_sharing_wf, Hinv.
    + apply Hinv.
    + intros c'. simpl. intros Hc'. apply Hids. rewrite Hp. set_solver.
  - assert (net_inv (set_pending s (ns_opened s) (ns_closed s) tasks)) by (split; apply Hinv).
    destruct e; simpl; try done; by apply Hclose.
  - split; apply Hinv.
  - split; [done| |apply Hids]. intros p. simpl. intros Hc. destruct (Hpref p Hc) as [Hc'|]; [|done].
    by apply (inv_preferred _ Hinv).
Qed.

Lemma run_ind (P : net_state E -> Prop) (ok : net_label E -> bool) s l s' :
  (forall s l s', net_inv s -> P s -> ok l = true -> step s l = Some s' -> P s') ->
  net_inv s -> P s -> forallb ok l = true -> run s l = Some s' -> P s'.
Proof.
  intros Hstep. revert s. induction l as [|ev l IH]; intros s Hinv HP Hok; simpl; [by intros [= <-]|].
  simpl in Hok. apply andb_true_iff in Hok as [Hev Hl].
  destruct (step s ev) as [s1|] eqn:Hs; [|done]. simpl. apply IH; [by eapply step_inv|by eapply Hstep|done].
Qed.

Lemma run_inv s l s' : net_inv s -> run s l = Some s' -> net_inv s'.
Proof.
  intros Hinv. apply (run_ind net_inv (fun _ => true)); [|done|done|by apply forallb_forall].
  intros; by eapply step_inv.
Qed.

(** Which connections may come to stay in a step: those of the handler that has
    run, when their peer is not denied *)
Lemma step_live s l s' c :
  net_inv s -> step s l = Some s' -> live s' c ->
  live s c
  \/ (exists peers, l = LConnected c peers /\ lcms_IsDenied (ns_monitor s) (nc_RemotePeer c) = false).
Proof.
  intros Hinv Hst%net_step_stepped; [|done]. unfold live, closing.
  destruct Hst as [l d _ _|d|d peers opened m' asked Hp _ HC|d peers closed m' asked Hp HD|e tasks Hp|peers _
    |l m' asked _ _ _ _ _ _ _]; simpl; intros (Hc & Ho & Ht).
  - left. set_solver.
  - left. rewrite list_elem_of_filter in Hc. naive_solver.
  - destruct (Connected_now _ _ _ _ _ HC) as (_ & _ & Hasked). destruct (decide (c = d)) as [->|Hne].
    + destruct (lcms_IsDenied _ _) eqn:Hd; [|by eauto]. subst asked. set_solver.
    + left. rewrite Hp. set_solver.
  - left. set_solver.
  - left. rewrite Hp. destruct e; simpl in *; try set_solver;
      rewrite list_elem_of_filter in Hc; set_solver.
  - left. set_solver.
  - left. set_solver.
Qed.

Lemma step_monitor s l s' :
  net_inv s -> step s l = Some s' ->
  (forall p, Contains (lcms_preferredPeersHolder (ns_monitor s)) p = true ->
    Contains (lcms_preferredPeersHolder (ns_monitor s')) p = true)
  /\ (keeps_sharder l = true -> forall ph,
       sh_sharing (lcms_sharder (ns_monitor s')) ph = sh_sharing (lcms_sharder (ns_monitor s)) ph)
  /\ (keeps_denied l = true -> forall p, lcms_IsDenied (ns_monitor s') p = lcms_IsDenied (ns_monitor s) p).
Proof.
  intros Hinv Hst%net_step_stepped; [|done].
  assert (Hle : forall m', monitor_le (ns_monitor s) m' ->
    (forall p, Contains (lcms_preferredPeersHolder (ns_monitor s)) p = true ->
      Contains (lcms_preferredPeersHolder m') p = true)
    /\ (keeps_sharder l = true -> forall ph,
       sh_sharing (lcms_sharder m') ph = sh_sharing (lcms_sharder (ns_monitor s)) ph)
    /\ (keeps_denied l = true -> forall p, lcms_IsDenied m' p = lcms_IsDenied (ns_monitor s) p)).
  { intros m' [H1 H2 H3]. by split_and!. }
  destruct Hst as [l c _ _|c|c peers opened m' asked Hp _ HC|c peers closed m' asked Hp HD|e tasks Hp|peers _
    |l m' asked _ _ _ Hpref Hsh Hden _].
  - by apply Hle.
  - by apply Hle.
  - apply Hle. by destruct (Connected_now _ _ _ _ _ HC).
  - rewrite Disconnected_now in HD; [|done|apply (inv_conn_ids _ Hinv); rewrite Hp; set_solver].
    injection HD as <- <-. apply Hle, monitor_now_le.
  - destruct e; by apply Hle.
  - by apply Hle.
  - by split_and!.
Qed.

(** *** The bounds *)

(** The peers of the connections that stay are within the limits. *)
Definition settled s : Prop :=
  forall limit, limit ∈ sh_limits Pretty (sharder_now (ns_monitor s)) ->
  forall peers, NoDup peers -> (forall p, p ∈ peers -> exists c, live s c /\ nc_RemotePeer c = p) ->
  within limit peers.

(** More preferred peers, fewer counted ones *)
Lemma limits_le sh ph ph' limit' :
  (forall p, Contains ph p = true -> Contains ph' p = true) ->
  limit' ∈ sh_limits Pretty (sh_sharing sh ph') ->
  exists limit, limit ∈ sh_limits Pretty (sh_sharing sh ph)
    /\ (forall p, limit'.1 p = true -> limit.1 p = true) /\ limit.2 <= limit'.2.
Proof.
  intros Hph Hin. destruct sh as [ls|ols|]; simpl in *.
  - apply elem_of_cons in Hin as [->|Hin%list_elem_of_singleton]; [|subst limit'].
    + eexists. split; [by left|]. split; [|done]. intros p. simpl. unfold counted. simpl.
      change (ls_IsSeeder Pretty (ls_sharing ls ph')) with (ls_IsSeeder Pretty ls).
      change (ls_IsSeeder Pretty (ls_sharing ls ph)) with (ls_IsSeeder Pretty ls).
      specialize (Hph p). destruct (ls_IsSeeder Pretty ls p), (Contains ph p), (Contains ph' p); try done.
      by specialize (Hph eq_refl).
    + eexists. split; [by right; left|]. by split.
  - apply list_elem_of_singleton in Hin as ->. eexists. by split; [left|].
  - by apply elem_of_nil in Hin.
Qed.

Lemma settled_mono s s' :
  settled s ->
  (forall ph, sh_sharing (lcms_sharder (ns_monitor s')) ph = sh_sharing (lcms_sharder (ns_monitor s)) ph) ->
  (forall p, Contains (lcms_preferredPeersHolder (ns_monitor s)) p = true ->
    Contains (lcms_preferredPeersHolder (ns_monitor s')) p = true) ->
  (forall c, live s' c -> live s c) -> settled s'.
Proof.
  intros Hs Hsh Hph Hlive limit' Hin peers Hnd Hpeers. unfold sharder_now in Hin. rewrite Hsh in Hin.
  destruct (limits_le _ _ _ _ Hph Hin) as (limit & Hl & Hf & Hn).
  eapply within_mono; [exact Hnd|by intros p Hp; exact Hp|exact Hf|exact Hn|].
  apply Hs; [done|done|]. intros p Hp. destruct (Hpeers p Hp) as (c & Hc & Hr). eauto.
Qed.

Lemma settled_init lcms : sh_limits_wf (lcms_sharder lcms) -> settled (net_init lcms).
Proof.
  intros Hwf limit Hl peers _ Hpeers. destruct peers as [|p peers].
  - eapply sh_limits_nonneg; [|exact Hl]. by apply sh_sharing_wf.
  - destruct (Hpeers p) as (c & (Hc & _) & _); [by left|]. by apply elem_of_nil in Hc.
Qed.

(** A handler that reads the peers settles the state, whatever it was before. *)
Lemma Connected_settles s c peers s' :
  net_inv s -> step s (LConnected c peers) = Some s' ->
  lcms_IsDenied (ns_monitor s) (nc_RemotePeer c) = false -> settled s'.
Proof.
  intros Hinv Hst%net_step_stepped Hd; [|done].
  remember (LConnected c peers) as l eqn:Hl.
  destruct Hst as [l d _ [->|(? & ? & ->)]|d|d peers' opened m' asked Hp (Hnd & Hin1 & Hin2) HC|d peers' closed m' asked Hp HD
    |e tasks Hp|peers' _|l m' asked _ _ _ _ _ _ Hint]; try discriminate Hl; [injection Hl as -> ->|by subst l].
  destruct (Connected_now _ _ _ _ _ HC) as (Hle & Hcont & Hasked). rewrite Hd in Hasked.
  intros limit' Hin peers2 Hnd2 Hpeers2. unfold sharder_now in Hin. simpl in Hin.
  rewrite (le_sharder _ _ Hle) in Hin.
  destruct (limits_le _ (lcms_preferredPeersHolder (ns_monitor s)) _ _ (le_preferred _ _ Hle) Hin)
    as (limit & Hl & Hf & Hn).
  eapply within_mono; [exact Hnd2| |exact Hf|exact Hn|eapply (sh_remaining Pretty sort_Sort _ peers)].
  - intros p Hp2. destruct (Hpeers2 p Hp2) as (d & (Hd1 & _ & Hd2) & <-). simpl in *.
    rewrite list_elem_of_filter. split.
    + intros Hev. apply Hd2. right. simpl. rewrite Hasked.
      apply elem_of_app. right. apply elem_of_cons. right. by apply (elem_of_DoClosePeer Pretty).
    + rewrite Forall_forall in Hin2. by apply Hin2.
  - apply sh_sharing_wf, Hinv.
  - exact Hl.
Qed.

Lemma step_settled s l s' :
  net_inv s -> settled s -> keeps_sharder l = true -> step s l = Some s' -> settled s'.
Proof.
  intros Hinv Hset Hk Hst. destruct (step_monitor _ _ _ Hinv Hst) as (Hph & Hsh & _).
  assert (Hcase : (exists c peers, l = LConnected c peers /\ lcms_IsDenied (ns_monitor s) (nc_RemotePeer c) = false)
    \/ (forall c, live s' c -> live s c)).
  { destruct l as [| | |c peers| | | | | | |]; try (right; intros c0 Hc;
      destruct (step_live _ _ _ _ Hinv Hst Hc) as [?|(? & ? & _)]; done).
    destruct (lcms_IsDenied (ns_monitor s) (nc_RemotePeer c)) eqn:Hd; [right|left; eauto].
    intros c0 Hc. destruct (step_live _ _ _ _ Hinv Hst Hc) as [?|(peers0 & [= -> ->] & Hd0)]; congruence. }
  destruct Hcase as [(c & peers & -> & Hd)|Hlive].
  - by eapply Connected_settles.
  - eapply settled_mono; [exact Hset|by apply Hsh|exact Hph|exact Hlive].
Qed.

Lemma quiet_live s c : quiet s -> c ∈ ns_conns s -> live s c.
Proof.
  intros [Ho Ht] Hc. unfold live, closing. rewrite Ho, Ht. set_solver.
Qed.

Lemma settled_within s limit peers :
  settled s -> quiet s -> is_Peers (ns_conns s) peers ->
  limit ∈ sh_limits Pretty (sharder_now (ns_monitor s)) -> within limit peers.
Proof.
  intros Hs Hq (Hnd & Hp & _) Hl. apply Hs; [done..|]. intros p Hin. rewrite Forall_forall in Hp.
  apply Hp, list_elem_of_fmap in Hin as (c & -> & Hc). exists c. split; [by apply quiet_live|done].
Qed.

(** *** The denied peers *)

Definition no_denied s : Prop := forall c, live s c -> lcms_IsDenied (ns_monitor s) (nc_RemotePeer c) = false.

Lemma step_no_denied s l s' :
  net_inv s -> no_denied s -> keeps_denied l = true -> step s l = Some s' -> no_denied s'.
Proof.
  intros Hinv Hno Hk Hst c Hc. destruct (step_monitor _ _ _ Hinv Hst) as (_ & _ & Hden).
  rewrite Hden by done. destruct (step_live _ _ _ _ Hinv Hst Hc) as [Hl|(peers & _ & Hd)]; [by apply Hno|done].
Qed.

Lemma check_no_denied s peers s' : net_inv s -> step s (LCheck peers) = Some s' -> no_denied s'.
Proof.
  intros Hinv Hst c Hc. unfold net_step in Hst. apply guardP_Some in Hst as [(_ & _ & Hin) [= <-]].
  destruct Hc as (Hc & _ & Hn). simpl in *. apply not_true_is_false. intros Hd. apply Hn. right. simpl.
  apply elem_of_app. right. unfold checkConnectionsBlocking. rewrite (elem_of_DoClosePeer Pretty), list_elem_of_filter.
  split; [exact Hd|]. rewrite Forall_forall in Hin. by apply Hin.
Qed.

(** *** The handlers come to an end *)

Definition internal_step s' s : Prop :=
  net_inv s /\ exists l, internal l = true /\ step s l = Some s'.

(** The handlers of opened connections, then what the connections, their
    notifications and the closings can still give rise to *)
Definition work s : nat * nat :=
  (length (ns_opened s),
   (length (ns_tasks s) + 2 * length (ns_closed s) + 3 * length (ns_conns s))%nat).

Definition less_work (a b : nat * nat) : Prop := (a.1 < b.1 \/ a.1 = b.1 /\ a.2 < b.2)%nat.

Lemma less_work_wf : well_founded less_work.
Proof.
  assert (Hacc : forall a b, Acc less_work (a, b)).
  { induction a as [a IHa] using lt_wf_ind. induction b as [b IHb] using lt_wf_ind.
    constructor. intros [a' b'] [Hlt|[Heq Hlt]]; simpl in *; [by apply IHa|]. subst. by apply IHb. }
  intros [a b]. apply Hacc.
Qed.

Lemma length_close_conns (f : NetConn -> Prop) `{!forall c, Decision (f c)} s :
  ((work (close_conns f s)).2 <= (work s).2)%nat.
Proof.
  unfold work. simpl. rewrite length_app.
  assert (Hp : (length (filter f (ns_conns s)) + length (filter (fun c => ~ f c) (ns_conns s)))%nat
    = length (ns_conns s)).
  { induction (ns_conns s) as [|c l IH]; [done|]. rewrite !filter_cons.
    destruct (decide (f c)); [rewrite decide_False by (intros Hn; by apply Hn)|rewrite decide_True by done];
      simpl; lia. }
  lia.
Qed.

Lemma internal_step_less s' s : internal_step s' s -> less_work (work s') (work s).
Proof.
  intros (Hinv & l & Hi & Hst%net_step_stepped); [|done]. unfold less_work.
  destruct Hst as [l c _ [->|(? & ? & ->)]|c|c peers opened m' asked Hp _ HC|c peers closed m' asked Hp HD|e tasks Hp|peers _
    |l m' asked _ _ _ _ _ _ Hn]; try discriminate Hi; [..|congruence].
  - left. apply Permutation_length in Hp. unfold work. simpl in *. lia.
  - right. rewrite Disconnected_now in HD; [|done|apply (inv_conn_ids _ Hinv); rewrite Hp; set_solver].
    injection HD as <- <-. apply Permutation_length in Hp. split; [done|]. unfold work. simpl in *.
    rewrite length_app. unfold doReconnectionIfNeeded. destruct (negb _); simpl; lia.
  - right. set (s0 := set_pending s (ns_opened s) (ns_closed s) tasks).
    assert (Hlt : ((work s0).2 < (work s).2)%nat).
    { apply Permutation_length in Hp. unfold work. simpl in *. lia. }
    assert (Hle : (work (run_effect e s0)).1 = (work s).1 /\ ((work (run_effect e s0)).2 <= (work s0).2)%nat).
    { destruct e; simpl; (split; [done|]); try done; apply (length_close_conns _ s0). }
    lia.
Qed.

Lemma internal_step_wf : well_founded internal_step.
Proof.
  apply (wf_projected less_work work); [apply internal_step_less|apply less_work_wf].
Qed.

Lemma some_Peers (conns : list NetConn) : exists peers, is_Peers conns peers.
Proof.
  exists (remove_dups (nc_RemotePeer <$> conns)). split; [apply NoDup_remove_dups|].
  rewrite !Forall_forall. split; intros p Hp.
  - by apply elem_of_remove_dups.
  - apply elem_of_remove_dups, list_elem_of_fmap. eauto.
Qed.

Lemma internal_progress s :
  net_inv s -> ns_opened s <> [] \/ ns_closed s <> [] \/ ns_tasks s <> [] ->
  exists s', internal_step s' s.
Proof.
  intros Hinv Hw. destruct (some_Peers (ns_conns s)) as [peers Hpeers].
  assert (Hex : exists l s', internal l = true /\ step s l = Some s'); [|destruct Hex as (l & s' & Hi & Hs);
    exists s'; split; [done|eauto]].
  destruct Hw as [Hw|[Hw|Hw]].
  - destruct (ns_opened s) as [|c opened] eqn:Ho; [done|]. exists (LConnected c peers).
    unfold net_step. rewrite Ho. cbn [take_out]. rewrite decide_True by done. cbn [mbind option_bind].
    unfold guardP. rewrite decide_True by done. destruct (Connected _ _ _ _ _ _). eauto.
  - destruct (ns_closed s) as [|c closed] eqn:Ho; [done|]. exists (LDisconnected c peers).
    unfold net_step. rewrite Ho. cbn [take_out]. rewrite decide_True by done. cbn [mbind option_bind].
    unfold guardP. rewrite decide_True by done. rewrite Disconnected_now; [eauto|done|].
    apply (inv_conn_ids _ Hinv). rewrite Ho. set_solver.
  - destruct (ns_tasks s) as [|e tasks] eqn:Ho; [done|]. exists (LTask e).
    unfold net_step. rewrite Ho. cbn [take_out]. rewrite decide_True by done. eauto.
Qed.

(** C9: whatever connections are open and whatever their handlers have asked for, the
    node comes to rest: the handlers of the notifications and the closings cannot
    go on for ever, in any order, and while one of them waits it can run (no
    handler panics), so that without new connections all have run in the end. *)
Theorem handlers_come_to_rest :
  well_founded internal_step
  /\ (forall s, net_inv s ->
      (forall s', ~ internal_step s' s) -> quiet s /\ ns_closed s = []).
Proof.
  split; [apply internal_step_wf|]. intros s Hinv Hno.
  assert (Hn : ~ (ns_opened s <> [] \/ ns_closed s <> [] \/ ns_tasks s <> [])).
  { intros Hw. destruct (internal_progress s Hinv Hw) as [s' Hs]. by apply (Hno s'). }
  unfold quiet. destruct (ns_opened s), (ns_closed s), (ns_tasks s); naive_solver.
Qed.

(** C8: denied peers do not stay. Once the monitor has checked the connections,
    and as long as the evaluator is not replaced, every connection whose handler has
    run and that nothing waits to close is one of a peer that is not denied: a
    quiet node is connected to no denied peer, whatever connections were opened since. *)
Theorem denied_peers_leave lcms l1 s1 peers s2 l s :
  net_inv (net_init lcms) -> run (net_init lcms) l1 = Some s1 -> step s1 (LCheck peers) = Some s2 ->
  run s2 l = Some s -> forallb keeps_denied l = true ->
  (forall c, live s c -> lcms_IsDenied (ns_monitor s) (nc_RemotePeer c) = false)
  /\ (quiet s -> forall c, c ∈ ns_conns s -> lcms_IsDenied (ns_monitor s) (nc_RemotePeer c) = false).
Proof.
  intros Hinit H1 Hcheck Hrun Hok. assert (Hinv : net_inv s1) by by eapply run_inv.
  assert (Hno : no_denied s).
  { eapply (run_ind no_denied keeps_denied s2 l s); [intros; by eapply step_no_denied| | |done|done].
    - by eapply step_inv.
    - by eapply check_no_denied. }
  split; [exact Hno|]. intros Hq c Hc. by apply Hno, quiet_live.
Qed.
(** *** Reconnection *)

(** The steps that run no handler of a closed connection and keep the threshold *)
Definition keeps_waiting (l : net_label E) : bool :=
  match l with LDisconnected _ _ | LSetThreshold _ _ => false | _ => true end.

(** While no closing was seen, connections have only been added. *)
Definition only_added s1 s : Prop :=
  ns_closed s = [] ->
  (forall c, c ∈ ns_conns s1 -> c ∈ ns_conns s)
  /\ thresholdMinConnectedPeers (ns_monitor s) = thresholdMinConnectedPeers (ns_monitor s1).

Lemma close_conns_none (f : NetConn -> Prop) `{!forall c, Decision (f c)} s :
  ns_closed (close_conns f s) = [] -> ns_closed s = [] /\ ns_conns (close_conns f s) = ns_conns s.
Proof.
  simpl. intros [Hc Hf]%app_eq_nil. split; [done|]. induction (ns_conns s) as [|c l IH]; [done|].
  rewrite filter_cons in Hf. rewrite filter_cons. destruct (decide (f c)); [discriminate Hf|].
  rewrite decide_True by done. by rewrite IH.
Qed.

Lemma step_only_added s1 s l s' :
  net_inv s -> only_added s1 s -> keeps_waiting l = true -> step s l = Some s' -> only_added s1 s'.
Proof.
  intros Hinv Hadd Hk Hst Hnil. unfold net_step in Hst.
  assert (Hsame : ns_closed s = [] -> ns_conns s' = ns_conns s ->
    thresholdMinConnectedPeers (ns_monitor s') = thresholdMinConnectedPeers (ns_monitor s) ->
    (forall c, c ∈ ns_conns s1 -> c ∈ ns_conns s')
    /\ thresholdMinConnectedPeers (ns_monitor s') = thresholdMinConnectedPeers (ns_monitor s1)).
  { intros H1 H2 H3. rewrite H2, H3. by apply Hadd. }
  destruct l; try discriminate Hk.
  - apply guardP_Some in Hst as [_ [= <-]]. destruct (Hadd Hnil) as [H1 H2]. split; [|done].
    intros c' Hc'. apply elem_of_app. left. by apply H1.
  - destruct (hw_Connect _ _ _ _ _ _) as [err effects]. apply guardP_Some in Hst as [_ [= <-]].
    destruct (Hadd Hnil) as [H1 H2]. split; [|done]. intros c' Hc'. apply elem_of_app. left. by apply H1.
  - apply guardP_Some in Hst as [_ [= <-]]. apply close_conns_none in Hnil as [H1 H2]. by apply Hsame.
  - destruct (take_out _ _) as [opened|]; [|done]. cbn [mbind option_bind] in Hst.
    apply guardP_Some in Hst as [_ Hst]. unfold Connected in Hst.
    destruct (lcms_IsDenied _ _) in Hst; injection Hst as <-; by apply Hsame.
  - destruct (take_out _ _) as [tasks|]; [|done]. cbn [mbind option_bind] in Hst. injection Hst as <-.
    destruct e; try (by apply Hsame); apply close_conns_none in Hnil as [H1 H2]; by apply Hsame.
  - apply guardP_Some in Hst as [_ [= <-]]. by apply Hsame.
  - apply guardP_Some in Hst as [_ [= <-]]. by apply Hsame.
  - injection Hst as <-. by apply Hsame.
  - destruct (sh_SetPeerShardResolver _ _) as [sh err]. injection Hst as <-. by apply Hsame.
Qed.

(** C24: a node that is left with too few peers has asked for a reconnection. When
    all the handlers of closed connections have run and there are fewer peers than
    the threshold, the last of these handlers has asked the loop of the monitor to
    reconnect, whatever connections were opened since and closings asked for. *)
Theorem reconnection_asked s c peers1 s1 l s' peers :
  net_inv s -> step s (LDisconnected c peers1) = Some s1 -> run s1 l = Some s' ->
  forallb keeps_waiting l = true -> ns_closed s' = [] -> is_Peers (ns_conns s') peers ->
  len peers < thresholdMinConnectedPeers (ns_monitor s') ->
  ns_tasks s1 = ns_tasks s ++ [DoReconn].
Proof.
  intros Hinv Hst Hrun Hok Hnil (Hnd & _ & Hall) Hlt. rewrite Forall_forall in Hall.
  assert (Hadd : only_added s1 s').
  { eapply (run_ind (only_added s1) keeps_waiting s1 l s'); [intros; by eapply step_only_added| | |done|done];
      [by eapply step_inv|by intros _]. }
  destruct (Hadd Hnil) as [Hconns Hthr]. rewrite Hthr in Hlt. clear Hadd Hthr Hrun.
  unfold net_step in Hst. destruct (take_out _ _) as [closed|] eqn:Ht; [|done]. cbn [mbind option_bind] in Hst.
  apply guardP_Some in Hst as [(Hnd1 & Hin1 & _) Hst]. rewrite Forall_forall in Hin1.
  rewrite Disconnected_now in Hst; [|done|].
  2: { apply (inv_conn_ids _ Hinv). apply take_out_perm in Ht. rewrite Ht. set_solver. }
  injection Hst as <-. simpl in *. unfold doReconnectionIfNeeded, lcms_IsConnectedToTheNetwork.
  assert (Hle : len peers1 <= len peers).
  { apply len_submseteq, NoDup_submseteq; [done|]. intros p Hp. apply Hin1, list_elem_of_fmap in Hp as (c' & -> & Hc').
    by apply Hall, Hconns. }
  destruct (_ >=? _) eqn:Hge; bdestruct_all; [lia|done].
Qed.
End runs.

(** ** The connections of a messenger *)

(** The maximums of a sharder, as the configuration gives them *)
Definition configured (c : ShardingConfig) (sh : Sharder) : Prop :=
  match sh with
  | SLists ls => maxPeerCount ls = TargetPeerCount c /\ maxSeeders ls = MaxSeeders c
  | SOneList ols => ols_maxPeerCount ols = TargetPeerCount c
  | SNil => True
  end.

Lemma NewSharder_configured ConvertPeerID arg sh :
  sharding_config_wf (Sharding (asf_P2pConfig arg)) -> NewSharder ConvertPeerID arg = Ok sh ->
  sh_limits_wf sh /\ configured (Sharding (asf_P2pConfig arg)) sh.
Proof.
  intros Hcfg. unfold NewSharder, listSharder, oneListSharder_factory, NewOneListSharder.
  intros [_ Hn]%guard_err_Ok. revert Hn. case_decide; [|case_decide; [|case_decide; [by intros [= <-]|done]]].
  - set (a := Build_ArgListsSharder _ _ _ _ _).
    pose proof (NewListsSharder_spec ConvertPeerID a Hcfg) as Hl.
    destruct (NewListsSharder ConvertPeerID a) as [ls|err]; [|done]. intros [= <-].
    destruct Hl as (Hwf & Hm & Hs & _). by split.
  - intros (ols & [Hm [= <-]]%guard_err_Ok & [= <-])%bind_Ok. split; [|done]. simpl.
    unfold minAllowedConnectedPeersOneSharder in Hm. bdestruct_all. lia.
Qed.

Lemma configured_SetSeeders c sh addresses :
  sh_limits_wf sh /\ configured c sh ->
  sh_limits_wf (sh_SetSeeders sh addresses) /\ configured c (sh_SetSeeders sh addresses).
Proof. by destruct sh. Qed.

Lemma configured_SetPeerShardResolver c sh psp :
  configured c sh -> configured c (sh_SetPeerShardResolver sh psp).1.
Proof. destruct sh as [ls| |]; [|done..]. by destruct psp. Qed.

Lemma configured_sharing c sh ph : configured c (sh_sharing sh ph) <-> configured c sh.
Proof. by destruct sh. Qed.

Section messenger.
Context {Rand LPriv LPub SK PK : Type} `{Libp2pKeys Rand LPriv LPub} `{CommonKeys SK PK}.
Context {W T C PS P Q E : Type} `{PeerDenialEvaluator E}.
Context (NewWatcherCache : Z -> W) (NewTimeCache : Z -> T) (NewCache : Z -> result C).
Context (Pretty : PeerID -> string) (Sum256 : bytes -> bytes).
Context (other_directive : string -> option Z -> string).
Context (ConvertPeerID : PeerID -> vec byte 32).
Context (sort_Sort : list PeerDistance -> list PeerDistance) `{!SortSort sort_Sort}.
Context (AllShardId : Z) (conn_id : string -> bool).
Implicit Types (s : net_state E) (m : libp2pConnectionMonitorSimple E).

Abbreviation step := (net_step Pretty sort_Sort AllShardId conn_id).
Abbreviation run := (net_run Pretty sort_Sort AllShardId conn_id).

(** The maximums never change. *)
Lemma step_configured c s l s' :
  net_inv conn_id s -> configured c (lcms_sharder (ns_monitor s)) -> step s l = Some s' ->
  configured c (lcms_sharder (ns_monitor s')).
Proof.
  intros Hinv Hc Hst. destruct (keeps_sharder l) eqn:Hk.
  - destruct (step_monitor _ _ _ _ _ _ _ Hinv Hst) as (_ & Hsh & _). specialize (Hsh Hk).
    apply (configured_sharing _ _ (lcms_preferredPeersHolder (ns_monitor s))). rewrite Hsh.
    by apply configured_sharing.
  - destruct l; try discriminate Hk. unfold net_step in Hst.
    pose proof (configured_SetPeerShardResolver c (lcms_sharder (ns_monitor s)) (Some resolver) Hc) as Hc'.
    destruct (sh_SetPeerShardResolver _ _) as [sh err]. by injection Hst as <-.
Qed.

Lemma run_configured c s l s' :
  net_inv conn_id s -> configured c (lcms_sharder (ns_monitor s)) -> run s l = Some s' ->
  configured c (lcms_sharder (ns_monitor s')).
Proof.
  intros Hinv Hc. apply (run_ind Pretty sort_Sort AllShardId conn_id
    (fun s => configured c (lcms_sharder (ns_monitor s))) (fun _ => true)); [|done|done|by apply forallb_forall].
  intros; by eapply step_configured.
Qed.

Lemma messenger_monitor attempts (su : surroundings (PS := PS)) (args : ArgsNetworkMessenger SK) signing node
    (c : components (T := T) (C := C) (PS := PS) (P := P) (Q := Q) (E := E)) effects holder :
  newNetworkMessenger NewWatcherCache NewTimeCache NewCache Pretty Sum256 other_directive ConvertPeerID
    attempts su args signing = Some (Ok (node, c), effects) ->
  sharding_config_wf (Sharding (anm_P2pConfig args)) ->
  anm_PreferredPeersHolder args = Some holder ->
  (forall p, Contains holder p = true -> conn_id p = false) ->
  net_inv conn_id (net_init (co_connMonitor c))
  /\ configured (Sharding (anm_P2pConfig args)) (lcms_sharder (co_connMonitor c)).
Proof.
  intros Hn Hcfg Hh Hids.
  destruct (messenger_wired _ _ _ _ _ _ _ _ _ _ _ _ _ _ Hn) as [Hw _].
  destruct Hw as ((sh & Hsh & Hco) & _ & _ & Hm & Hph & _).
  assert (Hl : sh_limits_wf (co_sharder c) /\ configured (Sharding (anm_P2pConfig args)) (co_sharder c)).
  { eapply NewSharder_configured in Hsh as Hs; [|exact Hcfg]. rewrite Hco.
    destruct (Enabled _); [by apply configured_SetSeeders|exact Hs]. }
  rewrite Hm. destruct Hl as [Hl1 Hl2]. split; [|done]. split; simpl.
  - by rewrite Hm.
  - rewrite Hh in Hph. injection Hph as ->. exact Hids.
  - by intros c0 ?%elem_of_nil.
Qed.

(** C2: a messenger keeps the number of its connections bounded, however connections are
    opened, dialed and closed, handlers interleave and peers become preferred. From
    its construction on, or from the first opened connection after the shard resolver
    was replaced, whenever no handler of an opened connection and no closing waits, the peers
    that the sharder counts are at most the configured target, and the seeders among them at
    most their maximum. *)
Theorem connections_bounded attempts (su : surroundings (PS := PS)) (args : ArgsNetworkMessenger SK) signing node
    (c : components (T := T) (C := C) (PS := PS) (P := P) (Q := Q) (E := E)) effects holder s1 l s peers :
  newNetworkMessenger NewWatcherCache NewTimeCache NewCache Pretty Sum256 other_directive ConvertPeerID
    attempts su args signing = Some (Ok (node, c), effects) ->
  sharding_config_wf (Sharding (anm_P2pConfig args)) ->
  anm_PreferredPeersHolder args = Some holder ->
  (forall p, Contains holder p = true -> conn_id p = false) ->
  s1 = net_init (co_connMonitor c)
  \/ (exists l0 s0 c0 peers0, run (net_init (co_connMonitor c)) l0 = Some s0
       /\ lcms_IsDenied (ns_monitor s0) (nc_RemotePeer c0) = false
       /\ step s0 (LConnected c0 peers0) = Some s1) ->
  run s1 l = Some s -> forallb keeps_sharder l = true ->
  quiet s -> is_Peers (ns_conns s) peers ->
  let cfg := Sharding (anm_P2pConfig args) in
  match sharder_now (ns_monitor s) with
  | SLists ls =>
      len (filter (fun p => counted Pretty ls p = true) peers) <= TargetPeerCount cfg
      /\ len (filter (fun p => ls_IsSeeder Pretty ls p = true) peers) <= MaxSeeders cfg
  | SOneList _ => len peers <= TargetPeerCount cfg
  | SNil => True
  end.
Proof.
  intros Hn Hcfg Hh Hids Hs1 Hrun Hok Hq Hpeers cfg.
  destruct (messenger_monitor _ _ _ _ _ _ _ _ Hn Hcfg Hh Hids) as [Hinit Hconf].
  assert (Hinv1 : net_inv conn_id s1 /\ configured cfg (lcms_sharder (ns_monitor s1)) /\ settled Pretty s1).
  { destruct Hs1 as [->|(l0 & s0 & c0 & peers0 & Hr0 & Hd & Hst)].
    - split_and!; [done..|]. apply settled_init, Hinit.
    - assert (Hinv0 : net_inv conn_id s0) by by eapply run_inv.
      split_and!; [by eapply step_inv| |by eapply Connected_settles].
      eapply step_configured; [exact Hinv0| |exact Hst]. exact (run_configured cfg _ _ _ Hinit Hconf Hr0). }
  destruct Hinv1 as (Hinv1 & Hconf1 & Hset1).
  assert (Hset : settled Pretty s).
  { eapply (run_ind Pretty sort_Sort AllShardId conn_id (settled Pretty) keeps_sharder s1 l s); [|done..].
    intros; by eapply step_settled. }
  pose proof (proj2 (configured_sharing cfg (lcms_sharder (ns_monitor s)) (lcms_preferredPeersHolder (ns_monitor s)))
    (run_configured _ _ _ _ Hinv1 Hconf1 Hrun)) as Hconf2.
  pose proof (fun limit => settled_within Pretty sort_Sort s limit peers Hset Hq Hpeers) as Hb.
  fold (sharder_now (ns_monitor s)) in Hconf2.
  destruct (sharder_now (ns_monitor s)) as [ls|ols|]; [destruct Hconf2 as [<- <-]; split| |done].
  - apply (Hb (counted Pretty ls, maxPeerCount ls)). by left.
  - apply (Hb (ls_IsSeeder Pretty ls, maxSeeders ls)). by right; left.
  - cbn in Hconf2. rewrite <- Hconf2. apply within_all, (Hb (fun _ => true, ols_maxPeerCount ols)). by left.
Qed.
End messenger.

(** ** Examples *)

Definition demo_net_conn (id : string) (p : PeerID) : NetConn :=
  {| nc_ID := id; nc_RemotePeer := p; nc_RemoteMultiaddr := "/ip4/10.0.0.2/tcp/1" |}.

Definition demo_conn_id (id : string) : bool := String.prefix "c-" id.

Lemma demo_full_ids p : Contains demo_full p = true -> demo_conn_id p = false.
Proof.
  assert (Hall : map_Forall (fun p _ => demo_conn_id p = false) (peerIDs demo_full))
    by (apply (bool_decide_unpack _); by vm_compute).
  unfold Contains. intros [d Hd]%bool_decide_eq_true. exact (Hall p d Hd).
Qed.

(** Three seeders connect where two are allowed: the names are parts of the
    address of the seeders of the messenger. *)
Definition demo_labels : list (net_label disabledPeerDenialEvaluator) :=
  let c1 := demo_net_conn "c-1" "o" in
  let c2 := demo_net_conn "c-2" "ot" in
  let c3 := demo_net_conn "c-3" "oth" in
  let known p := LTask (DoNewKnownConnection p "/ip4/10.0.0.2/tcp/1") in
  [LOpen c1; LConnected c1 ["o"]; LOpen c2; LOpen c3; LConnected c2 ["o"; "ot"; "oth"]; LTask (DoClosePeer "ot");
   LDisconnected c2 ["oth"; "o"]; LConnected c3 ["o"; "oth"]; known "o"; known "ot"; known "oth";
   LCheck ["o"; "oth"]; LTask DoReconn].

(** The run of the labels on a messenger that was made *)
Definition demo_net_of {N R X} (made : option (result (N * components (T := unit) (C := unit) (PS := unit)
    (P := string) (Q := unit) (E := disabledPeerDenialEvaluator)) * X)) (run : net_state disabledPeerDenialEvaluator -> option R)
    : option R :=
  match made with
  | Some (Ok (_, c), _) => run (net_init (co_connMonitor c))
  | _ => None
  end.

Abbreviation demo_net_run := (demo_net_of (demo_messenger "/ip4/10.0.0.1/p2p/other")
  (fun s => net_run id (merge_sort dist_le) 99 demo_conn_id s demo_labels)).

Lemma demo_net_summary :
  (fun s => (ns_conns s, ns_opened s, ns_tasks s)) <$> demo_net_run
  = Some ([demo_net_conn "c-1" "o"; demo_net_conn "c-3" "oth"], [], []).
Proof. vm_compute. reflexivity. Qed.

Lemma demo_net_config : sharding_config_wf (Sharding (anm_P2pConfig (demo_nm_args "/ip4/10.0.0.1/p2p/other"))).
Proof. unfold sharding_config_wf, in_u. simpl. lia. Qed.

Lemma demo_net_peers :
  is_Peers [demo_net_conn "c-1" "o"; demo_net_conn "c-3" "oth"] ["o"; "oth"].
Proof. apply (bool_decide_unpack _). vm_compute. reflexivity. Qed.

Lemma connections_bounded_witness :
  exists s, demo_net_run = Some s
    /\ match sharder_now (ns_monitor s) with
       | SLists ls => len (filter (fun p => ls_IsSeeder id ls p = true) ["o"; "oth"]) <= 2
       | _ => True
       end.
Proof.
  pose proof demo_net_summary as Hsum.
  destruct (demo_messenger "/ip4/10.0.0.1/p2p/other") as [[[[node c]|err] effects]|] eqn:Hd; [|discriminate Hsum..].
  cbn [demo_net_of] in *. destruct (net_run _ _ _ _ _ _) as [s|] eqn:Hrun; [|discriminate Hsum].
  cbn [fmap option_fmap option_map] in Hsum.
  injection Hsum as Hconns Hopened Htasks. exists s. split; [reflexivity|]. unfold demo_messenger in Hd.
  pose proof (connections_bounded (fun _ => ()) (fun _ => ()) (fun _ => Ok ()) id id (fun _ _ => "") demo_hash
    (merge_sort dist_le) 99 demo_conn_id demo_attempts demo_su (demo_nm_args "/ip4/10.0.0.1/p2p/other") true node c
    effects demo_full (net_init (co_connMonitor c)) demo_labels s ["o"; "oth"] Hd
    demo_net_config eq_refl demo_full_ids (or_introl eq_refl) Hrun eq_refl
    (conj Hopened Htasks)) as Hb.
  rewrite Hconns in Hb. specialize (Hb demo_net_peers).
  cbv zeta in Hb. destruct (sharder_now (ns_monitor s)); [apply Hb|exact I|exact I].
Defined.

(** "p9" is denied while it is connected, and again when it comes back. *)
Definition demo_denial_monitor : libp2pConnectionMonitorSimple (gset string) := {|
  thresholdMinConnectedPeers := 0; lcms_sharder := SLists demo_ls;
  lcms_preferredPeersHolder := demo_full; peerDenialEvaluator := inl DisabledPeerDenialEvaluator |}.

Abbreviation demo_denial_run := (net_run id (merge_sort dist_le) 99 demo_conn_id).

Definition demo_denial_before : list (net_label (gset string)) :=
  [LOpen (demo_net_conn "c-1" "p9"); LConnected (demo_net_conn "c-1" "p9") ["p9"];
   LTask (DoNewKnownConnection "p9" "/ip4/10.0.0.2/tcp/1"); LSetPeerDenialEvaluator {["p9"]}].

Definition demo_denial_after : list (net_label (gset string)) :=
  [LTask (DoClosePeer "p9"); LOpen (demo_net_conn "c-2" "p9"); LOpen (demo_net_conn "c-3" "u");
   LConnected (demo_net_conn "c-3" "u") ["p9"; "u"]; LConnected (demo_net_conn "c-2" "p9") ["p9"; "u"];
   LTask (DoNewKnownConnection "u" "/ip4/10.0.0.2/tcp/1"); LTask (DoConnClose "c-2")].

Lemma denied_peers_leave_witness :
  exists s1 s2 s, demo_denial_run (net_init demo_denial_monitor) demo_denial_before = Some s1
    /\ net_step id (merge_sort dist_le) 99 demo_conn_id s1 (LCheck ["p9"]) = Some s2
    /\ demo_denial_run s2 demo_denial_after = Some s
    /\ ns_conns s = [demo_net_conn "c-3" "u"]
    /\ forall c, c ∈ ns_conns s -> lcms_IsDenied (ns_monitor s) (nc_RemotePeer c) = false.
Proof.
  assert (Hsum : (s1 ← demo_denial_run (net_init demo_denial_monitor) demo_denial_before;
    s2 ← net_step id (merge_sort dist_le) 99 demo_conn_id s1 (LCheck ["p9"]);
    s ← demo_denial_run s2 demo_denial_after; Some (ns_conns s, ns_opened s, ns_tasks s))
    = Some ([demo_net_conn "c-3" "u"], [], [])) by (vm_compute; reflexivity).
  destruct (demo_denial_run (net_init demo_denial_monitor) demo_denial_before) as [s1|] eqn:H1; [|discriminate Hsum].
  cbn [mbind option_bind] in Hsum.
  destruct (net_step id (merge_sort dist_le) 99 demo_conn_id s1 (LCheck ["p9"])) as [s2|] eqn:H2; [|discriminate Hsum].
  cbn [mbind option_bind] in Hsum.
  destruct (demo_denial_run s2 demo_denial_after) as [s|] eqn:H3; [|discriminate Hsum].
  cbn [mbind option_bind] in Hsum. injection Hsum as Hconns Hopened Htasks.
  assert (Hinit : net_inv demo_conn_id (net_init demo_denial_monitor)).
  { split; [exact demo_ls_wf|exact demo_full_ids|]. intros c Hc. by apply elem_of_nil in Hc. }
  destruct (denied_peers_leave id (merge_sort dist_le) 99 demo_conn_id demo_denial_monitor demo_denial_before s1 ["p9"]
    s2 demo_denial_after s Hinit H1 H2 H3 eq_refl) as [_ Hq].
  exists s1, s2, s. split_and!; [reflexivity|exact H2|exact H3|exact Hconns|]. apply Hq. split; assumption.
Defined.

Lemma handlers_come_to_rest_witness :
  Acc (internal_step (E := gset string) id (merge_sort dist_le) 99 demo_conn_id)
    (open_conn (net_init demo_denial_monitor) (demo_net_conn "c-1" "p9")).
Proof.
  destruct (handlers_come_to_rest (E := gset string) id (merge_sort dist_le) 99 demo_conn_id) as [Hwf _].
  apply Hwf.
Defined.

(** The only connection of a node with the threshold three is closed. *)
Definition demo_lost : option (net_state disabledPeerDenialEvaluator) :=
  net_run id (merge_sort dist_le) 99 demo_conn_id (net_init demo_lcms)
    [LOpen (demo_net_conn "c-1" "u"); LConnected (demo_net_conn "c-1" "u") ["u"];
     LRemoteClose (demo_net_conn "c-1" "u")].

Lemma one_Peers c p : nc_RemotePeer c = p -> is_Peers [c] [p].
Proof.
  intros <-. split_and!; [apply NoDup_singleton|apply Forall_singleton, list_elem_of_here..].
Qed.

Lemma demo_lcms_init : net_inv demo_conn_id (net_init demo_lcms).
Proof. split; [exact demo_ls_wf|exact demo_full_ids|]. intros c Hc. by apply elem_of_nil in Hc. Qed.

Lemma reconnection_asked_witness :
  exists s s1, demo_lost = Some s
    /\ net_step id (merge_sort dist_le) 99 demo_conn_id s (LDisconnected (demo_net_conn "c-1" "u") []) = Some s1
    /\ ns_tasks s1 = ns_tasks s ++ [DoReconn].
Proof.
  assert (Hsum : (s ← demo_lost;
    s1 ← net_step id (merge_sort dist_le) 99 demo_conn_id s (LDisconnected (demo_net_conn "c-1" "u") []);
    s2 ← net_run id (merge_sort dist_le) 99 demo_conn_id s1 [LOpen (demo_net_conn "c-2" "u")];
    Some (nc_RemotePeer <$> ns_conns s2, ns_closed s2, thresholdMinConnectedPeers (ns_monitor s2)))
    = Some (["u"], [], 3)) by (vm_compute; reflexivity).
  destruct demo_lost as [s|] eqn:H0; [|discriminate Hsum]. cbn [mbind option_bind] in Hsum.
  destruct (net_step _ _ _ _ s _) as [s1|] eqn:H1; [|discriminate Hsum]. cbn [mbind option_bind] in Hsum.
  destruct (net_run _ _ _ _ s1 _) as [s2|] eqn:H2; [|discriminate Hsum]. cbn [mbind option_bind] in Hsum.
  injection Hsum as Hpeers Hclosed Hthr. exists s, s1. split; [reflexivity|]. split; [exact H1|].
  unfold demo_lost in H0.
  apply (reconnection_asked id (merge_sort dist_le) 99 demo_conn_id s (demo_net_conn "c-1" "u") [] s1
    [LOpen (demo_net_conn "c-2" "u")] s2 ["u"]).
  - exact (run_inv _ _ _ _ _ _ _ demo_lcms_init H0).
  - exact H1.
  - exact H2.
  - reflexivity.
  - exact Hclosed.
  - destruct (ns_conns s2) as [|c [|c' conns]]; [discriminate Hpeers| |discriminate Hpeers].
    injection Hpeers as Hc. exact (one_Peers c "u" Hc).
  - rewrite Hthr. reflexivity.
Defined.
