(* ===== verification/Delivery.v ===== *)
(** * Direct messages from node to node

    The messages handler and the direct sender of a messenger at work together, and
    what another messenger makes of what they send: from [SendToConnectedPeer] on
    one node, over the stream of a connection, to the processors of the other. *)

From S2P Require Import Prelude Errors Config Sharding Cache PeersHolder Messages DirectSender Topics MessagesHandler ConnectionMonitor ConnectionsHandler Discovery Ports Metrics Crypto NetMessenger Protobuf WireMessages.
From stdpp Require Import list gmap.
Open Scope Z_scope.

(** ** Direct messages *)

Section direct.
Context {Rand LPriv LPub SK PK : Type} `{Libp2pKeys Rand LPriv LPub} `{CommonKeys SK PK}.
Context {W T C PS P Q E KK B D : Type} `{TimeCache T} `{Cacher cached C} `{!KeyLaws Rand LPriv LPub SK PK}.
Context `{PubSub PS} `{ChannelLoadBalancer B} `{PeerDenialEvaluator D}.
Context (NewWatcherCache : Z -> W) (NewTimeCache : Z -> T) (NewCache : Z -> result C).
Context (Pretty : PeerID -> string) (Sum256 : bytes -> bytes).
Context (other_directive : string -> option Z -> string).
Context (ConvertPeerID : PeerID -> vec byte 32).
Context (pb_Marshal : pbMessage -> result bytes) (SignPrefix : string).
(** The host of the sender: its connections, streams and writes *)
Context (ConnsToPeer : PeerID -> list Conn) (NewStream : PeerID -> string -> result Stream).
Context (WriteMsg : Stream -> pbMessage -> option error) (Flush : Stream -> option error).
Context (Process : P -> Message -> PeerID -> option error).
Context (order : gmap string P -> list (string * P)) (TopicRequestSuffix : string).
Implicit Types (ds dr : directSender T C) (hs hr : messagesHandler P PS B D).

Abbreviation send := (ds_Send pb_Marshal SignPrefix ConnsToPeer NewStream WriteMsg Flush).
Abbreviation create := (createMessage pb_Marshal SignPrefix).
Abbreviation receive := (processReceivedDirectMessage IDFromBytes pb_Marshal SignPrefix).

(** [SendToConnectedPeer] with the direct sender of the node *)
Definition node_SendToConnectedPeer (m : Marshaller) (now : Z) ds hs (topic : string) (buff : bytes) (peer : PeerID)
    : option error * list (mh_effect KK P) * option direct_job :=
  SendToConnectedPeer IDFromBytes m order (fun topic buff peer => (send ds topic buff peer).1.1)
    (ds_NextSequenceNumber ds).1 now hs topic buff peer.

(** What the messages handler gives to the direct sender: its own
    [ProcessReceivedMessage], called with the direct sender as the source *)
Definition direct_handler (now : Z) hr : MessageHandler := fun msg from =>
  (ProcessReceivedMessage (K := KK) order now hr (Some msg) from true).1.1.

Definition with_handler (now : Z) dr hr : directSender T C := set_handler dr (Some (direct_handler now hr)).

(** A successful [Send] writes a message that was made on a connection to the peer. *)
Lemma Send_writes ds topic buff peer :
  (send ds topic buff peer).1.1 = None ->
  exists ds1 conn st msg,
    conn ∈ ConnsToPeer peer /\ ds_signer ds1 = ds_signer ds
    /\ (create ds1 topic buff conn).1 = Ok msg
    /\ DoWriteMsg (st_id st) msg ∈ (send ds topic buff peer).2.
Proof.
  unfold ds_Send. destruct (_ >=? _); [done|].
  destruct (mh_Get (mutexForPeer ds) peer) as [mut ms]. cbv zeta. unfold Send_locked.
  destruct (getConnection _ peer) as [conn|e] eqn:Hc; [|done].
  destruct (getConnection_Ok SignPrefix ConnsToPeer NewStream _ _ Hc) as [Hin _].
  destruct (getOrCreateStream _ conn) as [[st|e] opened]; [|done].
  destruct (create (set_mutexes ds ms) topic buff conn) as [[msg|e] ds1] eqn:Hcr; [|done].
  destruct (WriteMsg st msg) eqn:Hw; [done|]. destruct (Flush st) eqn:Hf; [done|]. intros _.
  exists (set_mutexes ds ms), conn, st, msg. rewrite Hcr. split_and!; [done|done|done|].
  cbn [snd]. set_solver.
Qed.

(** What [SendToConnectedPeer] has sent, when it succeeds for another peer *)
Lemma SendToConnectedPeer_other m now ds hs topic buff peer effs job b :
  node_SendToConnectedPeer m now ds hs topic buff peer = (None, effs, job) ->
  peer <> mh_peerID hs -> DoSend topic b peer ∈ effs ->
  checkSendableData buff = None /\ b = createMessageBytes m now buff /\ b <> [] /\ (send ds topic b peer).1.1 = None.
Proof.
  unfold node_SendToConnectedPeer, SendToConnectedPeer. intros Hs Hne Hin.
  destruct (checkSendableData buff) eqn:Hck; [done|].
  destruct (len (createMessageBytes m now buff) =? 0) eqn:Hl; [injection Hs as <- _; by apply elem_of_nil in Hin|].
  rewrite decide_False in Hs by done. injection Hs as Herr <- _. bdestruct_all.
  apply elem_of_cons in Hin as [[= ->]|Hin]; [|by apply list_elem_of_singleton in Hin].
  split_and!; [done|done| |done]. intros Hnil. by rewrite Hnil in Hl.
Qed.

(** C1: a direct message arrives. Two messengers with the same marshaller: when
    [SendToConnectedPeer] of the first sends [buff] to the second without an error,
    a message was written to a stream of a connection between them, and the
    second, reading it with its clock at most 600 seconds ahead and 20 seconds
    behind, and not having seen it, answers without error and starts a goroutine that
    hands [buff] once to every processor of the topic, as a direct message from
    the first, and raises the rating of the first exactly when all the processors
    accept it and the topic is not one for requests. *)
Theorem direct_message_delivered attempts1 (su1 : surroundings (PS := PS)) (args1 : ArgsNetworkMessenger SK) signing1 node1
    (c1 : components (T := T) (C := C) (PS := PS) (P := P) (Q := Q) (E := E)) effects1
    attempts2 (su2 : surroundings (PS := PS)) (args2 : ArgsNetworkMessenger SK) signing2 node2
    (c2 : components (T := T) (C := C) (PS := PS) (P := P) (Q := Q) (E := E)) effects2
    m ds hs now topic buff effs job b dr hr later l :
  newNetworkMessenger NewWatcherCache NewTimeCache NewCache Pretty Sum256 other_directive ConvertPeerID
    attempts1 su1 args1 signing1 = Some (Ok (node1, c1), effects1) ->
  newNetworkMessenger NewWatcherCache NewTimeCache NewCache Pretty Sum256 other_directive ConvertPeerID
    attempts2 su2 args2 signing2 = Some (Ok (node2, c2), effects2) ->
  host_of_identity attempts1 ->
  anm_Marshaller args2 = Some m ->
  TopicMarshallerLaws m ->
  (* the sender *)
  ds_signer ds = ds_signer (co_directSender c1) -> mh_peerID hs = nm_ID node1 -> nm_ID node2 <> nm_ID node1 ->
  (forall conn, conn ∈ ConnsToPeer (nm_ID node2) -> LocalPeer conn = nm_ID node1) ->
  node_SendToConnectedPeer m now ds hs topic buff (nm_ID node2) = (None, effs, job) ->
  DoSend topic b (nm_ID node2) ∈ effs ->
  (* the receiver *)
  ds_signer dr = ds_signer (co_directSender c2) -> ds_marshaller dr = ds_marshaller (co_directSender c2) ->
  sane_time later -> unix later - 600 <= unix now <= unix later + 20 -> procs_of hr topic = Some l ->
  exists st pb, DoWriteMsg st pb ∈ (send ds topic b (nm_ID node2)).2
  /\ (tc_Has (seenMessages dr) (msgId pb) = false ->
      let procs := order (tp_processors (at_loc hr l)) in
      exists msg (rate : bool),
        receive later (with_handler later dr hr) (Some pb) (nm_ID node1)
          = (None, set_seen (with_handler later dr hr) (tc_Add later (seenMessages dr) (msgId pb)),
             [DoHandle msg (nm_ID node1)])
        /\ (ProcessReceivedMessage (K := KK) order later hr (Some msg) (nm_ID node1) true).2
           = Some (procs, msg, nm_ID node1)
        /\ run_direct_job (K := KK) Process TopicRequestSuffix hr (procs, msg, nm_ID node1)
           = ((fun e => DoProcess e.2 e.1 msg (nm_ID node1)) <$> procs)
             ++ [DoAddMessage (debugger hr) true topic (len buff)
                   (negb (forallb (fun e => bool_decide (Process e.2 msg (nm_ID node1) = None)) procs))]
             ++ (if rate then [DoIncreaseRating (nm_ID node1)] else [])
        /\ (rate = true <-> (forall e, e ∈ procs -> Process e.2 msg (nm_ID node1) = None)
                            /\ ~ exists a b, topic = a +:+ TopicRequestSuffix +:+ b)
        /\ DataField msg = Some buff /\ TopicField msg = topic /\ PeerField msg = nm_ID node1
        /\ TimestampField msg = unix now).
Proof.
  intros Hn1 Hn2 Hid Hm Hrt Hs1 Hself Hne Hconns Hsend Hin Hs2 Hm2 Hlater Hwin Hl.
  destruct (SendToConnectedPeer_other _ _ _ _ _ _ _ _ _ _ Hsend ltac:(congruence) Hin) as (Hck & Hb & Hbne & Hok).
  destruct (Send_writes _ _ _ _ Hok) as (ds1 & conn & st & pb & Hconn & Hsg & Hcr & Hw).
  exists (st_id st), pb. split; [exact Hw|]. intros Hseen procs.
  destruct (messenger_wired _ _ _ _ _ _ _ _ _ _ _ _ _ _ Hn2) as [Hw2 _].
  assert (Hmm : ds_marshaller dr = m).
  { assert (Hsome : Some (ds_marshaller (co_directSender c2)) = Some m) by (rewrite <- Hm; apply Hw2).
    rewrite Hm2. by injection Hsome. }
  assert (Hu := createMessageBytes_Ok m now buff b Hck (near_in_s _ _ Hlater Hwin) (eq_sym Hb) Hbne). rewrite <- Hmm in Hu.
  destruct (direct_message_accepted _ _ _ _ _ _ _ pb_Marshal SignPrefix _ _ _ _ _ _ _ _ _ _ _ _ _ _
    ds1 (with_handler later dr hr) later topic b conn pb (direct_handler later hr) _
    Hn1 Hid Hn2 ltac:(congruence) Hs2 eq_refl (Hconns conn Hconn) Hcr Hu eq_refl eq_refl eq_refl Hseen)
    as (msg & Hrecv & Ht & Hp & _ & Hd & Hts & Hbm). unfold nm_ID in *. cbn [Payload Timestamp sent_topic] in Hd, Hts.
  destruct (run_direct_job_spec (K := KK) Process TopicRequestSuffix hr procs msg (nm_p2pHost node1)) as (rate & Hjob & Hrate).
  assert (Hprm : ProcessReceivedMessage (K := KK) order later hr (Some msg) (nm_p2pHost node1) true
    = (None, [], Some (procs, msg, nm_p2pHost node1))).
  { unfold ProcessReceivedMessage, checkMessage. cbn [negb]. rewrite (validate_spec later _ Hlater).
    unfold m_Timestamp, m_Topic. rewrite Hts, Ht, !(proj2 (Z.ltb_ge _ _)) by lia. by rewrite Hl. }
  exists msg, rate. split_and!; [| | | |exact Hd|exact Ht|exact Hp|exact Hts].
  - rewrite Hrecv. unfold direct_handler. by rewrite Hprm.
  - by rewrite Hprm.
  - rewrite Hjob, Ht, Hd. done.
  - rewrite Hrate, Hbm, Ht. naive_solver.
Qed.
End direct.

(** ** Examples *)

#[local] Existing Instance demo_Libp2pKeys.
#[local] Existing Instance demo_CommonKeys.
#[local] Existing Instance demo_KeyLaws.
#[local] Existing Instance demo_TimeCache.
#[local] Existing Instance demo_mutex_cache.

Definition demo_delivery_args (key : bytes) : ArgsNetworkMessenger bytes :=
  let args := demo_keyed key in {|
  anm_Marshaller := Some generated_marshaller; anm_P2pConfig := anm_P2pConfig args; anm_SyncTimer := true;
  anm_PreferredPeersHolder := anm_PreferredPeersHolder args; anm_PeersRatingHandler := true;
  anm_ConnectionWatcherType := ""; anm_P2pPrivateKey := anm_P2pPrivateKey args; anm_P2pSingleSigner := true;
  anm_P2pKeyGenerator := true; anm_NetworkType := "main"; anm_Logger := true |}.

Definition demo_delivery_su : surroundings (PS := gmap string nat) := {|
  su_NewGossipSub := fun _ _ => Ok ∅; su_NewNumGoRoutinesThrottler := fun _ => None;
  su_nowNano := 0; su_directHandler := fun _ _ => None |}.

Definition demo_delivery_node (key : bytes) :=
  newNetworkMessenger (P := string) (Q := unit) (E := disabledPeerDenialEvaluator) (fun _ => ())
    (fun _ => (∅ : gmap string Z)) (fun _ => Ok ([] : demo_cache)) id id (fun _ _ => "") demo_hash demo_hosts
    demo_delivery_su (demo_delivery_args key) true.

Definition demo_delivery_ds (key : bytes) : directSender (gmap string Z) demo_cache :=
  let ds := demo_keyed_ds key in {|
  counter := counter ds; messageHandler := None; seenMessages := ∅; mutexForPeer := mutexForPeer ds;
  ds_signer := ds_signer ds; ds_marshaller := generated_marshaller |}.

Definition is_made {A X} (r : option (result A * X)) : bool :=
  match r with Some (Ok _, _) => true | _ => false end.

Lemma demo_delivery_parts key n c e :
  demo_delivery_node key = Some (Ok (n, c), e) ->
  ds_signer (demo_delivery_ds key) = ds_signer (co_directSender c)
  /\ ds_marshaller (demo_delivery_ds key) = ds_marshaller (co_directSender c)
  /\ nm_ID n = of_bytes key.
Proof.
  intros Hn. unfold demo_delivery_node in Hn.
  destruct (messenger_wired _ _ _ _ _ _ _ _ _ _ _ _ _ _ Hn) as (Hw & Hk & _ & i & a & port & [cw options] & -> & _ & _ & Ho & Hnew & _).
  destruct Hw as (_ & _ & _ & _ & _ & _ & Hs & Hm & _ & _).
  apply hostOptions_identity in Ho. split_and!.
  - rewrite Hs. destruct (nm_p2pSigner n) as [sk]. cbn in Hk. by injection Hk as ->.
  - cbn in Hm. by injection Hm.
  - cbn in Ho, Hnew. destruct (len key =? 32); [|done]. injection Ho as Ho. injection Hnew as <-. by rewrite <- Ho.
Qed.

Lemma demo_delivery_made key :
  key = demo_key1 \/ key = demo_key2 -> is_made (demo_delivery_node key) = true.
Proof. intros [->| ->]; vm_compute; reflexivity. Qed.

(** The messages handler of the first node *)
Definition demo_delivery_hs : demo_handler_state := {| processors := ∅; heap := ∅; nextLoc := 0; topics := ∅;
  subscriptions := ∅; pubSub := ∅; outgoingCLB := outgoingCLB demo_h; denial := ∅; debugger := 0;
  mh_peerID := of_bytes demo_key1 |}.

(** The topic message on the wire: version 1, the payload, 7 seconds *)
Definition demo_wire : bytes := [Byte.x08; Byte.x01; Byte.x12; Byte.x02] ++ to_bytes "hi" ++ [Byte.x18; Byte.x07].

Abbreviation demo_delivery_send :=
  (ds_Send demo_pb_Marshal demo_prefix (fun _ => [demo_conn1]) (fun _ _ => Err (EExternal "no stream"))
    (fun _ _ => None) (fun _ => None) (demo_delivery_ds demo_key1) "transactions" demo_wire (of_bytes demo_key2)).

Lemma direct_message_delivered_witness :
  exists st pb msg, DoWriteMsg st pb ∈ demo_delivery_send.2
    /\ (ProcessReceivedMessage (K := Z) map_to_list (20 * time_Second) demo_h (Some msg) (of_bytes demo_key1) true).2
       = Some ([("id1", "proc")], msg, of_bytes demo_key1)
    /\ run_direct_job (K := Z) demo_Process "_REQUEST" demo_h ([("id1", "proc")], msg, of_bytes demo_key1)
       = [DoProcess "proc" "id1" msg (of_bytes demo_key1); DoAddMessage 0 true "transactions" 2 false;
          DoIncreaseRating (of_bytes demo_key1)]
    /\ DataField msg = Some (to_bytes "hi").
Proof.
  pose proof (demo_delivery_made demo_key1 (or_introl eq_refl)) as M1. pose proof (demo_delivery_made demo_key2 (or_intror eq_refl)) as M2.
  destruct (demo_delivery_node demo_key1) as [[[[n1 c1]|err] e1]|] eqn:H1; [|discriminate M1..].
  destruct (demo_delivery_node demo_key2) as [[[[n2 c2]|err] e2]|] eqn:H2; [|discriminate M2..].
  destruct (demo_delivery_parts _ _ _ _ H1) as (Hs1 & _ & Hid1), (demo_delivery_parts _ _ _ _ H2) as (Hs2 & Hm2 & Hid2).
  assert (Hhost : host_of_identity demo_hosts) by (intros i options h [= <-]; reflexivity).
  unfold demo_delivery_node in H1, H2.
  set (effs := [DoSend "transactions" demo_wire (of_bytes demo_key2);
    DoAddMessage (K := Z) (P := string) 0 false "transactions" 8 false]).
  destruct (direct_message_delivered (KK := Z) (fun _ => ()) (fun _ => ∅) (fun _ => Ok []) id id (fun _ _ => "") demo_hash
    demo_pb_Marshal demo_prefix (fun _ => [demo_conn1]) (fun _ _ => Err (EExternal "no stream"))
    (fun _ _ => None) (fun _ => None) demo_Process map_to_list "_REQUEST"
    demo_hosts demo_delivery_su (demo_delivery_args demo_key1) true n1 c1 e1
    demo_hosts demo_delivery_su (demo_delivery_args demo_key2) true n2 c2 e2
    generated_marshaller (demo_delivery_ds demo_key1) demo_delivery_hs (7 * time_Second) "transactions" (to_bytes "hi")
    effs None demo_wire (demo_delivery_ds demo_key2) demo_h (20 * time_Second) 0
    H1 H2 Hhost eq_refl _ Hs1) as (st & pb & Hw & Hrest).
  - rewrite Hid1. reflexivity.
  - rewrite Hid1, Hid2. vm_compute. discriminate.
  - intros conn Hc. apply list_elem_of_singleton in Hc as ->. rewrite Hid1. reflexivity.
  - rewrite Hid2. vm_compute. reflexivity.
  - rewrite Hid2. apply elem_of_cons. left. reflexivity.
  - exact Hs2.
  - exact Hm2.
  - vm_compute. split; [discriminate|reflexivity].
  - vm_compute. split; discriminate.
  - vm_compute. reflexivity.
  - destruct (Hrest eq_refl) as (msg & rate & _ & Hp & Hrun & Hrate & Hd & _).
    rewrite Hid2 in Hw. rewrite Hid1 in Hp, Hrun, Hrate. exists st, pb, msg. split; [exact Hw|].
    assert (Hprocs : map_to_list (tp_processors (at_loc demo_h 0)) = [("id1", "proc")]) by (vm_compute; reflexivity).
    rewrite Hprocs in Hp, Hrun, Hrate. assert (Hrt : rate = true).
    { apply Hrate. split; [intros e He; apply list_elem_of_singleton in He as ->; reflexivity|].
      intros Hex. apply str_contains_spec in Hex. vm_compute in Hex. discriminate Hex. }
    split; [exact Hp|]. split; [|exact Hd]. rewrite Hrun, Hrt. reflexivity.
Defined.
